(* ===== verification/_CoqProject ===== *)
-Q . S2P
Prelude.v
Endian.v
Buffer.v
StringPiece.v
Printf.v
Double.v
Date.v
Ctime.v
TimeZone.v
Timestamp.v
LogStream.v
TimerQueue.v
Channel.v
Poller.v
EventLoop.v
LoopLife.v
EventLoopThread.v
Zjson.v
ZjsonSpec.v
ZjsonPrint.v
ZjsonHeap.v
TcpConnection.v
ConnLife.v
InetAddress.v
Connector.v
Acceptor.v
TcpServer.v
TcpClient.v
BlockingQueue.v
ThreadPool.v
AsyncLogging.v
FileUtil.v
LogFile.v
Logging.v
CachePool.v
PoolResize.v
Mutex.v
Thread.v
ProcessInfo.v
ThreadLocal.v
