(* ===== verification/Prelude.v ===== *)
(** * fishnet: a verification development

    fishnet is a C++ network library in the reactor style. A loop per thread
    ([EventLoop]) waits in a multiplexer ([Poller]) for events on descriptors, each
    represented by a [Channel]; it runs the callbacks of the channels, the timers of its
    [TimerQueue] and the functors other threads have queued. An [Acceptor] or a
    [Connector] makes sockets, a [TcpServer] or [TcpClient] turns them into
    [TcpConnection]s with two [Buffer]s each, and a pool of loop threads shares them out.
    Below it lie a base library (dates, time zones, time stamps, log formatting and
    logging, queues, latches, thread pools, files) and, beside it, a JSON library and
    header-only utilities.

    ** How the code is represented

    Definitions are executable and follow the source function by function. A call that
    can fail to return gives a [res] (below): a failed [assert], [LOG_SYSFATAL] or
    [abort], an access outside an object, a signed overflow, a thrown exception. Machine
    integers are [Z] with the wrap-around written out ([u64], [s32], ...); bytes are
    [ascii], buffers and strings [list ascii]; maps and sets are [gmap]/[gset] or ordered
    lists where the order is observable. Code that several threads run is a step relation
    whose steps are the critical sections, or the single accesses where the code takes no
    lock, so that a theorem quantified over reachable states covers every schedule,
    spurious wake-ups included. System calls and user callbacks are parameters.

    ** Files (a name without suffix stands for the header and the source file)

    - [Prelude] (this file): outcomes, machine integers, byte lists, checked memory.
    - [Endian] (net/endian.h): byte order, for a host of either kind (class [Host]).
    - [Buffer] (net/buffer.h, buffer.cc): every operation, with its [size_t] arithmetic
      and copies; refinement of a queue of bytes; integers; [readFd].
    - [StringPiece] (base/string_piece.h): comparisons against the lexicographic order.
    - [Printf], [Double], [Ctime]: what the source uses of the C library: decimal
      conversions, binary64 conversions and printing, [gmtime_r] and [timegm].
    - [Date], [TimeZone], [Timestamp] (base/date, time_zone, timestamp): the calendar,
      the TZif reader, local time, printed forms.
    - [LogStream] (base/log_stream): the fixed buffer, number formatting, the stream.
    - [Logging] (base/logging, current_thread, cacheTid of thread.cc): a LOG_ statement.
    - [AsyncLogging], [FileUtil], [LogFile] (base/async_logging, file_util, log_file):
      the double-buffered writer, the appended file, the rolled files.
    - [TimerQueue] (net/timer, timer_id, timer_queue): the timers in a heap (class
      [Allocator]), so that a freed or reused timer is visible, with callbacks that add and
      cancel timers.
    - [Channel], [Poller] (net/channel, poller, poller/): event dispatch; the poll and
      epoll implementations, both instances of the class [PollerImpl] the loop relies on.
    - [EventLoop], [EventLoopThread] (net/event_loop, event_loop_thread,
      event_loop_thread_pool): the loop with the threads that queue functors; the thread
      that owns a loop; the pool of loops.
    - [LoopLife] (event_loop.cc, channel.cc, timer_queue.cc): constructors and destructors
      of the loops of all threads, over either poller (class [Registry]).
    - [TcpConnection], [ConnLife] (net/tcp_connection): the connection and what any of its
      operations can change, which is what its owners rely on.
    - [InetAddress] (net/inet_address, sockets_ops.cc, socket.cc): the address union
      (class [Inet6] for the IPv6 text conversions of the C library).
    - [Connector], [Acceptor], [TcpServer], [TcpClient] (the files of net/ with these names):
      connection attempts, the listening socket with its spare descriptor, and the owners
      of the connections, composed with [TcpConnection] and the loops.
    - [BlockingQueue] (base/blocking_queue.h, bounded_blocking_queue.h, countdown_latch,
      condition, hlib/zfish.hpp, hlib/memory_blocking_queue.hpp): monitors; the queues as
      instances of the class [QueueImpl].
    - [Mutex] (base/mutex.h, condition): the record of the mutex's holder, accessed in
      steps of its own; the deadline of a timed wait.
    - [Thread] (base/thread, atomic.h): a thread and its owner, over the latch of
      [BlockingQueue] and the thread-local data of [Logging].
    - [ProcessInfo] (base/process_info): what is read off the texts of /proc.
    - [ThreadPool] (base/thread_pool) and [CachePool] (utils/thread_pool.h,
      hlib/thread_pool.h, hlib/wzq_thread_pool.h, hlib/zfish.hpp): the pools, the latter as
      instances of the class [Variant]. [PoolResize]: changing the size of
      hlib/wzq_thread_pool.h's pool.
    - [ThreadLocal] (base/singleton.h, thread_local.h, thread_local_singleton.h): the
      object of the process and the object of each thread.
    - [Zjson], [ZjsonSpec], [ZjsonPrint] (utils/zjson/zjson.hpp): the JSON values, parser and
      printer; a declarative grammar; the printer against the grammar. [ZjsonHeap]: the
      same file's tagged union, its heap, and who owns what in it.

    ** What the theorems show

    - Refinement and equivalence: a buffer is a queue of bytes, a log stream a bounded
      text, the two pollers one interface, [compare] the lexicographic order, the decimal
      conversions the mathematical ones, the JSON parser its grammar, copies, moves and
      assignments of JSON values in memory those of the values.
    - Ownership: JSON values free what they allocate, once; so do timers, thread-local
      objects and the descriptors and channels of event loops.
    - Safety under every interleaving: connections, servers, clients, connectors, timers,
      loops and loop threads fail no assertion, use no destroyed object and lose no
      wake-up, under the discipline of calls the headers state.
    - Queues, pools and the logging threads deliver each element once and in order, stay
      within their bounds, and stop.
    - Round trips: dates, local time, IPv6 text, integers through the buffer, JSON.
    - Where the code does not do what it means to, a theorem describes what it does:
      [appendInt64], the teardown of a connection by its user, the text of an IPv4
      address, the unlocked shutdown of the thread pools, the assignment of a part of a
      JSON value to the whole, and others among the theorems of each file.

    ** Bounds and fuel

    Fuel is only used where a loop is not structural, and each function is given enough
    of it: decimal digits take the binary logarithm of the number, or 64 for a 64-bit
    one; the bisection of a range takes its length; the JSON parser and printer take the
    length of the text, and are proved to end within it; the loops that append to and read
    a file take the bytes left and are proved to end within them; freeing and copying a
    JSON value in memory take a bound on its depth, which the semantics by values checks. The event loop's and the
    writers' endless loops are step relations, with measures where they end.

    ** Not modelled

    - hlib/json.hpp and hlib/httplib.hpp are third-party libraries.
    - The wrappers of zlib and of backtrace (gzip_file.h, exception) contain little but
      system calls.
    - hlib/timer_queue.h and hlib/concurrency_map.h are unfinished: the loop of the one has
      no code for a timer that is due, and the other does not compile.
    - Object lifetime by [shared_ptr] is represented where the code depends on it (the tie
      of a channel, the connection tables, the destroyed client), not in general.
    - Memory models weaker than sequential consistency. *)

From Stdlib Require Export ZArith Lia Ascii.
From stdpp Require Export base tactics list numbers strings sorting gmap.

#[global] Set Default Proof Using "Type".
Local Open Scope Z_scope.

(** ** Outcomes *)

(** The ways a call of the C++ code can fail to return: a failed [assert]
    (debug build, the default of CMakeLists.txt), a [LOG_FATAL]/[LOG_SYSFATAL]
    or [abort], an access outside an object, a [std::length_error], a signed
    overflow, or an exception thrown to the caller. *)
Inductive failure : Set :=
| AssertFailed
| Fatal
| OutOfBounds
| LengthError
| SignedOverflow
| Thrown.

#[global] Instance failure_eq_dec : EqDecision failure.
Proof. solve_decision. Defined.

Inductive res (A : Type) : Type :=
| Ok (a : A)
| Err (e : failure).
Arguments Ok {A} _.
Arguments Err {A} _.

#[global] Instance res_ret : MRet res := λ A a, Ok a.
#[global] Instance res_bind : MBind res :=
  λ A B k m, match m with Ok a => k a | Err e => Err e end.
#[global] Instance res_fmap : FMap res :=
  λ A B f m, match m with Ok a => Ok (f a) | Err e => Err e end.

(** [assert(b)] in a debug build. *)
Definition assertb (b : bool) : res unit := if b then Ok () else Err AssertFailed.

(** A check of the machine (bounds, length, overflow) that fails with [e]. *)
Definition guard_or (e : failure) (b : bool) : res unit := if b then Ok () else Err e.

Definition is_ok {A} (m : res A) : bool := match m with Ok _ => true | Err _ => false end.

Lemma bind_ok_inv {A B} (m : res A) (k : A → res B) b :
  m ≫= k = Ok b → ∃ a, m = Ok a ∧ k a = Ok b.
Proof. destruct m; simpl; [eauto | discriminate]. Qed.

Lemma assertb_true b : b = true → assertb b = Ok ().
Proof. by intros ->. Qed.

Lemma guard_or_true e b : b = true → guard_or e b = Ok ().
Proof. by intros ->. Qed.

(** Discharges the [assert]s and bounds checks at the head of a computation
    whose conditions follow from the context by [lia]. *)
Ltac bsolve :=
  repeat match goal with
  | |- (_ && _)%bool = true => apply andb_true_intro; split
  | |- negb _ = true => apply negb_true_iff
  | |- bool_decide _ = true => apply bool_decide_eq_true_2
  | |- bool_decide _ = false => apply bool_decide_eq_false_2
  | |- (_ <=? _) = true => apply Z.leb_le
  | |- (_ <? _) = true => apply Z.ltb_lt
  | |- (_ =? _) = true => apply Z.eqb_eq
  | |- (_ <=? _) = false => apply Z.leb_gt
  | |- (_ <? _) = false => apply Z.ltb_ge
  | |- (_ =? _) = false => apply Z.eqb_neq
  end.

Ltac res_step :=
  first
    [ rewrite assertb_true by (bsolve; first [lia | done | reflexivity]); simpl
    | rewrite guard_or_true by (bsolve; first [lia | done | reflexivity]); simpl ].

Ltac res_inv :=
  repeat match goal with
  | H : _ ≫= _ = Ok _ |- _ => apply bind_ok_inv in H as (? & ? & H)
  | H : Ok _ = Ok _ |- _ => injection H as H
  | H : assertb ?b = Ok _ |- _ => destruct b eqn:?; simpl in H; [clear H | discriminate H]
  | H : guard_or _ ?b = Ok _ |- _ => destruct b eqn:?; simpl in H; [clear H | discriminate H]
  end.

(** [returns E m Q]: the computation [m] either returns a value that satisfies
    [Q] or fails in one of the ways [E] admits. *)
Definition returns {A} (E : failure → Prop) (m : res A) (Q : A → Prop) : Prop :=
  match m with Ok a => Q a | Err e => E e end.

Lemma returns_bind {A B} E (m : res A) (k : A → res B) Q R :
  returns E m Q → (∀ a, Q a → returns E (k a) R) → returns E (m ≫= k) R.
Proof. destruct m; simpl; auto. Qed.

Lemma returns_mono {A} E (m : res A) (Q R : A → Prop) :
  returns E m Q → (∀ a, Q a → R a) → returns E m R.
Proof. destruct m; simpl; auto. Qed.

Lemma returns_ok {A} E (m : res A) Q a : returns E m Q → m = Ok a → Q a.
Proof. by intros H ->. Qed.

Lemma returns_assert E b (Q : unit → Prop) : b = true → Q () → returns E (assertb b) Q.
Proof. by intros ->. Qed.

Lemma returns_true {A} E (m : res A) : (∀ e, m = Err e → E e) → returns E m (λ _, True).
Proof. destruct m; simpl; auto. Qed.

(** ** Machine integers *)

(** Conversion to a [w]-bit unsigned and a [w]-bit signed integer. *)
Definition wrapu (w z : Z) : Z := z mod 2 ^ w.
Definition wraps (w z : Z) : Z := (z + 2 ^ (w - 1)) mod 2 ^ w - 2 ^ (w - 1).

Abbreviation u8 := (wrapu 8).
Abbreviation u16 := (wrapu 16).
Abbreviation u32 := (wrapu 32).
Abbreviation u64 := (wrapu 64).
Abbreviation s8 := (wraps 8).
Abbreviation s16 := (wraps 16).
Abbreviation s32 := (wraps 32).
Abbreviation s64 := (wraps 64).

Lemma wrapu_small w z : 0 <= z < 2 ^ w → wrapu w z = z.
Proof. apply Z.mod_small. Qed.

Lemma wrapu_range w z : 0 <= w → 0 <= wrapu w z < 2 ^ w.
Proof. intros. apply Z.mod_pos_bound. lia. Qed.

Lemma pow2_half w : 0 < w → 2 ^ w = 2 * 2 ^ (w - 1).
Proof. intros. rewrite <-Z.pow_succ_r by lia. f_equal. lia. Qed.

Lemma wraps_small w z : 0 < w → - 2 ^ (w - 1) <= z < 2 ^ (w - 1) → wraps w z = z.
Proof.
  intros Hw Hz. unfold wraps. pose proof (pow2_half w Hw).
  rewrite Z.mod_small; lia.
Qed.

Lemma wraps_range w z : 0 < w → - 2 ^ (w - 1) <= wraps w z < 2 ^ (w - 1).
Proof.
  intros Hw. unfold wraps. pose proof (pow2_half w Hw).
  pose proof (Z.mod_pos_bound (z + 2 ^ (w - 1)) (2 ^ w)). lia.
Qed.

(** Reinterpreting the unsigned value as signed loses nothing. *)
Lemma wraps_wrapu w z : 0 < w → wraps w (wrapu w z) = wraps w z.
Proof. intros. unfold wraps, wrapu. by rewrite Z.add_mod_idemp_l by lia. Qed.

Lemma wrapu_wraps w z : 0 < w → wrapu w (wraps w z) = wrapu w z.
Proof.
  intros. unfold wraps, wrapu. rewrite Zminus_mod_idemp_l. f_equal. lia.
Qed.

Lemma wrapu_idem w z : wrapu w (wrapu w z) = wrapu w z.
Proof. apply Zmod_mod. Qed.

(** Signed 32-bit arithmetic in which an overflow is an error (the standard
    leaves it undefined). Operands are computations, so that an expression of
    the source is one expression here. *)
Definition in_i32 (z : Z) : bool := (- 2 ^ 31 <=? z) && (z <? 2 ^ 31).
Definition i32 (z : Z) : res Z := guard_or SignedOverflow (in_i32 z);; Ok z.

Definition i32_op (f : Z → Z → Z) (a b : res Z) : res Z :=
  x ← a; y ← b; i32 (f x y).

#[global] Arguments i32_op _ _ _ : simpl never.

Declare Scope i32_scope.
Delimit Scope i32_scope with i32.
Notation "# n" := (Ok n%Z) (at level 1, n at level 0, only parsing) : i32_scope.
Infix "+" := (i32_op Z.add) : i32_scope.
Infix "-" := (i32_op Z.sub) : i32_scope.
Infix "*" := (i32_op Z.mul) : i32_scope.
Infix "/" := (i32_op Z.quot) : i32_scope.
Infix "%" := (i32_op Z.rem) (at level 40, left associativity) : i32_scope.

Lemma i32_op_ok f x y :
  - 2 ^ 31 <= f x y < 2 ^ 31 → i32_op f (Ok x) (Ok y) = Ok (f x y).
Proof.
  intros H. unfold i32_op, i32, in_i32. simpl. by rewrite guard_or_true by (bsolve; lia).
Qed.

(** Division of nonnegative operands rounds down. *)
Lemma i32_div_ok x y :
  0 <= x < 2 ^ 31 → 0 < y → i32_op Z.quot (Ok x) (Ok y) = Ok (x / y).
Proof.
  intros. rewrite i32_op_ok; rewrite Z.quot_div_nonneg by lia; [done|].
  pose proof (Z.div_pos x y). pose proof (Z.div_le_upper_bound x y x). nia.
Qed.

(** Evaluates one checked operation whose result provably fits. *)
Ltac i32_step := rewrite i32_op_ok by lia.

(** Signed 64-bit results, likewise. *)
Definition in_i64 (z : Z) : bool := (- 2 ^ 63 <=? z) && (z <? 2 ^ 63).
Definition i64 (z : Z) : res Z := guard_or SignedOverflow (in_i64 z);; Ok z.

Lemma i64_ok z : - 2 ^ 63 <= z < 2 ^ 63 → i64 z = Ok z.
Proof. intros. unfold i64, in_i64. by rewrite guard_or_true by (bsolve; lia). Qed.

Lemma i32_ok z : - 2 ^ 31 <= z < 2 ^ 31 → i32 z = Ok z.
Proof. intros. unfold i32, in_i32. by rewrite guard_or_true by (bsolve; lia). Qed.

#[global] Arguments i64 _ : simpl never.
#[global] Arguments i32 _ : simpl never.

(** [lia] with the divisions and remainders by constants as equations. *)
Ltac dlia := Z.to_euclidean_division_equations; lia.

(** ** Characters, bytes and strings *)

Abbreviation char := ascii (only parsing).
Abbreviation bytes := (list ascii) (only parsing).

(** The unsigned value of a byte, the byte of an integer, and the value of a
    (signed, as on x86) [char]. *)
Definition byteZ (c : ascii) : Z := Z.of_N (N_of_ascii c).
Definition Zbyte (z : Z) : ascii := ascii_of_N (Z.to_N (z mod 256)).
Definition charZ (c : ascii) : Z := wraps 8 (byteZ c).

(** A string literal as a sequence of characters. *)
Definition str (s : string) : list ascii := String.list_ascii_of_string s.

(** The C string at the start of a character array: up to the NUL. *)
Fixpoint c_str (s : list ascii) : list ascii :=
  match s with
  | [] => []
  | c :: s => if bool_decide (c = Ascii.zero) then [] else c :: c_str s
  end.

Lemma byteZ_range c : 0 <= byteZ c < 256.
Proof. unfold byteZ. pose proof (N_ascii_bounded c). lia. Qed.

Lemma Zbyte_byteZ c : Zbyte (byteZ c) = c.
Proof.
  unfold Zbyte. pose proof (byteZ_range c). rewrite Z.mod_small by lia.
  unfold byteZ. by rewrite N2Z.id, ascii_N_embedding.
Qed.

Lemma byteZ_Zbyte z : byteZ (Zbyte z) = z mod 256.
Proof.
  unfold byteZ, Zbyte. pose proof (Z.mod_pos_bound z 256).
  rewrite N_ascii_embedding by lia. lia.
Qed.

Lemma byteZ_inj c1 c2 : byteZ c1 = byteZ c2 → c1 = c2.
Proof. intros H. by rewrite <-(Zbyte_byteZ c1), H, Zbyte_byteZ. Qed.

Lemma Zbyte_mod z : Zbyte (z mod 256) = Zbyte z.
Proof. unfold Zbyte. by rewrite Zmod_mod. Qed.

(** ** Sequences indexed by [Z] *)

Definition zlen {A} (l : list A) : Z := Z.of_nat (length l).
Definition slice {A} (off len : Z) (l : list A) : list A :=
  take (Z.to_nat len) (drop (Z.to_nat off) l).

(** Reading and overwriting [len] elements at [off], as [memcpy] and
    [std::copy] do, failing when the range is not inside the object. *)
Definition mem_read {A} (off len : Z) (l : list A) : res (list A) :=
  guard_or OutOfBounds ((0 <=? off) && (0 <=? len) && (off + len <=? zlen l));;
  Ok (slice off len l).
Definition mem_write {A} (off : Z) (d l : list A) : res (list A) :=
  guard_or OutOfBounds ((0 <=? off) && (off + zlen d <=? zlen l));;
  Ok (take (Z.to_nat off) l ++ d ++ drop (Z.to_nat (off + zlen d)) l).

Lemma zlen_nonneg {A} (l : list A) : 0 <= zlen l.
Proof. unfold zlen. lia. Qed.
Lemma zlen_nil {A} : zlen (@nil A) = 0.
Proof. done. Qed.
Lemma zlen_cons {A} (x : A) l : zlen (x :: l) = 1 + zlen l.
Proof. unfold zlen. simpl. lia. Qed.
Lemma zlen_app {A} (l k : list A) : zlen (l ++ k) = zlen l + zlen k.
Proof. unfold zlen. rewrite length_app. lia. Qed.
Lemma zlen_replicate {A} n (x : A) : 0 <= n → zlen (replicate (Z.to_nat n) x) = n.
Proof. intros. unfold zlen. rewrite length_replicate. lia. Qed.
Lemma to_nat_zlen {A} (l : list A) : Z.to_nat (zlen l) = length l.
Proof. apply Nat2Z.id. Qed.
Lemma zlen_slice {A} off len (l : list A) :
  0 <= off → 0 <= len → off + len <= zlen l → zlen (slice off len l) = len.
Proof. unfold zlen, slice. intros. rewrite length_take, length_drop. lia. Qed.
Lemma zlen_zero_inv {A} (l : list A) : zlen l = 0 → l = [].
Proof. unfold zlen. destruct l; simpl; [done | lia]. Qed.

Lemma filter_all {A} (P : A → Prop) `{!∀ x, Decision (P x)} l : Forall P l → filter P l = l.
Proof. induction 1; [done|]. rewrite filter_cons_True by done. congruence. Qed.
Lemma filter_none {A} (P : A → Prop) `{!∀ x, Decision (P x)} l :
  Forall (λ x, ¬ P x) l → filter P l = [].
Proof. induction 1; [done|]. by rewrite filter_cons_False by done. Qed.

(** The two splittings every range computation reduces to. *)
Lemma slice_app3 {A} (p c q : list A) off len :
  zlen p = off → zlen c = len → slice off len (p ++ c ++ q) = c.
Proof.
  unfold slice, zlen. intros <- <-. rewrite !Nat2Z.id.
  by rewrite drop_app_length, take_app_length.
Qed.

Lemma slice_split {A} off len (l : list A) :
  0 <= off → 0 <= len → off + len <= zlen l →
  ∃ p q, l = p ++ slice off len l ++ q ∧ zlen p = off ∧ zlen q = zlen l - off - len.
Proof.
  unfold slice, zlen. intros. exists (take (Z.to_nat off) l).
  exists (drop (Z.to_nat len) (drop (Z.to_nat off) l)). split_and!.
  - by rewrite !take_drop.
  - rewrite length_take. lia.
  - rewrite !length_drop. lia.
Qed.

Lemma mem_read_app3 {A} (p c q : list A) off len :
  zlen p = off → zlen c = len → mem_read off len (p ++ c ++ q) = Ok c.
Proof.
  intros Hp Hc. unfold mem_read.
  pose proof (zlen_nonneg p). pose proof (zlen_nonneg c). pose proof (zlen_nonneg q).
  rewrite guard_or_true by (rewrite !zlen_app; bsolve; lia).
  simpl. by rewrite slice_app3.
Qed.

Lemma mem_read_all {A} (l : list A) len : len = zlen l → mem_read 0 len l = Ok l.
Proof.
  intros ->. pose proof (mem_read_app3 [] l [] 0 (zlen l) eq_refl eq_refl) as H.
  simpl in H. by rewrite app_nil_r in H.
Qed.

Lemma mem_write_app3 {A} (p c q d : list A) off :
  zlen p = off → zlen d = zlen c → mem_write off d (p ++ c ++ q) = Ok (p ++ d ++ q).
Proof.
  intros <- Hd. unfold mem_write.
  pose proof (zlen_nonneg p). pose proof (zlen_nonneg c). pose proof (zlen_nonneg q).
  rewrite guard_or_true by (rewrite !zlen_app; bsolve; lia). simpl.
  rewrite Hd. unfold zlen in *.
  rewrite !Nat2Z.id, take_app_length. do 3 f_equal.
  rewrite <-Nat2Z.inj_add, Nat2Z.id, <-length_app, app_assoc.
  apply drop_app_length.
Qed.

Create HintDb zlen.
Create Rewrite HintDb zlen.
#[export] Hint Rewrite @zlen_nil @zlen_cons @zlen_app : zlen.
#[export] Hint Resolve zlen_nonneg : zlen.

(** [lia] after the lengths have been pushed to the leaves. *)
Ltac zlen_lia :=
  autorewrite with zlen in *;
  repeat match goal with
  | |- context [zlen ?l] =>
      lazymatch goal with
      | _ : 0 <= zlen l |- _ => fail
      | _ => pose proof (zlen_nonneg l)
      end
  | _ : context [zlen ?l] |- _ =>
      lazymatch goal with
      | _ : 0 <= zlen l |- _ => fail
      | _ => pose proof (zlen_nonneg l)
      end
  end; lia.
