(* ===== verification/Endian.v ===== *)
(** * Byte order ([fishnet/net/endian.h])

    The memory representation of fixed-width integers on a host of either byte
    order, the [htobeNN]/[beNNtoh] conversions of [<endian.h>], and the inline
    functions of [fishnet::net::sockets] built on them. *)

From S2P Require Import Prelude.
Local Open Scope Z_scope.

(** The [n] low bytes of [z], least significant first, and the value of such a
    sequence. *)
Fixpoint le_bytes (n : nat) (z : Z) : bytes :=
  match n with
  | O => []
  | S n => Zbyte z :: le_bytes n (z / 256)
  end.
Fixpoint le_value (l : bytes) : Z :=
  match l with
  | [] => 0
  | c :: l => byteZ c + 256 * le_value l
  end.
Definition be_bytes (n : nat) (z : Z) : bytes := reverse (le_bytes n z).
Definition be_value (l : bytes) : Z := le_value (reverse l).

(** The byte order of the machine the library runs on. *)
Class Host := host_big : bool.

Section host.
Context `{Host}.

(** The [n] bytes an [n]-byte integer object with value [z] occupies, and the
    (unsigned) value of such an object. *)
Definition host_bytes (n : nat) (z : Z) : bytes :=
  if host_big then be_bytes n z else le_bytes n z.
Definition host_value (l : bytes) : Z :=
  if host_big then be_value l else le_value l.

(** [htobe16/32/64] and [be16/32/64toh]: the identity on a big-endian host and
    a byte swap on a little-endian one, on the [n]-byte unsigned type. *)
Definition htobe (n : nat) (z : Z) : Z :=
  if host_big then wrapu (8 * Z.of_nat n) z else le_value (be_bytes n z).

Definition hostToNetwork64 (host64 : Z) : Z := htobe 8 (u64 host64).
Definition hostToNetwork32 (host32 : Z) : Z := htobe 4 (u32 host32).
Definition hostToNetwork16 (host16 : Z) : Z := htobe 2 (u32 host16).
Definition networkToHost64 (net64 : Z) : Z := htobe 8 (u64 net64).
Definition networkToHost32 (net32 : Z) : Z := htobe 4 (u32 net32).
Definition networkToHost16 (net16 : Z) : Z := htobe 2 (u16 net16).
End host.

(** ** Lemmas *)

Lemma length_le_bytes n z : length (le_bytes n z) = n.
Proof. revert z. induction n; intros; simpl; auto. Qed.

Lemma pow256 n : 2 ^ (8 * Z.of_nat n) = 256 ^ Z.of_nat n.
Proof. by rewrite Z.pow_mul_r by lia. Qed.

Lemma le_value_bytes n z : le_value (le_bytes n z) = wrapu (8 * Z.of_nat n) z.
Proof.
  unfold wrapu. rewrite pow256. revert z. induction n as [|n IH]; intros z.
  - simpl. by rewrite Z.mod_1_r.
  - cbn [le_bytes le_value]. rewrite IH, byteZ_Zbyte.
    rewrite Nat2Z.inj_succ, Z.pow_succ_r by lia.
    rewrite Z.rem_mul_r by lia. done.
Qed.

Lemma le_value_range l : 0 <= le_value l < 2 ^ (8 * zlen l).
Proof.
  unfold zlen. rewrite pow256. induction l as [|c l IH]; [simpl; lia |].
  cbn [le_value length]. rewrite Nat2Z.inj_succ, Z.pow_succ_r by lia.
  pose proof (byteZ_range c). lia.
Qed.

Lemma le_bytes_value l : le_bytes (length l) (le_value l) = l.
Proof.
  induction l as [|c l IH]; [done |]. cbn [length le_bytes le_value].
  pose proof (byteZ_range c).
  rewrite (Z.mul_comm 256), Z.div_add, Z.div_small by lia.
  rewrite Z.add_0_l, IH. f_equal.
  rewrite <-Zbyte_mod, Z.mod_add, Zbyte_mod by lia. apply Zbyte_byteZ.
Qed.

Lemma le_bytes_wrapu n z : le_bytes n (wrapu (8 * Z.of_nat n) z) = le_bytes n z.
Proof.
  rewrite <-le_value_bytes. rewrite <-(length_le_bytes n z) at 1. apply le_bytes_value.
Qed.

Lemma length_be_bytes n z : length (be_bytes n z) = n.
Proof. unfold be_bytes. by rewrite length_reverse, length_le_bytes. Qed.

Lemma zlen_be_bytes n z : zlen (be_bytes n z) = Z.of_nat n.
Proof. unfold zlen. by rewrite length_be_bytes. Qed.

Lemma be_value_bytes n z : be_value (be_bytes n z) = wrapu (8 * Z.of_nat n) z.
Proof. unfold be_value, be_bytes. by rewrite reverse_involutive, le_value_bytes. Qed.

Lemma be_bytes_wrapu n z : be_bytes n (wrapu (8 * Z.of_nat n) z) = be_bytes n z.
Proof. unfold be_bytes. by rewrite le_bytes_wrapu. Qed.

Section host_lemmas.
Context `{Host}.

Lemma length_host_bytes n z : length (host_bytes n z) = n.
Proof.
  unfold host_bytes. destruct host_big; auto using length_be_bytes, length_le_bytes.
Qed.

Lemma host_bytes_wrapu n z : host_bytes n (wrapu (8 * Z.of_nat n) z) = host_bytes n z.
Proof. unfold host_bytes. by rewrite le_bytes_wrapu, be_bytes_wrapu. Qed.

(** Storing the converted integer lays its bytes out in network order. *)
Lemma host_bytes_htobe n z : host_bytes n (htobe n z) = be_bytes n z.
Proof.
  unfold host_bytes, htobe. destruct host_big; [apply be_bytes_wrapu |].
  rewrite <-(length_be_bytes n z) at 1. apply le_bytes_value.
Qed.

(** Converting what was loaded reads the bytes in network order. *)
Lemma htobe_host_value l : htobe (length l) (host_value l) = be_value l.
Proof.
  unfold htobe, host_value. destruct host_big.
  - apply wrapu_small. unfold be_value.
    pose proof (le_value_range (reverse l)) as Hr. unfold zlen in Hr.
    by rewrite length_reverse in Hr.
  - unfold be_bytes, be_value. by rewrite le_bytes_value.
Qed.

Lemma htobe_range n z : 0 <= htobe n z < 2 ^ (8 * Z.of_nat n).
Proof.
  unfold htobe. destruct host_big; [apply wrapu_range; lia |].
  pose proof (le_value_range (be_bytes n z)). by rewrite zlen_be_bytes in *.
Qed.

Lemma host_value_range l : 0 <= host_value l < 2 ^ (8 * zlen l).
Proof.
  unfold host_value, be_value. destruct host_big; [|apply le_value_range].
  pose proof (le_value_range (reverse l)) as Hr. unfold zlen in *.
  by rewrite length_reverse in Hr.
Qed.
End host_lemmas.
