(* ===== verification/Buffer.v ===== *)
(** * The network buffer ([fishnet/net/buffer.h], [fishnet/net/buffer.cc])

    [Buffer] is a [std::vector<char>] with a reader and a writer index:
    the bytes between them are the content, those before can be used by
    [prepend], those after by [append]. Indices and lengths are [size_t], so
    their arithmetic is modulo 2^64; [assert]s, vector growth and every copy are
    checked. Pointers into the buffer are offsets from [begin()]. *)

From S2P Require Import Prelude Endian.
Local Open Scope Z_scope.

(** ** The type and its operations *)

Record Buffer := mkBuffer {
  buffer_ : bytes;
  readerIndex_ : Z;
  writerIndex_ : Z;
}.

Definition kCheapPrepend : Z := 8.
Definition kInitialSize : Z := 1024.
Definition kCRLF : bytes := ["013"; "010"]%char.

(** [std::vector<char>]: [max_size()], value-initialised construction and
    [resize]. *)
Definition vec_max_size : Z := 2 ^ 63 - 1.
Definition vec_new (n : Z) : res bytes :=
  guard_or LengthError (n <=? vec_max_size);; Ok (replicate (Z.to_nat n) "000"%char).
Definition vec_resize (n : Z) (l : bytes) : res bytes :=
  guard_or LengthError (n <=? vec_max_size);;
  Ok (take (Z.to_nat n) l ++ replicate (Z.to_nat n - length l) "000"%char).

Definition readableBytes (b : Buffer) : Z := u64 (writerIndex_ b - readerIndex_ b).
Definition writableBytes (b : Buffer) : Z := u64 (zlen (buffer_ b) - writerIndex_ b).
Definition prependableBytes (b : Buffer) : Z := readerIndex_ b.

Definition beginWrite (b : Buffer) : Z := writerIndex_ b.
Definition peek (b : Buffer) : Z := readerIndex_ b.

Definition newBuffer (initialSize : Z) : res Buffer :=
  v ← vec_new (u64 (kCheapPrepend + initialSize));
  let b := mkBuffer v kCheapPrepend kCheapPrepend in
  assertb (readableBytes b =? 0);;
  assertb (writableBytes b =? initialSize);;
  assertb (prependableBytes b =? kCheapPrepend);;
  Ok b.

Definition swap (x y : Buffer) : Buffer * Buffer := (y, x).

(** [std::search] for a non-empty pattern and [memchr], on the bytes of a range:
    the index of the first match. *)
Fixpoint search (pat hay : bytes) : option nat :=
  if bool_decide (pat `prefix_of` hay) then Some O
  else match hay with
       | [] => None
       | _ :: hay => S <$> search pat hay
       end.
Fixpoint memchr (c : char) (hay : bytes) : option nat :=
  match hay with
  | [] => None
  | x :: hay => if bool_decide (x = c) then Some O else S <$> memchr c hay
  end.

(** [std::search(start, beginWrite(), kCRLF, kCRLF + 2)]: [beginWrite()] when
    there is no match. *)
Definition searchCRLF (start : Z) (b : Buffer) : res Z :=
  hay ← mem_read start (beginWrite b - start) (buffer_ b);
  Ok (match search kCRLF hay with
      | Some i => start + Z.of_nat i
      | None => beginWrite b
      end).

Definition findCRLF_from (start : Z) (b : Buffer) : res (option Z) :=
  assertb (peek b <=? start);;
  assertb (start <=? beginWrite b);;
  crlf ← searchCRLF start b;
  Ok (if crlf =? beginWrite b then None else Some crlf).

Definition findCRLF (b : Buffer) : res (option Z) :=
  crlf ← searchCRLF (peek b) b;
  Ok (if crlf =? beginWrite b then None else Some crlf).

Definition findEOL_from (start : Z) (b : Buffer) : res (option Z) :=
  assertb (peek b <=? start);;
  assertb (start <=? beginWrite b);;
  hay ← mem_read start (beginWrite b - start) (buffer_ b);
  Ok ((λ i, start + Z.of_nat i) <$> memchr "010"%char hay).

Definition findEOL (b : Buffer) : res (option Z) :=
  hay ← mem_read (peek b) (readableBytes b) (buffer_ b);
  Ok ((λ i, peek b + Z.of_nat i) <$> memchr "010"%char hay).

Definition retrieveAll (b : Buffer) : Buffer :=
  mkBuffer (buffer_ b) kCheapPrepend kCheapPrepend.

Definition retrieve (len : Z) (b : Buffer) : res Buffer :=
  assertb (len <=? readableBytes b);;
  Ok (if len <? readableBytes b
      then mkBuffer (buffer_ b) (u64 (readerIndex_ b + len)) (writerIndex_ b)
      else retrieveAll b).

Definition retrieveUntil (end_ : Z) (b : Buffer) : res Buffer :=
  assertb (peek b <=? end_);;
  assertb (end_ <=? beginWrite b);;
  retrieve (u64 (end_ - peek b)) b.

Definition retrieveInt64 : Buffer → res Buffer := retrieve 8.
Definition retrieveInt32 : Buffer → res Buffer := retrieve 4.
Definition retrieveInt16 : Buffer → res Buffer := retrieve 2.
Definition retrieveInt8 : Buffer → res Buffer := retrieve 1.

Definition retrieveAsString (len : Z) (b : Buffer) : res (bytes * Buffer) :=
  assertb (len <=? readableBytes b);;
  result ← mem_read (peek b) len (buffer_ b);
  b' ← retrieve len b;
  Ok (result, b').

Definition retrieveAllAsString (b : Buffer) : res (bytes * Buffer) :=
  retrieveAsString (readableBytes b) b.

(** [StringPiece{peek(), static_cast<int>(readableBytes())}]: the bytes the
    pointer can reach and the (narrowed) length. *)
Definition toStringPiece (b : Buffer) : bytes * Z :=
  (drop (Z.to_nat (readerIndex_ b)) (buffer_ b), s32 (readableBytes b)).

Definition makeSpace (len : Z) (b : Buffer) : res Buffer :=
  if u64 (writableBytes b + prependableBytes b) <? u64 (len + kCheapPrepend) then
    v ← vec_resize (u64 (writerIndex_ b + len)) (buffer_ b);
    Ok (mkBuffer v (readerIndex_ b) (writerIndex_ b))
  else
    assertb (kCheapPrepend <? readerIndex_ b);;
    let readable := readableBytes b in
    d ← mem_read (readerIndex_ b) (writerIndex_ b - readerIndex_ b) (buffer_ b);
    v ← mem_write kCheapPrepend d (buffer_ b);
    let b' := mkBuffer v kCheapPrepend (u64 (kCheapPrepend + readable)) in
    assertb (readable =? readableBytes b');;
    Ok b'.

Definition ensureWritableBytes (len : Z) (b : Buffer) : res Buffer :=
  b' ← (if writableBytes b <? len then makeSpace len b else Ok b);
  assertb (len <=? writableBytes b');;
  Ok b'.

Definition hasWritten (len : Z) (b : Buffer) : res Buffer :=
  assertb (len <=? writableBytes b);;
  Ok (mkBuffer (buffer_ b) (readerIndex_ b) (u64 (writerIndex_ b + len))).

Definition unwrite (len : Z) (b : Buffer) : res Buffer :=
  assertb (len <=? readableBytes b);;
  Ok (mkBuffer (buffer_ b) (readerIndex_ b) (u64 (writerIndex_ b - len))).

(** [append(const char* data, size_t len)], where [data] points at [src]. *)
Definition append (src : bytes) (len : Z) (b : Buffer) : res Buffer :=
  b ← ensureWritableBytes len b;
  d ← mem_read 0 len src;
  v ← mem_write (beginWrite b) d (buffer_ b);
  hasWritten len (mkBuffer v (readerIndex_ b) (writerIndex_ b)).

(** [append(const StringPiece&)]: the [int] size converts to [size_t]. *)
Definition append_piece (piece : bytes * Z) (b : Buffer) : res Buffer :=
  append piece.1 (u64 piece.2) b.

Definition prepend (d : bytes) (len : Z) (b : Buffer) : res Buffer :=
  assertb (len <=? prependableBytes b);;
  let r := u64 (readerIndex_ b - len) in
  d' ← mem_read 0 len d;
  v ← mem_write r d' (buffer_ b);
  Ok (mkBuffer v r (writerIndex_ b)).

Definition shrink (reserve : Z) (b : Buffer) : res Buffer :=
  other ← newBuffer kInitialSize;
  other ← ensureWritableBytes (u64 (readableBytes b + reserve)) other;
  other ← append_piece (toStringPiece b) other;
  Ok (swap b other).1.

Section integers.
Context `{Host}.

(** [appendInt64] converts with [hostToNetwork16]. *)
Definition appendInt64 (x : Z) : Buffer → res Buffer :=
  let be64 := s64 (hostToNetwork16 x) in append (host_bytes 8 (u64 be64)) 8.
Definition appendInt32 (x : Z) : Buffer → res Buffer :=
  let be32 := s32 (hostToNetwork32 x) in append (host_bytes 4 (u32 be32)) 4.
Definition appendInt16 (x : Z) : Buffer → res Buffer :=
  let be16 := s16 (hostToNetwork16 x) in append (host_bytes 2 (u16 be16)) 2.
Definition appendInt8 (x : Z) : Buffer → res Buffer :=
  append [Zbyte x] 1.

Definition peekInt64 (b : Buffer) : res Z :=
  assertb (8 <=? readableBytes b);;
  d ← mem_read (peek b) 8 (buffer_ b);
  Ok (s64 (networkToHost64 (s64 (host_value d)))).
Definition peekInt32 (b : Buffer) : res Z :=
  assertb (4 <=? readableBytes b);;
  d ← mem_read (peek b) 4 (buffer_ b);
  Ok (s32 (networkToHost32 (s32 (host_value d)))).
Definition peekInt16 (b : Buffer) : res Z :=
  assertb (2 <=? readableBytes b);;
  d ← mem_read (peek b) 2 (buffer_ b);
  Ok (s16 (networkToHost16 (s16 (host_value d)))).
Definition peekInt8 (b : Buffer) : res Z :=
  assertb (1 <=? readableBytes b);;
  d ← mem_read (peek b) 1 (buffer_ b);
  Ok (s8 (host_value d)).

Definition readInt64 (b : Buffer) : res (Z * Buffer) :=
  result ← peekInt64 b; b' ← retrieveInt64 b; Ok (result, b').
Definition readInt32 (b : Buffer) : res (Z * Buffer) :=
  result ← peekInt32 b; b' ← retrieveInt32 b; Ok (s32 result, b').
Definition readInt16 (b : Buffer) : res (Z * Buffer) :=
  result ← peekInt16 b; b' ← retrieveInt16 b; Ok (result, b').
Definition readInt8 (b : Buffer) : res (Z * Buffer) :=
  result ← peekInt8 b; b' ← retrieveInt8 b; Ok (result, b').

Definition prependInt64 (x : Z) : Buffer → res Buffer :=
  let be64 := s64 (hostToNetwork64 x) in prepend (host_bytes 8 (u64 be64)) 8.
Definition prependInt32 (x : Z) : Buffer → res Buffer :=
  let be32 := s32 (hostToNetwork32 x) in prepend (host_bytes 4 (u32 be32)) 4.
Definition prependInt16 (x : Z) : Buffer → res Buffer :=
  let be16 := s16 (hostToNetwork16 x) in prepend (host_bytes 2 (u16 be16)) 2.
Definition prependInt8 (x : Z) : Buffer → res Buffer :=
  prepend [Zbyte x] 1.
End integers.

(** What [readv(2)] gives: the bytes it scattered over the vectors, or [-1]
    and [errno]. *)
Inductive sysret := SysOk (d : bytes) | SysErr (errno : Z).

Definition extrabuf_size : Z := 65536.

(** The lengths of the [iovec]s [readFd] passes to the kernel. *)
Definition readFd_vec (b : Buffer) : list Z :=
  let writeable := writableBytes b in
  if writeable <? extrabuf_size then [writeable; extrabuf_size] else [writeable].

(** The return value, [*savedErrno] when it was set, and the buffer. The kernel
    fills the free part of the buffer first and [extrabuf] with the rest. *)
Definition readFd (readv : list Z → sysret) (b : Buffer) : res (Z * option Z * Buffer) :=
  let writeable := writableBytes b in
  match readv (readFd_vec b) with
  | SysErr errno => Ok (-1, Some errno, b)
  | SysOk d =>
      let n := zlen d in
      v ← mem_write (writerIndex_ b) (take (Z.to_nat writeable) d) (buffer_ b);
      let extrabuf := drop (Z.to_nat writeable) d in
      b' ← (if n <=? writeable
            then Ok (mkBuffer v (readerIndex_ b) (u64 (writerIndex_ b + n)))
            else append extrabuf (u64 (n - writeable))
                   (mkBuffer v (readerIndex_ b) (zlen v)));
      Ok (n, None, b')
  end.

(** ** Invariant and content *)

(** [0 <= readerIndex <= writerIndex <= size], as drawn in the class comment,
    with room for the cheap prepend. *)
Definition buffer_ok (b : Buffer) : Prop :=
  0 <= readerIndex_ b <= writerIndex_ b ∧
  writerIndex_ b <= zlen (buffer_ b) ∧
  kCheapPrepend <= zlen (buffer_ b) <= vec_max_size.

#[global] Instance buffer_ok_dec b : Decision (buffer_ok b).
Proof. unfold buffer_ok. apply _. Defined.

(** The readable bytes: what the buffer holds for its user. *)
Definition content (b : Buffer) : bytes :=
  slice (readerIndex_ b) (writerIndex_ b - readerIndex_ b) (buffer_ b).

(** [b] is laid out as prependable bytes [p], content [c], writable bytes [q]. *)
Definition layout (b : Buffer) (p c q : bytes) : Prop :=
  b = mkBuffer (p ++ c ++ q) (zlen p) (zlen p + zlen c) ∧
  kCheapPrepend <= zlen (p ++ c ++ q) <= vec_max_size.

Lemma layout_of_ok b : buffer_ok b → ∃ p q, layout b p (content b) q.
Proof.
  intros (Hr & Hw & Hs). destruct b as [l r w]; simpl in *.
  destruct (slice_split r (w - r) l) as (p & q & Hl & Hp & Hq); try lia.
  exists p, q. unfold layout, content; simpl.
  rewrite <-Hl. split; [|done]. rewrite Hp.
  rewrite zlen_slice by lia. do 2 f_equal. lia.
Qed.

Lemma layout_ok b p c q : layout b p c q → buffer_ok b ∧ content b = c.
Proof.
  intros [-> Hs]. unfold buffer_ok, content; simpl. split.
  - autorewrite with zlen in *. zlen_lia.
  - apply slice_app3; lia.
Qed.

Section layout_ops.
Context (b : Buffer) (p c q : bytes) (Hl : layout b p c q).

Lemma layout_bounds :
  0 <= zlen p ∧ 0 <= zlen c ∧ 0 <= zlen q ∧
  kCheapPrepend <= zlen p + zlen c + zlen q <= vec_max_size.
Proof using Hl. destruct Hl as [_ ?]. zlen_lia. Qed.

Lemma readable_layout : readableBytes b = zlen c.
Proof using Hl.
  pose proof layout_bounds. destruct Hl as [-> _]. unfold readableBytes, vec_max_size in *; simpl.
  rewrite wrapu_small; lia.
Qed.

Lemma writable_layout : writableBytes b = zlen q.
Proof using Hl.
  pose proof layout_bounds. destruct Hl as [-> _]. unfold writableBytes, vec_max_size in *; simpl.
  rewrite wrapu_small; zlen_lia.
Qed.

Lemma prependable_layout : prependableBytes b = zlen p.
Proof using Hl. by destruct Hl as [-> _]. Qed.

Lemma peek_read len : 0 <= len <= zlen c →
  mem_read (peek b) len (buffer_ b) = Ok (take (Z.to_nat len) c).
Proof using Hl.
  intros Hlen. destruct Hl as [-> _]. simpl. unfold peek; simpl.
  rewrite <-(take_drop (Z.to_nat len) c) at 1. rewrite <-app_assoc.
  apply mem_read_app3; [done|]. unfold zlen in *. rewrite length_take. lia.
Qed.

Lemma retrieveAll_layout : ∃ p' q',
  layout (retrieveAll b) p' [] q' ∧ zlen p' = kCheapPrepend.
Proof using Hl.
  pose proof layout_bounds. destruct Hl as [-> Hs].
  destruct (slice_split kCheapPrepend 0 (p ++ c ++ q)) as (p' & q' & E & Hp & Hq);
    [done | done | lia |].
  exists p', q'. split; [|done].
  assert (E' : p ++ c ++ q = p' ++ [] ++ q').
  { rewrite E at 1. unfold slice. by rewrite take_0. }
  unfold layout, retrieveAll; simpl in *. rewrite <-E'. split; [|done].
  f_equal; zlen_lia.
Qed.

Lemma retrieve_layout len : 0 <= len <= zlen c → ∃ b' p' q',
  retrieve len b = Ok b' ∧ layout b' p' (drop (Z.to_nat len) c) q'.
Proof using Hl.
  intros Hlen. pose proof layout_bounds. unfold retrieve.
  rewrite readable_layout. res_step.
  destruct (Z.ltb_spec len (zlen c)) as [Hlt|Hge].
  - eexists _, (p ++ take (Z.to_nat len) c), q. split; [done|].
    destruct Hl as [-> Hs]; unfold layout; simpl.
    rewrite <-!app_assoc, (app_assoc (take _ _)), take_drop.
    split; [|done]. unfold vec_max_size in *.
    rewrite wrapu_small by lia. f_equal; autorewrite with zlen;
      unfold zlen in *; rewrite ?length_take, ?length_drop; lia.
  - destruct retrieveAll_layout as (p' & q' & Hp' & _).
    eexists _, p', q'. split; [done|].
    assert (Hd : drop (Z.to_nat len) c = []).
    { apply drop_ge. unfold zlen in *. lia. }
    by rewrite Hd.
Qed.

Lemma makeSpace_layout len :
  zlen q < len → zlen p + zlen c + len <= vec_max_size → ∃ b' p' q',
  makeSpace len b = Ok b' ∧ layout b' p' c q' ∧ len <= zlen q' ∧ zlen q <= zlen q' ∧
  (p' = p ∨ zlen p' = kCheapPrepend).
Proof using Hl.
  intros Hq Hfit. pose proof layout_bounds as Hb. unfold makeSpace.
  rewrite readable_layout, writable_layout, prependable_layout.
  unfold vec_max_size, kCheapPrepend in *.
  rewrite !(wrapu_small 64) by lia.
  destruct Hl as [-> Hs]; simpl in *.
  destruct (Z.ltb_spec (zlen q + zlen p) (len + 8)) as [Hlt|Hge].
  - rewrite wrapu_small by lia. unfold vec_resize, vec_max_size.
    rewrite guard_or_true by (bsolve; lia). simpl.
    eexists _, p, (q ++ replicate _ _). split; [done|].
    rewrite (take_ge (p ++ _)) by (autorewrite with zlen in *; unfold zlen in *;
      rewrite !length_app; lia).
    rewrite <-!app_assoc. split; [|split; [|split; [|by left]]].
    + unfold layout, vec_max_size, kCheapPrepend. split; [done|].
      autorewrite with zlen. unfold zlen in *. rewrite length_replicate, !length_app in *. lia.
    + autorewrite with zlen. unfold zlen in *. rewrite length_replicate, !length_app in *. lia.
    + zlen_lia.
  - rewrite assertb_true by (bsolve; lia). simpl.
    replace (zlen p + zlen c - zlen p) with (zlen c) by lia.
    rewrite mem_read_app3 by done. simpl.
    destruct (slice_split 8 (zlen c) (p ++ c ++ q)) as (p' & q' & E & Hp & Hq');
      [lia | lia | zlen_lia |].
    assert (Hsl : zlen (slice 8 (zlen c) (p ++ c ++ q)) = zlen c)
      by (apply zlen_slice; zlen_lia).
    rewrite E. erewrite mem_write_app3; [|done|lia]. simpl.
    rewrite wrapu_small by lia. unfold readableBytes; simpl.
    rewrite wrapu_small by lia. rewrite assertb_true by (bsolve; lia). simpl.
    eexists _, p', q'. split; [done|]. split; [|split; [|split; [|by right]]].
    + unfold layout, vec_max_size, kCheapPrepend. split; [by rewrite Hp|]. zlen_lia.
    + zlen_lia.
    + zlen_lia.
Qed.

End layout_ops.

Lemma ensureWritable_layout b p c q len :
  layout b p c q →
  zlen p + zlen c + len <= vec_max_size → ∃ b' p' q',
  ensureWritableBytes len b = Ok b' ∧ layout b' p' c q' ∧ len <= zlen q' ∧
  zlen q <= zlen q' ∧ (p' = p ∨ zlen p' = kCheapPrepend).
Proof.
  intros Hl Hfit. unfold ensureWritableBytes. rewrite (writable_layout _ _ _ _ Hl).
  destruct (Z.ltb_spec (zlen q) len) as [Hlt|Hge].
  - destruct (makeSpace_layout _ _ _ _ Hl len Hlt Hfit) as (b' & p' & q' & -> & Hl' & Hq' & Hqq & Hp').
    simpl. rewrite (writable_layout b' p' c q' Hl'), assertb_true by (bsolve; lia).
    exists b', p', q'. auto.
  - simpl. rewrite (writable_layout _ _ _ _ Hl), assertb_true by (bsolve; lia).
    exists b, p, q. split_and!; auto; lia.
Qed.

(** Filling the front of the writable bytes. *)
Lemma fill_layout b p c q d :
  layout b p c q → zlen d <= zlen q → ∃ v q',
  mem_write (writerIndex_ b) d (buffer_ b) = Ok v ∧ zlen v = zlen (buffer_ b) ∧
  layout (mkBuffer v (readerIndex_ b) (writerIndex_ b + zlen d)) p (c ++ d) q' ∧
  zlen q' = zlen q - zlen d.
Proof.
  intros [-> Hs] Hd. simpl.
  destruct (slice_split 0 (zlen d) q) as (e & q' & E & He & Hq'); [lia | zlen_lia | lia |].
  apply zlen_zero_inv in He as ->. simpl in E.
  assert (Hsl : zlen (slice 0 (zlen d) q) = zlen d) by (apply zlen_slice; zlen_lia).
  exists (p ++ (c ++ d) ++ q'), q'. split_and!; [| zlen_lia | | lia].
  - rewrite E, (app_assoc p c), (mem_write_app3 (p ++ c) _ q' d);
      [by rewrite <-!app_assoc | by rewrite zlen_app | lia].
  - unfold layout. rewrite zlen_app. split; [f_equal; lia | zlen_lia].
Qed.

Lemma append_layout b p c q d :
  layout b p c q → zlen p + zlen c + zlen d <= vec_max_size → ∃ b' p' q',
  append d (zlen d) b = Ok b' ∧ layout b' p' (c ++ d) q' ∧
  zlen q - zlen d <= zlen q' ∧ (p' = p ∨ zlen p' = kCheapPrepend).
Proof.
  intros Hl Hfit. unfold append, beginWrite.
  destruct (ensureWritable_layout b p c q (zlen d) Hl Hfit)
    as (b1 & p1 & q1 & -> & Hl1 & Hq1 & Hqq & Hp1). simpl.
  rewrite mem_read_all by done. simpl.
  destruct (fill_layout b1 p1 c q1 d Hl1 Hq1) as (v & q2 & -> & Hv & Hl2 & Hq2). simpl.
  unfold hasWritten, writableBytes; simpl. rewrite Hv.
  pose proof (layout_bounds _ _ _ _ Hl1). pose proof (zlen_nonneg d).
  destruct Hl1 as [-> _]; simpl in *. unfold vec_max_size in *.
  rewrite !wrapu_small by zlen_lia. rewrite assertb_true by (bsolve; zlen_lia). simpl.
  eexists _, p1, q2. split_and!; [done | exact Hl2 | lia | done].
Qed.

Lemma unwrite_layout b p c q len :
  layout b p c q → 0 <= len <= zlen c → ∃ b' q',
  unwrite len b = Ok b' ∧ layout b' p (take (Z.to_nat (zlen c - len)) c) q'.
Proof.
  intros Hl Hlen. unfold unwrite. rewrite (readable_layout _ _ _ _ Hl). res_step.
  eexists _, (drop (Z.to_nat (zlen c - len)) c ++ q). split; [done|].
  pose proof (layout_bounds _ _ _ _ Hl). destruct Hl as [-> Hs]; simpl.
  unfold layout. rewrite (app_assoc (take _ _)), take_drop. split; [|done].
  unfold vec_max_size in *. rewrite wrapu_small by lia. f_equal.
  unfold zlen in *. rewrite length_take. lia.
Qed.

Lemma prepend_layout b p c q d :
  layout b p c q → zlen d <= zlen p → ∃ b' p',
  prepend d (zlen d) b = Ok b' ∧ layout b' p' (d ++ c) q ∧ zlen p' = zlen p - zlen d.
Proof.
  intros Hl Hlen. unfold prepend. rewrite (prependable_layout _ _ _ _ Hl).
  rewrite assertb_true by (bsolve; lia). simpl. rewrite mem_read_all by done. simpl.
  pose proof (layout_bounds _ _ _ _ Hl). destruct Hl as [-> Hs]; simpl.
  unfold vec_max_size in *. rewrite wrapu_small by zlen_lia.
  destruct (slice_split (zlen p - zlen d) (zlen d) p) as (p' & e & E & Hp' & He);
    [lia | zlen_lia | lia |].
  assert (e = []) as -> by (apply zlen_zero_inv; lia).
  rewrite app_nil_r in E. pose proof (zlen_nonneg d).
  assert (Hsl : zlen (slice (zlen p - zlen d) (zlen d) p) = zlen d)
    by (apply zlen_slice; lia).
  replace (p ++ c ++ q) with (p' ++ slice (zlen p - zlen d) (zlen d) p ++ c ++ q)
    by (rewrite E at 3; by rewrite <-app_assoc).
  erewrite mem_write_app3; [|done|lia]. simpl.
  eexists _, p'. split; [done|]. unfold layout. rewrite <-!app_assoc.
  split; [|done]. split; [|unfold vec_max_size; zlen_lia].
  f_equal; zlen_lia.
Qed.

Lemma newBuffer_layout n :
  0 <= n → kCheapPrepend + n <= vec_max_size → ∃ b p q,
  newBuffer n = Ok b ∧ layout b p [] q ∧ zlen p = kCheapPrepend ∧ zlen q = n.
Proof.
  intros Hn Hfit. unfold newBuffer, vec_new. unfold kCheapPrepend, vec_max_size in *.
  rewrite wrapu_small by lia. rewrite guard_or_true by (bsolve; lia). simpl.
  unfold readableBytes, writableBytes, prependableBytes; cbn [buffer_ readerIndex_ writerIndex_].
  rewrite zlen_replicate, !wrapu_small by lia.
  rewrite !assertb_true by (bsolve; lia).
  eexists _, (replicate 8 "000"%char), (replicate (Z.to_nat n) "000"%char).
  split; [done|]. split_and!.
  - unfold layout, kCheapPrepend, vec_max_size. split.
    + f_equal. rewrite Z2Nat.inj_add by lia. apply (replicate_add (Z.to_nat 8)).
    + autorewrite with zlen. rewrite zlen_replicate by lia.
      change (zlen (replicate 8 "000"%char)) with 8. lia.
  - done.
  - by apply zlen_replicate.
Qed.

Lemma shrink_layout b p c q reserve :
  layout b p c q → 0 <= reserve → zlen c < 2 ^ 31 →
  kCheapPrepend + zlen c + reserve <= vec_max_size → ∃ b' p' q',
  shrink reserve b = Ok b' ∧ layout b' p' c q' ∧ reserve <= zlen q' ∧
  zlen p' = kCheapPrepend.
Proof.
  intros Hl Hr Hc Hfit. unfold shrink.
  destruct (newBuffer_layout kInitialSize) as (o & po & qo & -> & Ho & Hpo & _);
    [done | done |]. simpl.
  rewrite (readable_layout _ _ _ _ Hl). pose proof (layout_bounds _ _ _ _ Hl).
  unfold vec_max_size in Hfit. rewrite wrapu_small by (unfold kCheapPrepend in *; lia).
  destruct (ensureWritable_layout o po [] qo (zlen c + reserve) Ho)
    as (o1 & p1 & q1 & -> & Ho1 & Hq1 & _ & Hp1).
  { rewrite zlen_nil. unfold vec_max_size. lia. }
  assert (Hp1' : zlen p1 = kCheapPrepend) by (destruct Hp1; congruence). simpl.
  unfold append_piece, toStringPiece; simpl.
  rewrite (readable_layout _ _ _ _ Hl), wraps_small, wrapu_small by lia.
  assert (Hsrc : mem_read 0 (zlen c)
      (drop (Z.to_nat (readerIndex_ b)) (buffer_ b)) = Ok c).
  { destruct Hl as [-> _]; simpl. unfold zlen at 2. rewrite Nat2Z.id, drop_app_length.
    by apply (mem_read_app3 [] c q). }
  destruct (append_layout o1 p1 [] q1 c Ho1) as (o2 & p2 & q2 & Hap & Ho2 & Hqq & Hp2).
  { rewrite zlen_nil. unfold vec_max_size. lia. }
  assert (Hq2 : append (drop (Z.to_nat (readerIndex_ b)) (buffer_ b)) (zlen c) o1 = Ok o2).
  { unfold append in *. destruct (ensureWritableBytes (zlen c) o1); [|done].
    simpl in *. rewrite Hsrc. rewrite mem_read_all in Hap by done. done. }
  rewrite Hq2. simpl. exists o2, p2, q2. split_and!; [done|done| |destruct Hp2; congruence].
  lia.
Qed.

(** ** Integers in network order *)

Section integer_lemmas.
Context `{Host}.

(** What each [appendIntN]/[prependIntN] stores: the big-endian bytes of its
    argument, except for [appendInt64]. *)
Lemma be_bytes_stored n w z :
  w = 8 * Z.of_nat n → (0 < n)%nat →
  host_bytes n (wrapu w (wraps w (htobe n (wrapu w z)))) = be_bytes n z.
Proof.
  intros -> Hn. rewrite wrapu_wraps by lia.
  rewrite host_bytes_wrapu, host_bytes_htobe. apply be_bytes_wrapu.
Qed.

Lemma be_bytes_wrapu_more n w z :
  8 * Z.of_nat n <= w → be_bytes n (wrapu w z) = be_bytes n z.
Proof.
  intros Hw. rewrite <-(be_bytes_wrapu n (wrapu w z)), <-(be_bytes_wrapu n z).
  f_equal. unfold wrapu. apply Z.mod_mod_divide.
  exists (2 ^ (w - 8 * Z.of_nat n)). rewrite <-Z.pow_add_r by lia. f_equal. lia.
Qed.

Lemma host_bytes_htobe_signed n w z :
  w = 8 * Z.of_nat n → (0 < n)%nat → host_bytes n (wrapu w (wraps w (htobe n z))) = be_bytes n z.
Proof.
  intros -> Hn. by rewrite wrapu_wraps, host_bytes_wrapu, host_bytes_htobe by lia.
Qed.

Lemma appendInt32_eq x : appendInt32 x = append (be_bytes 4 x) 4.
Proof. unfold appendInt32, hostToNetwork32. by rewrite be_bytes_stored by lia. Qed.
Lemma prependInt32_eq x : prependInt32 x = prepend (be_bytes 4 x) 4.
Proof. unfold prependInt32, hostToNetwork32. by rewrite be_bytes_stored by lia. Qed.
Lemma prependInt64_eq x : prependInt64 x = prepend (be_bytes 8 x) 8.
Proof. unfold prependInt64, hostToNetwork64. by rewrite be_bytes_stored by lia. Qed.
Lemma appendInt16_eq x : appendInt16 x = append (be_bytes 2 x) 2.
Proof.
  unfold appendInt16, hostToNetwork16.
  by rewrite host_bytes_htobe_signed, be_bytes_wrapu_more by lia.
Qed.
Lemma prependInt16_eq x : prependInt16 x = prepend (be_bytes 2 x) 2.
Proof.
  unfold prependInt16, hostToNetwork16.
  by rewrite host_bytes_htobe_signed, be_bytes_wrapu_more by lia.
Qed.
Lemma appendInt8_eq x : appendInt8 x = append (be_bytes 1 x) 1.
Proof. done. Qed.
Lemma prependInt8_eq x : prependInt8 x = prepend (be_bytes 1 x) 1.
Proof. done. Qed.

(** What each [peekIntN] computes: the signed big-endian value of the first
    bytes of the content. *)
Lemma be_value_loaded n w (l : bytes) :
  w = 8 * Z.of_nat n → (0 < n)%nat → length l = n →
  htobe n (wrapu w (wraps w (host_value l))) = be_value l.
Proof.
  intros -> Hn Hl. rewrite wrapu_wraps by lia. rewrite wrapu_small.
  - rewrite <-Hl. apply htobe_host_value.
  - pose proof (host_value_range l) as Hr. unfold zlen in Hr. by rewrite Hl in Hr.
Qed.

Context (b : Buffer) (p c q : bytes) (Hl : layout b p c q).

Lemma peek_len n : Z.of_nat n <= zlen c → length (take n c) = n.
Proof using Type. unfold zlen. intros. rewrite length_take. lia. Qed.

Lemma peekInt64_layout : 8 <= zlen c → peekInt64 b = Ok (s64 (be_value (take 8 c))).
Proof using Hl.
  intros Hc. unfold peekInt64, networkToHost64. rewrite (readable_layout _ _ _ _ Hl).
  res_step. rewrite (peek_read _ _ _ _ Hl) by lia. simpl.
  by rewrite be_value_loaded by (lia || by apply (peek_len 8)).
Qed.
Lemma peekInt32_layout : 4 <= zlen c → peekInt32 b = Ok (s32 (be_value (take 4 c))).
Proof using Hl.
  intros Hc. unfold peekInt32, networkToHost32. rewrite (readable_layout _ _ _ _ Hl).
  res_step. rewrite (peek_read _ _ _ _ Hl) by lia. simpl.
  by rewrite be_value_loaded by (lia || by apply (peek_len 4)).
Qed.
Lemma peekInt16_layout : 2 <= zlen c → peekInt16 b = Ok (s16 (be_value (take 2 c))).
Proof using Hl.
  intros Hc. unfold peekInt16, networkToHost16. rewrite (readable_layout _ _ _ _ Hl).
  res_step. rewrite (peek_read _ _ _ _ Hl) by lia. simpl.
  by rewrite be_value_loaded by (lia || by apply (peek_len 2)).
Qed.
Lemma peekInt8_layout : 1 <= zlen c → peekInt8 b = Ok (s8 (be_value (take 1 c))).
Proof using Hl.
  intros Hc. unfold peekInt8. rewrite (readable_layout _ _ _ _ Hl).
  res_step. rewrite (peek_read _ _ _ _ Hl) by lia. simpl.
  destruct c as [|x c']; [by rewrite zlen_nil in Hc|]. simpl.
  unfold host_value, be_value. by destruct host_big.
Qed.
End integer_lemmas.

(** [readIntN] on content that starts with the network-order bytes of [x]. *)
Lemma readInt_layout `{Host} b p q n (x : Z) (c : bytes)
    (peekInt : Buffer → res Z) (conv : Z → Z) :
  layout b p (be_bytes n x ++ c) q →
  peekInt b = Ok (wraps (8 * Z.of_nat n) (be_value (take n (be_bytes n x ++ c)))) →
  (0 < n)%nat → - 2 ^ (8 * Z.of_nat n - 1) <= x < 2 ^ (8 * Z.of_nat n - 1) →
  conv x = x →
  ∃ b', (result ← peekInt b; b' ← retrieve (Z.of_nat n) b; Ok (conv result, b'))
        = Ok (x, b') ∧ buffer_ok b' ∧ content b' = c.
Proof.
  intros Hl Hpk Hn Hx Hconv. rewrite Hpk. simpl.
  rewrite take_app_length' by (by rewrite length_be_bytes).
  rewrite be_value_bytes, wraps_wrapu, wraps_small, Hconv by lia.
  destruct (retrieve_layout _ _ _ _ Hl (Z.of_nat n)) as (b' & p' & q' & -> & Hl').
  { rewrite zlen_app, zlen_be_bytes. zlen_lia. }
  simpl. exists b'. split; [done|].
  rewrite Nat2Z.id, drop_app_length' in Hl' by (by rewrite length_be_bytes).
  by apply layout_ok in Hl'.
Qed.

(** ** The byte queue the buffer promises to be *)

Inductive op :=
| OpAppend (d : bytes)
| OpRetrieve (n : Z)
| OpRetrieveAll
| OpRetrieveAsString (n : Z)
| OpRetrieveAllAsString
| OpUnwrite (n : Z)
| OpEnsureWritable (n : Z)
| OpShrink (reserve : Z).

(** One call on the buffer: its result string (empty when there is none). *)
Definition step (o : op) (b : Buffer) : res (bytes * Buffer) :=
  match o with
  | OpAppend d => b' ← append d (zlen d) b; Ok ([], b')
  | OpRetrieve n => b' ← retrieve n b; Ok ([], b')
  | OpRetrieveAll => Ok ([], retrieveAll b)
  | OpRetrieveAsString n => retrieveAsString n b
  | OpRetrieveAllAsString => retrieveAllAsString b
  | OpUnwrite n => b' ← unwrite n b; Ok ([], b')
  | OpEnsureWritable n => b' ← ensureWritableBytes n b; Ok ([], b')
  | OpShrink r => b' ← shrink r b; Ok ([], b')
  end.

(** The same call on a queue of bytes; [None] when its precondition fails. *)
Definition spec_step (o : op) (c : bytes) : option (bytes * bytes) :=
  match o with
  | OpAppend d => Some ([], c ++ d)
  | OpRetrieve n =>
      if n <=? zlen c then Some ([], drop (Z.to_nat n) c) else None
  | OpRetrieveAll => Some ([], [])
  | OpRetrieveAsString n =>
      if n <=? zlen c then Some (take (Z.to_nat n) c, drop (Z.to_nat n) c) else None
  | OpRetrieveAllAsString => Some (c, [])
  | OpUnwrite n =>
      if n <=? zlen c then Some ([], take (Z.to_nat (zlen c - n)) c) else None
  | OpEnsureWritable _ | OpShrink _ => Some ([], c)
  end.

(** The [size_t] argument of a call and how much it can enlarge the buffer. *)
Definition op_arg (o : op) : Z :=
  match o with
  | OpRetrieve n | OpRetrieveAsString n | OpUnwrite n
  | OpEnsureWritable n | OpShrink n => n
  | _ => 0
  end.
Definition op_growth (o : op) : Z :=
  match o with
  | OpAppend d => zlen d
  | OpEnsureWritable n | OpShrink n => n
  | _ => 0
  end.

(** The vector does not have to exceed [max_size()], and a shrunk buffer's
    length fits the [int] of a [StringPiece]. *)
Definition op_fits (o : op) (b : Buffer) : Prop :=
  0 <= op_arg o ∧ kCheapPrepend + writerIndex_ b + op_growth o <= vec_max_size ∧
  match o with OpShrink _ => zlen (content b) < 2 ^ 31 | _ => True end.

Definition step_ok (o : op) (b : Buffer) : Prop :=
  match spec_step o (content b) with
  | Some (out, c') => ∃ b', step o b = Ok (out, b') ∧ buffer_ok b' ∧ content b' = c' ∧
      writerIndex_ b' <= Z.max (writerIndex_ b) (kCheapPrepend + zlen (content b)) + op_growth o
  | None => step o b = Err AssertFailed
  end.

Lemma layout_writer b p c q : layout b p c q → writerIndex_ b = zlen p + zlen c.
Proof. by intros [-> _]. Qed.

Lemma retrieve_bad b len : (len <=? readableBytes b) = false → retrieve len b = Err AssertFailed.
Proof. intros E. unfold retrieve. by rewrite E. Qed.

(** Closes a case of the simulation from the layout of the new buffer. *)
Ltac step_done Hl Hl' :=
  eexists; split; [reflexivity|];
  destruct (layout_ok _ _ _ _ Hl') as [? Hc']; split; [done|]; split; [exact Hc'|];
  rewrite (layout_writer _ _ _ _ Hl), (layout_writer _ _ _ _ Hl');
  rewrite ?zlen_app; simpl.

Lemma zlen_drop_le {A} n (l : list A) : 0 <= n → zlen (drop (Z.to_nat n) l) <= zlen l.
Proof. unfold zlen. rewrite length_drop. lia. Qed.
Lemma zlen_take_le {A} n (l : list A) : zlen (take n l) <= zlen l.
Proof. unfold zlen. rewrite length_take. lia. Qed.

Lemma retrieve_writer b b' len :
  buffer_ok b → 0 <= len → retrieve len b = Ok b' →
  writerIndex_ b' <= Z.max (writerIndex_ b) kCheapPrepend.
Proof.
  unfold retrieve. intros Hok Hlen Hr. res_inv. subst. destruct (_ <? _); simpl; lia.
Qed.

Lemma step_refines_aux o b : buffer_ok b → op_fits o b → step_ok o b.
Proof.
  intros Hok (Harg & Hfit & Hsh).
  destruct (layout_of_ok b Hok) as (p & q & Hl). unfold step_ok.
  pose proof (layout_bounds _ _ _ _ Hl) as Hb. rewrite (layout_writer _ _ _ _ Hl) in Hfit.
  remember (content b) as c eqn:Ec. unfold kCheapPrepend in Hfit.
  assert (Hret : ∀ n, 0 <= n <= zlen c → ∃ b', retrieve n b = Ok b' ∧ buffer_ok b' ∧
      content b' = drop (Z.to_nat n) c ∧
      writerIndex_ b' <= Z.max (writerIndex_ b) (kCheapPrepend + zlen c) + 0).
  { intros n Hn. destruct (retrieve_layout _ _ _ _ Hl n Hn) as (b' & p' & q' & E & Hl').
    exists b'. destruct (layout_ok _ _ _ _ Hl') as [? ?]. split_and!; [done..|].
    pose proof (retrieve_writer b b' n Hok (proj1 Hn) E). lia. }
  destruct o; simpl in *.
  - destruct (append_layout b p c q d Hl) as (b' & p' & q' & -> & Hl' & _ & Hp'); [lia|].
    simpl. step_done Hl Hl'. unfold kCheapPrepend in *. destruct Hp' as [->|Hp']; lia.
  - destruct (Z.leb_spec n (zlen c)).
    + destruct (Hret n) as (b' & -> & ? & ? & ?); [lia|]. eexists; split; eauto.
    + rewrite retrieve_bad; [done|]. rewrite (readable_layout _ _ _ _ Hl). bsolve; lia.
  - destruct (retrieveAll_layout _ _ _ _ Hl) as (p' & q' & Hl' & Hp').
    step_done Hl Hl'. rewrite zlen_nil. unfold kCheapPrepend in *. lia.
  - unfold retrieveAsString. rewrite (readable_layout _ _ _ _ Hl).
    destruct (Z.leb_spec n (zlen c)); [|done]. simpl.
    rewrite (peek_read _ _ _ _ Hl) by lia. simpl.
    destruct (Hret n) as (b' & -> & ? & ? & ?); [lia|]. eexists; split; eauto.
  - unfold retrieveAllAsString, retrieveAsString. rewrite (readable_layout _ _ _ _ Hl).
    res_step. rewrite (peek_read _ _ _ _ Hl) by lia. simpl.
    destruct (Hret (zlen c)) as (b' & -> & ? & Hd & ?); [lia|]. simpl.
    rewrite take_ge by (unfold zlen; lia).
    exists b'. split_and!; auto. rewrite Hd. apply drop_ge. unfold zlen. lia.
  - destruct (Z.leb_spec n (zlen c)).
    + destruct (unwrite_layout _ _ _ _ n Hl) as (b' & q' & -> & Hl'); [lia|]. simpl.
      step_done Hl Hl'. pose proof (zlen_take_le (Z.to_nat (zlen c - n)) c). lia.
    + unfold unwrite. rewrite (readable_layout _ _ _ _ Hl).
      by destruct (Z.leb_spec n (zlen c)); [lia|].
  - destruct (ensureWritable_layout _ _ _ _ n Hl)
      as (b' & p' & q' & -> & Hl' & _ & _ & Hp'); [lia|]. simpl.
    step_done Hl Hl'. unfold kCheapPrepend in *. destruct Hp' as [->|Hp']; lia.
  - destruct (shrink_layout _ _ _ _ reserve Hl)
      as (b' & p' & q' & -> & Hl' & _ & Hp'); [lia.. | unfold kCheapPrepend; lia |].
    simpl. step_done Hl Hl'. lia.
Qed.

Fixpoint run (os : list op) (b : Buffer) : res (list bytes * Buffer) :=
  match os with
  | [] => Ok ([], b)
  | o :: os => '(out, b') ← step o b; '(outs, b'') ← run os b'; Ok (out :: outs, b'')
  end.
Fixpoint spec_run (os : list op) (c : bytes) : option (list bytes * bytes) :=
  match os with
  | [] => Some ([], c)
  | o :: os =>
      match spec_step o c with
      | Some (out, c') =>
          match spec_run os c' with
          | Some (outs, c'') => Some (out :: outs, c'')
          | None => None
          end
      | None => None
      end
  end.
Definition growth (os : list op) : Z := foldr (λ o g, op_growth o + g) 0 os.

Lemma op_growth_nonneg o : 0 <= op_arg o → 0 <= op_growth o.
Proof. destruct o; simpl; intros; zlen_lia. Qed.

Lemma growth_nonneg os : Forall (λ o, 0 <= op_arg o) os → 0 <= growth os.
Proof.
  unfold growth. induction 1 as [|o os Ho Hos IH]; simpl; [lia|].
  pose proof (op_growth_nonneg o Ho). lia.
Qed.

Lemma spec_step_len o c out c' :
  0 <= op_arg o → spec_step o c = Some (out, c') → zlen c' <= zlen c + op_growth o.
Proof.
  intros Harg. pose proof (zlen_nonneg c).
  destruct o; simpl in *; try case_match; intros [=]; subst;
    rewrite ?zlen_app, ?zlen_nil; try lia.
  - pose proof (zlen_drop_le n c). lia.
  - pose proof (zlen_drop_le n c). lia.
  - pose proof (zlen_take_le (Z.to_nat (zlen c - n)) c). lia.
Qed.

Lemma run_refines_aux os : ∀ b t,
  buffer_ok b → Forall (λ o, 0 <= op_arg o) os →
  writerIndex_ b <= kCheapPrepend + t → zlen (content b) <= t → t + growth os < 2 ^ 31 →
  match spec_run os (content b) with
  | Some (outs, c) => ∃ b', run os b = Ok (outs, b') ∧ buffer_ok b' ∧ content b' = c
  | None => run os b = Err AssertFailed
  end.
Proof.
  induction os as [|o os IH]; intros b t Hok Hargs Hw Hc Ht; [simpl; eauto|].
  inversion_clear Hargs as [|?? Ho Hos]. pose proof (op_growth_nonneg o Ho).
  pose proof (growth_nonneg os Hos). cbn [growth foldr] in Ht. fold (growth os) in Ht.
  assert (Hfit : op_fits o b).
  { unfold op_fits, vec_max_size, kCheapPrepend in *. split; [done|]. split; [lia|].
    destruct o; try done. lia. }
  pose proof (step_refines_aux o b Hok Hfit) as Hstep. unfold step_ok in Hstep.
  cbn [run spec_run]. destruct (spec_step o (content b)) as [[out c']|] eqn:E.
  - destruct Hstep as (b' & -> & Hok' & Hc' & Hw').
    pose proof (spec_step_len _ _ _ _ Ho E). simpl.
    specialize (IH b' (t + op_growth o) Hok' Hos ltac:(lia) ltac:(congruence || (rewrite Hc'; lia)) ltac:(lia)).
    rewrite Hc' in IH. destruct (spec_run os c') as [[outs c'']|].
    + destruct IH as (b'' & -> & ? & ?). simpl. eauto.
    + by rewrite IH.
  - by rewrite Hstep.
Qed.

(** ** Searching *)

Lemma search_spec (pat hay : bytes) :
  match search pat hay with
  | Some i => (∃ suf, hay = take i hay ++ pat ++ suf) ∧ (i <= length hay)%nat ∧
      ∀ pre suf, hay = pre ++ pat ++ suf → (i <= length pre)%nat
  | None => ∀ pre suf, hay ≠ pre ++ pat ++ suf
  end.
Proof.
  induction hay as [|x hay IH]; cbn [search]; case_bool_decide as Hp.
  - destruct Hp as [suf Hp]. split; [by exists suf|]. split; [done|]. intros. lia.
  - intros pre suf E. symmetry in E. apply app_eq_nil in E as [_ E].
    apply app_eq_nil in E as [-> _]. by destruct Hp; exists [].
  - destruct Hp as [suf Hp]. split; [by exists suf|]. split; [lia|]. intros. lia.
  - assert (Hno : ∀ pre suf, x :: hay = pre ++ pat ++ suf →
        ∃ pre', pre = x :: pre' ∧ hay = pre' ++ pat ++ suf).
    { intros [|y pre] suf E; simpl in E; [destruct Hp; by exists suf|].
      injection E as -> ->. eauto. }
    destruct (search pat hay) as [i|]; simpl.
    + destruct IH as ((suf & Hsuf) & Hi & Hmin). split; [exists suf; by f_equal|].
      split; [lia|]. intros pre suf' (pre' & -> & E')%Hno. apply Hmin in E'. simpl. lia.
    + intros pre suf' (pre' & -> & E')%Hno. by eapply IH.
Qed.

Lemma memchr_search ch hay : memchr ch hay = search [ch] hay.
Proof.
  induction hay as [|x hay IH]; cbn [memchr search]; [done|]. rewrite IH.
  rewrite (bool_decide_ext (x = ch) ([ch] `prefix_of` x :: hay)); [done|].
  split; [intros ->; by exists hay | intros [s E]; by injection E].
Qed.

(** What it means for [r] to be the first occurrence of [pat] in the content,
    [r] being a pointer into the buffer or [NULL]. *)
Definition first_match (pat : bytes) (b : Buffer) (r : option Z) : Prop :=
  match r with
  | Some pos => ∃ pre suf, content b = pre ++ pat ++ suf ∧ pos = peek b + zlen pre ∧
      ∀ pre' suf', content b = pre' ++ pat ++ suf' → zlen pre <= zlen pre'
  | None => ∀ pre suf, content b ≠ pre ++ pat ++ suf
  end.

Lemma first_match_search pat b :
  first_match pat b ((λ i, peek b + Z.of_nat i) <$> search pat (content b)).
Proof.
  pose proof (search_spec pat (content b)) as Hs.
  destruct (search pat (content b)) as [i|]; simpl in *; [|done].
  destruct Hs as ((suf & Hsuf) & Hi & Hmin).
  exists (take i (content b)), suf. unfold zlen. rewrite length_take.
  split; [done|]. split; [f_equal; lia|]. intros pre' suf' E%Hmin. lia.
Qed.

Lemma search_lt pat hay i :
  (0 < length pat)%nat → search pat hay = Some i → (i < length hay)%nat.
Proof.
  intros Hp Hs. pose proof (search_spec pat hay) as H. rewrite Hs in H.
  destruct H as ((suf & H) & Hi & _). apply (f_equal length) in H.
  rewrite !length_app, length_take in H. lia.
Qed.

Lemma content_read b : buffer_ok b →
  mem_read (peek b) (beginWrite b - peek b) (buffer_ b) = Ok (content b).
Proof.
  intros (Hr & Hw & Hs). unfold mem_read, peek, beginWrite.
  by rewrite guard_or_true by (bsolve; lia).
Qed.

Lemma content_len b : buffer_ok b → zlen (content b) = writerIndex_ b - readerIndex_ b.
Proof. intros (Hr & Hw & Hs). apply zlen_slice; lia. Qed.

(** ** Properties *)

Definition readv_total (vec : list Z) : Z := foldr Z.add 0 vec.

(** [readv(2)] fills at most the space the vectors describe. *)
Definition readv_ok (readv : list Z → sysret) : Prop :=
  ∀ vec d, Forall (λ n, 0 <= n) vec → readv vec = SysOk d → zlen d <= readv_total vec.

Lemma readFd_vec_nonneg b : Forall (λ n, 0 <= n) (readFd_vec b).
Proof.
  unfold readFd_vec, extrabuf_size, writableBytes.
  pose proof (wrapu_range 64 (zlen (buffer_ b) - writerIndex_ b)).
  case_match; repeat constructor; lia.
Qed.

Lemma readFd_layout readv b d :
  buffer_ok b → readv_ok readv →
  zlen (buffer_ b) + extrabuf_size <= vec_max_size →
  readv (readFd_vec b) = SysOk d →
  ∃ b', readFd readv b = Ok (zlen d, None, b') ∧ buffer_ok b' ∧ content b' = content b ++ d ∧
        (writableBytes b < extrabuf_size → zlen d <= 2 * extrabuf_size - 1).
Proof.
  intros Hok Hrv Hfit Hd. destruct (layout_of_ok b Hok) as (p & q & Hl).
  pose proof (layout_bounds _ _ _ _ Hl) as Hb. unfold readFd.
  specialize (Hrv _ d (readFd_vec_nonneg b) Hd). rewrite Hd. unfold readFd_vec in Hrv.
  rewrite (writable_layout _ _ _ _ Hl) in *.
  unfold kCheapPrepend, extrabuf_size, vec_max_size in *.
  assert (Hbound : (zlen q < 65536 → zlen d <= 2 * 65536 - 1) ∧ zlen d <= zlen q + 65536).
  { destruct (Z.ltb_spec (zlen q) 65536); simpl in Hrv; lia. }
  remember (content b) as c eqn:Ec. clear Ec.
  set (d1 := take (Z.to_nat (zlen q)) d). set (d2 := drop (Z.to_nat (zlen q)) d).
  assert (H1 : zlen d1 = Z.min (zlen q) (zlen d)) by (unfold zlen, d1; rewrite length_take; unfold zlen; lia).
  assert (H2 : zlen d2 = zlen d - zlen d1) by (unfold zlen, d1, d2; rewrite length_take, length_drop; lia).
  assert (H12 : d1 ++ d2 = d) by apply take_drop.
  destruct (fill_layout b p c q d1 Hl) as (v & q' & -> & Hv & Hl' & Hq'); [lia|]. simpl.
  pose proof (layout_writer _ _ _ _ Hl) as Hw. pose proof (zlen_nonneg d).
  destruct (Z.leb_spec (zlen d) (zlen q)) as [Hle|Hgt]; simpl.
  - assert (d2 = []) as E2 by (apply zlen_zero_inv; lia). rewrite E2, app_nil_r in H12.
    rewrite wrapu_small by lia. rewrite H12 in Hl'. eexists. split; [done|].
    destruct (layout_ok _ _ _ _ Hl') as [? ->]. tauto.
  - rewrite wrapu_small by lia. replace (zlen d - zlen q) with (zlen d2) by lia.
    replace (zlen v) with (writerIndex_ b + zlen d1)
      by (rewrite Hv; destruct Hl as [-> _]; simpl in *; zlen_lia).
    destruct (append_layout _ _ _ _ d2 Hl') as (b' & p' & q'' & -> & Hl'' & _).
    { destruct Hl as [-> _]. unfold vec_max_size. simpl in *. zlen_lia. }
    simpl. eexists. split; [done|]. destruct (layout_ok _ _ _ _ Hl'') as [? ->].
    rewrite <-app_assoc, H12. tauto.
Qed.

(** C1: From a freshly constructed buffer, any sequence of [append], [retrieve],
    [retrieveAll], [retrieveAsString], [retrieveAllAsString], [unwrite],
    [ensureWritableBytes] and [shrink] calls with non-negative arguments and less than
    2^31 bytes of growth behaves as the same calls on a queue of bytes: the same
    strings are returned and the same bytes remain, with no internal assertion,
    bounds check or allocation failing, and a call whose precondition the queue
    refuses fails its [assert]. *)
Theorem buffer_refines_queue (b : Buffer) (os : list op) :
  newBuffer kInitialSize = Ok b →
  Forall (λ o, 0 <= op_arg o) os → growth os < 2 ^ 31 →
  match spec_run os [] with
  | Some (outs, c) => ∃ b', run os b = Ok (outs, b') ∧ buffer_ok b' ∧ content b' = c
  | None => run os b = Err AssertFailed
  end.
Proof.
  intros Hb Hargs Hg.
  destruct (newBuffer_layout kInitialSize) as (b0 & p & q & E & Hl & Hp & _); [done..|].
  rewrite E in Hb. injection Hb as <-. destruct (layout_ok _ _ _ _ Hl) as [Hok Hc].
  pose proof (run_refines_aux os b0 0 Hok Hargs) as H. rewrite Hc in H. apply H; [|done|lia].
  rewrite (layout_writer _ _ _ _ Hl), Hp, zlen_nil. lia.
Qed.

Definition sample_ops : list op :=
  [OpAppend (str "GET / HTTP"); OpRetrieve 4; OpShrink 16; OpAppend (str "/1.1");
   OpUnwrite 2; OpRetrieveAsString 3; OpRetrieveAllAsString].

Lemma buffer_refines_queue_witness :
  ∃ b b', newBuffer kInitialSize = Ok b ∧
    run sample_ops b = Ok ([[]; []; []; []; []; str "/ H"; str "TTP/1"], b').
Proof.
  assert (∃ b, newBuffer kInitialSize = Ok b) as [b Hb].
  { eexists. vm_compute. reflexivity. }
  pose proof (buffer_refines_queue b sample_ops Hb) as H.
  destruct H as (b' & Hrun & _).
  - repeat constructor; vm_compute; discriminate.
  - vm_compute. reflexivity.
  - exists b, b'. split; [done|]. exact Hrun.
Defined.

(** One call on any well-formed buffer, in whatever state earlier calls left it:
    it keeps the invariant, returns and leaves what the byte queue does, and fails
    its [assert] exactly when the queue refuses the call. In particular [makeSpace]'s
    internal assertion never fails, whether it grows the vector or moves the
    readable bytes to the front. *)
Theorem buffer_step_refines (o : op) (b : Buffer) :
  buffer_ok b → op_fits o b →
  match spec_step o (content b) with
  | Some (out, c') => ∃ b', step o b = Ok (out, b') ∧ buffer_ok b' ∧ content b' = c'
  | None => step o b = Err AssertFailed
  end.
Proof.
  intros Hok Hfit. pose proof (step_refines_aux o b Hok Hfit) as H. unfold step_ok in H.
  destruct (spec_step o (content b)) as [[out c']|]; [|done].
  destruct H as (b' & ? & ? & ? & _). eauto.
Qed.

Definition sample_buffer : Buffer := mkBuffer (str "0123456789abcdef") 12 14.

Lemma buffer_step_refines_witness :
  ∃ b', step (OpAppend (str "XYZ")) sample_buffer = Ok ([], b') ∧ buffer_ok b' ∧
        content b' = str "cdXYZ".
Proof.
  apply (buffer_step_refines (OpAppend (str "XYZ")) sample_buffer).
  - by vm_compute.
  - split_and!; by vm_compute.
Defined.

(** C33: [readFd] appends exactly the bytes [readv(2)] delivered to the readable content,
    both when they fit into the writable space and when part of them went through
    the 64 KiB stack buffer, returns their number, and never reads more than
    128 KiB - 1 bytes when the stack buffer is in use; on an error it returns -1,
    reports [errno] and leaves the buffer alone. *)
Theorem readFd_appends (readv : list Z → sysret) (b : Buffer) :
  buffer_ok b → zlen (buffer_ b) + extrabuf_size <= vec_max_size →
  readv_ok readv →
  match readv (readFd_vec b) with
  | SysOk d => ∃ b', readFd readv b = Ok (zlen d, None, b') ∧ buffer_ok b' ∧
      content b' = content b ++ d ∧
      (writableBytes b < extrabuf_size → zlen d <= 2 * extrabuf_size - 1)
  | SysErr e => readFd readv b = Ok (-1, Some e, b)
  end.
Proof.
  intros Hok Hfit Hrv. destruct (readv (readFd_vec b)) as [d|e] eqn:E.
  - by apply readFd_layout.
  - unfold readFd. by rewrite E.
Qed.

(** A peer that has sent "hello": [readv] delivers what fits. *)
Definition hello_readv (vec : list Z) : sysret :=
  SysOk (take (Z.to_nat (readv_total vec)) (str "hello")).

Lemma readFd_appends_witness :
  ∃ b', readFd hello_readv sample_buffer = Ok (5, None, b') ∧ content b' = str "cdhello".
Proof.
  pose proof (readFd_appends hello_readv sample_buffer) as H.
  destruct H as (b' & E & _ & Hc & _).
  - by vm_compute.
  - by vm_compute.
  - intros vec d Hvec [= <-]. unfold zlen. rewrite length_take.
    assert (0 <= readv_total vec) by (induction Hvec; simpl; lia). lia.
  - exists b'. split; [exact E | exact Hc].
Defined.

(** Every [prependIntN] is undone by the matching [readIntN] on a host of either
    byte order: on a buffer with room before its content, prepending an intN and
    reading it back gives the integer and the content as it was. *)
Theorem prependInt_readInt `{Host} (b : Buffer) (x : Z) :
  buffer_ok b →
  (8 <= prependableBytes b → - 2 ^ 63 <= x < 2 ^ 63 →
   ∃ b', prependInt64 x b ≫= readInt64 = Ok (x, b') ∧ buffer_ok b' ∧ content b' = content b) ∧
  (4 <= prependableBytes b → - 2 ^ 31 <= x < 2 ^ 31 →
   ∃ b', prependInt32 x b ≫= readInt32 = Ok (x, b') ∧ buffer_ok b' ∧ content b' = content b) ∧
  (2 <= prependableBytes b → - 2 ^ 15 <= x < 2 ^ 15 →
   ∃ b', prependInt16 x b ≫= readInt16 = Ok (x, b') ∧ buffer_ok b' ∧ content b' = content b) ∧
  (1 <= prependableBytes b → - 2 ^ 7 <= x < 2 ^ 7 →
   ∃ b', prependInt8 x b ≫= readInt8 = Ok (x, b') ∧ buffer_ok b' ∧ content b' = content b).
Proof.
  intros Hok. destruct (layout_of_ok b Hok) as (p & q & Hl).
  rewrite (prependable_layout _ _ _ _ Hl).
  assert (Hpre : ∀ n, Z.of_nat n <= zlen p → ∃ b' p',
      prepend (be_bytes n x) (Z.of_nat n) b = Ok b' ∧
      layout b' p' (be_bytes n x ++ content b) q).
  { intros n Hn. rewrite <-(zlen_be_bytes n x) in *.
    destruct (prepend_layout _ _ _ _ _ Hl Hn) as (b' & p' & ? & ? & _). eauto. }
  assert (Hge : ∀ n, Z.of_nat n <= zlen (be_bytes n x ++ content b))
    by (intros; rewrite zlen_app, zlen_be_bytes; zlen_lia).
  split_and!; intros Hroom Hx.
  - destruct (Hpre 8%nat Hroom) as (b' & p' & E & Hl'). rewrite prependInt64_eq.
    setoid_rewrite E. apply (readInt_layout _ _ _ 8 x _ _ id Hl'); [|lia|exact Hx|done].
    exact (peekInt64_layout _ _ _ _ Hl' (Hge 8%nat)).
  - destruct (Hpre 4%nat Hroom) as (b' & p' & E & Hl'). rewrite prependInt32_eq.
    setoid_rewrite E. apply (readInt_layout _ _ _ 4 x _ _ s32 Hl'); [|lia|exact Hx|by apply wraps_small].
    exact (peekInt32_layout _ _ _ _ Hl' (Hge 4%nat)).
  - destruct (Hpre 2%nat Hroom) as (b' & p' & E & Hl'). rewrite prependInt16_eq.
    setoid_rewrite E. apply (readInt_layout _ _ _ 2 x _ _ id Hl'); [|lia|exact Hx|done].
    exact (peekInt16_layout _ _ _ _ Hl' (Hge 2%nat)).
  - destruct (Hpre 1%nat Hroom) as (b' & p' & E & Hl'). rewrite prependInt8_eq.
    setoid_rewrite E. apply (readInt_layout _ _ _ 1 x _ _ id Hl'); [|lia|exact Hx|done].
    exact (peekInt8_layout _ _ _ _ Hl' (Hge 1%nat)).
Qed.

Lemma prependInt_readInt_witness :
  let host : Host := false in
  ∃ b', prependInt64 (-2) sample_buffer ≫= readInt64 = Ok (-2, b') ∧
        content b' = str "cd".
Proof.
  intros host.
  destruct (prependInt_readInt sample_buffer (-2)) as [H64 _].
  - by vm_compute.
  - destruct H64 as (b' & E & _ & Hc); [by vm_compute | lia |].
    exists b'. split; [exact E | exact Hc].
Defined.

(** Integers come out of the buffer in the order they were appended: after
    [appendInt32] (16, 8) and retrieval of everything that was there before, the
    matching [readIntN] returns the integer and leaves the buffer empty. *)
Theorem appendInt_readInt `{Host} (b : Buffer) (x : Z) :
  buffer_ok b → kCheapPrepend + writerIndex_ b + 8 <= vec_max_size →
  let n := zlen (content b) in
  (- 2 ^ 31 <= x < 2 ^ 31 → ∃ b',
     (appendInt32 x b ≫= retrieve n) ≫= readInt32 = Ok (x, b') ∧ content b' = []) ∧
  (- 2 ^ 15 <= x < 2 ^ 15 → ∃ b',
     (appendInt16 x b ≫= retrieve n) ≫= readInt16 = Ok (x, b') ∧ content b' = []) ∧
  (- 2 ^ 7 <= x < 2 ^ 7 → ∃ b',
     (appendInt8 x b ≫= retrieve n) ≫= readInt8 = Ok (x, b') ∧ content b' = []).
Proof.
  intros Hok Hfit n. destruct (layout_of_ok b Hok) as (p & q & Hl).
  rewrite (layout_writer _ _ _ _ Hl) in Hfit. unfold kCheapPrepend in Hfit.
  assert (Happ : ∀ k, (k <= 8)%nat → ∃ b' p' q',
      append (be_bytes k x) (Z.of_nat k) b ≫= retrieve n = Ok b' ∧
      layout b' p' (be_bytes k x ++ []) q').
  { intros k Hk. rewrite <-(zlen_be_bytes k x).
    destruct (append_layout _ _ _ _ (be_bytes k x) Hl) as (b1 & p1 & q1 & -> & Hl1 & _).
    { rewrite zlen_be_bytes. lia. }
    simpl. destruct (retrieve_layout _ _ _ _ Hl1 n) as (b2 & p2 & q2 & -> & Hl2);
      [subst n; zlen_lia|].
    exists b2, p2, q2. split; [done|]. rewrite app_nil_r. subst n.
    unfold zlen in Hl2. by rewrite Nat2Z.id, drop_app_length in Hl2. }
  assert (Hge : ∀ k, Z.of_nat k <= zlen (be_bytes k x ++ []))
    by (intros; by rewrite app_nil_r, zlen_be_bytes).
  split_and!; intros Hx.
  - destruct (Happ 4%nat) as (b' & p' & q' & E & Hl'); [lia|]. rewrite appendInt32_eq.
    setoid_rewrite E. destruct (readInt_layout _ _ _ 4 x _ peekInt32 s32 Hl')
      as (b2 & E2 & _ & Hc); [|lia|exact Hx|by apply wraps_small|by exists b2].
    exact (peekInt32_layout _ _ _ _ Hl' (Hge 4%nat)).
  - destruct (Happ 2%nat) as (b' & p' & q' & E & Hl'); [lia|]. rewrite appendInt16_eq.
    setoid_rewrite E. destruct (readInt_layout _ _ _ 2 x _ peekInt16 id Hl')
      as (b2 & E2 & _ & Hc); [|lia|exact Hx|done|by exists b2].
    exact (peekInt16_layout _ _ _ _ Hl' (Hge 2%nat)).
  - destruct (Happ 1%nat) as (b' & p' & q' & E & Hl'); [lia|]. rewrite appendInt8_eq.
    setoid_rewrite E. destruct (readInt_layout _ _ _ 1 x _ peekInt8 id Hl')
      as (b2 & E2 & _ & Hc); [|lia|exact Hx|done|by exists b2].
    exact (peekInt8_layout _ _ _ _ Hl' (Hge 1%nat)).
Qed.

Lemma appendInt_readInt_witness :
  let host : Host := false in
  ∃ b', (appendInt32 (-5) sample_buffer ≫= retrieve 2) ≫= readInt32 = Ok (-5, b') ∧
        content b' = [].
Proof.
  intros host.
  destruct (appendInt_readInt sample_buffer (-5)) as [H32 _].
  - by vm_compute.
  - by vm_compute.
  - apply H32. lia.
Defined.

Lemma appendInt64_bytes x :
  @appendInt64 false x = append ([Zbyte (x / 256); Zbyte x] ++ replicate 6 "000"%char) 8.
Proof.
  unfold appendInt64, hostToNetwork16. f_equal.
  rewrite wrapu_wraps by lia. rewrite (host_bytes_wrapu 8 : ∀ z, _).
  unfold htobe, host_big, host_bytes. rewrite be_bytes_wrapu_more by lia.
  change (be_bytes 2 x) with [Zbyte (x / 256); Zbyte x].
  pose proof (byteZ_range (Zbyte x)) as Hx. pose proof (byteZ_range (Zbyte (x / 256))) as Hy.
  cbn [le_value le_bytes]. set (a := byteZ (Zbyte (x / 256))) in *. set (c := byteZ (Zbyte x)) in *.
  replace ((a + 256 * (c + 256 * 0)) / 256) with c
    by (rewrite Z.mul_0_r, Z.add_0_r, (Z.mul_comm 256), Z.div_add, Z.div_small; lia).
  rewrite (Z.div_small c 256) by lia.
  replace (Zbyte (a + 256 * (c + 256 * 0))) with (Zbyte a)
    by (rewrite <-(Zbyte_mod (a + _)), (Z.mul_comm 256), Z.mod_add, Zbyte_mod by lia; done).
  subst a c. by rewrite !Zbyte_byteZ.
Qed.

(** [appendInt64] does not store its argument: it converts with
    [hostToNetwork16], so on a little-endian host the next [readInt64] of that
    position returns the low 16 bits of the argument moved to the top of the
    word, for every argument. *)
Theorem appendInt64_truncates (b : Buffer) (x : Z) :
  buffer_ok b → kCheapPrepend + writerIndex_ b + 8 <= vec_max_size →
  ∃ b', (@appendInt64 false x b ≫= retrieve (zlen (content b))) ≫= @readInt64 false
        = Ok (s64 ((x mod 2 ^ 16) * 2 ^ 48), b') ∧ content b' = [].
Proof.
  intros Hok Hfit. destruct (layout_of_ok b Hok) as (p & q & Hl).
  rewrite (layout_writer _ _ _ _ Hl) in Hfit. unfold kCheapPrepend in Hfit.
  rewrite appendInt64_bytes. set (d := [_; _] ++ _).
  destruct (append_layout _ _ _ _ d Hl) as (b1 & p1 & q1 & E1 & Hl1 & _).
  { change (zlen d) with 8. lia. }
  change (zlen d) with 8 in E1. rewrite E1. cbn [mbind res_bind].
  destruct (retrieve_layout _ _ _ _ Hl1 (zlen (content b))) as (b2 & p2 & q2 & -> & Hl2);
    [zlen_lia|]. cbn [mbind res_bind].
  unfold zlen in Hl2. rewrite Nat2Z.id, drop_app_length in Hl2.
  unfold readInt64. rewrite (peekInt64_layout _ _ _ _ Hl2) by done. cbn [mbind res_bind].
  destruct (retrieve_layout _ _ _ _ Hl2 8) as (b3 & p3 & q3 & E3 & Hl3); [done|].
  unfold retrieveInt64. rewrite E3. cbn [mbind res_bind]. exists b3.
  destruct (layout_ok _ _ _ _ Hl3) as [_ Hc]. split; [|exact Hc].
  do 2 f_equal. change (take 8 d) with d.
  unfold be_value, d. cbn [app replicate reverse rev_append le_value].
  rewrite !byteZ_Zbyte. change (byteZ "000") with 0.
  change (2 ^ 16) with (256 * 256). rewrite (Z.rem_mul_r x 256 256) by lia.
  f_equal. lia.
Qed.

Lemma appendInt64_truncates_witness :
  ∃ b', (@appendInt64 false 1 sample_buffer ≫= retrieve 2) ≫= @readInt64 false
        = Ok (2 ^ 48, b') ∧ content b' = [].
Proof.
  destruct (appendInt64_truncates sample_buffer 1) as (b' & E & Hc).
  - by vm_compute.
  - by vm_compute.
  - exists b'. split; [exact E | exact Hc].
Defined.

(** The two delimiter searches: on a well-formed buffer [findCRLF] and [findEOL]
    read only readable bytes and return the first position of CR LF, respectively LF,
    in the content, or [NULL] exactly when the content has none. *)
Theorem find_first_delimiter (b : Buffer) :
  buffer_ok b →
  (∃ r, findCRLF b = Ok r ∧ first_match kCRLF b r) ∧
  (∃ r, findEOL b = Ok r ∧ first_match ["010"%char] b r).
Proof.
  intros Hok. pose proof (content_len b Hok) as Hlen.
  pose proof (content_read b Hok) as Hrd. split.
  - unfold findCRLF, searchCRLF. rewrite Hrd. simpl. eexists. split; [done|].
    pose proof (first_match_search kCRLF b) as Hm.
    destruct (search kCRLF (content b)) as [i|] eqn:E; simpl in *.
    + apply search_lt in E; [|simpl; lia]. unfold zlen, beginWrite, peek in *.
      by rewrite (proj2 (Z.eqb_neq _ _)) by lia.
    + by rewrite Z.eqb_refl.
  - unfold findEOL.
    replace (readableBytes b) with (beginWrite b - peek b).
    + rewrite Hrd. simpl. rewrite memchr_search. eexists. split; [done|].
      apply first_match_search.
    + destruct Hok as (? & ? & Hs). unfold readableBytes, beginWrite, peek, vec_max_size in *.
      rewrite wrapu_small; lia.
Qed.

Lemma find_first_delimiter_witness :
  ∃ r, findCRLF (mkBuffer (str "........GET /" ++ kCRLF ++ str "Host" ++ kCRLF) 8 21) = Ok r ∧
       first_match kCRLF (mkBuffer (str "........GET /" ++ kCRLF ++ str "Host" ++ kCRLF) 8 21) r.
Proof.
  apply (find_first_delimiter (mkBuffer (str "........GET /" ++ kCRLF ++ str "Host" ++ kCRLF) 8 21)).
  by vm_compute.
Defined.
