(* ===== verification/StringPiece.v ===== *)
(** * String pieces (fishnet/base/string_piece.h)

    A pointer into a character array and a length, with the comparisons that
    [memcmp] and the lengths give. *)

From S2P Require Import Prelude.
Local Open Scope Z_scope.

(** [mem] is the array [ptr_] points into, from [ptr_] on. *)
Record StringPiece := mkStringPiece { mem : bytes; length_ : Z }.

(** ** Operations *)

Definition newStringPiece : StringPiece := mkStringPiece [] 0.
(** From a C string, a [string] and a range. *)
Definition fromCString (s : bytes) : StringPiece := mkStringPiece s (s32 (zlen (c_str s))).
Definition fromString (s : bytes) : StringPiece := mkStringPiece s (s32 (zlen s)).
Definition fromRange (offset : bytes) (len : Z) : StringPiece := mkStringPiece offset len.

Definition size (p : StringPiece) : Z := length_ p.
Definition empty (p : StringPiece) : bool := length_ p =? 0.
Definition clear (p : StringPiece) : StringPiece := mkStringPiece [] 0.
Definition set (buffer : bytes) (len : Z) (p : StringPiece) : StringPiece := mkStringPiece buffer len.
Definition index (p : StringPiece) (i : Z) : res ascii :=
  guard_or OutOfBounds (0 <=? i);; match mem p !! Z.to_nat i with Some c => Ok c | None => Err OutOfBounds end.

Definition removePrefix (n : Z) (p : StringPiece) : res StringPiece :=
  guard_or OutOfBounds ((0 <=? n) && (n <=? zlen (mem p)));;
  len ← i32 (length_ p - n);
  Ok (mkStringPiece (drop (Z.to_nat n) (mem p)) len).
Definition removeSuffix (n : Z) (p : StringPiece) : res StringPiece :=
  len ← i32 (length_ p - n); Ok (mkStringPiece (mem p) len).

(** [memcmp] on unsigned bytes; a negative length is a huge [size_t]. *)
Fixpoint memcmp_bytes (s t : bytes) : Z :=
  match s, t with
  | c :: s, d :: t => if byteZ c =? byteZ d then memcmp_bytes s t else byteZ c - byteZ d
  | _, _ => 0
  end.
Definition memcmp (s t : bytes) (n : Z) : res Z :=
  a ← mem_read 0 (u64 n) s; b ← mem_read 0 (u64 n) t; Ok (memcmp_bytes a b).

Definition eqb (p x : StringPiece) : res bool :=
  if length_ p =? length_ x then r ← memcmp (mem p) (mem x) (length_ p); Ok (r =? 0) else Ok false.
Definition neqb (p x : StringPiece) : res bool := b ← eqb p x; Ok (negb b).

(** STRINGPIECE_BINARY_PREDICATE(cmp, auxcmp) *)
Definition binary_predicate (cmp auxcmp : Z → Z → bool) (p x : StringPiece) : res bool :=
  r ← memcmp (mem p) (mem x) (if length_ p <? length_ x then length_ p else length_ x);
  Ok (auxcmp r 0 || ((r =? 0) && cmp (length_ p) (length_ x))).
Definition lt : StringPiece → StringPiece → res bool := binary_predicate Z.ltb Z.ltb.
Definition le : StringPiece → StringPiece → res bool := binary_predicate Z.leb Z.ltb.
Definition ge : StringPiece → StringPiece → res bool := binary_predicate Z.geb Z.gtb.
Definition gt : StringPiece → StringPiece → res bool := binary_predicate Z.gtb Z.gtb.

Definition compare (p x : StringPiece) : res Z :=
  r ← memcmp (mem p) (mem x) (if length_ p <? length_ x then length_ p else length_ x);
  Ok (if r =? 0 then (if length_ p <? length_ x then -1 else if length_ x <? length_ p then 1 else r) else r).

Definition toString (p : StringPiece) : res bytes := mem_read 0 (u64 (length_ p)) (mem p).
Definition copyToString (p : StringPiece) : res bytes := mem_read 0 (u64 (length_ p)) (mem p).
Definition startsWith (p x : StringPiece) : res bool :=
  if length_ x <=? length_ p then r ← memcmp (mem p) (mem x) (length_ x); Ok (r =? 0) else Ok false.

(** ** Specification *)

(** The characters of a piece, and when it is inside its array. *)
Definition chars (p : StringPiece) : bytes := take (Z.to_nat (length_ p)) (mem p).
Definition valid (p : StringPiece) : Prop := 0 <= length_ p <= zlen (mem p) ∧ length_ p < 2 ^ 31.

(** Lexicographic order of unsigned characters. *)
Fixpoint lex (s t : bytes) : comparison :=
  match s, t with
  | [], [] => Eq
  | [], _ => Lt
  | _, [] => Gt
  | c :: s, d :: t => match byteZ c ?= byteZ d with Eq => lex s t | o => o end
  end.

Lemma lex_refl s : lex s s = Eq.
Proof. induction s as [|c s IH]; [done|]. simpl. by rewrite Z.compare_refl. Qed.
Lemma lex_eq s t : lex s t = Eq ↔ s = t.
Proof.
  split; [|intros ->; apply lex_refl]. revert t. induction s as [|c s IH]; intros [|d t]; try done. simpl.
  destruct (byteZ c ?= byteZ d) eqn:E; try done. apply Z.compare_eq, byteZ_inj in E as ->. by intros ->%IH.
Qed.
Lemma lex_antisym s t : lex t s = CompOpp (lex s t).
Proof.
  revert t. induction s as [|c s IH]; intros [|d t]; try done. simpl. rewrite (Z.compare_antisym (byteZ c)).
  destruct (byteZ c ?= byteZ d); simpl; auto.
Qed.
Lemma lex_trans s t u : lex s t = Lt → lex t u = Lt → lex s u = Lt.
Proof.
  revert t u. induction s as [|c s IH]; intros [|d t] [|e u]; try done. simpl.
  destruct (Z.compare_spec (byteZ c) (byteZ d)), (Z.compare_spec (byteZ d) (byteZ e)), (Z.compare_spec (byteZ c) (byteZ e));
    try done; try lia. apply IH.
Qed.

(** ** Lemmas *)

Lemma memcmp_self s : memcmp_bytes s s = 0.
Proof. induction s as [|c s IH]; [done|]. simpl. by rewrite Z.eqb_refl. Qed.

Lemma memcmp_zero s t : length s = length t → memcmp_bytes s t = 0 ↔ s = t.
Proof.
  intros Hl. split; [|intros ->; apply memcmp_self]. revert t Hl. induction s as [|c s IH]; intros [|d t]; try done. simpl.
  intros [= Hl]. destruct (Z.eqb_spec (byteZ c) (byteZ d)) as [E|E]; [|lia]. apply byteZ_inj in E as ->. by intros ->%IH.
Qed.

(** [memcmp] on the common length and then the lengths is the lexicographic order. *)
Lemma memcmp_lex s t : let n := Nat.min (length s) (length t) in
  let r := memcmp_bytes (take n s) (take n t) in
  match lex s t with
  | Lt => r < 0 ∨ r = 0 ∧ (length s < length t)%nat
  | Eq => r = 0 ∧ length s = length t
  | Gt => 0 < r ∨ r = 0 ∧ (length t < length s)%nat
  end.
Proof.
  revert t. induction s as [|c s IH]; intros [|d t]; simpl; try (right; split; [done|lia]); [done|].
  specialize (IH t). simpl in IH. destruct (Z.compare_spec (byteZ c) (byteZ d)) as [E|E|E].
  - rewrite E, Z.eqb_refl. destruct (lex s t); destruct IH; lia || (try (left; lia); try (right; lia)).
  - rewrite (proj2 (Z.eqb_neq _ _)) by lia. left. lia.
  - rewrite (proj2 (Z.eqb_neq _ _)) by lia. left. lia.
Qed.

Lemma memcmp_ok p x n : valid p → valid x → 0 <= n → n <= length_ p → n <= length_ x →
  memcmp (mem p) (mem x) n = Ok (memcmp_bytes (take (Z.to_nat n) (mem p)) (take (Z.to_nat n) (mem x))).
Proof.
  intros [Hp Hp'] [Hx Hx'] Hn Hnp Hnx. unfold memcmp, mem_read. rewrite (wrapu_small 64) by lia.
  rewrite !guard_or_true by (bsolve; lia). done.
Qed.

Lemma chars_length p : valid p → zlen (chars p) = length_ p.
Proof. intros [H _]. unfold chars, zlen in *. rewrite length_take. lia. Qed.

(** The comparison every operator starts with, against the lexicographic order. *)
Lemma memcmp_chars p x : valid p → valid x →
  ∃ r, memcmp (mem p) (mem x) (if length_ p <? length_ x then length_ p else length_ x) = Ok r
  ∧ match lex (chars p) (chars x) with
    | Lt => r < 0 ∨ r = 0 ∧ length_ p < length_ x
    | Eq => r = 0 ∧ length_ p = length_ x
    | Gt => 0 < r ∨ r = 0 ∧ length_ x < length_ p
    end.
Proof.
  intros Hp Hx. pose proof (chars_length p Hp) as Lp. pose proof (chars_length x Hx) as Lx.
  assert (E : (if length_ p <? length_ x then length_ p else length_ x) = Z.min (length_ p) (length_ x)).
  { destruct (Z.ltb_spec (length_ p) (length_ x)); lia. }
  rewrite E, memcmp_ok by (done || destruct Hp, Hx; lia). eexists. split; [reflexivity|].
  pose proof (memcmp_lex (chars p) (chars x)) as H. simpl in H. unfold zlen in *.
  assert (Ht : ∀ q : StringPiece, valid q → Z.min (length_ p) (length_ x) <= length_ q →
    take (Nat.min (length (chars p)) (length (chars x))) (chars q) = take (Z.to_nat (Z.min (length_ p) (length_ x))) (mem q)).
  { intros q [Hq _] Hle. unfold chars at 3. rewrite take_take. f_equal. destruct Hp, Hx. lia. }
  rewrite !Ht in H by (done || lia). destruct (lex (chars p) (chars x)); lia.
Qed.

Lemma toString_chars p : valid p → toString p = Ok (chars p).
Proof.
  intros [Hp H31]. unfold toString, mem_read. rewrite (wrapu_small 64) by lia. rewrite guard_or_true by (bsolve; lia). done.
Qed.

Lemma eqb_chars p x : valid p → valid x → eqb p x = Ok (bool_decide (chars p = chars x)).
Proof.
  intros Hp Hx. pose proof (chars_length p Hp) as Lp. pose proof (chars_length x Hx) as Lx. unfold eqb.
  destruct (Z.eqb_spec (length_ p) (length_ x)) as [E|E].
  - rewrite memcmp_ok by (done || destruct Hp; lia). cbn [mbind res_bind]. f_equal. rewrite E at 2. fold (chars p) (chars x).
    apply eq_true_iff_eq. rewrite Z.eqb_eq, bool_decide_eq_true. apply memcmp_zero. unfold zlen in *. lia.
  - by rewrite bool_decide_eq_false_2 by congruence.
Qed.

Lemma startsWith_prefix p x : valid p → valid x → startsWith p x = Ok (bool_decide (chars x `prefix_of` chars p)).
Proof.
  intros Hp Hx. pose proof (chars_length p Hp) as Lp. pose proof (chars_length x Hx) as Lx. unfold startsWith.
  destruct (Z.leb_spec (length_ x) (length_ p)) as [Hle|Hgt].
  - rewrite memcmp_ok by (done || destruct Hx; lia). cbn [mbind res_bind]. f_equal. fold (chars x).
    assert (Et : take (Z.to_nat (length_ x)) (mem p) = take (length (chars x)) (chars p)).
    { unfold chars at 2. rewrite take_take. f_equal. unfold zlen in *. lia. }
    rewrite Et. apply eq_true_iff_eq. rewrite Z.eqb_eq, bool_decide_eq_true, memcmp_zero.
    + split.
      * intros E. exists (drop (length (chars x)) (chars p)). rewrite <-E at 1. by rewrite take_drop.
      * intros [k ->]. by rewrite take_app_length.
    + rewrite length_take. unfold zlen in *. lia.
  - rewrite bool_decide_eq_false_2; [done|]. intros Hpre%prefix_length. unfold zlen in *. lia.
Qed.

(** ** Properties *)

(** On pieces inside their arrays every comparison of [StringPiece] returns
    and is the one of the lexicographic order of unsigned characters, [compare]
    having its sign; [==] is equality of the characters and [startsWith] the prefix
    relation; and [toString] gives the characters. *)
Theorem stringpiece_lexicographic p x : valid p → valid x →
  lt p x = Ok (bool_decide (lex (chars p) (chars x) = Lt))
  ∧ le p x = Ok (bool_decide (lex (chars p) (chars x) ≠ Gt))
  ∧ gt p x = Ok (bool_decide (lex (chars p) (chars x) = Gt))
  ∧ ge p x = Ok (bool_decide (lex (chars p) (chars x) ≠ Lt))
  ∧ (∃ r, compare p x = Ok r ∧ (r ?= 0) = lex (chars p) (chars x))
  ∧ eqb p x = Ok (bool_decide (chars p = chars x)) ∧ neqb p x = Ok (bool_decide (chars p ≠ chars x))
  ∧ startsWith p x = Ok (bool_decide (chars x `prefix_of` chars p))
  ∧ toString p = Ok (chars p).
Proof.
  intros Hp Hx. destruct (memcmp_chars p x Hp Hx) as (r & E & H).
  unfold lt, le, gt, ge, binary_predicate, compare, neqb. rewrite (eqb_chars p x Hp Hx), E. cbn [mbind res_bind].
  assert (Hb : ∀ b (P : Prop) `{!Decision P}, (b = true ↔ P) → @Ok bool b = Ok (bool_decide P)).
  { intros b P ? Hi. f_equal. apply eq_true_iff_eq. by rewrite bool_decide_eq_true. }
  split_and!; [apply Hb|apply Hb|apply Hb|apply Hb| |done| |by apply startsWith_prefix|by apply toString_chars].
  5: { eexists. split; [reflexivity|]. destruct (lex (chars p) (chars x)); destruct (Z.eqb_spec r 0); repeat case_match;
         rewrite ?Z.compare_eq_iff, ?Z.compare_lt_iff, ?Z.compare_gt_iff; lia. }
  5: { apply Hb. rewrite negb_true_iff. apply bool_decide_eq_false. }
  all: rewrite orb_true_iff, andb_true_iff, Z.eqb_eq, ?Z.gtb_lt, ?Z.geb_le, ?Z.ltb_lt, ?Z.leb_le.
  all: destruct (lex (chars p) (chars x)); split; try done; try lia.
Qed.

Lemma stringpiece_lexicographic_witness :
  let p := fromCString (str "abc") in let x := fromRange (str "abz") 2 in
  lt x p = Ok true ∧ startsWith p x = Ok true ∧ toString x = Ok (str "ab").
Proof.
  intros p x.
  assert (Hp : valid p) by (split; [split; vm_compute; discriminate|vm_compute; reflexivity]).
  assert (Hx : valid x) by (split; [split; vm_compute; discriminate|vm_compute; reflexivity]).
  destruct (stringpiece_lexicographic x p Hx Hp) as (E1 & _ & _ & _ & _ & _ & _ & _ & E3).
  destruct (stringpiece_lexicographic p x Hp Hx) as (_ & _ & _ & _ & _ & _ & _ & E2 & _).
  split; [exact E1|]. split; [exact E2|exact E3].
Defined.

(** Dropping characters at either end of a piece. *)
Theorem remove_affixes n p : valid p → 0 <= n <= length_ p →
  (∃ q, removePrefix n p = Ok q ∧ valid q ∧ chars q = drop (Z.to_nat n) (chars p))
  ∧ (∃ q, removeSuffix n p = Ok q ∧ valid q ∧ chars q = take (Z.to_nat (length_ p - n)) (chars p)).
Proof.
  intros [Hp H31] Hn. unfold removePrefix, removeSuffix. rewrite guard_or_true by (bsolve; lia). rewrite i32_ok by lia.
  cbn [mbind res_bind]. split; eexists; (split; [reflexivity|]).
  - split; [split; simpl; unfold zlen in *; rewrite ?length_drop; lia|]. unfold chars. simpl.
    rewrite take_drop_commute. f_equal. f_equal. lia.
  - split; [split; simpl; lia|]. unfold chars. simpl. rewrite take_take. f_equal. lia.
Qed.
