(* ===== verification/Printf.v ===== *)
(** * Decimal output ([snprintf] conversions the library uses)

    The [%d]-family conversions with a width and the zero flag, hexadecimal and
    decimal digit strings, and reading a decimal string back. Shared by the
    date, time stamp, logging and connection-name code. *)

From S2P Require Import Prelude.
Local Open Scope Z_scope.

(** The digit character of [0 <= n < 10], as ['0' + n]. *)
Definition digit (n : Z) : ascii := Zbyte (48 + n).

(** Digits of [n >= 0], least significant first, at least one. *)
Fixpoint digits_rev (fuel : nat) (n : Z) : bytes :=
  match fuel with
  | O => []
  | S fuel => digit (n mod 10) :: (if n / 10 =? 0 then [] else digits_rev fuel (n / 10))
  end.

(** A number has at most as many decimal digits as bits. *)
Definition digits_fuel (n : Z) : nat := S (Z.to_nat (Z.log2 n)).
Definition dec_nonneg (n : Z) : bytes := reverse (digits_rev (digits_fuel n) n).
Definition dec (z : Z) : bytes :=
  if z <? 0 then "-"%char :: dec_nonneg (- z) else dec_nonneg z.

(** [%<w>d] pads with spaces, [%0<w>d] with zeros after the sign. *)
Definition fmt_d (width : nat) (z : Z) : bytes :=
  replicate (width - length (dec z)) " "%char ++ dec z.
Definition fmt_0d (width : nat) (z : Z) : bytes :=
  if z <? 0
  then "-"%char :: replicate (width - length (dec z)) "0"%char ++ dec_nonneg (- z)
  else replicate (width - length (dec z)) "0"%char ++ dec_nonneg z.

(** [snprintf(buf, size, ...)] followed by reading [buf] as a C string. *)
Definition snprintf (size : nat) (s : bytes) : bytes := take (size - 1) s.

(** Reading decimal digits, as [atoi] and [strtol] do on a digit string. *)
Definition digit_value (c : ascii) : option Z :=
  if (48 <=? byteZ c) && (byteZ c <=? 57) then Some (byteZ c - 48) else None.
Fixpoint read_digits (acc : Z) (s : bytes) : option Z :=
  match s with
  | [] => Some acc
  | c :: s =>
      match digit_value c with
      | Some d => read_digits (10 * acc + d) s
      | None => None
      end
  end.
Definition read_dec (s : bytes) : option Z :=
  match s with
  | [] => None
  | c :: s' => if bool_decide (c = "-"%char) then Z.opp <$> read_digits 0 s' else read_digits 0 s
  end.

(** ** Lemmas *)

Lemma digit_value_digit n : 0 <= n < 10 → digit_value (digit n) = Some n.
Proof.
  intros. unfold digit_value, digit. rewrite byteZ_Zbyte, Z.mod_small by lia.
  rewrite (proj2 (Z.leb_le 48 _)), (proj2 (Z.leb_le _ 57)) by lia. simpl. f_equal. lia.
Qed.

Lemma read_digits_app s t acc :
  read_digits acc (s ++ t) = read_digits acc s ≫= λ a, read_digits a t.
Proof.
  revert acc. induction s as [|c s IH]; intros acc; simpl; [done|].
  destruct (digit_value c); [apply IH | done].
Qed.

Lemma log2_div10 n : 10 <= n → Z.log2 (n / 10) < Z.log2 n.
Proof.
  intros Hn. pose proof (Z.div_pos n 10). 
  assert (0 < n / 10) by (apply Z.div_str_pos; lia).
  apply Z.log2_lt_pow2; [lia|].
  pose proof (Z.log2_spec n ltac:(lia)) as [_ Hs]. rewrite Z.pow_succ_r in Hs by apply Z.log2_nonneg.
  apply Z.div_lt_upper_bound; lia.
Qed.

Lemma read_digits_rev fuel n :
  0 <= n → (Z.to_nat (Z.log2 n) < fuel)%nat →
  read_digits 0 (reverse (digits_rev fuel n)) = Some n.
Proof.
  revert n. induction fuel as [|fuel IH]; intros n Hn Hf; [lia|]. cbn [digits_rev].
  pose proof (Z.mod_pos_bound n 10). rewrite reverse_cons, read_digits_app.
  destruct (Z.eqb_spec (n / 10) 0) as [E|E].
  - simpl. rewrite digit_value_digit by lia. f_equal.
    pose proof (Z.div_mod n 10). lia.
  - pose proof (Z.div_pos n 10). assert (10 <= n).
    { destruct (Z.le_gt_cases 10 n); [done|]. rewrite Z.div_small in E; lia. }
    rewrite IH; [| lia |].
    + simpl. rewrite digit_value_digit by lia. f_equal. pose proof (Z.div_mod n 10). lia.
    + pose proof (log2_div10 n). pose proof (Z.log2_nonneg (n / 10)). lia.
Qed.

Lemma read_dec_nonneg n : 0 <= n → read_digits 0 (dec_nonneg n) = Some n.
Proof. intros. apply read_digits_rev; [done|]. unfold digits_fuel. lia. Qed.

Lemma digits_rev_isdigit fuel n :
  Forall (λ c, is_Some (digit_value c)) (digits_rev fuel n).
Proof.
  revert n. induction fuel as [|fuel IH]; intros n; simpl; constructor.
  - rewrite digit_value_digit; [done|]. apply Z.mod_pos_bound. lia.
  - case_match; auto.
Qed.

Lemma dec_nonneg_isdigit n : Forall (λ c, is_Some (digit_value c)) (dec_nonneg n).
Proof. unfold dec_nonneg. apply Forall_reverse, digits_rev_isdigit. Qed.

Lemma dec_nonneg_not_nil n : dec_nonneg n ≠ [].
Proof.
  unfold dec_nonneg, digits_fuel. cbn [digits_rev]. rewrite reverse_cons.
  intros E%app_eq_nil. by destruct E.
Qed.

Lemma read_dec_dec z : read_dec (dec z) = Some z.
Proof.
  unfold dec. destruct (Z.ltb_spec z 0) as [Hz|Hz].
  - simpl. rewrite read_dec_nonneg by lia. simpl. f_equal. lia.
  - pose proof (read_dec_nonneg z Hz) as Hr. pose proof (dec_nonneg_isdigit z) as Hd.
    pose proof (dec_nonneg_not_nil z). destruct (dec_nonneg z) as [|c s]; [done|].
    unfold read_dec. rewrite bool_decide_eq_false_2; [done|]. intros ->.
    inversion_clear Hd as [|?? [? Hbad] _]. discriminate Hbad.
Qed.

Lemma digits_rev_stable fuel fuel' n :
  0 <= n → (Z.to_nat (Z.log2 n) < fuel)%nat → (Z.to_nat (Z.log2 n) < fuel')%nat →
  digits_rev fuel n = digits_rev fuel' n.
Proof.
  revert fuel' n. induction fuel as [|fuel IH]; intros [|fuel'] n Hn H1 H2; try lia.
  cbn [digits_rev]. f_equal. destruct (Z.eqb_spec (n / 10) 0) as [E|E]; [done|].
  assert (10 <= n).
  { destruct (Z.le_gt_cases 10 n); [done|]. rewrite Z.div_small in E; lia. }
  pose proof (log2_div10 n). pose proof (Z.log2_nonneg (n / 10)). pose proof (Z.div_pos n 10).
  apply IH; lia.
Qed.

Lemma length_digits_rev fuel k n :
  (0 < k)%nat → 0 <= n < 10 ^ Z.of_nat k → (length (digits_rev fuel n) <= k)%nat.
Proof.
  revert k n. induction fuel as [|fuel IH]; intros k n Hk Hn; simpl; [lia|].
  destruct (Z.eqb_spec (n / 10) 0) as [E|E]; [simpl; lia|].
  destruct k as [|[|k]]; [lia | |].
  { simpl in Hn. rewrite Z.div_small in E; lia. }
  apply le_n_S, IH; [lia|]. rewrite Nat2Z.inj_succ, Z.pow_succ_r in Hn by lia.
  split; [apply Z.div_pos; lia | apply Z.div_lt_upper_bound; lia].
Qed.

(** A number below [10^k] has at most [k] digits. *)
Lemma length_dec_nonneg_le k n :
  (0 < k)%nat → 0 <= n < 10 ^ Z.of_nat k → (length (dec_nonneg n) <= k)%nat.
Proof. intros. unfold dec_nonneg. rewrite length_reverse. by apply length_digits_rev. Qed.

Lemma dec_nonneg_small n : 0 <= n < 10 → dec_nonneg n = [digit n].
Proof.
  intros. unfold dec_nonneg, digits_fuel. cbn [digits_rev].
  by rewrite Z.div_small, Z.mod_small by lia.
Qed.

Lemma dec_nonneg_step n : 10 <= n → dec_nonneg n = dec_nonneg (n / 10) ++ [digit (n mod 10)].
Proof.
  intros Hn. unfold dec_nonneg, digits_fuel at 1. cbn [digits_rev].
  assert (0 < n / 10) by (apply Z.div_str_pos; lia).
  rewrite (proj2 (Z.eqb_neq _ _)) by lia. rewrite reverse_cons. do 2 f_equal.
  pose proof (log2_div10 n Hn). pose proof (Z.log2_nonneg (n / 10)).
  apply digits_rev_stable; unfold digits_fuel; lia.
Qed.

(** Zero-padded fields: fixed width and exact value. *)
Lemma read_digits_zeros k acc s :
  read_digits acc (replicate k "0"%char ++ s) = read_digits (10 ^ Z.of_nat k * acc) s.
Proof.
  revert acc. induction k as [|k IH]; intros acc; [by rewrite Z.mul_1_l|].
  cbn [replicate app read_digits]. change (digit_value "0") with (Some 0). cbn iota.
  rewrite IH. f_equal. rewrite Nat2Z.inj_succ, Z.pow_succ_r by lia. lia.
Qed.

Lemma fmt_0d_spec k z :
  (0 < k)%nat → 0 <= z < 10 ^ Z.of_nat k →
  length (fmt_0d k z) = k ∧ read_digits 0 (fmt_0d k z) = Some z.
Proof.
  intros Hk Hz. unfold fmt_0d, dec. rewrite (proj2 (Z.ltb_ge z 0)) by lia.
  pose proof (length_dec_nonneg_le k z Hk Hz). split.
  - rewrite length_app, length_replicate. lia.
  - rewrite read_digits_zeros, Z.mul_0_r. apply read_dec_nonneg. lia.
Qed.

Lemma read_digits_acc s acc v :
  read_digits 0 s = Some v → read_digits acc s = Some (acc * 10 ^ zlen s + v).
Proof.
  enough (∀ a, read_digits a s = (λ w, a * 10 ^ zlen s + w) <$> read_digits 0 s) as H.
  { intros E. by rewrite H, E. }
  induction s as [|c s IH]; intros a.
  - simpl. f_equal. change (zlen (@nil ascii)) with 0. lia.
  - cbn [read_digits]. destruct (digit_value c) as [d|]; [|done].
    rewrite (IH (10 * a + d)), (IH (10 * 0 + d)). destruct (read_digits 0 s); [|done]. simpl.
    f_equal. rewrite zlen_cons, Z.pow_add_r by zlen_lia. lia.
Qed.
