(* ===== verification/Double.v ===== *)
(** * Doubles: conversions, printing and reading

    The [double] arithmetic the library uses, on the Standard Library's binary64
    ([SpecFloat]), the [printf] conversions [%.nf] and [%.ng], and [strtod], all
    with exact integer arithmetic and one rounding, as the C standard and
    IEEE 754 prescribe. *)

From Stdlib Require Export Floats.SpecFloat.
From S2P Require Import Prelude Printf.
Local Open Scope Z_scope.

Abbreviation double := spec_float (only parsing).

#[global] Instance spec_float_eq_dec : EqDecision spec_float.
Proof. solve_decision. Defined.

(** ** Arithmetic *)

(** Conversion from an integer, rounding to nearest. *)
Definition double_of_Z (z : Z) : double := binary_normalize 53 1024 z 0 false.
Definition dmul (x y : double) : double := SFmul 53 1024 x y.
Definition ddiv (x y : double) : double := SFdiv 53 1024 x y.
Definition dlt (x y : double) : bool :=
  match SFcompare x y with Some Lt => true | _ => false end.
Definition dgt (x y : double) : bool :=
  match SFcompare x y with Some Gt => true | _ => false end.
Definition deq (x y : double) : bool :=
  match SFcompare x y with Some Eq => true | _ => false end.

(** The truncation of a finite double. *)
Definition double_trunc (x : double) : option Z :=
  match x with
  | S754_zero _ => Some 0
  | S754_finite s m e =>
      let a := if 0 <=? e then Zpos m * 2 ^ e else Zpos m / 2 ^ (- e) in
      Some (if s then - a else a)
  | S754_infinity _ | S754_nan => None
  end.

(** [static_cast<int64_t>(x)] and [static_cast<int>(x)]: towards zero; out of
    range it is undefined. *)
Definition double_to_i64 (x : double) : res Z :=
  match double_trunc x with Some z => i64 z | None => Err SignedOverflow end.
Definition double_to_i32 (x : double) : res Z :=
  match double_trunc x with Some z => i32 z | None => Err SignedOverflow end.

(** ** Printing *)

(** [num / den] rounded to an integer, ties to even. *)
Definition round_div (num den : Z) : Z :=
  let q := num / den in
  let r := num mod den in
  match Z.compare (2 * r) den with
  | Lt => q
  | Gt => q + 1
  | Eq => if Z.even q then q else q + 1
  end.

(** A finite magnitude as a fraction of integers. *)
Definition frac_of (m : positive) (e : Z) : Z * Z :=
  if 0 <=? e then (Zpos m * 2 ^ e, 1) else (Zpos m, 2 ^ (- e)).

Definition sign_str (s : bool) : bytes := if s then ["-"%char] else [].

(** [n / 10^p] in decimal with [p] digits after the point. *)
Definition fixed_str (n : Z) (p : nat) : bytes :=
  if decide (p = 0)%nat then dec n
  else dec (n / 10 ^ Z.of_nat p) ++ "."%char :: fmt_0d p (n mod 10 ^ Z.of_nat p).

(** [%.<p>f] *)
Definition fmt_f (p : nat) (x : double) : bytes :=
  match x with
  | S754_nan => str "nan"
  | S754_infinity s => sign_str s ++ str "inf"
  | S754_zero s => sign_str s ++ fixed_str 0 p
  | S754_finite s m e =>
      let '(num, den) := frac_of m e in
      sign_str s ++ fixed_str (round_div (num * 10 ^ Z.of_nat p) den) p
  end.

(** The exponent [X] with [10^X <= num/den < 10^(X+1)]. *)
Definition dec_exponent (num den : Z) : Z :=
  if den <=? num then zlen (dec (num / den)) - 1
  else
    let l := zlen (dec (den / num)) in
    if num * 10 ^ (l - 1) =? den then - (l - 1) else - l.

(** [num / den * 10^k] as a rounded integer. *)
Definition scale_round (num den k : Z) : Z :=
  if 0 <=? k then round_div (num * 10 ^ k) den else round_div num (den * 10 ^ (- k)).

(** The [P] significant digits and the decimal exponent of [num / den]. *)
Definition sig_digits (P : nat) (num den : Z) : Z * Z :=
  let x := dec_exponent num den in
  let d := scale_round num den (Z.of_nat P - 1 - x) in
  if d =? 10 ^ Z.of_nat P then (10 ^ (Z.of_nat P - 1), x + 1) else (d, x).

Fixpoint strip_zeros_rev (s : bytes) : bytes :=
  match s with
  | c :: s' =>
      if bool_decide (c = "0"%char) then strip_zeros_rev s'
      else if bool_decide (c = "."%char) then s' else s
  | [] => []
  end.
(** Trailing zeros after a point, and a point left bare, are removed. *)
Definition strip_zeros (s : bytes) : bytes :=
  if decide ("."%char ∈ s) then reverse (strip_zeros_rev (reverse s)) else s.

Definition exp_str (x : Z) : bytes :=
  "e"%char :: (if x <? 0 then "-"%char else "+"%char) :: fmt_0d 2 (Z.abs x).

(** [%.<P>g] *)
Definition fmt_g (P : nat) (x : double) : bytes :=
  match x with
  | S754_nan => str "nan"
  | S754_infinity s => sign_str s ++ str "inf"
  | S754_zero s => sign_str s ++ str "0"
  | S754_finite s m e =>
      let '(num, den) := frac_of m e in
      let '(d, X) := sig_digits P num den in
      sign_str s ++
        (if (-4 <=? X) && (X <? Z.of_nat P)
         then strip_zeros (fixed_str d (Z.to_nat (Z.of_nat P - 1 - X)))
         else strip_zeros (fixed_str d (P - 1)) ++ exp_str X)
  end.

(** ** Reading *)

(** The double nearest to [num / den]: a quotient of at least 64 bits, with a
    sticky bit below it for the remainder, rounded once. *)
Definition double_of_frac (num den : Z) : double :=
  let k := Z.max 0 (66 + Z.log2 den - Z.log2 num) in
  let n := num * 2 ^ k in
  let q := n / den in
  let sticky := if n mod den =? 0 then 0 else 1 in
  binary_normalize 53 1024 (2 * q + sticky) (- k - 1) false.

(** [m * 10^e] *)
Definition double_of_dec (m e : Z) : double :=
  if m =? 0 then S754_zero false
  else if 0 <=? e then double_of_frac (m * 10 ^ e) 1 else double_of_frac m (10 ^ (- e)).

Definition is_digit (c : ascii) : bool := (48 <=? byteZ c) && (byteZ c <=? 57).

(** The longest prefix of digits, and the rest. *)
Fixpoint span_digits (s : bytes) : bytes * bytes :=
  match s with
  | c :: s' => if is_digit c then let '(d, r) := span_digits s' in (c :: d, r) else ([], s)
  | [] => ([], [])
  end.

Definition digits_value (d : bytes) : Z := default 0 (read_digits 0 d).

(** [strtod] on a decimal number: optional sign, digits, fraction, exponent.
    Returns the value and what follows; [None] when there is no number. *)
Definition strtod (s : bytes) : option (double * bytes) :=
  let '(neg, s1) := match s with
                    | "-"%char :: r => (true, r)
                    | "+"%char :: r => (false, r)
                    | _ => (false, s)
                    end in
  let '(ip, s2) := span_digits s1 in
  let '(fp, s3) := match s2 with
                   | "."%char :: r => span_digits r
                   | _ => ([], s2)
                   end in
  if bool_decide (ip = [] ∧ fp = []) then None
  else
    let '(ex, s4) :=
      match s3 with
      | ("e"%char | "E"%char) :: r =>
          let '(eneg, r1) := match r with
                             | "-"%char :: r' => (true, r')
                             | "+"%char :: r' => (false, r')
                             | _ => (false, r)
                             end in
          let '(ed, r2) := span_digits r1 in
          if bool_decide (ed = []) then (0, s3)
          else ((if eneg : bool then -1 else 1) * digits_value ed, r2)
      | _ => (0, s3)
      end in
    let v := double_of_dec (digits_value (ip ++ fp)) (ex - zlen fp) in
    Some (if neg : bool then SFopp v else v, s4).

(** ** Length bounds *)

(** The finite doubles of the binary64 format. *)
Definition is_binary64 (x : double) : Prop :=
  match x with
  | S754_finite _ m e => Zpos m < 2 ^ 53 ∧ -1074 <= e <= 971
  | _ => True
  end.

Lemma dec_pos_lower n : 0 < n → 10 ^ (zlen (dec n) - 1) <= n < 10 ^ zlen (dec n).
Proof.
  intros Hn. assert (dec n = dec_nonneg n) as ->.
  { unfold dec. by rewrite (proj2 (Z.ltb_ge _ _)) by lia. }
  assert (0 <= n) as H0 by lia. revert Hn.
  induction n as [n IH] using (well_founded_induction (Z.lt_wf 0)). intros Hn. destruct (Z.le_gt_cases 10 n) as [H10|H10].
  - rewrite dec_nonneg_step by done. rewrite zlen_app, zlen_cons, zlen_nil.
    assert (0 < n / 10) by (apply Z.div_str_pos; lia).
    destruct (IH (n / 10)) as [Hlo Hhi]; [split; [lia|]; apply Z.div_lt; lia | lia | done|].
    set (k := zlen (dec_nonneg (n / 10))) in *.
    assert (1 <= k).
    { assert (0 <= k) by apply zlen_nonneg. destruct (Z.eq_dec k 0) as [E0|]; [|lia].
      rewrite E0 in Hhi. simpl in Hhi. lia. }
    replace (k + (1 + 0) - 1) with (Z.succ (k - 1)) by lia. replace (k + (1 + 0)) with (Z.succ k) by lia.
    rewrite !Z.pow_succ_r by lia. dlia.
  - rewrite dec_nonneg_small by lia. simpl. change (zlen [digit n]) with 1. lia.
Qed.

Lemma frac_of_pos m e : 0 < (frac_of m e).1 ∧ 0 < (frac_of m e).2.
Proof.
  unfold frac_of. destruct (Z.leb_spec 0 e); simpl; split; lia.
Qed.

(** A rounded quotient does not pass an integer bound. *)
Lemma round_div_le num den b : 0 < den → num < den * b → round_div num den <= b.
Proof.
  intros Hd Hb. unfold round_div. assert (num / den < b) by (apply Z.div_lt_upper_bound; lia).
  repeat case_match; lia.
Qed.

Lemma dec_exponent_upper num den : 0 < num → 0 < den →
  let X := dec_exponent num den in
  if 0 <=? X + 1 then num < den * 10 ^ (X + 1) else num * 10 ^ (- (X + 1)) < den.
Proof.
  intros Hn Hd. unfold dec_exponent. destruct (Z.leb_spec den num) as [C|C]; simpl.
  - rewrite Z.sub_add. assert (0 < num / den) by (apply Z.div_str_pos; lia).
    pose proof (dec_pos_lower (num / den)) as [_ Hu]; [done|].
    rewrite (proj2 (Z.leb_le 0 _)) by zlen_lia. pose proof (Z.mul_succ_div_gt num den Hd). nia.
  - assert (0 < den / num) by (apply Z.div_str_pos; lia).
    pose proof (dec_pos_lower (den / num)) as [Hl Hu]; [done|].
    set (l := zlen (dec (den / num))) in *.
    assert (1 <= l).
    { assert (0 <= l) by apply zlen_nonneg. destruct (Z.eq_dec l 0) as [E0|]; [|lia].
      rewrite E0 in Hu. simpl in Hu. lia. }
    pose proof (Z.mul_div_le den num Hn).
    destruct (Z.eqb_spec (num * 10 ^ (l - 1)) den) as [E|E].
    + destruct (Z.leb_spec 0 (- (l - 1) + 1)) as [L|L].
      * destruct (decide (l = 1)) as [E1|]; [|assert (l = 2) as -> by lia; simpl; lia].
        rewrite E1 in *. simpl in *. lia.
      * replace (- (- (l - 1) + 1)) with (l - 2) by lia. rewrite <-E.
        replace (l - 1) with (Z.succ (l - 2)) by lia. rewrite Z.pow_succ_r by lia.
        assert (0 < 10 ^ (l - 2)) by (apply Z.pow_pos_nonneg; lia). nia.
    + destruct (Z.leb_spec 0 (- l + 1)) as [L|L].
      * assert (l = 1) as -> by lia. simpl in *. lia.
      * replace (- (- l + 1)) with (l - 1) by lia. nia.
Qed.

Lemma sig_digits_lt P num den : (0 < P)%nat → 0 < num → 0 < den →
  (sig_digits P num den).1 < 10 ^ Z.of_nat P.
Proof.
  intros HP Hn Hd. unfold sig_digits. pose proof (dec_exponent_upper num den Hn Hd) as Hx.
  cbv zeta in *. set (X := dec_exponent num den) in *.
  destruct (Z.eqb_spec (scale_round num den (Z.of_nat P - 1 - X)) (10 ^ Z.of_nat P)) as [E|E];
    simpl; [apply Z.pow_lt_mono_r; lia|].
  enough (scale_round num den (Z.of_nat P - 1 - X) <= 10 ^ Z.of_nat P) by lia.
  unfold scale_round. destruct (Z.leb_spec 0 (Z.of_nat P - 1 - X)) as [K|K]; apply round_div_le.
  - done.
  - destruct (Z.leb_spec 0 (X + 1)).
    + replace (Z.of_nat P) with ((X + 1) + (Z.of_nat P - 1 - X)) at 2 by lia.
      rewrite Z.pow_add_r by lia.
      assert (0 < 10 ^ (Z.of_nat P - 1 - X)) by (apply Z.pow_pos_nonneg; lia). nia.
    + replace (Z.of_nat P - 1 - X) with (- (X + 1) + Z.of_nat P) by lia.
      rewrite Z.pow_add_r by lia.
      assert (0 < 10 ^ Z.of_nat P) by (apply Z.pow_pos_nonneg; lia). nia.
  - assert (0 < 10 ^ (- (Z.of_nat P - 1 - X))) by (apply Z.pow_pos_nonneg; lia). nia.
  - rewrite (proj2 (Z.leb_le 0 _)) in Hx by lia. rewrite <-Z.mul_assoc, <-Z.pow_add_r by lia.
    replace (- (Z.of_nat P - 1 - X) + Z.of_nat P) with (X + 1) by lia. done.
Qed.

Lemma length_dec_le k n : (0 < k)%nat → 0 <= n < 10 ^ Z.of_nat k → (length (dec n) <= k)%nat.
Proof.
  intros Hk Hn. unfold dec. rewrite (proj2 (Z.ltb_ge _ _)) by lia. by apply length_dec_nonneg_le.
Qed.

Lemma round_div_nonneg num den : 0 <= num → 0 < den → 0 <= round_div num den.
Proof.
  intros. unfold round_div. pose proof (Z.div_pos num den). repeat case_match; lia.
Qed.

Lemma sig_digits_nonneg P num den : (0 < P)%nat → 0 < num → 0 < den → 0 <= (sig_digits P num den).1.
Proof.
  intros HP Hn Hd. unfold sig_digits. case_match; simpl; [apply Z.pow_nonneg; lia|].
  unfold scale_round. case_match eqn:E; [apply Z.leb_le in E | apply Z.leb_gt in E];
    apply round_div_nonneg; try lia.
Qed.

(** Decimal exponents of binary64 numbers have at most three digits. *)
Lemma frac_of_bound m e : Zpos m < 2 ^ 53 → -1074 <= e <= 971 →
  (frac_of m e).1 < 10 ^ 400 ∧ (frac_of m e).2 < 10 ^ 400.
Proof.
  intros Hm He. assert (2 ^ 1074 < 10 ^ 400) as Hp by (vm_compute; reflexivity).
  assert (2 ^ 53 * 2 ^ 971 < 10 ^ 400) as Hq by (vm_compute; reflexivity).
  unfold frac_of. destruct (Z.leb_spec 0 e); simpl fst; simpl snd; split.
  - eapply Z.le_lt_trans; [|exact Hq]. apply Z.mul_le_mono_nonneg; [lia..| |].
    + apply Z.pow_nonneg. lia.
    + apply Z.pow_le_mono_r; lia.
  - vm_compute. reflexivity.
  - eapply Z.lt_trans; [exact Hm|]. vm_compute. reflexivity.
  - eapply Z.le_lt_trans; [|exact Hp]. apply Z.pow_le_mono_r; lia.
Qed.

Lemma dec_exponent_bound num den : 0 < num < 10 ^ 400 → 0 < den < 10 ^ 400 →
  Z.abs (dec_exponent num den) <= 400.
Proof.
  intros Hn Hd. change 400 with (Z.of_nat 400) in Hn, Hd. unfold dec_exponent.
  destruct (Z.leb_spec den num) as [C|C].
  - assert (length (dec (num / den)) <= 400)%nat.
    { apply length_dec_le; [lia|]. split; [apply Z.div_pos; lia|].
      eapply Z.le_lt_trans; [|apply Hn]. apply Z.div_le_upper_bound; nia. }
    unfold zlen. lia.
  - assert (length (dec (den / num)) <= 400)%nat.
    { apply length_dec_le; [lia|]. split; [apply Z.div_pos; lia|].
      eapply Z.le_lt_trans; [|apply Hd]. apply Z.div_le_upper_bound; nia. }
    unfold zlen. destruct (_ =? _); lia.
Qed.

Lemma length_strip_zeros s : (length (strip_zeros s) <= length s)%nat.
Proof.
  unfold strip_zeros. case_decide; [|done]. rewrite length_reverse, <-(length_reverse s).
  induction (reverse s) as [|c r IH]; simpl; [done|]. repeat case_match; simpl; lia.
Qed.

Lemma length_fixed_str n p : 0 <= n < 10 ^ 12 → (length (fixed_str n p) <= 13 + p)%nat.
Proof.
  intros Hn. change 12 with (Z.of_nat 12) in Hn. unfold fixed_str. case_decide.
  - etransitivity; [by apply (length_dec_le 12); [lia|]|lia].
  - assert (0 < 10 ^ Z.of_nat p) by (apply Z.pow_pos_nonneg; lia).
    rewrite length_app. simpl.
    destruct (fmt_0d_spec p (n mod 10 ^ Z.of_nat p)) as [-> _];
      [lia|apply Z.mod_pos_bound; lia|].
    assert (length (dec (n / 10 ^ Z.of_nat p)) <= 12)%nat; [|lia].
    apply length_dec_le; [lia|]. split; [apply Z.div_pos; lia|].
    eapply Z.le_lt_trans; [|apply Hn]. apply Z.div_le_upper_bound; nia.
Qed.

Lemma length_exp_str x : Z.abs x < 1000 → (length (exp_str x) <= 5)%nat.
Proof.
  intros Hx. unfold exp_str, fmt_0d. rewrite (proj2 (Z.ltb_ge (Z.abs x) 0)) by lia. simpl.
  rewrite length_app, length_replicate.
  pose proof (length_dec_le 3 (Z.abs x) ltac:(lia) ltac:(simpl; lia)) as Hl. unfold dec in *.
  rewrite (proj2 (Z.ltb_ge (Z.abs x) 0)) in Hl |- * by lia. lia.
Qed.

(** [%.12g] fits in 31 characters for every double. *)
Lemma length_fmt_g12 x : is_binary64 x → (length (fmt_g 12 x) <= 31)%nat.
Proof.
  intros Hx. destruct x as [b|b| |s m e]; [destruct b; simpl; lia|destruct b; simpl; lia|simpl; lia|]. destruct Hx as [Hm He].
  unfold fmt_g. pose proof (frac_of_pos m e) as [Hn Hd]. pose proof (frac_of_bound m e Hm He) as [Bn Bd].
  destruct (frac_of m e) as [num den]. simpl fst in *. simpl snd in *.
  pose proof (sig_digits_lt 12 num den ltac:(lia) Hn Hd) as Hlt.
  pose proof (sig_digits_nonneg 12 num den ltac:(lia) Hn Hd) as H0.
  assert (Z.abs (sig_digits 12 num den).2 <= 401) as HX.
  { pose proof (dec_exponent_bound num den (conj Hn Bn) (conj Hd Bd)) as Hb.
    clear Bn Bd. unfold sig_digits. case_match; simpl; lia. }
  destruct (sig_digits 12 num den) as [d X]. simpl fst in *. simpl snd in *.
  rewrite length_app. assert (length (sign_str s) <= 1)%nat by (destruct s; simpl; lia).
  destruct ((-4 <=? X) && (X <? Z.of_nat 12)) eqn:E.
  - apply andb_prop in E as [E1%Z.leb_le E2%Z.ltb_lt].
    pose proof (length_strip_zeros (fixed_str d (Z.to_nat (Z.of_nat 12 - 1 - X)))).
    pose proof (length_fixed_str d (Z.to_nat (Z.of_nat 12 - 1 - X)) ltac:(lia)). lia.
  - rewrite length_app. pose proof (length_exp_str X ltac:(lia)).
    pose proof (length_strip_zeros (fixed_str d (12 - 1))).
    pose proof (length_fixed_str d (12 - 1) ltac:(lia)). lia.
Qed.

(** ** Worked values *)

Definition d_dec (m e : Z) : double := double_of_dec m e.

Example fmt_values :
  fmt_g 17 (d_dec 1 (-1)) = str "0.10000000000000001"
  ∧ fmt_g 12 (d_dec 1 (-1)) = str "0.1"
  ∧ fmt_g 17 (double_of_Z 1) = str "1"
  ∧ fmt_g 17 (d_dec 15 (-1)) = str "1.5"
  ∧ fmt_g 17 (d_dec 1 21) = str "1e+21"
  ∧ fmt_g 6 (d_dec 12345678 (-12)) = str "1.23457e-05"
  ∧ fmt_f 2 (d_dec 1005 (-3)) = str "1.00"
  ∧ fmt_f 0 (d_dec 25 (-1)) = str "2".
Proof. vm_compute. split_and!; reflexivity. Qed.

Example strtod_values :
  strtod (str "0.1,") = Some (ddiv (double_of_Z 1) (double_of_Z 10), str ",")
  ∧ strtod (str "-12.5e3]") = Some (double_of_Z (-12500), str "]")
  ∧ strtod (str "1e400") = Some (S754_infinity false, [])
  ∧ strtod (str "4.9406564584124654e-324") = Some (S754_finite false 1 (-1074), [])
  ∧ strtod (str "x") = None.
Proof. vm_compute. split_and!; reflexivity. Qed.
