(* ===== verification/Date.v ===== *)
(** * Dates (fishnet/base/date.h, fishnet/base/date.cc)

    The Julian day number arithmetic with 32-bit [int]s, in which an overflow is
    an error, against the proleptic Gregorian calendar. *)

From S2P Require Import Prelude Printf.
Local Open Scope Z_scope.

(** ** The code *)

Record YearMonthDay := mkYMD { year : Z; month : Z; day : Z }.

#[global] Instance YearMonthDay_eq_dec : EqDecision YearMonthDay.
Proof. solve_decision. Defined.

Definition getJulianDayNumber (year month day : Z) : res Z :=
  a ← ((#14 - #month) / #12)%i32;
  y ← (#year + #4800 - #a)%i32;
  m ← (#month + #12 * #a - #3)%i32;
  (#day + (#153 * #m + #2) / #5 + #y * #365 + #y / #4 - #y / #100 + #y / #400 - #32045)%i32.

Definition getYearMonthDay (julianDayNumber : Z) : res YearMonthDay :=
  a ← (#julianDayNumber + #32044)%i32;
  b ← ((#4 * #a + #3) / #146097)%i32;
  c ← (#a - #b * #146097 / #4)%i32;
  d ← ((#4 * #c + #3) / #1461)%i32;
  e ← (#c - #1461 * #d / #4)%i32;
  m ← ((#5 * #e + #2) / #153)%i32;
  day ← (#e - (#153 * #m + #2) / #5 + #1)%i32;
  month ← (#m + #3 - #12 * (#m / #10))%i32;
  year ← (#b * #100 + #d - #4800 + (#m / #10))%i32;
  Ok (mkYMD year month day).

Definition kJulianDayOf1970_01_01 : res Z := getJulianDayNumber 1970 1 1.

(** A [Date] is its Julian day number. *)
Record Date := mkDate { julianDayNumber_ : Z }.

Definition newDate (y m d : Z) : res Date := j ← getJulianDayNumber y m d; Ok (mkDate j).

(** [struct tm]; a zone name is the C string it points to. *)
Record tm := mkTm {
  tm_sec : Z; tm_min : Z; tm_hour : Z; tm_mday : Z; tm_mon : Z; tm_year : Z;
  tm_wday : Z; tm_yday : Z; tm_isdst : Z; tm_gmtoff : Z; tm_zone : bytes }.

Definition newDate_tm (t : tm) : res Date :=
  y ← (#(tm_year t) + #1900)%i32;
  m ← (#(tm_mon t) + #1)%i32;
  newDate y m (tm_mday t).

Definition yearMonthDay (d : Date) : res YearMonthDay := getYearMonthDay (julianDayNumber_ d).

Definition toIsoString (d : Date) : res bytes :=
  ymd ← yearMonthDay d;
  Ok (snprintf 32 (fmt_d 4 (year ymd) ++ "-"%char :: fmt_0d 2 (month ymd)
                   ++ "-"%char :: fmt_0d 2 (day ymd))).

Definition kDaysPerWeek : Z := 7.
Definition weekDay (d : Date) : res Z := ((#(julianDayNumber_ d) + #1) % #kDaysPerWeek)%i32.

Definition date_lt (x y : Date) : bool := julianDayNumber_ x <? julianDayNumber_ y.

(** ** The calendar *)

Definition leap (y : Z) : bool :=
  ((y mod 4 =? 0) && negb (y mod 100 =? 0)) || (y mod 400 =? 0).

Definition days_in_month (y m : Z) : Z :=
  if m =? 2 then (if leap y then 29 else 28)
  else if (m =? 4) || (m =? 6) || (m =? 9) || (m =? 11) then 30 else 31.

(** The years for which no intermediate value of the two conversions leaves
    32 bits and no division has a negative operand. *)
Definition min_year : Z := -4799.
Definition max_year : Z := 1460000.
Definition min_jdn : Z := -31738.
Definition max_jdn : Z := 534975475.

Definition valid_ymd (t : YearMonthDay) : Prop :=
  min_year <= year t <= max_year ∧ 1 <= month t <= 12
  ∧ 1 <= day t <= days_in_month (year t) (month t).

Definition next_day (t : YearMonthDay) : YearMonthDay :=
  if day t <? days_in_month (year t) (month t) then mkYMD (year t) (month t) (day t + 1)
  else if month t <? 12 then mkYMD (year t) (month t + 1) 1
  else mkYMD (year t + 1) 1 1.

Definition ymd_lt (x y : YearMonthDay) : Prop :=
  year x < year y
  ∨ (year x = year y ∧ (month x < month y ∨ (month x = month y ∧ day x < day y))).

(** ** Rounding down: the three nested divisions *)

(** [(q*a + q-1-r) / p] inverts [b ↦ (p*b + r) / q]. *)
Lemma floor_le p q r b a : 0 < p → 0 < q → 
  (p * b + r) / q <= a ↔ b <= (q * a + q - 1 - r) / p.
Proof.
  intros Hp Hq. split; intros H.
  - apply Z.div_le_lower_bound; [lia|].
    pose proof (Z.mul_succ_div_gt (p * b + r) q Hq). nia.
  - apply Z.lt_succ_r, Z.div_lt_upper_bound; [lia|].
    pose proof (Z.mul_div_le (q * a + q - 1 - r) p Hp). nia.
Qed.

Lemma floor_iff p q r k b a : 0 < p → 0 < q → k = q - 1 - r →
  (q * a + k) / p = b ↔ (p * b + r) / q <= a < (p * (b + 1) + r) / q.
Proof.
  intros Hp Hq ->. pose proof (floor_le p q r b a Hp Hq) as H1.
  pose proof (floor_le p q r (b + 1) a Hp Hq) as H2.
  rewrite Z.add_sub_assoc, Z.add_sub_assoc. lia.
Qed.

Definition century (a : Z) : Z := (4 * a + 3) / 146097.
Definition year_of (c : Z) : Z := (4 * c + 3) / 1461.
Definition month_of (e : Z) : Z := (5 * e + 2) / 153.

Lemma century_iff a b :
  century a = b ↔ 146097 * b / 4 <= a < 146097 * (b + 1) / 4.
Proof. unfold century. rewrite (floor_iff 146097 4 0) by lia. by rewrite !Z.add_0_r. Qed.

Lemma year_of_iff c d :
  year_of c = d ↔ 1461 * d / 4 <= c < 1461 * (d + 1) / 4.
Proof. unfold year_of. rewrite (floor_iff 1461 4 0) by lia. by rewrite !Z.add_0_r. Qed.

Lemma month_of_iff e m :
  month_of e = m ↔ (153 * m + 2) / 5 <= e < (153 * (m + 1) + 2) / 5.
Proof. unfold month_of. by rewrite (floor_iff 153 5 2) by lia. Qed.

(** Days from 1 March 4801 BC: [y] years and [m] months after March. *)
Definition march_days (y m d : Z) : Z :=
  d - 1 + (153 * m + 2) / 5 + y * 365 + y / 4 - y / 100 + y / 400.

Lemma years_split b d : 0 <= d < 100 →
  let y := 100 * b + d in
  y * 365 + y / 4 - y / 100 + y / 400 = 146097 * b / 4 + 1461 * d / 4.
Proof.
  intros Hd. simpl.
  assert ((100 * b + d) / 4 = 25 * b + d / 4) as ->.
  { rewrite <-Z.div_add_l by lia. f_equal. lia. }
  assert ((100 * b + d) / 100 = b) as E by dlia. rewrite E.
  assert ((100 * b + d) / 400 = b / 4) as ->.
  { change 400 with (100 * 4). by rewrite <-Z.div_div, E by lia. }
  assert (146097 * b / 4 = 36524 * b + b / 4) as ->.
  { rewrite <-Z.div_add_l by lia. f_equal. lia. }
  assert (1461 * d / 4 = 365 * d + d / 4) as ->.
  { rewrite <-Z.div_add_l by lia. f_equal. lia. }
  lia.
Qed.

(** The last day of year [y] counted from March. *)
Definition feb_days (y : Z) : Z := if leap (y + 1) then 29 else 28.

(** The March-based date of a day count, by the three divisions. *)
Definition march_date (a : Z) : Z * Z * Z :=
  let b := century a in
  let c := a - 146097 * b / 4 in
  let d := year_of c in
  let e := c - 1461 * d / 4 in
  let m := month_of e in
  (100 * b + d, m, e - (153 * m + 2) / 5 + 1).

Definition march_valid (y m d : Z) : Prop :=
  0 <= m <= 11
  ∧ 1 <= d <= (if m =? 11 then feb_days y
               else if (m =? 1) || (m =? 3) || (m =? 6) || (m =? 8) then 30 else 31).

Lemma leap_spec y :
  leap y = true ↔ (y mod 4 = 0 ∧ y mod 100 ≠ 0) ∨ y mod 400 = 0.
Proof.
  unfold leap. rewrite orb_true_iff, andb_true_iff, negb_true_iff.
  by rewrite !Z.eqb_eq, Z.eqb_neq.
Qed.

(** A valid day of month lies within the month's slots. *)
Lemma march_valid_month y m d : march_valid y m d →
  let e := d - 1 + (153 * m + 2) / 5 in
  (153 * m + 2) / 5 <= e < (153 * (m + 1) + 2) / 5 ∧ 0 <= e < 365 + (if leap (y + 1) then 1 else 0).
Proof.
  intros [Hm Hd]. unfold feb_days in Hd. simpl.
  assert (m = 0 ∨ m = 1 ∨ m = 2 ∨ m = 3 ∨ m = 4 ∨ m = 5 ∨ m = 6 ∨ m = 7 ∨ m = 8 ∨ m = 9
          ∨ m = 10 ∨ m = 11) as Hcase by lia.
  destruct (leap (y + 1)); destruct_or! Hcase; subst m; simpl in Hd; dlia.
Qed.

(** The year after [100 * b + d], by its place in the century. *)
Lemma leap_next b d : 0 <= d < 100 →
  leap (100 * b + d + 1) = true ↔ (d mod 4 = 3 ∧ d ≠ 99) ∨ (d = 99 ∧ b mod 4 = 3).
Proof. intros Hd. rewrite leap_spec. dlia. Qed.

(** The end of a year lies within its four-year slot and its century. *)
Lemma year_room b d e : 0 <= d < 100 →
  0 <= e < 365 + (if leap (100 * b + d + 1) then 1 else 0) →
  0 <= e < 1461 * (d + 1) / 4 - 1461 * d / 4
  ∧ 0 <= e + 1461 * d / 4 < 146097 * (b + 1) / 4 - 146097 * b / 4.
Proof.
  intros Hd He. pose proof (leap_next b d Hd) as Hl.
  destruct (leap (100 * b + d + 1)).
  - destruct (proj1 Hl eq_refl) as [[]|[]]; dlia.
  - assert (¬ ((d mod 4 = 3 ∧ d ≠ 99) ∨ d = 99 ∧ b mod 4 = 3)) by (intros HH; by apply Hl in HH).
    clear Hl. dlia.
Qed.

Lemma march_date_days y m d : march_valid y m d → march_date (march_days y m d) = (y, m, d).
Proof.
  intros Hv. pose proof (march_valid_month _ _ _ Hv) as [Hm He]. simpl in *.
  set (e := d - 1 + (153 * m + 2) / 5) in *.
  pose proof (Z.div_mod y 100 ltac:(lia)) as Ey. pose proof (Z.mod_pos_bound y 100) as Hc.
  rewrite Ey in He. apply year_room in He as [He1 He2]; [|lia].
  assert (march_days y m d = e + 146097 * (y / 100) / 4 + 1461 * (y mod 100) / 4) as Ea.
  { unfold march_days. fold e. pose proof (years_split (y / 100) (y mod 100)) as H. simpl in H.
    rewrite <-Ey in H. lia. }
  assert (century (march_days y m d) = y / 100) as Eb by (apply century_iff; lia).
  assert (year_of (march_days y m d - 146097 * (y / 100) / 4) = y mod 100) as Ed
    by (apply year_of_iff; lia).
  unfold march_date. rewrite Eb, Ed.
  replace (march_days y m d - 146097 * (y / 100) / 4 - 1461 * (y mod 100) / 4) with e by lia.
  assert (month_of e = m) as -> by (by apply month_of_iff).
  repeat f_equal; lia.
Qed.

Lemma march_days_date a :
  let '(y, m, d) := march_date a in march_days y m d = a ∧ march_valid y m d.
Proof.
  unfold march_date. set (b := century a). set (c := a - 146097 * b / 4).
  set (d := year_of c). set (e := c - 1461 * d / 4). set (m := month_of e).
  pose proof (proj1 (century_iff a b) eq_refl) as Hb.
  pose proof (proj1 (year_of_iff c d) eq_refl) as Hd.
  pose proof (proj1 (month_of_iff e m) eq_refl) as Hm.
  assert (0 <= c < 36525) by (subst c; dlia).
  assert (0 <= d < 100) by dlia. assert (0 <= e < 366) by (subst e; dlia).
  assert (0 <= m < 12) by dlia. split.
  - unfold march_days. pose proof (years_split b d) as H3. simpl in H3.
    enough (e - (153 * m + 2) / 5 + 1 - 1 + (153 * m + 2) / 5 = e) by (subst e c; lia). lia.
  - pose proof (leap_next b d ltac:(lia)) as Hl. split; [lia|]. unfold feb_days.
    assert (m = 0 ∨ m = 1 ∨ m = 2 ∨ m = 3 ∨ m = 4 ∨ m = 5 ∨ m = 6 ∨ m = 7 ∨ m = 8 ∨ m = 9
            ∨ m = 10 ∨ m = 11) as Hcase by lia.
    clearbody m. destruct_or! Hcase; subst m; simpl; try dlia.
    destruct (leap (100 * b + d + 1)); [dlia|].
    assert (e < 365); [|dlia].
    assert (¬ ((d mod 4 = 3 ∧ d ≠ 99) ∨ d = 99 ∧ b mod 4 = 3)) by (intros HH; by apply Hl in HH).
    clear Hl. subst e c. dlia.
Qed.

(** ** The code computes the March-based day count *)

Ltac i32_eval :=
  repeat first
    [ progress simpl
    | match goal with
      | |- context [i32_op Z.quot (Ok ?x) (Ok ?y)] => rewrite (i32_div_ok x y) by dlia
      | |- context [i32_op ?f (Ok ?x) (Ok ?y)] => rewrite (i32_op_ok f x y) by dlia
      end ].

(** The March-based year and month of a calendar date. *)
Definition march_year (t : YearMonthDay) : Z := year t + 4800 - (14 - month t) / 12.
Definition march_month (t : YearMonthDay) : Z := month t + 12 * ((14 - month t) / 12) - 3.

Lemma days_in_month_le y m : 28 <= days_in_month y m <= 31.
Proof. unfold days_in_month. repeat case_match; lia. Qed.

Lemma getJulianDayNumber_days t : valid_ymd t →
  getJulianDayNumber (year t) (month t) (day t)
  = Ok (march_days (march_year t) (march_month t) (day t) - 32044).
Proof.
  intros (Hy & Hm & Hd). unfold min_year, max_year in Hy.
  pose proof (days_in_month_le (year t) (month t)).
  unfold getJulianDayNumber, march_days, march_year, march_month.
  rewrite (i32_op_ok Z.sub 14) by lia. rewrite i32_div_ok by lia. simpl.
  set (a := (14 - month t) / 12). assert (0 <= a <= 1) by (subst a; dlia).
  assert (0 <= month t + 12 * a - 3 <= 11) by (subst a; dlia). clearbody a.
  set (y := year t + 4800 - a). set (m := month t + 12 * a - 3) in *.
  assert (0 <= y <= 1464800) by lia.
  rewrite (i32_op_ok Z.add (year t)), (i32_op_ok Z.mul 12) by lia.
  rewrite !i32_op_ok with (f := Z.add) (x := month t) by lia.
  rewrite (i32_op_ok Z.sub (year t + 4800)), (i32_op_ok Z.sub (month t + 12 * a)) by lia. simpl.
  fold y m. clearbody y m. i32_eval. f_equal. lia.
Qed.

Lemma leap_4800 y : leap (y + 4800) = leap y.
Proof.
  unfold leap. rewrite !Z.add_mod with (b := 4800) by lia. simpl.
  by rewrite !Z.add_0_r, !Z.mod_mod by lia.
Qed.

(** The calendar date of a March-based one. *)
Definition of_march (t : Z * Z * Z) : YearMonthDay :=
  let '(y, m, d) := t in mkYMD (y - 4800 + m / 10) (m + 3 - 12 * (m / 10)) d.

Lemma getYearMonthDay_march j :
  min_jdn <= j <= max_jdn → getYearMonthDay j = Ok (of_march (march_date (j + 32044))).
Proof.
  unfold min_jdn, max_jdn. intros Hj. unfold getYearMonthDay, march_date, of_march.
  rewrite (i32_op_ok Z.add j) by lia. simpl. set (a := j + 32044).
  assert (0 <= a <= 535008000) by lia. clearbody a. clear j Hj.
  pose proof (proj1 (century_iff a (century a)) eq_refl) as Hb. unfold century in *.
  rewrite (i32_op_ok Z.mul 4 _), (i32_op_ok Z.add _ 3), i32_div_ok by lia. simpl.
  set (b := (4 * a + 3) / 146097) in *. assert (0 <= b <= 14649) by (subst b; dlia).
  assert (b * 146097 < 2 ^ 31) by (subst b; dlia).
  rewrite (i32_op_ok Z.mul b 146097), i32_div_ok by lia. rewrite (Z.mul_comm b 146097).
  rewrite (i32_op_ok Z.sub a) by dlia. simpl.
  set (c := a - 146097 * b / 4) in *. assert (0 <= c < 36525) by (subst c; dlia).
  clearbody c. clear Hb.
  pose proof (proj1 (year_of_iff c (year_of c)) eq_refl) as Hd. unfold year_of in *.
  rewrite (i32_op_ok Z.mul 4 _), (i32_op_ok Z.add _ 3), i32_div_ok by lia. simpl.
  set (d := (4 * c + 3) / 1461) in *. assert (0 <= d < 100) by (subst d; dlia).
  rewrite (i32_op_ok Z.mul 1461), i32_div_ok, (i32_op_ok Z.sub c) by dlia. simpl.
  set (e := c - 1461 * d / 4) in *. assert (0 <= e < 366) by (subst e; dlia).
  clearbody e. clear Hd.
  pose proof (proj1 (month_of_iff e (month_of e)) eq_refl) as Hm. unfold month_of in *.
  rewrite (i32_op_ok Z.mul 5), (i32_op_ok Z.add _ 2), i32_div_ok by lia. simpl.
  set (m := (5 * e + 2) / 153) in *. assert (0 <= m < 12) by (subst m; dlia).
  clearbody m b d. i32_eval. f_equal. f_equal; lia.
Qed.

Ltac month_cases m :=
  let H := fresh in
  assert (m = 0 ∨ m = 1 ∨ m = 2 ∨ m = 3 ∨ m = 4 ∨ m = 5 ∨ m = 6 ∨ m = 7 ∨ m = 8 ∨ m = 9
          ∨ m = 10 ∨ m = 11 ∨ m = 12) as H by lia;
  destruct_or! H; subst m; try lia.

(** Evaluates the divisions of constants a case on the month leaves. *)
Ltac div_consts :=
  repeat match goal with
  | |- context [?a / ?b] =>
      let v := eval vm_compute in (a / b) in
      lazymatch v with Z.pos _ => idtac | Z0 => idtac end; change (a / b) with v
  | H : context [?a / ?b] |- _ =>
      let v := eval vm_compute in (a / b) in
      lazymatch v with Z.pos _ => idtac | Z0 => idtac end; change (a / b) with v in H
  end; simpl in *.

Lemma valid_march y m d :
  valid_ymd (mkYMD y m d) →
  march_valid (march_year (mkYMD y m d)) (march_month (mkYMD y m d)) d
  ∧ of_march (march_year (mkYMD y m d), march_month (mkYMD y m d), d) = mkYMD y m d.
Proof.
  intros (_ & Hm & Hd). unfold march_valid, of_march, march_year, march_month, feb_days,
    days_in_month in *. simpl in *. pose proof (leap_4800 y) as Hl.
  month_cases m; div_consts; (split; [|f_equal; lia]); rewrite ?Z.sub_add, ?Hl; lia.
Qed.

Lemma march_valid_of y m d :
  march_valid y m d → min_year <= year (of_march (y, m, d)) <= max_year →
  valid_ymd (of_march (y, m, d))
  ∧ march_year (of_march (y, m, d)) = y ∧ march_month (of_march (y, m, d)) = m.
Proof.
  intros [Hm Hd] Hy. unfold valid_ymd, march_year, march_month, of_march, days_in_month,
    feb_days in *. simpl in *. pose proof (leap_4800 (y - 4800 + 1)) as Hl.
  replace (y - 4800 + 1 + 4800) with (y + 1) in Hl by lia.
  month_cases m; div_consts; rewrite <-?Hl; split_and!; lia.
Qed.

(** ** Properties *)

Lemma jdn_range t : valid_ymd t →
  min_jdn <= march_days (march_year t) (march_month t) (day t) - 32044 <= max_jdn.
Proof.
  destruct t as [y m d]. intros Hv. pose proof (valid_march _ _ _ Hv) as [Hmv _].
  destruct Hv as (Hy & Hm & Hd). apply march_valid_month in Hmv as [_ He].
  unfold min_jdn, max_jdn, min_year, max_year in *. simpl in *.
  unfold march_days, march_year, march_month, days_in_month in *. simpl in *.
  month_cases m; div_consts; repeat case_match; dlia.
Qed.

Lemma ymd_to_jdn t : valid_ymd t →
  ∃ j, getJulianDayNumber (year t) (month t) (day t) = Ok j
       ∧ min_jdn <= j <= max_jdn ∧ getYearMonthDay j = Ok t.
Proof.
  intros Hv. pose proof (jdn_range t Hv). rewrite (getJulianDayNumber_days t Hv).
  eexists. split; [done|]. split; [done|]. rewrite getYearMonthDay_march by done.
  rewrite Z.sub_add. destruct t as [y m d]. apply valid_march in Hv as [Hv Ht].
  cbn [day]. by rewrite march_date_days, Ht by done.
Qed.

Lemma jdn_to_ymd j : min_jdn <= j <= max_jdn →
  ∃ t, getYearMonthDay j = Ok t ∧ valid_ymd t
       ∧ getJulianDayNumber (year t) (month t) (day t) = Ok j.
Proof.
  intros Hj. rewrite (getYearMonthDay_march j Hj).
  pose proof (march_days_date (j + 32044)) as H.
  destruct (march_date (j + 32044)) as [[y m] d]. destruct H as [Ej Hv].
  assert (min_year <= year (of_march (y, m, d)) <= max_year) as Hy.
  { destruct Hv as [Hm Hd]. unfold feb_days, march_days, min_jdn, max_jdn in *. simpl.
    unfold min_year, max_year. month_cases m; div_consts; repeat case_match; dlia. }
  destruct (march_valid_of y m d Hv Hy) as (Hv' & E1 & E2).
  eexists. split; [done|]. split; [done|].
  rewrite (getJulianDayNumber_days _ Hv'), E1, E2. simpl. f_equal. lia.
Qed.

(** C26: The two conversions of date.cc are inverse bijections, without any 32-bit
    overflow, between the valid Gregorian dates from January 4800 BC to the year
    1460000 and the Julian day numbers from -31738 to 534975475. *)
Theorem date_bijection :
  (∀ t, valid_ymd t →
    ∃ j, getJulianDayNumber (year t) (month t) (day t) = Ok j
         ∧ min_jdn <= j <= max_jdn ∧ getYearMonthDay j = Ok t)
  ∧ (∀ j, min_jdn <= j <= max_jdn →
    ∃ t, getYearMonthDay j = Ok t ∧ valid_ymd t
         ∧ getJulianDayNumber (year t) (month t) (day t) = Ok j).
Proof. split; [apply ymd_to_jdn | apply jdn_to_ymd]. Qed.

(** Year lengths, and the order of dates. *)
Definition year_start (y : Z) : Z := y * 365 + y / 4 - y / 100 + y / 400.

Lemma year_start_next y : year_start (y + 1) = year_start y + 365 + (if leap (y + 1) then 1 else 0).
Proof.
  unfold year_start. pose proof (leap_spec (y + 1)) as Hl. destruct (leap (y + 1)).
  - destruct (proj1 Hl eq_refl) as [[]|]; dlia.
  - assert (¬ (((y + 1) mod 4 = 0 ∧ (y + 1) mod 100 ≠ 0) ∨ (y + 1) mod 400 = 0))
      by (intros HH; by apply Hl in HH). clear Hl. dlia.
Qed.

Lemma year_start_mono y y' : y <= y' → year_start y <= year_start y'.
Proof. unfold year_start. dlia. Qed.

Lemma march_days_lt y m d y' m' d' :
  march_valid y m d → march_valid y' m' d' →
  y < y' ∨ (y = y' ∧ (m < m' ∨ (m = m' ∧ d < d'))) →
  march_days y m d < march_days y' m' d'.
Proof.
  intros H%march_valid_month H'%march_valid_month Hlt. destruct H as [Hm He], H' as [Hm' He'].
  assert (∀ y m d, march_days y m d = d - 1 + (153 * m + 2) / 5 + year_start y) as E
    by (intros; unfold march_days, year_start; lia).
  rewrite !E. clear E. destruct Hlt as [Hy|[-> [Hlt|[-> Hlt]]]]; [|dlia|lia].
  pose proof (year_start_next y). pose proof (year_start_mono (y + 1) y'). lia.
Qed.

Lemma jdn_lt t u : valid_ymd t → valid_ymd u → ymd_lt t u →
  march_days (march_year t) (march_month t) (day t)
  < march_days (march_year u) (march_month u) (day u).
Proof.
  intros Ht Hu Hlt. destruct t as [y m d], u as [y' m' d'].
  pose proof (valid_march _ _ _ Ht) as [Vt _]. pose proof (valid_march _ _ _ Hu) as [Vu _].
  apply march_days_lt; [done..|]. destruct Ht as (_ & Hm & _), Hu as (_ & Hm' & _).
  unfold ymd_lt, march_year, march_month in *. simpl in *. dlia.
Qed.

Lemma next_day_days t : valid_ymd t →
  march_days (march_year (next_day t)) (march_month (next_day t)) (day (next_day t))
  = march_days (march_year t) (march_month t) (day t) + 1.
Proof.
  destruct t as [y m d]. intros Hv. destruct Hv as (_ & Hm & Hd). simpl in *.
  assert (∀ y m d, march_days y m d = d - 1 + (153 * m + 2) / 5 + year_start y) as E
    by (intros; unfold march_days, year_start; lia).
  unfold next_day. simpl. rewrite !E. clear E. unfold march_year, march_month.
  destruct (Z.ltb_spec d (days_in_month y m)) as [Hlt|Hge]; unfold days_in_month in *; simpl.
  { lia. }
  pose proof (year_start_next (y + 4800 - 1)) as Hn. rewrite Z.sub_add, leap_4800 in Hn.
  assert (y + 1 + 4800 - 1 = y + 4800) as Ey by lia.
  month_cases m; div_consts; rewrite ?Z.sub_0_r, ?Ey; try lia; try (destruct (leap y); lia).
Qed.

Definition jdn_of (t : YearMonthDay) : res Z := getJulianDayNumber (year t) (month t) (day t).

Lemma weekDay_ok j : -1 <= j <= max_jdn → weekDay (mkDate j) = Ok ((j + 1) mod 7).
Proof.
  unfold max_jdn. intros. unfold weekDay, kDaysPerWeek. simpl. rewrite (i32_op_ok Z.add) by lia.
  rewrite i32_op_ok; rewrite Z.rem_mod_nonneg by lia; [done|]. dlia.
Qed.

(** Day numbers follow the calendar: the day after a date (by the month
    lengths and leap years of the Gregorian rule) has the next number, the order
    of [Date]s is the order of the dates they denote, 1 January 1970 is day
    2440588, and for dates since 4714 BC the weekday is in 0..6, is Thursday on
    1 January 1970 and advances by one, modulo 7, each day. *)
Theorem date_calendar :
  kJulianDayOf1970_01_01 = Ok 2440588
  ∧ weekDay (mkDate 2440588) = Ok 4
  ∧ (∀ t j, valid_ymd t → valid_ymd (next_day t) → jdn_of t = Ok j →
       jdn_of (next_day t) = Ok (j + 1)
       ∧ (0 <= j → ∃ w, weekDay (mkDate j) = Ok w ∧ 0 <= w < 7
                        ∧ weekDay (mkDate (j + 1)) = Ok ((w + 1) mod 7)))
  ∧ (∀ t u j k, valid_ymd t → valid_ymd u → jdn_of t = Ok j → jdn_of u = Ok k →
       ymd_lt t u → date_lt (mkDate j) (mkDate k) = true).
Proof.
  unfold jdn_of. split_and!; [vm_compute; reflexivity.. | |].
  - intros t j Ht Hn. pose proof (jdn_range _ Ht). pose proof (jdn_range _ Hn) as Hr.
    rewrite (getJulianDayNumber_days t Ht), (getJulianDayNumber_days _ Hn).
    rewrite next_day_days in Hr |- * by done. intros [= <-]. split; [f_equal; lia|].
    intros Hj. rewrite !weekDay_ok by lia. eexists. split; [done|].
    split; [apply Z.mod_pos_bound; lia | f_equal; dlia].
  - intros t u j k Ht Hu. rewrite (getJulianDayNumber_days t Ht), (getJulianDayNumber_days u Hu).
    intros [= <-] [= <-] Hlt. apply Z.ltb_lt. simpl. pose proof (jdn_lt t u Ht Hu Hlt). lia.
Qed.

(** For dates of four-digit years [toIsoString] gives the ten characters
    YYYY-MM-DD, whose three fields read back as the year, month and day. *)
Theorem toIsoString_fields t j :
  valid_ymd t → 1000 <= year t <= 9999 → jdn_of t = Ok j →
  ∃ s, toIsoString (mkDate j) = Ok s ∧ length s = 10%nat
       ∧ read_digits 0 (take 4 s) = Some (year t)
       ∧ s !! 4%nat = Some "-"%char ∧ s !! 7%nat = Some "-"%char
       ∧ read_digits 0 (take 2 (drop 5 s)) = Some (month t)
       ∧ read_digits 0 (drop 8 s) = Some (day t).
Proof.
  intros Hv Hy Hj. destruct (ymd_to_jdn t Hv) as (j' & E & _ & Ht).
  unfold jdn_of in Hj. rewrite E in Hj. injection Hj as ->.
  unfold toIsoString, yearMonthDay. simpl. rewrite Ht. simpl.
  destruct Hv as (_ & Hm & Hd). pose proof (days_in_month_le (year t) (month t)).
  destruct (fmt_0d_spec 2 (month t)) as [Lm Rm]; [lia|simpl; lia|].
  destruct (fmt_0d_spec 2 (day t)) as [Ld Rd]; [lia|simpl; lia|].
  assert (length (dec_nonneg (year t)) = 4%nat) as Ly.
  { rewrite !dec_nonneg_step, dec_nonneg_small by dlia. done. }
  assert (fmt_d 4 (year t) = dec_nonneg (year t)) as ->.
  { unfold fmt_d, dec. rewrite (proj2 (Z.ltb_ge _ _)) by lia. by rewrite Ly. }
  pose proof (read_dec_nonneg (year t) ltac:(lia)) as Ry.
  destruct (dec_nonneg (year t)) as [|a [|b [|c [|d [|]]]]]; try discriminate Ly.
  destruct (fmt_0d 2 (month t)) as [|e [|f [|]]]; try discriminate Lm.
  destruct (fmt_0d 2 (day t)) as [|g [|h [|]]]; try discriminate Ld.
  eexists. split; [done|]. by split_and!.
Qed.

Lemma toIsoString_fields_witness :
  ∃ s, toIsoString (mkDate 2460370) = Ok s ∧ length s = 10%nat
       ∧ read_digits 0 (take 4 s) = Some 2024
       ∧ s !! 4%nat = Some "-"%char ∧ s !! 7%nat = Some "-"%char
       ∧ read_digits 0 (take 2 (drop 5 s)) = Some 2
       ∧ read_digits 0 (drop 8 s) = Some 29.
Proof.
  apply (toIsoString_fields (mkYMD 2024 2 29)); [|simpl; lia | vm_compute; reflexivity].
  split_and!; vm_compute; discriminate.
Defined.
