(* ===== verification/Ctime.v ===== *)
(** * Broken-down time of the C library

    [gmtime_r] and [timegm] as POSIX defines them (the proleptic Gregorian
    calendar, 86400 seconds a day), on the day count of [Date]. *)

From S2P Require Import Prelude Printf Date.
Local Open Scope Z_scope.

Definition tm_zero : tm := mkTm 0 0 0 0 0 0 0 0 0 0 [].

(** Days from 1 January 1970 to a date of the calendar. *)
Definition civil_days (y m d : Z) : Z :=
  march_days (march_year (mkYMD y m d)) (march_month (mkYMD y m d)) d - 32044 - 2440588.

Definition civil_date (days : Z) : YearMonthDay := of_march (march_date (days + 2440588 + 32044)).

(** [gmtime_r]: the fields of [t], or failure when the year does not fit. *)
Definition gmtime_r (t : Z) : option tm :=
  let days := t / 86400 in
  let secs := t mod 86400 in
  let ymd := civil_date days in
  if in_i32 (year ymd - 1900) then
    Some (mkTm (secs mod 60) (secs / 60 mod 60) (secs / 3600) (day ymd) (month ymd - 1)
            (year ymd - 1900) ((days + 4) mod 7) (days - civil_days (year ymd) 1 1)
            0 0 (str "GMT"))
  else None.

(** [timegm]: a month outside 0..11 counts into the year, the other fields
    linearly; [tm_wday], [tm_yday] and [tm_isdst] are ignored. *)
Definition timegm (t : tm) : Z :=
  86400 * (civil_days (tm_year t + 1900 + tm_mon t / 12) (tm_mon t mod 12 + 1) 1 + tm_mday t - 1)
  + 3600 * tm_hour t + 60 * tm_min t + tm_sec t.

#[global] Arguments gmtime_r _ : simpl never.
#[global] Arguments timegm _ : simpl never.

(** ** Lemmas *)

(** The March-based coordinates of [of_march], for any year. *)
Lemma of_march_coords y m d : 0 <= m <= 11 →
  march_year (of_march (y, m, d)) = y ∧ march_month (of_march (y, m, d)) = m
  ∧ day (of_march (y, m, d)) = d ∧ 1 <= month (of_march (y, m, d)) <= 12.
Proof.
  intros Hm. unfold march_year, march_month, of_march. simpl.
  month_cases m; div_consts; lia.
Qed.

Lemma civil_days_date n :
  let ymd := civil_date n in
  civil_days (year ymd) (month ymd) (day ymd) = n ∧ 1 <= month ymd <= 12 ∧ 1 <= day ymd <= 31.
Proof.
  unfold civil_days, civil_date. pose proof (march_days_date (n + 2440588 + 32044)) as H.
  destruct (march_date _) as [[y m] d]. destruct H as [E [Hm Hd]].
  destruct (of_march_coords y m d Hm) as (E1 & E2 & E3 & H4).
  destruct (of_march (y, m, d)) as [y' m' d']. simpl in *. subst d'. rewrite E1, E2, E.
  split_and!; try lia. unfold feb_days in Hd. revert Hd. repeat case_match; lia.
Qed.

Lemma civil_days_day y m d : civil_days y m d = civil_days y m 1 + d - 1.
Proof.
  unfold civil_days, march_days, march_year, march_month. simpl. lia.
Qed.

(** [timegm] inverts [gmtime_r]. *)
Lemma timegm_gmtime t u : gmtime_r t = Some u → timegm u = t.
Proof.
  unfold gmtime_r. pose proof (civil_days_date (t / 86400)) as H. cbv zeta in H.
  destruct (civil_date (t / 86400)) as [y m d]. simpl in *. destruct H as (E & Hm & Hd).
  destruct (in_i32 _); [|done]. intros [= <-]. unfold timegm. simpl.
  rewrite (Z.div_small (m - 1) 12), (Z.mod_small (m - 1) 12), !Z.sub_add, Z.add_0_r by lia.
  rewrite civil_days_day in E. dlia.
Qed.

Lemma gmtime_fields t u : gmtime_r t = Some u →
  0 <= tm_sec u < 60 ∧ 0 <= tm_min u < 60 ∧ 0 <= tm_hour u < 24 ∧ tm_isdst u = 0.
Proof.
  unfold gmtime_r. destruct (in_i32 _); [|done]. intros [= <-]. simpl. dlia.
Qed.


(** [gmtime_r] succeeds within some 35 million years of the epoch. *)
Lemma gmtime_some t : - 2 ^ 50 <= t <= 2 ^ 50 → is_Some (gmtime_r t).
Proof.
  intros Ht. unfold gmtime_r, civil_date.
  assert (- 2 ^ 34 <= t / 86400 <= 2 ^ 34) as Hd by dlia.
  pose proof (march_days_date (t / 86400 + 2440588 + 32044)) as H.
  destruct (march_date _) as [[y m] d]. destruct H as [E [Hm Hdd]].
  assert (1 <= d <= 31).
  { unfold feb_days in Hdd. revert Hdd. repeat case_match; lia. }
  generalize dependent (t / 86400). intros n Hn E. unfold march_days in E.
  assert (in_i32 (year (of_march (y, m, d)) - 1900) = true) as ->.
  { unfold in_i32, of_march. simpl. bsolve; dlia. }
  eauto.
Qed.
