(* ===== verification/TimeZone.v ===== *)
(** * Time zones (fishnet/base/time_zone.h, fishnet/base/time_zone.cc)

    The zone data, the TZif reader, the transition search, and the conversions
    between seconds and broken-down time in UTC and in a zone. *)

From S2P Require Import Prelude Endian Printf Date Ctime.
Local Open Scope Z_scope.

(** ** Data *)

Record Transition := mkTransition { gmttime : Z; localtime : Z; localtimeidx : Z }.
Record Localtime := mkLocaltime { gmtOffset : Z; isDst : bool; arrbIdx : Z }.
Record Data := mkData {
  transitions : list Transition; localtimes : list Localtime; abbreviation : bytes }.

(** [Comp(compareGmt)]. *)
Definition comp (compareGmt : bool) (lhs rhs : Transition) : bool :=
  if compareGmt then gmttime lhs <? gmttime rhs else localtime lhs <? localtime rhs.
Definition comp_equal (compareGmt : bool) (lhs rhs : Transition) : bool :=
  if compareGmt then gmttime lhs =? gmttime rhs else localtime lhs =? localtime rhs.

(** ** UTC *)

Definition kSecondsPerDay : Z := 24 * 60 * 60.

Definition fillHMS (seconds : Z) (utc : tm) : tm :=
  let minutes := seconds / 60 in
  mkTm (seconds mod 60) (minutes mod 60) (minutes / 60) (tm_mday utc) (tm_mon utc) (tm_year utc)
    (tm_wday utc) (tm_yday utc) (tm_isdst utc) (tm_gmtoff utc) (tm_zone utc).

Definition toUtcTime (secondsSinceEpoch : Z) (yday : bool) : res tm :=
  let utc := mkTm 0 0 0 0 0 0 0 0 0 0 (str "GMT") in
  let seconds := s32 (Z.rem secondsSinceEpoch kSecondsPerDay) in
  let days := s32 (Z.quot secondsSinceEpoch kSecondsPerDay) in
  '(seconds, days) ← (if seconds <? 0 then
                        s ← (#seconds + #kSecondsPerDay)%i32; d ← (#days - #1)%i32; Ok (s, d)
                      else Ok (seconds, days));
  let utc := fillHMS (u32 seconds) utc in
  k ← kJulianDayOf1970_01_01;
  j ← (#days + #k)%i32;
  let date := mkDate j in
  ymd ← yearMonthDay date;
  tm_year ← (#(year ymd) - #1900)%i32;
  tm_mon ← (#(month ymd) - #1)%i32;
  tm_wday ← weekDay date;
  tm_yday ← (if yday then
               startOfYear ← newDate (year ymd) 1 1;
               (#(julianDayNumber_ date) - #(julianDayNumber_ startOfYear))%i32
             else Ok 0);
  Ok (mkTm (tm_sec utc) (tm_min utc) (tm_hour utc) (day ymd) tm_mon tm_year tm_wday tm_yday
        (tm_isdst utc) (tm_gmtoff utc) (tm_zone utc)).

Definition fromUtcTime (year month day hour minute seconds : Z) : res Z :=
  date ← newDate year month day;
  secondsInDay ← (#hour * #3600 + #minute * #60 + #seconds)%i32;
  k ← kJulianDayOf1970_01_01;
  days ← (#(julianDayNumber_ date) - #k)%i32;
  i64 (days * kSecondsPerDay + secondsInDay).

Definition fromUtcTime_tm (utc : tm) : res Z :=
  y ← (#(tm_year utc) + #1900)%i32;
  m ← (#(tm_mon utc) + #1)%i32;
  fromUtcTime y m (tm_mday utc) (tm_hour utc) (tm_min utc) (tm_sec utc).

(** ** Zone lookup *)

(** [std::vector::operator[]] and [front], outside the vector an error. *)
Definition at_index {A} (l : list A) (i : Z) : res A :=
  if i <? 0 then Err OutOfBounds
  else match l !! Z.to_nat i with Some x => Ok x | None => Err OutOfBounds end.

(** [std::lower_bound] by halving. [fuel] at least [len] is enough. *)
Fixpoint lower_bound (fuel : nat) (lt : Transition → Transition → bool)
    (l : list Transition) (first len : nat) (v : Transition) : nat :=
  match fuel with
  | O => first
  | S fuel =>
      if decide (len = 0)%nat then first
      else
        let half := (len `div` 2)%nat in
        match l !! (first + half)%nat with
        | Some m =>
            if lt m v then lower_bound fuel lt l (first + half + 1) (len - half - 1) v
            else lower_bound fuel lt l first half v
        | None => first
        end
  end.

Definition findLocaltime (data : Data) (sentry : Transition) (gmt : bool) : res Localtime :=
  let ts := transitions data in
  match ts with
  | [] => at_index (localtimes data) 0
  | front :: _ =>
      if comp gmt sentry front then at_index (localtimes data) 0
      else
        let transI := lower_bound (length ts) (comp gmt) ts 0 (length ts) sentry in
        match ts !! transI with
        | Some t =>
            t ← (if comp_equal gmt sentry t then Ok t
                 else assertb (negb (Nat.eqb transI 0));; at_index ts (Z.of_nat transI - 1));
            at_index (localtimes data) (localtimeidx t)
        | None =>
            t ← at_index ts (zlen ts - 1);
            at_index (localtimes data) (localtimeidx t)
        end
  end.

(** [&abbreviation[i]] as a C string. *)
Definition c_str_from (s : bytes) (i : Z) : res bytes :=
  guard_or OutOfBounds ((0 <=? i) && (i <=? zlen s));;
  Ok (c_str (drop (Z.to_nat i) s)).

(** A [TimeZone] holds a shared pointer to its data. *)
Definition TimeZone := option Data.
Definition valid (z : TimeZone) : bool := bool_decide (is_Some z).

Definition data_ptr (z : TimeZone) : res Data :=
  match z with Some d => Ok d | None => Err AssertFailed end.

Definition toLocalTime (z : TimeZone) (seconds : Z) : res tm :=
  data ← data_ptr z;
  local ← findLocaltime data (mkTransition seconds 0 0) true;
  localSeconds ← i64 (seconds + gmtOffset local);
  let lt := default tm_zero (gmtime_r localSeconds) in
  zone ← c_str_from (abbreviation data) (arrbIdx local);
  Ok (mkTm (tm_sec lt) (tm_min lt) (tm_hour lt) (tm_mday lt) (tm_mon lt) (tm_year lt)
        (tm_wday lt) (tm_yday lt) (Z.b2z (isDst local)) (gmtOffset local) zone).

#[global] Arguments toLocalTime _ _ : simpl never.

Definition fromLocalTime (z : TimeZone) (localTm : tm) : res Z :=
  data ← data_ptr z;
  let seconds := timegm localTm in
  local ← findLocaltime data (mkTransition 0 seconds 0) false;
  seconds ← (if tm_isdst localTm =? 0 then Ok seconds
             else
               t ← i64 (seconds - gmtOffset local);
               tryTm ← toLocalTime z t;
               if (tm_isdst tryTm =? 0) && (tm_hour tryTm =? tm_hour localTm)
                  && (tm_min tryTm =? tm_min localTm)
               then i64 (seconds - 3600) else Ok seconds);
  i64 (seconds - gmtOffset local).

(** [TimeZone(eastOfUtc, name)]. *)
Definition newTimeZone_fixed (eastOfUtc : Z) (name : bytes) : TimeZone :=
  Some (mkData [] [mkLocaltime eastOfUtc false 0] name).

(** ** The TZif reader *)

(** The reader's state: the bytes not yet read and the data filled so far, which
    both survive an exception. *)
Record rstate := mkR { file : bytes; rdata : Data }.
Definition reader (A : Type) : Type := rstate → res A * rstate.

#[global] Instance reader_ret : MRet reader := λ A a s, (Ok a, s).
#[global] Instance reader_bind : MBind reader :=
  λ A B k m s, match m s with
               | (Ok a, s') => k a s'
               | (Err e, s') => (Err e, s')
               end.
Definition throw {A} (e : failure) : reader A := λ s, (Err e, s).

(** [fread] of [n] bytes: a short read consumes what there is, then the caller throws. *)
Definition readBytes (n : Z) : reader bytes := λ s,
  if n <? 0 then (Err OutOfBounds, s)
  else if zlen (file s) <? n then (Err Thrown, mkR [] (rdata s))
  else (Ok (take (Z.to_nat n) (file s)), mkR (drop (Z.to_nat n) (file s)) (rdata s)).

Section tzif.
Context `{Host}.

Definition readInt32 : reader Z :=
  x ← readBytes 4; mret (s32 (networkToHost32 (host_value x))).
Definition readUint8 : reader Z :=
  x ← readBytes 1; mret (host_value x).

(** [for (i = 0; i < n; ++i)] collecting or only running the body. *)
Fixpoint times {A} (n : nat) (m : reader A) : reader (list A) :=
  match n with
  | O => mret []
  | S n => x ← m; l ← times n m; mret (x :: l)
  end.

Definition push_localtime (l : Localtime) : reader unit := λ s,
  let d := rdata s in
  (Ok (), mkR (file s) (mkData (transitions d) (localtimes d ++ [l]) (abbreviation d))).
Definition push_transition (t : Transition) : reader unit := λ s,
  let d := rdata s in
  (Ok (), mkR (file s) (mkData (transitions d ++ [t]) (localtimes d) (abbreviation d))).
Definition set_abbreviation (a : bytes) : reader unit := λ s,
  let d := rdata s in (Ok (), mkR (file s) (mkData (transitions d) (localtimes d) a)).

Definition read_localtime : reader unit :=
  gmtoff ← readInt32; isdst ← readUint8; abbrind ← readUint8;
  push_localtime (mkLocaltime gmtoff (negb (isdst =? 0)) abbrind).

Definition add_transition (trans localIdx : Z) : reader unit := λ s,
  match at_index (localtimes (rdata s)) localIdx with
  | Ok l => push_transition (mkTransition trans (trans + gmtOffset l) localIdx) s
  | Err e => (Err e, s)
  end.

Fixpoint add_transitions (trans idx : list Z) : reader unit :=
  match trans, idx with
  | t :: trans, i :: idx => add_transition t i;; add_transitions trans idx
  | _, _ => mret ()
  end.

Definition read_zone : reader unit :=
  head ← readBytes 4;
  (if bool_decide (head = str "TZif") then mret () else throw Thrown);;
  _ ← readBytes 1; _ ← readBytes 15;
  _ ← readInt32; _ ← readInt32; _ ← readInt32;
  timecnt ← readInt32; typecnt ← readInt32; charcnt ← readInt32;
  (if timecnt <? 0 then throw LengthError else mret ());;
  trans ← times (Z.to_nat timecnt) readInt32;
  idx ← times (Z.to_nat timecnt) readUint8;
  _ ← times (Z.to_nat typecnt) read_localtime;
  add_transitions trans idx;;
  a ← readBytes charcnt;
  set_abbreviation a.

Definition data_empty : Data := mkData [] [] [].

(** [readTimeZoneFile(zonefile, data)] on an empty [data]; [None] is a file that
    does not open. [catch (logic_error&)] catches the length error too. *)
Definition readTimeZoneFile (contents : option bytes) : res (bool * Data) :=
  match contents with
  | None => Ok (true, data_empty)
  | Some c =>
      match read_zone (mkR c data_empty) with
      | (Ok _, s) | (Err Thrown, s) | (Err LengthError, s) => Ok (true, rdata s)
      | (Err e, _) => Err e
      end
  end.

Definition newTimeZone (contents : option bytes) : res TimeZone :=
  '(ok, data) ← readTimeZoneFile contents;
  Ok (if ok : bool then Some data else None).
End tzif.

(** ** UTC conversions *)

(** The seconds whose day number is nonnegative (so that its remainder by 7 is)
    and covered by the date code: 24 November 4714 BC to the year 1460000. *)
Definition utc_range (t : Z) : Prop := 0 <= t / 86400 + 2440588 <= max_jdn.

Lemma utc_range_jdn t : utc_range t → min_jdn <= t / 86400 + 2440588 <= max_jdn.
Proof. unfold utc_range, min_jdn. lia. Qed.

Lemma epoch_jdn : kJulianDayOf1970_01_01 = Ok 2440588.
Proof. vm_compute. reflexivity. Qed.

(** Truncated division with the correction for negative seconds rounds down. *)
Lemma split_days t : utc_range t →
  (let seconds := s32 (Z.rem t kSecondsPerDay) in
   let days := s32 (Z.quot t kSecondsPerDay) in
   if seconds <? 0 then
     s ← (#seconds + #kSecondsPerDay)%i32; d ← (#days - #1)%i32; Ok (s, d)
   else Ok (seconds, days)) = Ok (t mod 86400, t / 86400).
Proof.
  unfold utc_range, max_jdn, kSecondsPerDay. change (24 * 60 * 60) with 86400.
  intros Ht. assert (- 86400 < Z.rem t 86400 < 86400) by dlia.
  assert (- 2 ^ 30 <= Z.quot t 86400 < 2 ^ 30) by dlia.
  rewrite !wraps_small by lia. simpl. destruct (Z.ltb_spec (Z.rem t 86400) 0).
  - rewrite !i32_op_ok by lia. simpl. repeat f_equal; dlia.
  - repeat f_equal; dlia.
Qed.

Lemma civil_days_jdn y m d : valid_ymd (mkYMD y m d) →
  getJulianDayNumber y m d = Ok (civil_days y m d + 2440588).
Proof.
  intros Hv. pose proof (getJulianDayNumber_days _ Hv) as H. simpl in H. rewrite H.
  unfold civil_days. f_equal. lia.
Qed.

Lemma civil_date_ymd j : min_jdn <= j <= max_jdn →
  getYearMonthDay j = Ok (civil_date (j - 2440588)).
Proof.
  intros Hj. rewrite getYearMonthDay_march by done. unfold civil_date. do 4 f_equal. lia.
Qed.

(** What [toUtcTime] leaves in the fields: [gmtime_r]'s values, with [tm_yday]
    filled on request. *)
Definition utc_fields (yday : bool) (u : tm) : tm :=
  mkTm (tm_sec u) (tm_min u) (tm_hour u) (tm_mday u) (tm_mon u) (tm_year u) (tm_wday u)
    (if yday then tm_yday u else 0) 0 0 (str "GMT").

Lemma yday_value (yday : bool) j y :
  min_jdn <= j <= max_jdn → min_year <= y <= max_year →
  (if yday then
     startOfYear ← newDate y 1 1; (#j - #(julianDayNumber_ startOfYear))%i32
   else Ok 0) = Ok (if yday then j - 2440588 - civil_days y 1 1 else 0).
Proof.
  intros Hj Hy. destruct yday; [|done]. unfold newDate.
  assert (valid_ymd (mkYMD y 1 1)) as Hv by (split_and!; vm_compute; discriminate || apply Hy).
  pose proof (jdn_range _ Hv) as Hr. rewrite (civil_days_jdn _ _ _ Hv). simpl.
  unfold civil_days in *. simpl in Hr. unfold min_jdn, max_jdn in *.
  rewrite i32_op_ok by lia. f_equal. lia.
Qed.

Lemma toUtcTime_fields t yday : utc_range t →
  ∃ u, gmtime_r t = Some u ∧ toUtcTime t yday = Ok (utc_fields yday u)
       ∧ valid_ymd (mkYMD (tm_year u + 1900) (tm_mon u + 1) (tm_mday u)).
Proof.
  intros Ht. unfold toUtcTime. pose proof (split_days t Ht) as Hs. cbv zeta in Hs |- *.
  pose proof (utc_range_jdn t Ht) as Hj.
  rewrite Hs. cbn [mbind res_bind]. rewrite epoch_jdn. cbn [mbind res_bind].
  unfold utc_range, max_jdn in Ht.
  rewrite (i32_op_ok Z.add) by lia. cbn [mbind res_bind]. unfold yearMonthDay. simpl.
  destruct (jdn_to_ymd (t / 86400 + 2440588)) as (ymd & Ey & Hv & _); [done|].
  rewrite Ey. rewrite civil_date_ymd, Z.add_simpl_r in Ey by done. injection Ey as Ey. simpl.
  rewrite weekDay_ok by (unfold max_jdn; lia).
  unfold gmtime_r. rewrite Ey. destruct ymd as [y m d]. pose proof Hv as Hv'.
  destruct Hv as (Hy & Hm & Hd). cbn [year month day] in *. unfold min_year, max_year in *.
  pose proof (days_in_month_le y m).
  assert (in_i32 (y - 1900) = true) as -> by (unfold in_i32; bsolve; lia).
  rewrite !(i32_op_ok Z.sub) by lia. simpl. eexists. split; [done|]. simpl.
  rewrite !Z.sub_add. split; [|done].
  rewrite yday_value by done. simpl. rewrite wrapu_small by dlia. unfold utc_fields. simpl.
  f_equal. destruct yday; f_equal; dlia.
Qed.

Lemma fromUtcTime_civil y m d h mi s :
  valid_ymd (mkYMD y m d) → 0 <= h < 24 → 0 <= mi < 60 → 0 <= s < 60 →
  fromUtcTime y m d h mi s = Ok (86400 * civil_days y m d + 3600 * h + 60 * mi + s).
Proof.
  intros Hv Hh Hmi Hs. unfold fromUtcTime, newDate.
  pose proof (jdn_range _ Hv) as Hr. rewrite (civil_days_jdn _ _ _ Hv), epoch_jdn.
  assert (min_jdn <= civil_days y m d + 2440588 <= max_jdn) as Hr'.
  { unfold civil_days. simpl in Hr. lia. }
  unfold min_jdn, max_jdn in Hr'. simpl.
  rewrite !(i32_op_ok Z.mul) by lia. rewrite (i32_op_ok Z.add (h * 3600)) by lia.
  rewrite (i32_op_ok Z.add) by lia. simpl. rewrite (i32_op_ok Z.sub) by lia. simpl.
  unfold kSecondsPerDay. rewrite i64_ok by lia. f_equal. lia.
Qed.

(** Seconds determine and are determined by a valid date and a time of day. *)
Lemma gmtime_civil y m d h mi s :
  valid_ymd (mkYMD y m d) → 0 <= h < 24 → 0 <= mi < 60 → 0 <= s < 60 →
  ∃ u, gmtime_r (86400 * civil_days y m d + 3600 * h + 60 * mi + s) = Some u
       ∧ tm_year u = y - 1900 ∧ tm_mon u = m - 1 ∧ tm_mday u = d
       ∧ tm_hour u = h ∧ tm_min u = mi ∧ tm_sec u = s.
Proof.
  intros Hv Hh Hmi Hs. pose proof (jdn_range _ Hv) as Hr.
  set (t := 86400 * civil_days y m d + 3600 * h + 60 * mi + s).
  assert (t / 86400 = civil_days y m d ∧ t mod 86400 = 3600 * h + 60 * mi + s) as [E1 E2].
  { subst t. generalize (civil_days y m d). intros. dlia. }
  assert (civil_date (civil_days y m d) = mkYMD y m d) as E.
  { unfold civil_date, civil_days. rewrite !Z.sub_add.
    destruct (valid_march _ _ _ Hv) as [Hmv Ht]. by rewrite march_date_days. }
  unfold gmtime_r. rewrite E1, E2, E. destruct Hv as (Hy & _). unfold min_year, max_year in Hy.
  simpl in *. assert (in_i32 (y - 1900) = true) as -> by (unfold in_i32; bsolve; lia).
  eexists. split; [done|]. simpl. split_and!; try done; dlia.
Qed.

(** C30: [toUtcTime] is [gmtime]: from 24 November 4714 BC to the year 1460000 it
    fills the fields with [gmtime_r]'s values (also for seconds before 1970,
    where the C++ division truncates towards zero), with the day of the year
    only when asked for. *)
Theorem toUtcTime_is_gmtime t yday :
  utc_range t →
  ∃ u, gmtime_r t = Some u ∧ toUtcTime t yday = Ok (utc_fields yday u).
Proof. intros Ht. destruct (toUtcTime_fields t yday Ht) as (u & ? & ? & _). eauto. Qed.

Lemma toUtcTime_is_gmtime_witness :
  ∃ u, gmtime_r (-1) = Some u ∧ toUtcTime (-1) true = Ok (utc_fields true u).
Proof. apply (toUtcTime_is_gmtime (-1) true). split; vm_compute; discriminate. Defined.

(** [fromUtcTime] and [toUtcTime] are inverse: seconds in range survive
    [toUtcTime] then [fromUtcTime], and every valid date with a time of day
    survives [fromUtcTime] then [toUtcTime] field by field. *)
Theorem utc_roundtrip :
  (∀ t yday, utc_range t → ∃ u, toUtcTime t yday = Ok u ∧ fromUtcTime_tm u = Ok t)
  ∧ (∀ y m d h mi s, valid_ymd (mkYMD y m d) → 0 <= h < 24 → 0 <= mi < 60 → 0 <= s < 60 →
      ∃ t, fromUtcTime y m d h mi s = Ok t
           ∧ (utc_range t → ∃ u, toUtcTime t true = Ok u
                ∧ (tm_year u, tm_mon u, tm_mday u) = (y - 1900, m - 1, d)
                ∧ (tm_hour u, tm_min u, tm_sec u) = (h, mi, s))).
Proof.
  split.
  - intros t yday Ht. destruct (toUtcTime_fields t yday Ht) as (u & Hg & Hu & Hv).
    eexists. split; [done|]. pose proof (gmtime_fields _ _ Hg) as (? & ? & ? & _).
    pose proof (timegm_gmtime _ _ Hg) as Et. destruct Hv as (Hy & Hm & Hd) eqn:Hv'.
    simpl in *. unfold min_year, max_year in Hy. unfold fromUtcTime_tm. simpl.
    rewrite !i32_op_ok by lia. simpl. rewrite fromUtcTime_civil by done.
    rewrite <-Et. unfold timegm. rewrite Z.div_small, Z.mod_small by lia.
    rewrite (civil_days_day _ _ (tm_mday u)), Z.add_0_r. f_equal; lia.
  - intros y m d h mi s Hv Hh Hmi Hs. rewrite fromUtcTime_civil by done.
    eexists. split; [done|]. intros Ht. destruct (toUtcTime_fields _ true Ht) as (u & Hg & Hu & _).
    destruct (gmtime_civil y m d h mi s) as (u' & Hg' & E); [done..|].
    rewrite Hg in Hg'. injection Hg' as <-. eexists. split; [done|]. simpl.
    destruct E as (-> & -> & -> & -> & -> & ->). done.
Qed.

(** ** The transition in force *)

Definition key (gmt : bool) (t : Transition) : Z := if gmt then gmttime t else localtime t.

(** Strictly increasing keys, as TZif requires of the UTC times. *)
Definition keys_lt (gmt : bool) (ts : list Transition) : Prop :=
  ∀ i j a b, (i < j)%nat → ts !! i = Some a → ts !! j = Some b → key gmt a < key gmt b.

(** [n] transitions are at or before [q]. *)
Definition in_force (gmt : bool) (ts : list Transition) (q : Z) (n : nat) : Prop :=
  (n <= length ts)%nat ∧ ∀ i t, ts !! i = Some t → key gmt t <= q ↔ (i < n)%nat.

(** The local time type after the first [n] transitions. *)
Definition segment (d : Data) (n : nat) : res Localtime :=
  match n with
  | O => at_index (localtimes d) 0
  | S k => t ← at_index (transitions d) (Z.of_nat k); at_index (localtimes d) (localtimeidx t)
  end.

Lemma at_index_nat {A} (l : list A) n x : l !! n = Some x → at_index l (Z.of_nat n) = Ok x.
Proof.
  intros H. unfold at_index. rewrite (proj2 (Z.ltb_ge _ _)) by lia. by rewrite Nat2Z.id, H.
Qed.

Lemma in_force_exists gmt ts q : keys_lt gmt ts → ∃ n, in_force gmt ts q n.
Proof.
  induction ts as [|a ts IH]; intros Hs.
  { exists 0%nat. split; [done|]. by intros. }
  destruct (decide (key gmt a <= q)) as [Ha|Ha].
  - destruct IH as (n & Hn & H).
    { intros i j x y Hij Hx Hy. apply (Hs (S i) (S j)); [lia|done..]. }
    exists (S n). split; [simpl; lia|]. intros [|i] t Ht; simpl in Ht; [simplify_eq; lia|].
    rewrite (H i t Ht). lia.
  - exists 0%nat. split; [lia|]. intros [|i] t Ht; [simpl in Ht; simplify_eq; lia|].
    pose proof (Hs 0%nat (S i) a t ltac:(lia) eq_refl Ht). lia.
Qed.

Lemma in_force_unique gmt ts q n m : in_force gmt ts q n → in_force gmt ts q m → n = m.
Proof.
  intros [Hn H] [Hm H']. destruct (Nat.lt_trichotomy n m) as [C|[C|C]]; [|done|].
  - destruct (lookup_lt_is_Some_2 ts n) as [t Ht]; [lia|].
    pose proof (H n t Ht). pose proof (H' n t Ht). lia.
  - destruct (lookup_lt_is_Some_2 ts m) as [t Ht]; [lia|].
    pose proof (H m t Ht). pose proof (H' m t Ht). lia.
Qed.

(** Halving finds the boundary of a partitioned range within the fuel. *)
Lemma lower_bound_spec lt l v n : (n <= length l)%nat →
  (∀ i t, l !! i = Some t → lt t v = true ↔ (i < n)%nat) →
  ∀ fuel first len, (len <= fuel)%nat → (first <= n <= first + len)%nat →
    (first + len <= length l)%nat → lower_bound fuel lt l first len v = n.
Proof.
  intros Hn Hp. induction fuel as [|fuel IH]; intros first len Hf Hr Hl; cbn [lower_bound]; [lia|].
  destruct (decide (len = 0)%nat) as [->|Hne]; [lia|].
  assert (len `div` 2 < len)%nat by (apply Nat.div_lt; lia).
  set (half := (len `div` 2)%nat) in *. clearbody half.
  destruct (lookup_lt_is_Some_2 l (first + half)) as [m Hm]; [lia|]. rewrite Hm.
  pose proof (Hp _ _ Hm) as Hiff. destruct (lt m v).
  - apply IH; lia.
  - assert (¬ (first + half < n)%nat) by (intros HH; by apply Hiff in HH). apply IH; lia.
Qed.

Definition sentry (gmt : bool) (q : Z) : Transition :=
  if gmt then mkTransition q 0 0 else mkTransition 0 q 0.

Lemma comp_key gmt a b : comp gmt a b = (key gmt a <? key gmt b).
Proof. by destruct gmt. Qed.
Lemma comp_equal_key gmt a b : comp_equal gmt a b = (key gmt a =? key gmt b).
Proof. by destruct gmt. Qed.
Lemma key_sentry gmt q : key gmt (sentry gmt q) = q.
Proof. by destruct gmt. Qed.

Lemma find_segment d gmt q n :
  keys_lt gmt (transitions d) → in_force gmt (transitions d) q n →
  findLocaltime d (sentry gmt q) gmt = segment d n.
Proof.
  intros Hs [Hn Hf]. unfold findLocaltime. destruct (transitions d) as [|a ts] eqn:Ets.
  { simpl in Hn. by replace n with 0%nat by lia. }
  rewrite comp_key, key_sentry. destruct (Z.ltb_spec q (key gmt a)) as [Hq|Hq].
  { pose proof (Hf 0%nat a eq_refl). by replace n with 0%nat by lia. }
  assert (0 < n)%nat as Hpos by (by apply (Hf 0%nat a)). rewrite <-Ets in *.
  destruct n as [|k]; [lia|].
  destruct (lookup_lt_is_Some_2 (transitions d) k) as [t Ht]; [lia|].
  pose proof (proj2 (Hf k t Ht) ltac:(lia)) as Hkt. unfold segment.
  rewrite (at_index_nat _ _ _ Ht). simpl.
  set (lb := lower_bound _ _ _ _ _ _).
  assert (lb = if decide (key gmt t = q) then k else S k) as ->.
  { apply lower_bound_spec; [case_decide; lia| |lia|case_decide; lia|lia].
    intros i u Hu. rewrite comp_key, key_sentry, Z.ltb_lt. pose proof (Hf i u Hu) as Hiu.
    case_decide as Hk; [|destruct (decide (i = k)) as [->|]; [simplify_eq; lia|]].
    - destruct (Nat.lt_trichotomy i k) as [C|[->|C]]; [| simplify_eq; lia |].
      + pose proof (Hs _ _ _ _ C Hu Ht). lia.
      + pose proof (Hs _ _ _ _ C Ht Hu). lia.
    - split; [lia|]. intros Hi. pose proof (Hs i k u t ltac:(lia) Hu Ht). lia. }
  case_decide as Hk.
  - rewrite Ht, comp_equal_key, key_sentry, Hk, Z.eqb_refl. done.
  - destruct (transitions d !! S k) as [u|] eqn:Hu.
    + rewrite comp_equal_key, key_sentry. pose proof (Hf _ _ Hu).
      rewrite (proj2 (Z.eqb_neq _ _)) by lia. simpl.
      replace (Z.of_nat (S k) - 1) with (Z.of_nat k) by lia. by rewrite (at_index_nat _ _ _ Ht).
    + apply lookup_ge_None in Hu. replace (zlen (transitions d) - 1) with (Z.of_nat k)
        by (unfold zlen; lia). by rewrite (at_index_nat _ _ _ Ht).
Qed.

(** ** Local time round trip *)

(** A zone whose tables are consistent: indices and names inside their arrays,
    offsets of 32 bits, both time columns increasing, and each decrease of the
    offset an hour from daylight saving to standard time that the next
    transition leaves time for. *)
Record zone_ok (d : Data) : Prop := {
  zo_gmt : keys_lt true (transitions d);
  zo_local : keys_lt false (transitions d);
  zo_names : ∀ i l, localtimes d !! i = Some l →
    0 <= arrbIdx l <= zlen (abbreviation d) ∧ - 2 ^ 31 <= gmtOffset l < 2 ^ 31;
  zo_front : localtimes d ≠ [];
  zo_index : ∀ i t, transitions d !! i = Some t →
    ∃ l, at_index (localtimes d) (localtimeidx t) = Ok l ∧ localtime t = gmttime t + gmtOffset l;
  zo_change : ∀ n t l l', transitions d !! n = Some t →
    segment d n = Ok l → segment d (S n) = Ok l' →
    gmtOffset l <= gmtOffset l'
    ∨ (isDst l = true ∧ isDst l' = false ∧ gmtOffset l = gmtOffset l' + 3600
       ∧ ∀ t', transitions d !! S n = Some t' →
           gmttime t + 3600 <= gmttime t' ∧ localtime t + 3600 <= localtime t') }.

Lemma at_index_in {A} (l : list A) i x : at_index l i = Ok x → ∃ n, l !! n = Some x.
Proof.
  unfold at_index. destruct (i <? 0); [done|]. destruct (l !! Z.to_nat i) eqn:E; [|done].
  intros [= <-]. eauto.
Qed.

Lemma segment_some d n : zone_ok d → (n <= length (transitions d))%nat →
  ∃ l, segment d n = Ok l ∧ (∃ i, localtimes d !! i = Some l)
       ∧ (∀ k t, n = S k → transitions d !! k = Some t → localtime t = gmttime t + gmtOffset l).
Proof.
  intros [_ _ _ Hf Hi _] Hn. destruct n as [|k]; simpl.
  - destruct (localtimes d) as [|l ls] eqn:E; [done|]. exists l. split_and!; [done| |lia].
    by exists 0%nat.
  - destruct (lookup_lt_is_Some_2 (transitions d) k) as [t Ht]; [lia|].
    destruct (Hi k t Ht) as (l & Hl & El). exists l.
    rewrite (at_index_nat _ _ _ Ht). simpl. split_and!; [done|by eapply at_index_in|].
    intros ? t' [= <-] ?. by simplify_eq.
Qed.

(** [toLocalTime] at a second in segment [n]. *)
Lemma toLocalTime_segment d t n l :
  zone_ok d → - 2 ^ 49 <= t <= 2 ^ 49 → in_force true (transitions d) t n → segment d n = Ok l →
  ∃ u g, toLocalTime (Some d) t = Ok u ∧ gmtime_r (t + gmtOffset l) = Some g ∧ timegm u = t + gmtOffset l
       ∧ tm_isdst u = Z.b2z (isDst l) ∧ tm_hour u = tm_hour g ∧ tm_min u = tm_min g.
Proof.
  intros Hz Ht Hf Hl. pose proof (zo_gmt d Hz) as Hs. pose proof Hf as [Hn _].
  destruct (segment_some d n Hz Hn) as (l' & Hl' & [i Hi] & _).
  rewrite Hl in Hl'. injection Hl' as <-. destruct (zo_names d Hz i l Hi) as [Ha Ho].
  unfold toLocalTime. simpl. change (mkTransition t 0 0) with (sentry true t).
  rewrite (find_segment d true t n Hs Hf), Hl. simpl. rewrite i64_ok by lia. simpl.
  destruct (gmtime_some (t + gmtOffset l)) as [g Hg]; [lia|]. rewrite Hg. simpl.
  unfold c_str_from. res_step. eexists _, g. split; [reflexivity|]. split; [reflexivity|]. simpl.
  split; [|auto]. rewrite <-(timegm_gmtime _ _ Hg). unfold timegm. simpl. reflexivity.
Qed.

(** Where [fromLocalTime] looks: the same segment, or the next one when the
    local time repeats after the clocks went back an hour. *)
Lemma local_segment d t n l :
  zone_ok d → in_force true (transitions d) t n → segment d n = Ok l →
  in_force false (transitions d) (t + gmtOffset l) n
  ∨ (∃ l', in_force false (transitions d) (t + gmtOffset l) (S n) ∧ segment d (S n) = Ok l'
       ∧ isDst l = true ∧ isDst l' = false ∧ gmtOffset l = gmtOffset l' + 3600
       ∧ in_force true (transitions d) (t + 3600) (S n)).
Proof.
  intros Hz Hf Hl. pose proof Hf as [Hn Hin]. set (q := t + gmtOffset l).
  destruct (in_force_exists false (transitions d) q (zo_local d Hz)) as [m Hm].
  pose proof Hm as [Hml Hmf].
  destruct (segment_some d n Hz Hn) as (l0 & Hl0 & _ & Hlt). rewrite Hl in Hl0. injection Hl0 as <-.
  assert (n <= m)%nat as Hle.
  { destruct n as [|k]; [lia|]. destruct (lookup_lt_is_Some_2 (transitions d) k) as [tr Htr]; [lia|].
    apply (Hmf k tr Htr). simpl. rewrite (Hlt k tr eq_refl Htr).
    pose proof (proj2 (Hin k tr Htr) ltac:(lia)) as H. simpl in H. lia. }
  destruct (decide (m = n)) as [->|Hne]; [by left|]. right.
  destruct (lookup_lt_is_Some_2 (transitions d) n) as [tr Htr]; [lia|].
  destruct (segment_some d (S n) Hz ltac:(lia)) as (l' & Hl' & _ & Hlt').
  specialize (Hlt' n tr eq_refl Htr).
  pose proof (proj2 (Hmf n tr Htr) ltac:(lia)) as Hq. simpl in Hq.
  assert (t < gmttime tr) as Hgt.
  { apply Z.nle_gt. intros H. apply (Hin n tr Htr) in H. lia. }
  destruct (zo_change d Hz n tr l l' Htr Hl Hl') as [Hc|(D1 & D2 & Ho & Hgap)]; [lia|].
  exists l'. split_and!; try done.
  - enough (m = S n) by (by subst). destruct (decide (m <= S n)%nat); [lia|].
    destruct (lookup_lt_is_Some_2 (transitions d) (S n)) as [tr' Htr']; [lia|].
    pose proof (proj2 (Hmf _ _ Htr') ltac:(lia)) as H. simpl in H.
    pose proof (Hgap tr' Htr'). lia.
  - split; [lia|]. intros i u Hu. simpl. destruct (Nat.lt_trichotomy i n) as [C|[->|C]].
    + pose proof (proj2 (Hin i u Hu) C) as H. simpl in H. lia.
    + simplify_eq. lia.
    + destruct (lookup_lt_is_Some_2 (transitions d) (S n)) as [tr' Htr'].
      { apply lookup_lt_Some in Hu. lia. }
      pose proof (Hgap tr' Htr') as [Hg _].
      destruct (decide (i = S n)) as [->|]; [simplify_eq; lia|].
      pose proof (zo_gmt d Hz (S n) i tr' u ltac:(lia) Htr' Hu) as H. simpl in H. lia.
Qed.

(** C25: In any consistent zone, with daylight saving time or without,
    [fromLocalTime] inverts [toLocalTime] for every second: also in the hour the
    clocks repeat, which the [tm_isdst] flag tells apart, and before the first
    transition. *)
Theorem local_roundtrip d t :
  zone_ok d → - 2 ^ 48 <= t <= 2 ^ 48 →
  ∃ u, toLocalTime (Some d) t = Ok u ∧ fromLocalTime (Some d) u = Ok t.
Proof.
  intros Hz Ht. destruct (in_force_exists true (transitions d) t (zo_gmt d Hz)) as [n Hf].
  destruct (segment_some d n Hz (proj1 Hf)) as (l & Hl & [i Hi] & _).
  destruct (zo_names d Hz i l Hi) as [_ Ho].
  destruct (toLocalTime_segment d t n l) as (u & g & Hu & Hg & Et & Ed & Eh & Em); [done|lia|done..|].
  exists u. split; [exact Hu|]. unfold fromLocalTime. cbn [data_ptr mbind res_bind]. rewrite Et.
  change (mkTransition 0 (t + gmtOffset l) 0) with (sentry false (t + gmtOffset l)).
  destruct (local_segment d t n l Hz Hf Hl) as [Hm|(l' & Hm & Hl' & D & D' & Eo & Hf')];
    rewrite (find_segment d false _ _ (zo_local d Hz) Hm); [rewrite Hl | rewrite Hl']; simpl.
  - rewrite Ed. destruct (isDst l) eqn:D; simpl.
    + rewrite Z.add_simpl_r, (i64_ok t) by lia. simpl. rewrite Hu. simpl. rewrite Ed. simpl.
      rewrite i64_ok by lia. f_equal. lia.
    + rewrite i64_ok by lia. f_equal. lia.
  - rewrite Ed, D. simpl.
    replace (t + gmtOffset l - gmtOffset l') with (t + 3600) by lia.
    rewrite (i64_ok (t + 3600)) by lia. simpl.
    destruct (toLocalTime_segment d (t + 3600) (S n) l')
      as (u' & g' & Hu' & Hg' & _ & Ed' & Eh' & Em'); [done|lia|done..|].
    replace (t + 3600 + gmtOffset l') with (t + gmtOffset l) in Hg' by lia.
    rewrite Hg in Hg'. injection Hg' as <-. rewrite Hu'. simpl.
    rewrite Ed', Eh', Em', D', Eh, Em, !Z.eqb_refl. simpl.
    rewrite !i64_ok by lia. simpl. rewrite i64_ok by lia. f_equal. lia.
Qed.

(** A zone an hour ahead of UTC in winter and two in summer (the changes of
    2023 and spring 2024). *)
Definition sample_zone : Data :=
  mkData [mkTransition 1679792400 1679799600 1; mkTransition 1698541200 1698544800 0;
          mkTransition 1711846800 1711854000 1]
         [mkLocaltime 3600 false 0; mkLocaltime 7200 true 4] (str "CET CEST").

Lemma sample_zone_ok : zone_ok sample_zone.
Proof.
  split.
  - intros [|[|[|]]] [|[|[|]]] a b H Ha Hb; simpl in *; simplify_eq; simpl; lia.
  - intros [|[|[|]]] [|[|[|]]] a b H Ha Hb; simpl in *; simplify_eq; simpl; lia.
  - intros [|[|]] l Hl; simpl in *; simplify_eq; vm_compute; intuition congruence.
  - done.
  - intros [|[|[|]]] t Ht; simpl in *; simplify_eq; eexists; by split.
  - intros [|[|[|]]] t l l' Ht Hl Hl'; simpl in Ht; simplify_eq;
      vm_compute in Hl; vm_compute in Hl'; simplify_eq; simpl; [lia|right|lia].
    split_and!; try done. intros t' Ht'. simplify_eq. simpl. lia.
Qed.

(** Half past two on 29 October 2023, the first time and the second time. *)
Lemma local_roundtrip_witness :
  (∃ u, toLocalTime (Some sample_zone) 1698539400 = Ok u
        ∧ fromLocalTime (Some sample_zone) u = Ok 1698539400)
  ∧ (∃ u, toLocalTime (Some sample_zone) 1698543000 = Ok u
        ∧ fromLocalTime (Some sample_zone) u = Ok 1698543000).
Proof.
  split; apply (local_roundtrip sample_zone); [apply sample_zone_ok|lia|apply sample_zone_ok|lia].
Defined.

(** ** Reading a zone file *)

Section tzif_lemmas.
Context `{Host}.

Lemma readBytes_app p q d : readBytes (zlen p) (mkR (p ++ q) d) = (Ok p, mkR q d).
Proof.
  unfold readBytes. simpl. rewrite (proj2 (Z.ltb_ge _ 0)) by zlen_lia.
  rewrite (proj2 (Z.ltb_ge _ _)) by zlen_lia. unfold zlen.
  by rewrite Nat2Z.id, take_app_length, drop_app_length.
Qed.

Lemma readInt32_app z q d : - 2 ^ 31 <= z < 2 ^ 31 →
  readInt32 (mkR (be_bytes 4 z ++ q) d) = (Ok z, mkR q d).
Proof.
  intros Hz. unfold readInt32, mbind, reader_bind.
  change 4 with (Z.of_nat 4). rewrite <-(zlen_be_bytes 4 z) at 1. rewrite readBytes_app.
  unfold mret, reader_ret. do 2 f_equal. unfold networkToHost32, wrapu.
  rewrite Z.mod_small.
  2:{ pose proof (host_value_range (be_bytes 4 z)) as Hr. rewrite zlen_be_bytes in Hr. done. }
  rewrite <-(length_be_bytes 4 z) at 1. rewrite htobe_host_value, be_value_bytes.
  change (8 * Z.of_nat 4) with 32. rewrite wraps_wrapu by lia. f_equal. by apply wraps_small.
Qed.

Lemma readUint8_app z q d : 0 <= z < 256 →
  readUint8 (mkR (Zbyte z :: q) d) = (Ok z, mkR q d).
Proof.
  intros Hz. unfold readUint8, mbind, reader_bind.
  pose proof (readBytes_app [Zbyte z] q d) as E. simpl in E. change 1 with (zlen [Zbyte z]).
  rewrite E. unfold mret, reader_ret. do 2 f_equal.
  unfold host_value, be_value. assert (le_value [Zbyte z] = z) as Hv.
  { simpl. rewrite byteZ_Zbyte, Z.mod_small by lia. lia. }
  f_equal. by destruct host_big.
Qed.

(** A loop of reads against the concatenation of the encodings. *)
Lemma times_app {A} (m : reader A) (enc : A → bytes) l q d :
  (∀ x q, x ∈ l → m (mkR (enc x ++ q) d) = (Ok x, mkR q d)) →
  times (length l) m (mkR (concat (enc <$> l) ++ q) d) = (Ok l, mkR q d).
Proof.
  induction l as [|x l IH]; intros Hm; [done|].
  cbn [length times fmap list_fmap concat]. unfold mbind, reader_bind.
  rewrite <-app_assoc, Hm by left. rewrite IH; [done|]. intros. apply Hm. by right.
Qed.

Definition enc_localtime (l : Localtime) : bytes :=
  be_bytes 4 (gmtOffset l) ++ [Zbyte (Z.b2z (isDst l)); Zbyte (arrbIdx l)].

Lemma read_localtime_app l q ts ls a :
  - 2 ^ 31 <= gmtOffset l < 2 ^ 31 → 0 <= arrbIdx l < 256 →
  read_localtime (mkR (enc_localtime l ++ q) (mkData ts ls a))
  = (Ok (), mkR q (mkData ts (ls ++ [l]) a)).
Proof.
  intros Ho Ha. unfold read_localtime, enc_localtime, mbind, reader_bind.
  rewrite <-app_assoc.
  change ([?b; ?c] ++ q) with (b :: c :: q). rewrite readInt32_app by done.
  rewrite readUint8_app by (destruct (isDst l); simpl; lia). rewrite readUint8_app by done.
  unfold push_localtime. simpl. do 5 f_equal. destruct l as [o [] b]; done.
Qed.

Lemma times_localtimes lts q ts ls a :
  Forall (λ l, - 2 ^ 31 <= gmtOffset l < 2 ^ 31 ∧ 0 <= arrbIdx l < 256) lts →
  ∃ us, times (length lts) read_localtime (mkR (concat (enc_localtime <$> lts) ++ q) (mkData ts ls a))
  = (Ok us, mkR q (mkData ts (ls ++ lts) a)).
Proof.
  intros Hl. revert ls. induction Hl as [|l lts [Ho Ha] Hl IH]; intros ls.
  { exists []. by rewrite app_nil_r. }
  destruct (IH (ls ++ [l])) as [us Hus]. exists (() :: us).
  cbn [length times fmap list_fmap concat]. unfold mbind, reader_bind.
  rewrite <-app_assoc, read_localtime_app by done. rewrite Hus. by rewrite <-app_assoc.
Qed.

Definition transition_of (ls : list Localtime) (t i : Z) : Transition :=
  mkTransition t (t + from_option gmtOffset 0 (ls !! Z.to_nat i)) i.

Lemma add_transitions_ok trans idx q ts ls a :
  Forall (λ i, 0 <= i < zlen ls) idx →
  add_transitions trans idx (mkR q (mkData ts ls a))
  = (Ok (), mkR q (mkData (ts ++ zip_with (transition_of ls) trans idx) ls a)).
Proof.
  intros Hi. revert trans ts. induction Hi as [|i idx Hi _ IH]; intros [|t trans] ts;
    try (simpl; by rewrite app_nil_r).
  cbn [add_transitions zip_with]. unfold mbind, reader_bind, add_transition. simpl.
  destruct (lookup_lt_is_Some_2 ls (Z.to_nat i)) as [l Hl]; [unfold zlen in Hi; lia|].
  unfold at_index. rewrite (proj2 (Z.ltb_ge _ _)), Hl by lia. unfold push_transition. simpl.
  rewrite IH. unfold transition_of at 2. rewrite Hl. simpl. by rewrite <-app_assoc.
Qed.
End tzif_lemmas.

(** A version-1 TZif file: header, transition times and types, local time types
    and abbreviations. *)
Definition tzif_file (trans idx : list Z) (lts : list Localtime) (abbr rest : bytes) : bytes :=
  str "TZif" ++ [Zbyte 0] ++ replicate 15 (Zbyte 0)
  ++ be_bytes 4 0 ++ be_bytes 4 0 ++ be_bytes 4 0
  ++ be_bytes 4 (zlen trans) ++ be_bytes 4 (zlen lts) ++ be_bytes 4 (zlen abbr)
  ++ concat (be_bytes 4 <$> trans) ++ concat ((λ i, [Zbyte i]) <$> idx)
  ++ concat (enc_localtime <$> lts) ++ abbr ++ rest.

Definition tzif_ok (trans idx : list Z) (lts : list Localtime) (abbr : bytes) : Prop :=
  zlen trans < 2 ^ 31 ∧ length idx = length trans ∧ zlen lts < 2 ^ 31 ∧ zlen abbr < 2 ^ 31
  ∧ Forall (λ t, - 2 ^ 31 <= t < 2 ^ 31) trans
  ∧ Forall (λ i, 0 <= i < 256 ∧ i < zlen lts) idx
  ∧ Forall (λ l, - 2 ^ 31 <= gmtOffset l < 2 ^ 31 ∧ 0 <= arrbIdx l < 256) lts.

Lemma bind_reader {A B} (m : reader A) (k : A → reader B) s :
  (m ≫= k) s = match m s with (Ok a, s') => k a s' | (Err e, s') => (Err e, s') end.
Proof. done. Qed.

(** One step of the reader at the head of the remaining file. *)
Ltac rd_step lem :=
  rewrite bind_reader; rewrite lem by (done || lia || zlen_lia); cbn iota beta.



(** A zone file that does not open, or whose contents are shorter than a
    header or not TZif, still gives a [valid()] time zone; converting any time
    in it reads the first element of an empty vector. *)
Theorem bad_zone_file_is_valid `{Host} contents :
  (∀ c, contents = Some c → take 4 c ≠ str "TZif") →
  ∃ z, newTimeZone contents = Ok z ∧ valid z = true
       ∧ (∀ t, toLocalTime z t = Err OutOfBounds) ∧ (∀ u, fromLocalTime z u = Err OutOfBounds).
Proof.
  intros Hc. exists (Some data_empty). split; [|done].
  destruct contents as [c|]; [|done]. specialize (Hc c eq_refl).
  unfold newTimeZone, readTimeZoneFile, read_zone. rewrite bind_reader. unfold readBytes at 1.
  cbn [file rdata]. destruct (zlen c <? 4); simpl; [done|].
  rewrite bool_decide_eq_false_2; [done|]. exact Hc.
Qed.

Lemma bad_zone_file_is_valid_witness :
  ∃ z, newTimeZone (H := false) None = Ok z ∧ valid z = true
       ∧ (∀ t, toLocalTime z t = Err OutOfBounds) ∧ (∀ u, fromLocalTime z u = Err OutOfBounds).
Proof. apply (bad_zone_file_is_valid (H := false) None). intros c H. discriminate H. Defined.
