(* ===== verification/Timestamp.v ===== *)
(** * Time stamps (fishnet/base/timestamp.h, fishnet/base/timestamp.cc)

    Microseconds since the epoch in 64 bits, their printed forms, and the
    arithmetic with [double] seconds, on the Standard Library's binary64. *)

From S2P Require Import Prelude Printf Double Date Ctime.
Local Open Scope Z_scope.

(** ** Time stamps *)

Record Timestamp := mkTimestamp { microSecondsSinceEpoch : Z }.

#[global] Instance Timestamp_eq_dec : EqDecision Timestamp.
Proof. solve_decision. Defined.

Definition KMicroSecondsPerSecond : Z := 1000000.

Definition Timestamp_valid (t : Timestamp) : bool := 0 <? microSecondsSinceEpoch t.
Definition Timestamp_invalid : Timestamp := mkTimestamp 0.
Definition secondsSinceEpoch (t : Timestamp) : Z :=
  Z.quot (microSecondsSinceEpoch t) KMicroSecondsPerSecond.

Definition fromUnixTime (t microseconds : Z) : res Timestamp :=
  x ← i64 (t * KMicroSecondsPerSecond); y ← i64 (x + microseconds); Ok (mkTimestamp y).

(** [Timestamp::now()] from the [timeval] that [gettimeofday] stores. *)
Definition Timestamp_now (tv_sec tv_usec : Z) : res Timestamp :=
  x ← i64 (tv_sec * KMicroSecondsPerSecond); y ← i64 (x + tv_usec); Ok (mkTimestamp y).

Definition Timestamp_lt (lhs rhs : Timestamp) : bool :=
  microSecondsSinceEpoch lhs <? microSecondsSinceEpoch rhs.
Definition Timestamp_eqb (lhs rhs : Timestamp) : bool :=
  microSecondsSinceEpoch lhs =? microSecondsSinceEpoch rhs.

Definition timeDifference (high low : Timestamp) : res double :=
  diff ← i64 (microSecondsSinceEpoch high - microSecondsSinceEpoch low);
  Ok (ddiv (double_of_Z diff) (double_of_Z KMicroSecondsPerSecond)).

Definition addTime (timestamp : Timestamp) (seconds : double) : res Timestamp :=
  delta ← double_to_i64 (dmul seconds (double_of_Z KMicroSecondsPerSecond));
  x ← i64 (microSecondsSinceEpoch timestamp + delta);
  Ok (mkTimestamp x).

Definition Timestamp_toString (t : Timestamp) : bytes :=
  let seconds := Z.quot (microSecondsSinceEpoch t) KMicroSecondsPerSecond in
  let microseconds := Z.rem (microSecondsSinceEpoch t) KMicroSecondsPerSecond in
  snprintf 32 (dec seconds ++ "."%char :: fmt_0d 6 microseconds).

Definition toFormattedString (t : Timestamp) (showMicroseconds : bool) : bytes :=
  let seconds := Z.quot (microSecondsSinceEpoch t) KMicroSecondsPerSecond in
  let tm_time := default tm_zero (gmtime_r seconds) in
  let date := fmt_d 4 (tm_year tm_time + 1900) ++ fmt_0d 2 (tm_mon tm_time + 1)
              ++ fmt_0d 2 (tm_mday tm_time) ++ " "%char :: fmt_0d 2 (tm_hour tm_time)
              ++ ":"%char :: fmt_0d 2 (tm_min tm_time) ++ ":"%char :: fmt_0d 2 (tm_sec tm_time) in
  if showMicroseconds then
    let microseconds := s32 (Z.rem (microSecondsSinceEpoch t) KMicroSecondsPerSecond) in
    snprintf 64 (date ++ "."%char :: fmt_0d 6 microseconds)
  else snprintf 64 date.

(** ** Lemmas *)

(** [operator<] is a strict total order with [operator==] as its equality. *)
Lemma Timestamp_lt_spec s t :
  Timestamp_lt s t = true ↔ microSecondsSinceEpoch s < microSecondsSinceEpoch t.
Proof. apply Z.ltb_lt. Qed.

Lemma Timestamp_eqb_eq s t : Timestamp_eqb s t = true ↔ s = t.
Proof.
  unfold Timestamp_eqb. rewrite Z.eqb_eq. destruct s, t. simpl.
  split; [intros ->; done | by intros [= ->]].
Qed.

(** The time [gettimeofday] reports is representable until the year 292277. *)
Lemma Timestamp_now_fields s us :
  0 <= s <= 9000000000000 → 0 <= us < 1000000 →
  ∃ t, Timestamp_now s us = Ok t ∧ secondsSinceEpoch t = s
       ∧ Z.rem (microSecondsSinceEpoch t) KMicroSecondsPerSecond = us.
Proof.
  intros Hs Hu. unfold Timestamp_now, secondsSinceEpoch, KMicroSecondsPerSecond.
  rewrite i64_ok by lia. simpl. rewrite i64_ok by lia. simpl. eexists. split; [done|].
  simpl. dlia.
Qed.

(** The printed form of a nonnegative time stamp is its seconds in decimal, a
    point and six digits of microseconds, never truncated by the 32-byte
    buffer, from which the value can be read back. *)
Theorem Timestamp_toString_reads_back t :
  0 <= microSecondsSinceEpoch t < 2 ^ 63 →
  ∃ s u, Timestamp_toString t = s ++ "."%char :: u ∧ length u = 6%nat
    ∧ ∃ a b, read_dec s = Some a ∧ read_digits 0 u = Some b
             ∧ a * 1000000 + b = microSecondsSinceEpoch t.
Proof.
  intros Ht. unfold Timestamp_toString, KMicroSecondsPerSecond.
  set (x := microSecondsSinceEpoch t) in *. rewrite Z.quot_div_nonneg, Z.rem_mod_nonneg by lia.
  destruct (fmt_0d_spec 6 (x mod 1000000)) as [Hl Hr]; [lia|simpl; dlia|].
  exists (dec (x / 1000000)), (fmt_0d 6 (x mod 1000000)).
  assert (0 <= x / 1000000 < 10 ^ Z.of_nat 13) as Hx by (simpl; dlia).
  assert (length (dec (x / 1000000)) <= 13)%nat.
  { unfold dec. rewrite (proj2 (Z.ltb_ge _ _)) by lia. apply length_dec_nonneg_le; lia. }
  split_and!; [|done|].
  - unfold snprintf. rewrite take_ge; [done|]. rewrite length_app. simpl. lia.
  - exists (x / 1000000), (x mod 1000000). split_and!; [apply read_dec_dec|done|dlia].
Qed.

Lemma Timestamp_toString_reads_back_witness :
  ∃ s u, Timestamp_toString (mkTimestamp 1700000000000042) = s ++ "."%char :: u ∧ length u = 6%nat
    ∧ ∃ a b, read_dec s = Some a ∧ read_digits 0 u = Some b
             ∧ a * 1000000 + b = 1700000000000042.
Proof. apply (Timestamp_toString_reads_back (mkTimestamp 1700000000000042)). simpl. lia. Defined.

(** Worked values: a tenth of a second is exactly 100000 microseconds, and one
    second ago differs by one. *)
Example addTime_tenth :
  addTime (mkTimestamp 5) (ddiv (double_of_Z 1) (double_of_Z 10)) = Ok (mkTimestamp 100005).
Proof. vm_compute. reflexivity. Qed.

Example timeDifference_second :
  timeDifference (mkTimestamp 3000000) (mkTimestamp 2000000) = Ok (double_of_Z 1).
Proof. vm_compute. reflexivity. Qed.

Example toFormattedString_epoch :
  toFormattedString (mkTimestamp 1234567) true = str "19700101 00:00:01.234567".
Proof. vm_compute. reflexivity. Qed.
