(* ===== verification/LogStream.v ===== *)
(** * Log formatting (fishnet/base/log_stream.h, fishnet/base/log_stream.cc)

    The fixed-size buffer, integer to text conversion by the digit table, the
    stream's insertion operators and the SI/IEC formatters. *)

From S2P Require Import Prelude Printf Double.
Local Open Scope Z_scope.

(** ** Integer conversion *)

Definition digits : bytes := str "9876543210123456789".
Definition digitsHex : bytes := str "0123456789ABCDEF".

(** [zero[lsd]], [digits + 9] indexed by a remainder of either sign. *)
Definition zero_at (lsd : Z) : ascii := default Ascii.zero (digits !! Z.to_nat (9 + lsd)).
Definition hex_at (lsd : Z) : ascii := default Ascii.zero (digitsHex !! Z.to_nat lsd).

(** The [do ... while (i != 0)] loop; the C++ [%] and [/] truncate. The fuel is
    the width of the type: each round removes at least three bits. *)
Fixpoint convert_loop (fuel : nat) (i : Z) : bytes :=
  match fuel with
  | O => []
  | S fuel =>
      let lsd := Z.rem i 10 in
      let i := Z.quot i 10 in
      zero_at lsd :: (if i =? 0 then [] else convert_loop fuel i)
  end.

(** [convert(buf, value)]: the characters stored before the NUL. *)
Definition convert (value : Z) : bytes :=
  reverse (convert_loop 64 value ++ (if value <? 0 then ["-"%char] else [])).

Fixpoint convertHex_loop (fuel : nat) (i : Z) : bytes :=
  match fuel with
  | O => []
  | S fuel =>
      hex_at (i mod 16) :: (if i / 16 =? 0 then [] else convertHex_loop fuel (i / 16))
  end.
Definition convertHex (value : Z) : bytes := reverse (convertHex_loop 64 value).

(** ** The fixed buffer *)

Definition kSmallBuffer : Z := 4000.
Definition kLargerBuffer : Z := 4000 * 1000.

(** [data_] with its [SIZE] characters and the offset of [cur_]. *)
Record FixedBuffer := mkFixed { data_ : bytes; cur_ : Z }.

Definition newFixedBuffer (SIZE : Z) (garbage : bytes) : FixedBuffer :=
  mkFixed (take (Z.to_nat SIZE) (garbage ++ replicate (Z.to_nat SIZE) Ascii.zero)) 0.

Definition fb_length (b : FixedBuffer) : Z := cur_ b.
Definition fb_avail (b : FixedBuffer) : Z := zlen (data_ b) - cur_ b.

Definition fb_append (b : FixedBuffer) (buf : bytes) : res FixedBuffer :=
  if zlen buf <? fb_avail b then
    d ← mem_write (cur_ b) buf (data_ b); Ok (mkFixed d (cur_ b + zlen buf))
  else Ok b.
Definition fb_add (b : FixedBuffer) (len : Z) : FixedBuffer := mkFixed (data_ b) (cur_ b + len).
Definition fb_reset (b : FixedBuffer) : FixedBuffer := mkFixed (data_ b) 0.
Definition fb_bzero (b : FixedBuffer) : FixedBuffer :=
  mkFixed (replicate (length (data_ b)) Ascii.zero) (cur_ b).
Definition fb_toString (b : FixedBuffer) : res bytes := mem_read 0 (cur_ b) (data_ b).
Definition fb_debugString (b : FixedBuffer) : res (bytes * FixedBuffer) :=
  d ← mem_write (cur_ b) [Ascii.zero] (data_ b); Ok (c_str d, mkFixed d (cur_ b)).

(** ** The stream *)

Definition kMaxNumericSize : Z := 32.

(** A [LogStream] is its buffer; [store] is a C string written at [current()]. *)
Definition LogStream := FixedBuffer.
Definition newLogStream : LogStream := newFixedBuffer kSmallBuffer [].

Definition store (b : FixedBuffer) (s : bytes) : res FixedBuffer :=
  d ← mem_write (cur_ b) (s ++ [Ascii.zero]) (data_ b); Ok (mkFixed d (cur_ b)).

Definition formatInteger (s : LogStream) (v : Z) : res LogStream :=
  if kMaxNumericSize <=? fb_avail s then
    let t := convert v in
    s ← store s t; Ok (fb_add s (zlen t))
  else Ok s.

Definition put_pointer (s : LogStream) (v : Z) : res LogStream :=
  if kMaxNumericSize <=? fb_avail s then
    let t := convertHex v in
    s ← store s (str "0x" ++ t); Ok (fb_add s (zlen t + 2))
  else Ok s.

Definition put_double (s : LogStream) (v : double) : res LogStream :=
  if kMaxNumericSize <=? fb_avail s then
    let t := fmt_g 12 v in
    s ← store s (snprintf 32 t); Ok (fb_add s (zlen t))
  else Ok s.

(** The values a program inserts with [<<]; [CStr None] is a null pointer. *)
Inductive item : Type :=
| Bool (v : bool)
| Short (v : Z) | UShort (v : Z) | Int (v : Z) | UInt (v : Z)
| Long (v : Z) | ULong (v : Z) | LongLong (v : Z) | ULongLong (v : Z)
| Pointer (v : Z)
| Double (v : double)
| Char (v : ascii)
| CStr (s : option bytes)
| Str (s : bytes)
| Piece (s : bytes)
| Buf (b : FixedBuffer).

Definition put (s : LogStream) (v : item) : res LogStream :=
  match v with
  | Bool v => fb_append s (if v then str "1" else str "0")
  | Short v => formatInteger s (s32 v)
  | UShort v => formatInteger s (u32 v)
  | Int v | UInt v | Long v | ULong v | LongLong v | ULongLong v => formatInteger s v
  | Pointer v => put_pointer s v
  | Double v => put_double s v
  | Char v => fb_append s [v]
  | CStr (Some t) => fb_append s (c_str t)
  | CStr None => fb_append s (str "(null)")
  | Str t | Piece t => fb_append s t
  | Buf b => t ← fb_toString b; fb_append s t
  end.

(** [Fmt(fmt, val)] for a formatted value of [length_] characters: the buffer
    holds 32, and the assertion compares the untruncated length. *)
Definition newFmt (formatted : bytes) : res bytes :=
  assertb (zlen formatted <? 32);; Ok (snprintf 32 formatted).
Definition put_fmt (s : LogStream) (formatted : bytes) : res LogStream :=
  t ← newFmt formatted; fb_append s t.

(** ** SI and IEC units *)

Definition formatSI (s : Z) : bytes :=
  let n := double_of_Z s in
  let p k (prec : nat) (c : string) :=
    snprintf 64 (fmt_f prec (ddiv n (double_of_Z (10 ^ k))) ++ str c) in
  if s <? 1000 then snprintf 64 (dec s)
  else if s <? 9995 then p 3 2%nat "k"
  else if s <? 99950 then p 3 1%nat "k"
  else if s <? 999500 then p 3 0%nat "k"
  else if s <? 9995000 then p 6 2%nat "M"
  else if s <? 99950000 then p 6 1%nat "M"
  else if s <? 999500000 then p 6 0%nat "M"
  else if s <? 9995000000 then p 9 2%nat "G"
  else if s <? 99950000000 then p 9 1%nat "G"
  else if s <? 999500000000 then p 9 0%nat "G"
  else if s <? 9995000000000 then p 12 2%nat "T"
  else if s <? 99950000000000 then p 12 1%nat "T"
  else if s <? 999500000000000 then p 12 0%nat "T"
  else if s <? 9995000000000000 then p 15 2%nat "P"
  else if s <? 99950000000000000 then p 15 1%nat "P"
  else if s <? 999500000000000000 then p 15 0%nat "P"
  else p 18 2%nat "E".

Definition formatIEC (s : Z) : bytes :=
  let n := double_of_Z s in
  let Ki := double_of_Z 1024 in
  let Mi := dmul Ki (double_of_Z 1024) in
  let Gi := dmul Mi (double_of_Z 1024) in
  let Ti := dmul Gi (double_of_Z 1024) in
  let Pi := dmul Ti (double_of_Z 1024) in
  let Ei := dmul Pi (double_of_Z 1024) in
  let lt u m e := dlt n (dmul u (double_of_dec m e)) in
  let p u (prec : nat) (c : string) := snprintf 64 (fmt_f prec (ddiv n u) ++ str c) in
  if dlt n Ki then snprintf 64 (dec s)
  else if lt Ki 9995 (-3) then p Ki 2%nat "Ki"
  else if lt Ki 9995 (-2) then p Ki 1%nat "Ki"
  else if lt Ki 10235 (-1) then p Ki 0%nat "Ki"
  else if lt Mi 9995 (-3) then p Mi 2%nat "Mi"
  else if lt Mi 9995 (-2) then p Mi 0%nat "Mi"
  else if lt Mi 10235 (-1) then p Mi 0%nat "Mi"
  else if lt Gi 9995 (-3) then p Gi 2%nat "Gi"
  else if lt Gi 9995 (-2) then p Gi 0%nat "Gi"
  else if lt Gi 10235 (-1) then p Gi 0%nat "Gi"
  else if lt Ti 9995 (-3) then p Ti 2%nat "Ti"
  else if lt Ti 9995 (-2) then p Ti 0%nat "Ti"
  else if lt Ti 10235 (-1) then p Ti 0%nat "Ti"
  else if lt Pi 9995 (-3) then p Pi 2%nat "Pi"
  else if lt Pi 9995 (-2) then p Ti 0%nat "Pi"
  else if lt Pi 10235 (-1) then p Ti 0%nat "Pi"
  else if lt Ei 9995 (-3) then p Ei 2%nat "Ei"
  else p Ei 1%nat "Ei".

(** ** Integers *)

Lemma zero_at_digit r : -10 < r < 10 → zero_at r = digit (Z.abs r).
Proof.
  intros Hr.
  assert (r = -9 ∨ r = -8 ∨ r = -7 ∨ r = -6 ∨ r = -5 ∨ r = -4 ∨ r = -3 ∨ r = -2 ∨ r = -1 ∨ r = 0
    ∨ r = 1 ∨ r = 2 ∨ r = 3 ∨ r = 4 ∨ r = 5 ∨ r = 6 ∨ r = 7 ∨ r = 8 ∨ r = 9) as H by lia.
  by destruct_or! H; subst r.
Qed.

(** The loop emits the digits of the absolute value. *)
Lemma convert_loop_digits fuel i : convert_loop fuel i = digits_rev fuel (Z.abs i).
Proof.
  revert i. induction fuel as [|fuel IH]; intros i; [done|]. cbn [convert_loop digits_rev].
  assert (Z.abs i / 10 = Z.abs (Z.quot i 10)) as -> by dlia.
  assert (Z.abs i mod 10 = Z.abs (Z.rem i 10)) as -> by dlia.
  rewrite zero_at_digit by dlia. f_equal. rewrite IH.
  destruct (Z.eqb_spec (Z.quot i 10) 0) as [->|Hne]; [done|].
  by rewrite (proj2 (Z.eqb_neq _ _)) by lia.
Qed.

Lemma convert_dec v : - 2 ^ 63 <= v < 2 ^ 64 → convert v = dec v.
Proof.
  intros Hv. unfold convert, dec, dec_nonneg. rewrite convert_loop_digits.
  assert (Z.log2 (Z.abs v) < 64) as Hl.
  { destruct (Z.eq_dec v 0) as [->|]; [done|]. apply Z.log2_lt_pow2; lia. }
  assert (∀ w, Z.abs w = Z.abs v → digits_rev 64 (Z.abs v) = digits_rev (digits_fuel (Z.abs v)) (Z.abs v)) as Hd.
  { intros. apply digits_rev_stable; unfold digits_fuel; pose proof (Z.log2_nonneg (Z.abs v)); lia. }
  rewrite (Hd v eq_refl). destruct (Z.ltb_spec v 0) as [Hn|Hn].
  - rewrite reverse_app. simpl. by rewrite Z.abs_neq by lia.
  - by rewrite app_nil_r, Z.abs_eq by lia.
Qed.

Lemma length_dec v : - 2 ^ 63 <= v < 2 ^ 64 → (length (dec v) <= 20)%nat.
Proof.
  intros Hv. unfold dec. destruct (Z.ltb_spec v 0); simpl.
  - apply le_n_S, length_dec_nonneg_le; simpl; lia.
  - apply length_dec_nonneg_le; simpl; lia.
Qed.

(** C28: [convert], which indexes a table of 19 digits with remainders of either
    sign, gives the decimal numeral of every signed and unsigned 64-bit value
    (also of the least one, whose negation overflows), in at most 20
    characters, and the numeral reads back as the value. *)
Theorem convert_correct v :
  - 2 ^ 63 <= v < 2 ^ 64 →
  convert v = dec v ∧ (length (convert v) <= 20)%nat ∧ read_dec (convert v) = Some v.
Proof.
  intros Hv. rewrite (convert_dec v Hv). split_and!; [done| |apply read_dec_dec].
  by apply length_dec.
Qed.

Lemma convert_correct_witness :
  convert (- 2 ^ 63) = dec (- 2 ^ 63) ∧ (length (convert (- 2 ^ 63)) <= 20)%nat
  ∧ read_dec (convert (- 2 ^ 63)) = Some (- 2 ^ 63).
Proof. apply (convert_correct (- 2 ^ 63)). lia. Defined.

Lemma length_convertHex_loop fuel k i : (0 < k)%nat → 0 <= i < 16 ^ Z.of_nat k →
  (length (convertHex_loop fuel i) <= k)%nat.
Proof.
  revert k i. induction fuel as [|fuel IH]; intros k i Hk Hi; simpl; [lia|].
  destruct (Z.eqb_spec (i / 16) 0) as [E|E]; [simpl; lia|].
  destruct k as [|[|k]]; [lia | |].
  { simpl in Hi. rewrite Z.div_small in E; lia. }
  apply le_n_S, IH; [lia|]. rewrite Nat2Z.inj_succ, Z.pow_succ_r in Hi by lia.
  split; [apply Z.div_pos; lia | apply Z.div_lt_upper_bound; lia].
Qed.

Lemma length_convertHex v : 0 <= v < 2 ^ 64 → (length (convertHex v) <= 16)%nat.
Proof.
  intros. unfold convertHex. rewrite length_reverse. apply length_convertHex_loop; [lia|].
  change (16 ^ Z.of_nat 16) with (2 ^ 64). lia.
Qed.

(** ** The stream *)

Definition fb_ok (b : FixedBuffer) : Prop := 0 <= cur_ b <= zlen (data_ b).
Definition fb_content (b : FixedBuffer) : bytes := take (Z.to_nat (cur_ b)) (data_ b).

(** The text of an inserted value and whether it is a formatted number. *)
Definition item_text (v : item) : bytes :=
  match v with
  | Bool v => if v then str "1" else str "0"
  | Short v | UShort v | Int v | UInt v | Long v | ULong v | LongLong v | ULongLong v => dec v
  | Pointer v => str "0x" ++ convertHex v
  | Double v => fmt_g 12 v
  | Char v => [v]
  | CStr (Some t) => c_str t
  | CStr None => str "(null)"
  | Str t | Piece t => t
  | Buf b => fb_content b
  end.
Definition item_numeric (v : item) : bool :=
  match v with
  | Bool _ | Char _ | CStr _ | Str _ | Piece _ | Buf _ => false
  | _ => true
  end.

(** The values of the C++ types. *)
Definition item_ok (v : item) : Prop :=
  match v with
  | Short v => - 2 ^ 15 <= v < 2 ^ 15
  | UShort v => 0 <= v < 2 ^ 16
  | Int v => - 2 ^ 31 <= v < 2 ^ 31
  | UInt v => 0 <= v < 2 ^ 32
  | Long v | LongLong v => - 2 ^ 63 <= v < 2 ^ 63
  | ULong v | ULongLong v | Pointer v => 0 <= v < 2 ^ 64
  | Double v => is_binary64 v
  | Buf b => fb_ok b
  | _ => True
  end.

(** When an insertion has room: a number needs 32 characters left, a text one
    more than its length. *)
Definition fits (b : FixedBuffer) (v : item) : bool :=
  if item_numeric v then kMaxNumericSize <=? fb_avail b
  else zlen (item_text v) <? fb_avail b.

(** [q] is [p] with [t] added at the end and no change in capacity. *)
Definition grows (p : FixedBuffer) (t : bytes) (q : FixedBuffer) : Prop :=
  fb_ok q ∧ zlen (data_ q) = zlen (data_ p) ∧ fb_content q = fb_content p ++ t.

Lemma grows_nil p : fb_ok p → grows p [] p.
Proof. intros. split_and!; [done..|]. by rewrite app_nil_r. Qed.

Lemma write_grows b t u : fb_ok b → zlen t + zlen u <= fb_avail b →
  ∃ d, mem_write (cur_ b) (t ++ u) (data_ b) = Ok d
       ∧ grows b t (mkFixed d (cur_ b + zlen t)).
Proof.
  intros Hb Hr. unfold fb_ok, fb_avail in *.
  destruct (slice_split (cur_ b) (zlen t + zlen u) (data_ b)) as (p & q & E & Hp & Hq);
    [zlen_lia..|].
  exists (p ++ (t ++ u) ++ q). split.
  - rewrite E at 1. apply mem_write_app3; [done|]. rewrite zlen_slice by zlen_lia. zlen_lia.
  - unfold grows, fb_ok, fb_content. simpl. split_and!; [zlen_lia..| |].
    + zlen_lia.
    + rewrite E. unfold zlen in *.
      replace (Z.to_nat (cur_ b)) with (length p) by lia.
      replace (Z.to_nat (cur_ b + Z.of_nat (length t))) with (length (p ++ t)) by (rewrite length_app; lia).
      rewrite take_app_length, <-app_assoc, app_assoc. by rewrite take_app_length.
Qed.

Lemma fb_append_grows b t : fb_ok b →
  ∃ q, fb_append b t = Ok q ∧ grows b (if zlen t <? fb_avail b then t else []) q.
Proof.
  intros Hb. unfold fb_append. destruct (Z.ltb_spec (zlen t) (fb_avail b)) as [Hf|Hf].
  - destruct (write_grows b t [] Hb) as (d & Hw & Hg); [rewrite zlen_nil; lia|].
    rewrite app_nil_r in Hw. rewrite Hw. simpl. eauto.
  - exists b. auto using grows_nil.
Qed.

(** Every number is stored with its NUL inside the reserved 32 characters. *)
Lemma store_grows b t : fb_ok b → zlen t < kMaxNumericSize →
  ∃ q, (if kMaxNumericSize <=? fb_avail b
        then s ← store b t; Ok (fb_add s (zlen t)) else Ok b) = Ok q
       ∧ grows b (if kMaxNumericSize <=? fb_avail b then t else []) q.
Proof.
  intros Hb Ht. destruct (Z.leb_spec kMaxNumericSize (fb_avail b)) as [Hf|Hf].
  - destruct (write_grows b t [Ascii.zero] Hb) as (d & Hw & Hg); [zlen_lia|].
    unfold store. rewrite Hw. simpl. unfold fb_add. simpl. eauto.
  - exists b. auto using grows_nil.
Qed.

Lemma fb_toString_content b : fb_ok b → fb_toString b = Ok (fb_content b).
Proof.
  unfold fb_ok. intros Hb. unfold fb_toString, mem_read. res_step.
  unfold slice, fb_content. simpl. by rewrite drop_0.
Qed.

Lemma put_integer b v : fb_ok b → - 2 ^ 63 <= v < 2 ^ 64 →
  ∃ q, formatInteger b v = Ok q
       ∧ grows b (if kMaxNumericSize <=? fb_avail b then dec v else []) q.
Proof.
  intros Hb Hv. unfold formatInteger. rewrite convert_dec by done.
  pose proof (length_dec v Hv). apply store_grows; [done|]. unfold zlen, kMaxNumericSize. lia.
Qed.

Lemma put_pointer_grows b v : fb_ok b → 0 <= v < 2 ^ 64 →
  ∃ q, put_pointer b v = Ok q
       ∧ grows b (if kMaxNumericSize <=? fb_avail b then str "0x" ++ convertHex v else []) q.
Proof.
  intros Hb Hv. unfold put_pointer. pose proof (length_convertHex v Hv).
  assert (zlen (convertHex v) + 2 = zlen (str "0x" ++ convertHex v)) as ->.
  { rewrite zlen_app. change (zlen (str "0x")) with 2. lia. }
  apply store_grows; [done|]. unfold zlen, kMaxNumericSize. simpl. lia.
Qed.

Lemma put_grows b v : fb_ok b → item_ok v →
  ∃ q, put b v = Ok q ∧ grows b (if fits b v then item_text v else []) q.
Proof.
  intros Hb Hv.
  destruct v as [v|v|v|v|v|v|v|v|v|v|v|v|[s|]|s|s|p]; unfold fits; simpl in *;
    try apply fb_append_grows; try apply put_integer; try done; try lia.
  - rewrite wraps_small by lia. apply put_integer; [done|lia].
  - rewrite wrapu_small by lia. apply put_integer; [done|lia].
  - by apply put_pointer_grows.
  - unfold put_double. pose proof (length_fmt_g12 v Hv).
    assert (snprintf 32 (fmt_g 12 v) = fmt_g 12 v) as -> by (apply take_ge; lia).
    apply store_grows; [done|]. unfold zlen, kMaxNumericSize. lia.
  - rewrite fb_toString_content by done. simpl. by apply fb_append_grows.
Qed.

(** A log statement: a chain of insertions. *)
Fixpoint puts (s : LogStream) (vs : list item) : res LogStream :=
  match vs with
  | [] => Ok s
  | v :: vs => s ← put s v; puts s vs
  end.

(** The specification: pieces that do not fit are dropped whole. *)
Fixpoint puts_spec (cap : Z) (acc : bytes) (vs : list item) : bytes :=
  match vs with
  | [] => acc
  | v :: vs =>
      let avail := cap - zlen acc in
      let ok := if item_numeric v then kMaxNumericSize <=? avail
                else zlen (item_text v) <? avail in
      puts_spec cap (if ok then acc ++ item_text v else acc) vs
  end.

Lemma zlen_content b : fb_ok b → zlen (fb_content b) = cur_ b.
Proof. unfold fb_ok, fb_content, zlen. intros. rewrite length_take. lia. Qed.

Lemma puts_refines s vs : fb_ok s → Forall item_ok vs →
  ∃ q, puts s vs = Ok q ∧ fb_ok q ∧ zlen (data_ q) = zlen (data_ s)
       ∧ fb_content q = puts_spec (zlen (data_ s)) (fb_content s) vs.
Proof.
  intros Hs Hvs. revert s Hs. induction Hvs as [|v vs Hv _ IH]; intros s Hs; [by eauto|].
  destruct (put_grows s v Hs Hv) as (q & Hq & Hok & Hcap & Hc). simpl. rewrite Hq. simpl.
  destruct (IH q Hok) as (r & Hr & Hok' & Hcap' & Hc'). exists r. split_and!; [done..|congruence|].
  rewrite Hc', Hcap, Hc. unfold fits, fb_avail. rewrite zlen_content by done.
  destruct (if item_numeric v then _ else _); by rewrite ?app_nil_r.
Qed.

(** C27: Any chain of insertions into a fresh log stream succeeds without ever
    writing outside the 4000-character buffer, and leaves exactly the texts of
    the inserted values in order, where a value is dropped as a whole when fewer
    than 32 characters (numbers) or not more than its length (texts) are left. *)
Theorem logstream_refines vs :
  Forall item_ok vs →
  ∃ q, puts newLogStream vs = Ok q ∧ fb_ok q
       ∧ fb_toString q = Ok (puts_spec kSmallBuffer [] vs).
Proof.
  intros Hvs. assert (zlen (data_ newLogStream) = kSmallBuffer) as Hcap by reflexivity.
  destruct (puts_refines newLogStream vs) as (q & Hq & Hok & Hc & Ht); [|done|].
  { unfold fb_ok. rewrite Hcap. unfold newLogStream, newFixedBuffer, kSmallBuffer. simpl cur_. lia. }
  exists q. split_and!; [done..|]. rewrite fb_toString_content, Ht, Hcap by done. done.
Qed.

Lemma logstream_refines_witness :
  ∃ q, puts newLogStream [Int (-42); Char ":"%char; CStr None; ULong 7; Pointer 255; Bool true] = Ok q
       ∧ fb_ok q ∧ fb_toString q = Ok (str "-42:(null)70xFF1").
Proof.
  apply (logstream_refines [Int (-42); Char ":"%char; CStr None; ULong 7; Pointer 255; Bool true]).
  repeat constructor; lia.
Defined.

(** [formatIEC] is wrong from 10 Pi to 1023 Pi: it divides by Ti there, so 20
    Pi prints as 20480Pi, and between 10 and 100 of Mi, Gi and Ti it prints no
    decimal (10Mi for 10.4 Mi) although Ki does. *)
Theorem formatIEC_wrong_units :
  formatIEC (20 * 2 ^ 50) = str "20480Pi"
  ∧ formatIEC (5 * 2 ^ 50) = str "5.00Pi"
  ∧ formatIEC 10905190 = str "10Mi" ∧ formatIEC 10650 = str "10.4Ki".
Proof. vm_compute. split_and!; reflexivity. Qed.

Example formatSI_values :
  formatSI 999 = str "999" ∧ formatSI 9994 = str "9.99k" ∧ formatSI 99949 = str "99.9k"
  ∧ formatSI 123456789 = str "123M" ∧ formatSI (9 * 10 ^ 18) = str "9.00E".
Proof. vm_compute. split_and!; reflexivity. Qed.
