(* ===== verification/TimerQueue.v ===== *)
(** * Timers (fishnet/net/timer.h, timer.cc, timer_id.h, timer_queue.h, timer_queue.cc)

    The timer queue with its heap of timers, so that a dangling or reused
    address is visible, the two sets that must agree, and the callbacks that add
    and cancel timers while the queue is being served. *)

From S2P Require Import Prelude Double Timestamp.
Local Open Scope Z_scope.

(** ** State *)

(** Times are microseconds; a callback is a number that names it. *)
Record Timer := mkTimer {
  callback_ : Z; expiration_ : Z; interval_ : double; repeat_ : bool; sequence_ : Z }.

Definition UINTPTR_MAX : Z := 2 ^ 64 - 1.

(** [std::pair]s compare lexicographically. *)
Definition pair_lt (x y : Z * Z) : bool :=
  (x.1 <? y.1) || ((x.1 =? y.1) && (x.2 <? y.2)).

(** [timers_] is the ordered set as the sequence its iterators run through;
    [timerfd] is the clock reading at the last [timerfd_settime] and its value,
    [None] while no alarm is pending; [ticks] counts the clock readings and
    [ran] records the callbacks run, latest first. *)
Record TimerQueue := mkTQ {
  heap : gmap Z Timer;
  numCreated : Z;
  timers_ : list (Z * Z);
  activeTimers_ : gset (Z * Z);
  callingExpiredTimers_ : bool;
  cancelingTimers_ : gset (Z * Z);
  timerfd : option (Z * (Z * Z));
  ticks : nat;
  ran : list Z }.

Definition set_heap h s := mkTQ h (numCreated s) (timers_ s) (activeTimers_ s)
  (callingExpiredTimers_ s) (cancelingTimers_ s) (timerfd s) (ticks s) (ran s).
Definition set_sets t a s := mkTQ (heap s) (numCreated s) t a
  (callingExpiredTimers_ s) (cancelingTimers_ s) (timerfd s) (ticks s) (ran s).
Definition set_calling b c s := mkTQ (heap s) (numCreated s) (timers_ s) (activeTimers_ s)
  b c (timerfd s) (ticks s) (ran s).
Definition set_timerfd f s := mkTQ (heap s) (numCreated s) (timers_ s) (activeTimers_ s)
  (callingExpiredTimers_ s) (cancelingTimers_ s) f (ticks s) (ran s).
Definition log_run c s := mkTQ (heap s) (numCreated s) (timers_ s) (activeTimers_ s)
  (callingExpiredTimers_ s) (cancelingTimers_ s) (timerfd s) (ticks s) (c :: ran s).

Definition newTimerQueue : TimerQueue := mkTQ (∅) 0 [] (∅) false (∅) None 0 [].

(** [operator new]: an address that no live object has, or failure. *)
Class Allocator := {
  alloc : gset Z → option Z;
  alloc_fresh X a : alloc X = Some a → (a ∉ X) ∧ 0 < a < UINTPTR_MAX }.

(** What a callback may do to the queue from the loop's thread. *)
Inductive action : Type :=
| AddTimer (cb : Z) (when : Z) (interval : double)
| Cancel (timer : Z) (seq : Z).

(** Insertion into an ordered set: the position and whether it was new. *)
Fixpoint set_emplace (x : Z * Z) (l : list (Z * Z)) : bool * list (Z * Z) :=
  match l with
  | [] => (true, [x])
  | y :: l' =>
      if pair_lt x y then (true, x :: l)
      else if pair_lt y x then let '(b, l'') := set_emplace x l' in (b, y :: l'')
      else (false, l)
  end.

(** [begin() .. lower_bound(x)]: the elements before [x]. *)
Fixpoint set_before (x : Z * Z) (l : list (Z * Z)) : list (Z * Z) :=
  match l with
  | [] => []
  | y :: l => if pair_lt y x then y :: set_before x l else []
  end.

(** [erase(key)]: the number of elements removed. *)
Definition set_erase (x : Z * Z) (l : list (Z * Z)) : Z * list (Z * Z) :=
  if decide (x ∈ l) then (1, filter (λ y, y ≠ x) l) else (0, l).

Section queue.
Context `{Allocator}.
(** The clock: the [n]-th reading of [Timestamp::now()]. *)
Context (clock : nat → Z).
(** What each callback does. *)
Context (behave : Z → list action).

Definition now (s : TimerQueue) : Z * TimerQueue :=
  (clock (ticks s),
   mkTQ (heap s) (numCreated s) (timers_ s) (activeTimers_ s) (callingExpiredTimers_ s)
     (cancelingTimers_ s) (timerfd s) (S (ticks s)) (ran s)).

(** Dereferencing a [Timer*]; a freed address is an error. *)
Definition deref (s : TimerQueue) (a : Z) : res Timer :=
  match heap s !! a with Some t => Ok t | None => Err OutOfBounds end.

Definition delete_timer (s : TimerQueue) (a : Z) : res TimerQueue :=
  _ ← deref s a; Ok (set_heap (delete a (heap s)) s).

(** The [Timer] constructor and [new]. *)
Definition new_timer (s : TimerQueue) (cb when : Z) (interval : double) : res (Z * TimerQueue) :=
  match alloc (dom (heap s)) with
  | None => Err Thrown
  | Some a =>
      seq ← i64 (numCreated s + 1);
      let t := mkTimer cb when interval (dgt interval (S754_zero false)) seq in
      Ok (a, mkTQ (<[a := t]> (heap s)) seq (timers_ s) (activeTimers_ s) (callingExpiredTimers_ s)
               (cancelingTimers_ s) (timerfd s) (ticks s) (ran s))
  end.

Definition restart (t : Timer) (now : Z) : res Timer :=
  e ← (if repeat_ t
       then e ← addTime (mkTimestamp now) (interval_ t); Ok (microSecondsSinceEpoch e)
       else Ok (microSecondsSinceEpoch Timestamp_invalid));
  Ok (mkTimer (callback_ t) e (interval_ t) (repeat_ t) (sequence_ t)).

Definition howMuchTimeFromNow (s : TimerQueue) (when : Z) : res ((Z * Z) * TimerQueue) :=
  let '(n, s) := now s in
  microseconds ← i64 (when - n);
  let microseconds := if microseconds <? 100 then 100 else microseconds in
  Ok ((Z.quot microseconds KMicroSecondsPerSecond,
       Z.rem microseconds KMicroSecondsPerSecond * 1000), s).

(** [resetTimerfd]: the value set, and the reading it is relative to. *)
Definition resetTimerfd (s : TimerQueue) (expiration : Z) : res TimerQueue :=
  let r := clock (ticks s) in
  '(ts, s) ← howMuchTimeFromNow s expiration;
  Ok (set_timerfd (Some (r, ts)) s).

Definition sizes_agree (s : TimerQueue) : bool :=
  bool_decide (length (timers_ s) = size (activeTimers_ s)).

Definition insert (s : TimerQueue) (timer : Z) : res (bool * TimerQueue) :=
  assertb (sizes_agree s);;
  t ← deref s timer;
  let when := expiration_ t in
  let earliestChanged := match timers_ s with
                         | [] => true
                         | it :: _ => when <? it.1
                         end in
  let '(new, ts) := set_emplace (when, timer) (timers_ s) in
  assertb new;;
  assertb (bool_decide ((timer, sequence_ t) ∉ activeTimers_ s));;
  let s := set_sets ts ({[ (timer, sequence_ t) ]} ∪ activeTimers_ s) s in
  assertb (sizes_agree s);;
  Ok (earliestChanged, s).

Definition addTimerInLoop (s : TimerQueue) (timer : Z) : res TimerQueue :=
  '(earliestChanged, s) ← insert s timer;
  if earliestChanged : bool then t ← deref s timer; resetTimerfd s (expiration_ t) else Ok s.

(** [addTimer] in the loop's thread, where [runInLoop] runs its argument at once. *)
Definition addTimer (s : TimerQueue) (cb when : Z) (interval : double)
    : res ((Z * Z) * TimerQueue) :=
  '(timer, s) ← new_timer s cb when interval;
  s ← addTimerInLoop s timer;
  t ← deref s timer;
  Ok ((timer, sequence_ t), s).

Definition cancelInLoop (s : TimerQueue) (timerId : Z * Z) : res TimerQueue :=
  assertb (sizes_agree s);;
  s ← (if decide (timerId ∈ activeTimers_ s) then
         t ← deref s timerId.1;
         let '(n, ts) := set_erase (expiration_ t, timerId.1) (timers_ s) in
         assertb (n =? 1);;
         s ← delete_timer s timerId.1;
         Ok (set_sets ts (activeTimers_ s ∖ {[ timerId ]}) s)
       else if callingExpiredTimers_ s then
         Ok (set_calling true ({[ timerId ]} ∪ cancelingTimers_ s) s)
       else Ok s);
  assertb (sizes_agree s);;
  Ok s.

(** [for (it : expired) activeTimers_.erase({it.second, it.second->sequence()})] *)
Fixpoint erase_active (s : TimerQueue) (expired : list (Z * Z)) : res TimerQueue :=
  match expired with
  | [] => Ok s
  | (_, a) :: expired =>
      t ← deref s a;
      assertb (bool_decide ((a, sequence_ t) ∈ activeTimers_ s));;
      erase_active (set_sets (timers_ s) (activeTimers_ s ∖ {[ (a, sequence_ t) ]}) s) expired
  end.

Definition getExpired (s : TimerQueue) (now : Z) : res (list (Z * Z) * TimerQueue) :=
  assertb (sizes_agree s);;
  let sentry := (now, UINTPTR_MAX) in
  let expired := set_before sentry (timers_ s) in
  let rest := drop (length expired) (timers_ s) in
  assertb (match rest with [] => true | e :: _ => now <? e.1 end);;
  s ← erase_active (set_sets rest (activeTimers_ s) s) expired;
  assertb (sizes_agree s);;
  Ok (expired, s).

Definition act (s : TimerQueue) (a : action) : res TimerQueue :=
  match a with
  | AddTimer cb when interval => '(_, s) ← addTimer s cb when interval; Ok s
  | Cancel timer seq => cancelInLoop s (timer, seq)
  end.

Fixpoint acts (s : TimerQueue) (l : list action) : res TimerQueue :=
  match l with
  | [] => Ok s
  | a :: l => s ← act s a; acts s l
  end.

(** [for (it : expired) it.second->run()] *)
Fixpoint run_expired (s : TimerQueue) (expired : list (Z * Z)) : res TimerQueue :=
  match expired with
  | [] => Ok s
  | (_, a) :: expired =>
      t ← deref s a;
      s ← acts (log_run (callback_ t) s) (behave (callback_ t));
      run_expired s expired
  end.

Fixpoint reset_loop (s : TimerQueue) (expired : list (Z * Z)) (now : Z) : res TimerQueue :=
  match expired with
  | [] => Ok s
  | (_, a) :: expired =>
      t ← deref s a;
      s ← (if repeat_ t && bool_decide ((a, sequence_ t) ∉ cancelingTimers_ s) then
             t ← restart t now;
             '(_, s) ← insert (set_heap (<[a := t]> (heap s)) s) a;
             Ok s
           else delete_timer s a);
      reset_loop s expired now
  end.

Definition reset (s : TimerQueue) (expired : list (Z * Z)) (now : Z) : res TimerQueue :=
  s ← reset_loop s expired now;
  nextExpire ← match timers_ s with
               | [] => Ok (microSecondsSinceEpoch Timestamp_invalid)
               | (_, a) :: _ => t ← deref s a; Ok (expiration_ t)
               end;
  if Timestamp_valid (mkTimestamp nextExpire) then resetTimerfd s nextExpire else Ok s.

(** The alarm has fired when the loop calls this, so none is pending. *)
Definition handleRead (s : TimerQueue) : res TimerQueue :=
  let '(n, s) := now (set_timerfd None s) in
  '(expired, s) ← getExpired s n;
  s ← run_expired (set_calling true ∅ s) expired;
  reset (set_calling false (cancelingTimers_ s) s) expired n.

(** [~TimerQueue]: [for (timer : timers_) delete timer.second]. *)
Fixpoint delete_all (s : TimerQueue) (l : list (Z * Z)) : res TimerQueue :=
  match l with
  | [] => Ok s
  | (_, a) :: l => s ← delete_timer s a; delete_all s l
  end.
Definition destroy (s : TimerQueue) : res TimerQueue := delete_all s (timers_ s).
End queue.

(** ** Ordered sets of pairs *)

Definition plt (x y : Z * Z) : Prop := pair_lt x y = true.

#[global] Instance plt_dec x y : Decision (plt x y).
Proof. unfold plt. apply _. Defined.

Lemma plt_spec x y : plt x y ↔ x.1 < y.1 ∨ (x.1 = y.1 ∧ x.2 < y.2).
Proof.
  unfold plt, pair_lt. rewrite orb_true_iff, andb_true_iff, !Z.ltb_lt, Z.eqb_eq. done.
Qed.

Lemma plt_total x y : pair_lt x y = false → pair_lt y x = false → x = y.
Proof.
  unfold pair_lt. intros H1 H2. destruct x, y. simpl in *.
  apply orb_false_iff in H1 as [A1 B1]. apply orb_false_iff in H2 as [A2 B2].
  apply Z.ltb_ge in A1, A2. assert (z = z1) as -> by lia. rewrite Z.eqb_refl in *. simpl in *.
  apply Z.ltb_ge in B1, B2. f_equal. lia.
Qed.

#[global] Instance plt_trans : Transitive plt.
Proof. intros x y z. rewrite !plt_spec. lia. Qed.
#[global] Instance plt_irrefl : Irreflexive plt.
Proof. intros x H. apply plt_spec in H. lia. Qed.

Abbreviation sorted := (StronglySorted plt).

Lemma sorted_NoDup l : sorted l → NoDup l.
Proof.
  induction 1 as [|x l Hs IH Hx]; constructor; [|done].
  intros Hin. eapply Forall_forall in Hx; [|done]. by destruct (irreflexivity plt x).
Qed.

Lemma set_emplace_spec x l : sorted l → x ∉ l →
  ∃ l', set_emplace x l = (true, l') ∧ sorted l' ∧ (∀ y, y ∈ l' ↔ y = x ∨ y ∈ l)
        ∧ (match l with [] => true | y :: _ => pair_lt x y end = true → ∃ r, l' = x :: r)
        ∧ (∀ y r, l = y :: r → pair_lt x y = false → ∃ r', l' = y :: r').
Proof.
  induction 1 as [|y l Hs IH Hy]; intros Hx; simpl.
  { exists [x]. split_and!; [done|repeat constructor|set_solver|eauto|by intros]. }
  destruct (pair_lt x y) eqn:Exy.
  - exists (x :: y :: l). split_and!; [done| |set_solver|eauto|].
    + constructor; [by constructor|]. constructor; [done|].
      eapply Forall_impl; [exact Hy|]. intros z Hz. by transitivity y.
    + intros ? ? [= <- <-]. congruence.
  - destruct (pair_lt y x) eqn:Eyx.
    2:{ apply plt_total in Eyx; [|done]. set_solver. }
    destruct IH as (l' & -> & Hs' & Hin & _ & _); [set_solver|].
    exists (y :: l'). split_and!; [done| |set_solver|done|].
    + constructor; [done|]. apply Forall_forall. intros z [->|Hz]%Hin; [done|].
      eapply Forall_forall in Hy; done.
    + intros ? ? [= <- <-] _. eauto.
Qed.

Lemma set_before_spec x l : sorted l →
  l = set_before x l ++ drop (length (set_before x l)) l
  ∧ (∀ y, y ∈ set_before x l ↔ y ∈ l ∧ plt y x)
  ∧ (∀ y, y ∈ drop (length (set_before x l)) l ↔ y ∈ l ∧ ¬ plt y x).
Proof.
  induction 1 as [|y l Hs IH Hy]; simpl; [split_and!; [done|set_solver..]|].
  destruct (pair_lt y x) eqn:E; simpl.
  - destruct IH as (IH1 & IH2 & IH3). split_and!; [by f_equal| |].
    + intros z. rewrite !elem_of_cons, IH2. unfold plt. set_solver.
    + intros z. rewrite IH3, elem_of_cons. unfold plt. naive_solver.
  - assert (∀ z, z ∈ y :: l → ¬ plt z x) as Hno.
    { intros z [->|Hz]%elem_of_cons; [unfold plt; congruence|]. intros Hzx.
      eapply Forall_forall in Hy; [|done]. assert (plt y x) by (by transitivity z).
      unfold plt in *. congruence. }
    split_and!; [done| |]; intros z; set_solver.
Qed.

Lemma sorted_app l k : sorted (l ++ k) → sorted l ∧ sorted k.
Proof.
  induction l as [|x l IH]; simpl; [split; [constructor|done]|].
  intros Hs. apply StronglySorted_inv in Hs as [Hs Hx]. destruct (IH Hs). split; [|done].
  constructor; [done|]. by apply Forall_app in Hx as [? _].
Qed.

Lemma sorted_filter P `{!∀ x, Decision (P x)} l : sorted l → sorted (filter P l).
Proof.
  induction 1 as [|x l Hs IH Hx]; [constructor|]. rewrite filter_cons. case_decide; [|done].
  constructor; [done|]. apply Forall_forall. intros y Hy.
  rewrite list_elem_of_filter in Hy. destruct Hy as [_ Hy]. eapply Forall_forall in Hx; done.
Qed.

(** The first element is the least. *)
Lemma sorted_head x l y : sorted (x :: l) → y ∈ x :: l → x.1 <= y.1.
Proof.
  intros Hs [->|Hy]%elem_of_cons; [lia|]. apply StronglySorted_inv in Hs as [_ Hs].
  eapply Forall_forall in Hs; [|done]. apply plt_spec in Hs. lia.
Qed.

(** ** The invariant *)

(** [pend] lists the timers that have expired and whose callbacks are running:
    they are on the heap and in neither set. *)
Record inv (pend : list Z) (s : TimerQueue) : Prop := {
  i_sorted : sorted (timers_ s);
  i_entry : ∀ t a, (t, a) ∈ timers_ s →
    ∃ tm, heap s !! a = Some tm ∧ expiration_ tm = t ∧ (a, sequence_ tm) ∈ activeTimers_ s;
  i_active : ∀ a q, (a, q) ∈ activeTimers_ s →
    ∃ tm, heap s !! a = Some tm ∧ sequence_ tm = q ∧ (expiration_ tm, a) ∈ timers_ s;
  i_pend : NoDup pend;
  i_pend_heap : ∀ a, a ∈ pend → is_Some (heap s !! a) ∧ ∀ q, (a, q) ∉ activeTimers_ s;
  i_dom : ∀ a tm, heap s !! a = Some tm → (expiration_ tm, a) ∈ timers_ s ∨ a ∈ pend;
  i_timer : ∀ a tm, heap s !! a = Some tm →
    0 < a < UINTPTR_MAX ∧ 0 < sequence_ tm <= numCreated s
    ∧ repeat_ tm = dgt (interval_ tm) (S754_zero false);
  i_seq : ∀ a b x y, heap s !! a = Some x → heap s !! b = Some y →
    sequence_ x = sequence_ y → a = b;
  i_created : 0 <= numCreated s }.

(** Failures that are not the queue's: a clock or time out of 64 bits, and
    memory exhausted. *)
Definition benign (e : failure) : Prop := e = SignedOverflow ∨ e = Thrown.

Lemma inv_sizes pend s : inv pend s → sizes_agree s = true.
Proof.
  intros I. unfold sizes_agree. apply bool_decide_eq_true_2.
  assert ((timers_ s).*2 ≡ₚ (elements (activeTimers_ s)).*1) as Hp.
  { apply NoDup_Permutation.
    - apply NoDup_fmap_2_strong; [|apply sorted_NoDup, I].
      intros [t a] [t' a'] H1 H2 E. simpl in E. subst a'.
      apply (i_entry _ _ I) in H1 as (x & Hx & <- & _). apply (i_entry _ _ I) in H2 as (y & Hy & <- & _).
      by simplify_eq.
    - apply NoDup_fmap_2_strong; [|apply NoDup_elements].
      intros [a q] [a' q'] H1%elem_of_elements H2%elem_of_elements E. simpl in E. subst a'.
      apply (i_active _ _ I) in H1 as (x & Hx & <- & _). apply (i_active _ _ I) in H2 as (y & Hy & <- & _).
      by simplify_eq.
    - intros a. rewrite !list_elem_of_fmap. split.
      + intros ([t b] & -> & Hin). apply (i_entry _ _ I) in Hin as (x & _ & _ & Hx).
        exists (b, sequence_ x). split; [done|]. by apply elem_of_elements.
      + intros ([b q] & -> & Hin%elem_of_elements). apply (i_active _ _ I) in Hin as (x & _ & _ & Hx).
        by exists (expiration_ x, b). }
  apply Permutation_length in Hp. rewrite !length_fmap in Hp. rewrite Hp. done.
Qed.

(** Only the sets, the heap and the count matter. *)
Lemma inv_ext pend s s' :
  heap s' = heap s → numCreated s' = numCreated s → timers_ s' = timers_ s →
  activeTimers_ s' = activeTimers_ s → inv pend s → inv pend s'.
Proof. intros E1 E2 E3 E4 [? ? ? ? ? ? ? ? ?]. split; rewrite ?E1, ?E2, ?E3, ?E4; done. Qed.

(** A pending alarm that will not come after the earliest timer (or the 100
    microseconds the code waits at least), required for first entries in [P]. *)
Definition armed (P : Z → Prop) (s : TimerQueue) : Prop :=
  ∀ t a l, timers_ s = (t, a) :: l → P t →
    ∃ r sec nsec, timerfd s = Some (r, (sec, nsec))
                  ∧ r + sec * 1000000 + nsec / 1000 <= Z.max t (r + 100).

Definition downward (P : Z → Prop) : Prop := ∀ t t', t <= t' → P t' → P t.

Section set_lemmas.
Context `{Allocator}.

(** Making a fresh timer leaves it pending insertion. *)
Lemma new_timer_spec pend s cb when interval :
  inv pend s →
  returns benign (new_timer s cb when interval) (λ '(a, s'),
    inv (a :: pend) s' ∧ heap s !! a = None
    ∧ (∃ tm, heap s' = <[a := tm]> (heap s) ∧ expiration_ tm = when ∧ callback_ tm = cb
             ∧ sequence_ tm = numCreated s + 1)
    ∧ timers_ s' = timers_ s ∧ timerfd s' = timerfd s ∧ ran s' = ran s
    ∧ numCreated s' = numCreated s + 1
    ∧ cancelingTimers_ s' = cancelingTimers_ s ∧ callingExpiredTimers_ s' = callingExpiredTimers_ s).
Proof.
  intros I. unfold new_timer. destruct (alloc (dom (heap s))) as [a|] eqn:Ea; [|by right].
  apply alloc_fresh in Ea as [Hfresh Ha]. apply not_elem_of_dom in Hfresh.
  unfold i64. destruct (in_i64 (numCreated s + 1)); simpl; [|by left].
  split_and!; try done.
  2:{ eexists. split; [done|]. done. }
  destruct I as [Is Ie Ia Ip Iph Id It Iq Ic]. split; simpl.
  - done.
  - intros t b Hb. destruct (Ie t b Hb) as (tm & Htm & ? & ?). exists tm.
    rewrite lookup_insert_ne by congruence. done.
  - intros b q Hb. destruct (Ia b q Hb) as (tm & Htm & ? & ?). exists tm.
    rewrite lookup_insert_ne by congruence. done.
  - constructor; [|done]. intros Hin. apply Iph in Hin as [[? ?] _]. congruence.
  - intros b [->|Hb]%elem_of_cons.
    + rewrite lookup_insert_eq. split; [eauto|]. intros q Hq. apply Ia in Hq as (? & ? & _). congruence.
    + destruct (Iph b Hb) as [[tm Htm] Hq]. rewrite lookup_insert_ne by congruence. eauto.
  - intros b tm. rewrite lookup_insert_Some, elem_of_cons.
    intros [[-> _]|[_ Hb]]; [auto|]. destruct (Id b tm Hb); auto.
  - intros b tm. rewrite lookup_insert_Some. intros [[<- <-]|[_ Hb]]; simpl; [split_and!; try done; lia|].
    destruct (It b tm Hb) as (? & ? & ?). split_and!; try done; lia.
  - intros b c x y. rewrite !lookup_insert_Some.
    intros [[<- <-]|[Hb Hx]] [[<- <-]|[Hc Hy]]; simpl; intros E; try done.
    + destruct (It c y Hy) as (_ & ? & _). lia.
    + destruct (It b x Hx) as (_ & ? & _). lia.
    + eauto.
  - lia.
Qed.

(** Inserting a pending timer. *)
Lemma insert_spec pend s a :
  inv (a :: pend) s →
  returns benign (insert s a) (λ '(b, s'),
    inv pend s' ∧ heap s' = heap s ∧ numCreated s' = numCreated s ∧ timerfd s' = timerfd s
    ∧ ran s' = ran s
    ∧ cancelingTimers_ s' = cancelingTimers_ s ∧ callingExpiredTimers_ s' = callingExpiredTimers_ s
    ∧ ∃ tm, heap s !! a = Some tm
        ∧ (∀ x, x ∈ timers_ s' ↔ x = (expiration_ tm, a) ∨ x ∈ timers_ s)
        ∧ if b : bool then ∃ l, timers_ s' = (expiration_ tm, a) :: l
          else ∃ x l x' l', timers_ s = x :: l ∧ timers_ s' = x' :: l' ∧ x'.1 = x.1).
Proof.
  intros I. pose proof (inv_sizes _ _ I) as Hsz. unfold insert. rewrite Hsz. simpl.
  destruct (i_pend_heap _ _ I a) as [[tm Htm] Hna]; [left|].
  unfold deref. rewrite Htm. simpl.
  assert ((expiration_ tm, a) ∉ timers_ s) as Hnt.
  { intros Hin. apply (i_entry _ _ I) in Hin as (x & _ & _ & Hx). by apply Hna in Hx. }
  destruct (set_emplace_spec (expiration_ tm, a) (timers_ s) (i_sorted _ _ I) Hnt)
    as (ts & -> & Hs' & Hin & Hfst & Hsnd). simpl.
  rewrite bool_decide_eq_true_2 by apply Hna. simpl.
  set (s' := set_sets ts _ s).
  assert (inv pend s') as I'.
  { destruct I as [Is Ie Ia Ip Iph Id It Iq Ic]. apply NoDup_cons in Ip as [Hnp Ip]. split; simpl; try done.
    - intros t b [[= -> ->]|Hb]%Hin; [exists tm; split_and!; set_solver|].
      destruct (Ie t b Hb) as (x & ? & ? & ?). exists x. set_solver.
    - intros b q [[= -> ->]%elem_of_singleton|Hb]%elem_of_union.
      + exists tm. rewrite Hin. auto.
      + destruct (Ia b q Hb) as (x & ? & ? & ?). exists x. rewrite Hin. auto.
    - intros b Hb. destruct (Iph b) as [Hh Hq]; [by right|]. split; [done|].
      intros q [[= -> ->]%elem_of_singleton|Hb']%elem_of_union; [done|]. by apply Hq in Hb'.
    - intros b x Hx. rewrite Hin. destruct (Id b x Hx) as [?|[->|?]%elem_of_cons]; auto.
      left. left. by simplify_eq. }
  rewrite (inv_sizes _ _ I'). simpl. split_and!; try done. exists tm. split_and!; try done.
  destruct (timers_ s) as [|[t0 a0] l] eqn:El; [apply Hfst; done|].
  destruct (Z.ltb_spec (expiration_ tm) t0) as [C|C]; simpl.
  - rewrite (proj2 (Z.ltb_lt _ _)) by done. apply Hfst. apply plt_spec. simpl. lia.
  - rewrite (proj2 (Z.ltb_ge _ _)) by done.
    destruct (pair_lt (expiration_ tm, a) (t0, a0)) eqn:E.
    + destruct (Hfst eq_refl) as [r Hr]. eexists _, _, _, r. split_and!; [done..|].
      apply plt_spec in E. simpl in *. lia.
    + destruct (Hsnd _ _ eq_refl E) as [r Hr]. by eexists _, _, _, r.
Qed.

Lemma armed_insert P s s' b tm a :
  armed P s → timerfd s' = timerfd s →
  (if b : bool then ∃ l, timers_ s' = (expiration_ tm, a) :: l
   else ∃ x l x' l', timers_ s = x :: l ∧ timers_ s' = x' :: l' ∧ x'.1 = x.1) →
  b = false → armed P s'.
Proof.
  intros Ha Ef Hb ->. destruct Hb as ([t0 a0] & l & [t1 a1] & l' & E & E' & Et). simpl in Et. subst t1.
  intros t x k Hk HP. rewrite E' in Hk. simplify_eq. rewrite Ef. by eapply Ha.
Qed.

End set_lemmas.

Section queue_lemmas.
Context `{Allocator}.
Context (clock : nat → Z).

(** What resetting the alarm does: the sets are untouched and the alarm is for
    [when]. *)
Lemma resetTimerfd_spec s when :
  returns benign (resetTimerfd clock s when) (λ s',
    heap s' = heap s ∧ numCreated s' = numCreated s ∧ timers_ s' = timers_ s
    ∧ activeTimers_ s' = activeTimers_ s ∧ cancelingTimers_ s' = cancelingTimers_ s
    ∧ callingExpiredTimers_ s' = callingExpiredTimers_ s ∧ ran s' = ran s
    ∧ ∃ r sec nsec, timerfd s' = Some (r, (sec, nsec))
                    ∧ r + sec * 1000000 + nsec / 1000 <= Z.max when (r + 100)).
Proof.
  unfold resetTimerfd, howMuchTimeFromNow, now. unfold i64.
  destruct (in_i64 (when - clock (ticks s))) eqn:E; simpl; [|by left].
  split_and!; [done..|]. eexists _, _, _. split; [done|]. unfold KMicroSecondsPerSecond.
  rewrite Z.div_mul by lia. destruct (Z.ltb_spec (when - clock (ticks s)) 100).
  - change (Z.quot 100 1000000) with 0. change (Z.rem 100 1000000) with 100. lia.
  - pose proof (Z.quot_rem (when - clock (ticks s)) 1000000). lia.
Qed.

(** Adding a timer: it is active, nothing else changes, and the alarm is set
    when it became the first. *)
Lemma addTimer_spec P pend s cb when interval :
  inv pend s → armed P s →
  returns benign (addTimer clock s cb when interval) (λ '(id, s'),
    inv pend s' ∧ armed P s' ∧ heap s !! id.1 = None ∧ id ∈ activeTimers_ s'
    ∧ (∃ tm, heap s' = <[id.1 := tm]> (heap s) ∧ expiration_ tm = when ∧ callback_ tm = cb
             ∧ sequence_ tm = id.2)
    ∧ id.2 = numCreated s + 1 ∧ numCreated s' = numCreated s + 1
    ∧ (∀ x, x ∈ timers_ s' ↔ x = (when, id.1) ∨ x ∈ timers_ s)
    ∧ ran s' = ran s ∧ cancelingTimers_ s' = cancelingTimers_ s
    ∧ callingExpiredTimers_ s' = callingExpiredTimers_ s).
Proof.
  intros I Ha. unfold addTimer, addTimerInLoop.
  eapply returns_bind; [by apply new_timer_spec|].
  intros [a s1] (I1 & Hnone & (tm & Hh & Ht & Hc & Hq) & Ets & Ef & Er & En & Ecan & Ecal).
  assert (armed P s1) as Ha1.
  { intros t b l Hl. rewrite Ef. rewrite Ets in Hl. by apply (Ha t b l). }
  eapply (returns_bind _ _ _ (λ s3,
    inv pend s3 ∧ armed P s3 ∧ heap s3 = heap s1 ∧ numCreated s3 = numCreated s1
    ∧ (∀ x, x ∈ timers_ s3 ↔ x = (when, a) ∨ x ∈ timers_ s1)
    ∧ ran s3 = ran s1 ∧ cancelingTimers_ s3 = cancelingTimers_ s1
    ∧ callingExpiredTimers_ s3 = callingExpiredTimers_ s1)).
  - eapply returns_bind; [by apply insert_spec|].
    intros [b s2] (I2 & Hh2 & Hn2 & Hf2 & Hr2 & Hcan2 & Hcal2 & tm' & Htm' & Hin & Hb).
    rewrite Hh, lookup_insert_eq in Htm'. injection Htm' as <-. rewrite Ht in Hin.
    destruct b; simpl.
    + unfold deref. rewrite Hh2, Hh, lookup_insert_eq. simpl. rewrite Ht.
      eapply returns_mono; [apply resetTimerfd_spec|]. simpl.
      intros s3 (E1 & E2 & E3 & E4 & E5 & E6 & E7 & Harm). rewrite E1, E2, E3, E5, E6, E7.
      split_and!; try congruence; try done; [by apply (inv_ext _ s2)|].
      destruct Hb as [l Hl]. intros t x k Hk _. rewrite E3, Hl, Ht in Hk. by simplify_eq.
    + split_and!; try done. by eapply (armed_insert P s1 s2 false tm a).
  - intros s3 (I3 & Ha3 & E1 & E2 & E3 & E4 & E5 & E6). unfold deref.
    rewrite E1, Hh, lookup_insert_eq. simpl. split_and!; try congruence; try done.
    + assert ((when, a) ∈ timers_ s3) as Hin by (apply E3; auto).
      apply (i_entry _ _ I3) in Hin as (x & Hx & _ & Hxa). rewrite E1, Hh, lookup_insert_eq in Hx.
      by simplify_eq.
    + exists tm. split_and!; congruence.
    + intros x. by rewrite E3, Ets.
Qed.

(** Cancelling: an active timer leaves the heap and both sets; any other
    identifier changes nothing outside a callback. *)
Lemma cancelInLoop_spec P pend s id :
  downward P → inv pend s → armed P s →
  returns (λ _, False) (cancelInLoop s id) (λ s',
    inv pend s' ∧ armed P s' ∧ numCreated s' = numCreated s ∧ ran s' = ran s
    ∧ callingExpiredTimers_ s' = callingExpiredTimers_ s
    ∧ if decide (id ∈ activeTimers_ s) then
        heap s' = delete id.1 (heap s) ∧ (id.1 ∉ pend) ∧ cancelingTimers_ s' = cancelingTimers_ s
        ∧ activeTimers_ s' = activeTimers_ s ∖ {[ id ]}
        ∧ ∀ x, x ∈ timers_ s' ↔ x ∈ timers_ s ∧ x.2 ≠ id.1
      else if callingExpiredTimers_ s then
        s' = set_calling true ({[ id ]} ∪ cancelingTimers_ s) s
      else s' = s).
Proof.
  intros HP I Ha. unfold cancelInLoop. rewrite (inv_sizes _ _ I). simpl.
  destruct (decide (id ∈ activeTimers_ s)) as [Hid|Hid].
  - destruct id as [a q]. destruct (i_active _ _ I a q Hid) as (tm & Htm & <- & Hin).
    unfold deref, delete_timer, deref. simpl. rewrite Htm. simpl. unfold set_erase.
    rewrite decide_True by done. simpl.
    set (s' := set_sets _ _ _).
    assert (∀ x, x ∈ timers_ s' ↔ x ∈ timers_ s ∧ x.2 ≠ a) as Hts.
    { intros [t b]. simpl. rewrite list_elem_of_filter. split.
      - intros [Hne Hb]. split; [done|]. intros ->. apply (i_entry _ _ I) in Hb as (x & Hx & <- & _).
        by simplify_eq.
      - intros [Hb Hne]. split; [|done]. intros [= -> ->]. done. }
    assert (a ∉ pend) as Hnp.
    { intros Hp. apply (i_pend_heap _ _ I) in Hp as [_ Hp]. by destruct (Hp _ Hid). }
    assert (inv pend s') as I'.
    { destruct I as [Is Ie Ia Ip Iph Id It Iq Ic]. split; try done.
      - by apply sorted_filter.
      - intros t b [Hb Hne]%Hts. simpl in Hne. destruct (Ie t b Hb) as (x & ? & ? & ?). exists x. simpl.
        rewrite lookup_delete_ne by done. split_and!; set_solver.
      - intros b q. simpl. intros [Hb Hne]%elem_of_difference. destruct (Ia b q Hb) as (x & Hx & Eq & ?).
        assert (b ≠ a) by (intros ->; set_solver). exists x. rewrite lookup_delete_ne by done.
        split_and!; [done..|]. by apply Hts.
      - intros b Hb. simpl. destruct (Iph b Hb) as [Hs Hq].
        rewrite lookup_delete_ne by congruence. split; [done|]. set_solver.
      - intros b x. simpl. rewrite lookup_delete_Some. intros [Hne Hx].
        destruct (Id b x Hx); [left; by apply Hts|by right].
      - intros b x. simpl. rewrite lookup_delete_Some. intros [_ Hx]. eauto.
      - intros b c x y. simpl. rewrite !lookup_delete_Some. intros [_ ?] [_ ?]. eauto. }
    rewrite (inv_sizes _ _ I'). simpl. split_and!; try done.
    intros t b l Hl HPt. assert ((t, b) ∈ timers_ s) as Hb by (apply Hts; rewrite Hl; left).
    destruct (timers_ s) as [|[t0 a0] k] eqn:Ek; [set_solver|].
    assert (t0 <= t) as Hle.
    { eapply (sorted_head (t0, a0) k (t, b)); [|done]. rewrite <-Ek. apply I. }
    destruct (Ha t0 a0 k Ek) as (r & sec & nsec & Hf & Hd); [by eapply HP|].
    exists r, sec, nsec. split; [done|]. lia.
  - destruct (callingExpiredTimers_ s) eqn:Ec; simpl.
    + change (sizes_agree (set_calling true ({[id]} ∪ cancelingTimers_ s) s)) with (sizes_agree s).
      rewrite (inv_sizes _ _ I). simpl. split_and!; try done. by apply (inv_ext _ s).
    + rewrite (inv_sizes _ _ I). simpl. done.
Qed.

(** Taking the expired timers out of the active set. *)
Lemma erase_active_spec ex s :
  (∀ t a, (t, a) ∈ ex → ∃ tm, heap s !! a = Some tm ∧ (a, sequence_ tm) ∈ activeTimers_ s) →
  (∀ a q, (a, q) ∈ activeTimers_ s → ∃ tm, heap s !! a = Some tm ∧ sequence_ tm = q) →
  NoDup ex.*2 →
  ∃ act', erase_active s ex = Ok (set_sets (timers_ s) act' s)
          ∧ ∀ a q, (a, q) ∈ act' ↔ (a, q) ∈ activeTimers_ s ∧ a ∉ ex.*2.
Proof.
  revert s. induction ex as [|[t a] ex IH]; intros s Hex Hact Hnd.
  { exists (activeTimers_ s). split; [by destruct s|]. set_solver. }
  simpl. destruct (Hex t a) as (tm & Htm & Hin); [left|]. unfold deref. rewrite Htm. simpl.
  rewrite bool_decide_eq_true_2 by done. simpl. apply NoDup_cons in Hnd as [Hna Hnd].
  set (s' := set_sets _ _ s).
  destruct (IH s') as (act' & E & Hact').
  - intros t' b Hb. destruct (Hex t' b) as (x & Hx & Hxin); [by right|]. exists x. split; [done|].
    simpl. apply elem_of_difference. split; [done|]. intros [= -> _]%elem_of_singleton.
    apply Hna. apply list_elem_of_fmap. by exists (t', a).
  - intros b q [Hb _]%elem_of_difference. by apply Hact.
  - done.
  - exists act'. split; [done|]. intros b q. rewrite Hact'. simpl.
    rewrite elem_of_difference, elem_of_singleton, not_elem_of_cons. split; [|naive_solver].
    intros [[Hb Hne] Hn]. split_and!; try done. intros ->. destruct (Hact a q Hb) as (x & Hx & <-).
    by simplify_eq.
Qed.

Lemma getExpired_spec s n :
  inv [] s →
  returns (λ _, False) (getExpired s n) (λ '(ex, s'),
    inv (ex.*2) s' ∧ ex = filter (λ x, x.1 <= n) (timers_ s) ∧ heap s' = heap s
    ∧ (∀ x, x ∈ timers_ s' ↔ x ∈ timers_ s ∧ n < x.1)
    ∧ (∀ t a, (t, a) ∈ ex → ∃ tm, heap s !! a = Some tm ∧ expiration_ tm = t ∧ t <= n)
    ∧ numCreated s' = numCreated s ∧ ran s' = ran s ∧ timerfd s' = timerfd s).
Proof.
  intros I. unfold getExpired. rewrite (inv_sizes _ _ I). simpl.
  destruct (set_before_spec (n, UINTPTR_MAX) (timers_ s) (i_sorted _ _ I)) as (Happ & Hb & Hd).
  set (ex := set_before _ _) in *. set (rest := drop _ _) in *.
  assert (∀ t a, (t, a) ∈ timers_ s → a < UINTPTR_MAX) as Haddr.
  { intros t a Ha. apply (i_entry _ _ I) in Ha as (x & Hx & _). by apply (i_timer _ _ I) in Hx as [[_ ?] _]. }
  assert (∀ t a, (t, a) ∈ timers_ s → plt (t, a) (n, UINTPTR_MAX) ↔ t <= n) as Hlt.
  { intros t a Ha. rewrite plt_spec. simpl. apply Haddr in Ha. lia. }
  pose proof (i_sorted _ _ I) as Hsorted. rewrite Happ in Hsorted.
  pose proof (sorted_app _ _ Hsorted) as [Hs1 Hs2].
  assert (NoDup ex.*2) as Hnd.
  { apply NoDup_fmap_2_strong; [|by apply sorted_NoDup]. intros [t a] [t' a'] H1 H2 E. simpl in E. subst a'.
    apply Hb in H1 as [H1 _], H2 as [H2 _].
    apply (i_entry _ _ I) in H1 as (x & Hx & <- & _), H2 as (y & Hy & <- & _). by simplify_eq. }
  assert (match rest with [] => true | e :: _ => n <? e.1 end = true) as ->.
  { destruct rest as [|[t a] k] eqn:Er; [done|]. apply Z.ltb_lt. simpl.
    assert ((t, a) ∈ timers_ s ∧ ¬ plt (t, a) (n, UINTPTR_MAX)) as [Ht Hn] by (apply Hd; left).
    rewrite Hlt in Hn by done. lia. }
  simpl. destruct (erase_active_spec ex (set_sets rest (activeTimers_ s) s)) as (act' & E & Hact).
  { intros t a [Ha _]%Hb. apply (i_entry _ _ I) in Ha as (x & ? & _ & ?). eauto. }
  { intros a q Ha. apply (i_active _ _ I) in Ha as (x & ? & ? & _). eauto. }
  { done. }
  rewrite E. simpl. set (s' := set_sets rest act' _).
  assert (∀ t a, (t, a) ∈ timers_ s → a ∈ ex.*2 ↔ (t, a) ∈ ex) as Hex.
  { intros t a Ha. rewrite list_elem_of_fmap. split; [|by exists (t, a)].
    intros ([t' b] & Eb & H1). simpl in Eb. subst b. pose proof (proj1 (Hb _) H1) as [H2 _].
    apply (i_entry _ _ I) in H2 as (x & Hx & <- & _). apply (i_entry _ _ I) in Ha as (y & Hy & <- & _).
    by simplify_eq. }
  assert (inv (ex.*2) s') as I'.
  { pose proof I as [Is Ie Ia _ _ Id It Iq Ic]. split; try done; simpl.
    - intros t a Ha. pose proof (proj1 (Hd _) Ha) as [Ha1 Ha2].
      destruct (Ie t a Ha1) as (x & ? & ? & ?). exists x. split_and!; [done..|]. apply Hact. split; [done|].
      rewrite (Hex t a Ha1), Hb. tauto.
    - intros a q [Ha Hn]%Hact. destruct (Ia a q Ha) as (x & ? & ? & Hx). exists x. split_and!; [done..|].
      apply Hd. split; [done|]. intros Hp. apply Hn. rewrite (Hex _ _ Hx), Hb. done.
    - intros a Ha. split; [|intros q [_ ?]%Hact; done].
      apply list_elem_of_fmap in Ha as ([t b] & -> & Hin). apply Hb in Hin as [Hin _].
      destruct (Ie _ _ Hin) as (x & ? & _). eauto.
    - intros a x Hx. destruct (Id a x Hx) as [Hin|Hin]; [|set_solver].
      destruct (decide (plt (expiration_ x, a) (n, UINTPTR_MAX))) as [Hp|Hp].
      + right. rewrite (Hex _ _ Hin), Hb. done.
      + left. apply Hd. done. }
  rewrite (inv_sizes _ _ I'). simpl. split_and!; try done.
  - rewrite Happ. rewrite filter_app. fold ex. rewrite filter_all, filter_none, app_nil_r; [done|..].
    + apply Forall_forall. intros [t a] [Ha Hn]%Hd. rewrite Hlt in Hn by done. done.
    + apply Forall_forall. intros [t a] [Ha Hn]%Hb. by rewrite Hlt in Hn.
  - intros [t a]. rewrite Hd. simpl. split; intros [Ha Hn]; (split; [done|]).
    + rewrite Hlt in Hn by done. lia.
    + rewrite Hlt by done. lia.
  - intros t a Ha. apply Hb in Ha as [Ha Hp]. rewrite Hlt in Hp by done.
    destruct (i_entry _ _ I t a Ha) as (x & ? & ? & _). eauto.
Qed.

(** [s'] has no timer of an older number that [s] did not have. *)
Definition ext (s s' : TimerQueue) : Prop :=
  numCreated s <= numCreated s'
  ∧ ∀ a tm, heap s' !! a = Some tm → sequence_ tm <= numCreated s →
      ∃ tm0, heap s !! a = Some tm0 ∧ sequence_ tm0 = sequence_ tm ∧ callback_ tm0 = callback_ tm.

Lemma ext_heap s s' : heap s' = heap s → numCreated s' = numCreated s → ext s s'.
Proof. intros Eh En. split; [lia|]. intros a tm. rewrite Eh. eauto. Qed.

Lemma ext_trans s s' s'' : ext s s' → ext s' s'' → ext s s''.
Proof.
  intros [H1 H2] [H3 H4]. split; [lia|]. intros a tm Ha Hs.
  destruct (H4 a tm Ha) as (x & Hx & E1 & E2); [lia|].
  destruct (H2 a x Hx) as (y & Hy & E3 & E4); [lia|]. exists y. split_and!; congruence.
Qed.

(** The frame of a callback: pending timers stay as they are. *)
Definition act_frame (P : Z → Prop) (pend : list Z) (s s' : TimerQueue) : Prop :=
  inv pend s' ∧ armed P s' ∧ (∀ a, a ∈ pend → heap s' !! a = heap s !! a)
  ∧ ran s' = ran s ∧ callingExpiredTimers_ s' = callingExpiredTimers_ s ∧ ext s s'.

Lemma act_spec P pend s x :
  downward P → inv pend s → armed P s →
  returns benign (act clock s x) (act_frame P pend s).
Proof.
  intros HP I Ha. destruct x as [cb when interval|a q]; simpl.
  - eapply returns_bind; [by apply (addTimer_spec P pend)|].
    intros [[a q] s'] (I' & Ha' & Hn & _ & (tm & Hh & _ & _ & Hq) & Eq & Ec & _ & Er & _ & Ecal).
    simpl in *. split_and!; try done.
    + intros b Hb. rewrite Hh. apply lookup_insert_ne. intros <-.
      apply (i_pend_heap _ _ I) in Hb as [[? ?] _]. congruence.
    + split; [lia|]. intros b x. rewrite Hh, lookup_insert_Some. intros [[<- <-]|[_ Hx]]; [lia|eauto].
  - pose proof (cancelInLoop_spec P pend s (a, q) HP I Ha) as Hc.
    destruct (cancelInLoop s (a, q)) as [s'|e]; simpl in *; [|done].
    destruct Hc as (I' & Ha' & En & Er & Ecal & Hc). case_decide.
    + destruct Hc as (Hh & Hnp & _). split_and!; try done.
      * intros b Hb. rewrite Hh. apply lookup_delete_ne. by intros ->.
      * split; [lia|]. intros b x. rewrite Hh, lookup_delete_Some. intros [_ Hx]. eauto.
    + destruct (callingExpiredTimers_ s) eqn:Ec; subst s'; split_and!; try done;
        by (congruence || apply ext_heap).
Qed.

Lemma acts_spec P pend s l :
  downward P → inv pend s → armed P s →
  returns benign (acts clock s l) (act_frame P pend s).
Proof.
  intros HP. revert s. induction l as [|x l IH]; intros s I Ha; simpl.
  { split_and!; try done. by apply ext_heap. }
  eapply returns_bind; [by apply (act_spec P pend)|].
  intros s1 (I1 & Ha1 & Hp1 & Hr1 & Hc1 & He1). eapply returns_mono; [by apply IH|].
  intros s2 (I2 & Ha2 & Hp2 & Hr2 & Hc2 & He2). split_and!; try done; try congruence.
  - intros a Hin. by rewrite Hp2, Hp1.
  - by eapply ext_trans.
Qed.

(** The callback of a live timer. *)
Definition cb_of (s : TimerQueue) (x : Z * Z) : Z :=
  from_option callback_ 0 (heap s !! x.2).

Lemma run_expired_spec P behave pend ex s :
  downward P → inv pend s → armed P s → (∀ x, x ∈ ex → x.2 ∈ pend) →
  returns benign (run_expired clock behave s ex) (λ s',
    inv pend s' ∧ armed P s' ∧ (∀ a, a ∈ pend → heap s' !! a = heap s !! a)
    ∧ ran s' = reverse (cb_of s <$> ex) ++ ran s ∧ ext s s').
Proof.
  intros HP. revert s. induction ex as [|[t a] ex IH]; intros s I Ha Hex; simpl.
  { split_and!; try done. by apply ext_heap. }
  assert (a ∈ pend) as Hap by (apply (Hex (t, a)); left).
  destruct (i_pend_heap _ _ I a Hap) as [[tm Htm] _]. unfold deref. rewrite Htm. simpl.
  eapply returns_bind.
  { apply (acts_spec P pend); [done|by apply (inv_ext _ s)|exact Ha]. }
  intros s1 (I1 & Ha1 & Hp1 & Hr1 & Hc1 & He1). simpl in *.
  eapply returns_mono; [apply IH; [done..|]|].
  { intros x Hx. apply Hex. by right. }
  intros s2 (I2 & Ha2 & Hp2 & Hr2 & He2). split_and!; try done.
  - intros b Hb. by rewrite Hp2, Hp1.
  - rewrite Hr2, Hr1, reverse_cons, <-app_assoc. f_equal; [|by unfold cb_of; simpl; rewrite Htm].
    f_equal. apply list_fmap_ext. intros i x Hx. unfold cb_of.
    rewrite Hp1; [done|]. apply Hex. right. by eapply list_elem_of_lookup_2.
  - eapply ext_trans; [|done]. by destruct He1.
Qed.

(** A positive interval gives a nonnegative number of microseconds. *)
Lemma addTime_future n x e :
  dgt x (S754_zero false) = true → addTime (mkTimestamp n) x = Ok e → n <= microSecondsSinceEpoch e.
Proof.
  intros Hx. unfold addTime. intros He. res_inv. simpl in *. unfold i64 in *. res_inv. subst.
  simpl. rename x0 into d. enough (0 <= d) by lia.
  assert (∀ y, (∀ m k, y ≠ S754_finite true m k) → double_to_i64 y = Ok d → 0 <= d) as Hpos.
  { intros [b|b| |[] m k] Hy Hd; unfold double_to_i64, i64 in Hd; simpl in Hd; res_inv; subst; try done.
    - by destruct (Hy m k).
    - case_match eqn:E; [apply Z.leb_le in E|apply Z.leb_gt in E].
      + apply Z.mul_nonneg_nonneg; [lia|]. apply Z.pow_nonneg. lia.
      + apply Z.div_pos; lia. }
  eapply Hpos; [|done]. intros m k Hm. unfold dmul in Hm.
  change (double_of_Z KMicroSecondsPerSecond) with (S754_finite false 8589934592000000 (-33)) in Hm.
  destruct x as [b|[]| |[] mx ex]; simpl in Hx; try discriminate Hx; simpl in Hm; [discriminate Hm|].
  unfold SFmul, binary_round_aux in Hm. simpl xorb in Hm.
  repeat case_match; discriminate Hm.
Qed.

(** Replacing a pending timer by one with the same number and period, and
    deleting it. *)
Lemma inv_update a pend s tm tm' :
  inv (a :: pend) s → heap s !! a = Some tm → sequence_ tm' = sequence_ tm →
  interval_ tm' = interval_ tm → repeat_ tm' = repeat_ tm →
  inv (a :: pend) (set_heap (<[a := tm']> (heap s)) s).
Proof.
  intros I Htm E1 E2 E3. destruct I as [Is Ie Ia Ip Iph Id It Iq Ic].
  assert (∀ q, (a, q) ∉ activeTimers_ s) as Hna by (apply Iph; left).
  split; simpl; try done.
  - intros t b Hb. destruct (Ie t b Hb) as (x & Hx & ? & Hact). exists x.
    rewrite lookup_insert_ne; [done|]. intros <-. by destruct (Hna _ Hact).
  - intros b q Hb. destruct (Ia b q Hb) as (x & Hx & ? & ?). exists x.
    rewrite lookup_insert_ne; [done|]. intros <-. by destruct (Hna _ Hb).
  - intros b Hb. destruct (Iph b Hb) as [Hs Hq]. split; [|done].
    destruct (decide (b = a)) as [->|]; [rewrite lookup_insert_eq|rewrite lookup_insert_ne by done]; eauto.
  - intros b x. rewrite lookup_insert_Some. intros [[<- _]|[_ Hx]]; [right; left|eauto].
  - intros b x. rewrite lookup_insert_Some. intros [[<- <-]|[_ Hx]]; [|eauto].
    rewrite E1, E2, E3. eauto.
  - intros b c x y. rewrite !lookup_insert_Some.
    intros [[<- <-]|[Hb Hx]] [[<- <-]|[Hc Hy]]; rewrite ?E1; eauto.
Qed.

Lemma inv_delete a pend s :
  inv (a :: pend) s → inv pend (set_heap (delete a (heap s)) s).
Proof.
  intros I. destruct I as [Is Ie Ia Ip Iph Id It Iq Ic].
  assert (∀ q, (a, q) ∉ activeTimers_ s) as Hna by (apply Iph; left).
  apply NoDup_cons in Ip as [Hnp Ip]. split; simpl; try done.
  - intros t b Hb. destruct (Ie t b Hb) as (x & Hx & ? & Hact). exists x.
    rewrite lookup_delete_ne; [done|]. intros <-. by destruct (Hna _ Hact).
  - intros b q Hb. destruct (Ia b q Hb) as (x & Hx & ? & ?). exists x.
    rewrite lookup_delete_ne; [done|]. intros <-. by destruct (Hna _ Hb).
  - intros b Hb. rewrite lookup_delete_ne by congruence. apply Iph. by right.
  - intros b x. rewrite lookup_delete_Some. intros [Hne Hx].
    destruct (Id b x Hx) as [?|[->|?]%elem_of_cons]; auto. done.
  - intros b x. rewrite lookup_delete_Some. intros [_ ?]. eauto.
  - intros b c x y. rewrite !lookup_delete_Some. intros [_ ?] [_ ?]. eauto.
Qed.

(** What becomes of an expired timer: rearmed if it repeats and was not
    cancelled by a callback, else freed. *)
Definition settled (n : Z) (s s' : TimerQueue) (a : Z) : Prop :=
  ∀ tm, heap s !! a = Some tm →
    if repeat_ tm && bool_decide ((a, sequence_ tm) ∉ cancelingTimers_ s)
    then ∃ e, addTime (mkTimestamp n) (interval_ tm) = Ok e
              ∧ (microSecondsSinceEpoch e, a) ∈ timers_ s'
              ∧ heap s' !! a = Some (mkTimer (callback_ tm) (microSecondsSinceEpoch e) (interval_ tm)
                                       true (sequence_ tm))
    else heap s' !! a = None.

Definition nonpos (t : Z) : Prop := t <= 0.

(** One expired timer in [reset]. *)
Lemma reset_one_spec a pend s tm n :
  0 < n → inv (a :: pend) s → armed nonpos s → heap s !! a = Some tm →
  returns benign
    (if repeat_ tm && bool_decide ((a, sequence_ tm) ∉ cancelingTimers_ s) then
       t ← restart tm n;
       '(_, s) ← insert (set_heap (<[a := t]> (heap s)) s) a;
       Ok s
     else delete_timer s a) (λ s',
    inv pend s' ∧ armed nonpos s' ∧ settled n s s' a
    ∧ (∀ b, b ≠ a → heap s' !! b = heap s !! b) ∧ (∀ x, x ∈ timers_ s → x ∈ timers_ s')
    ∧ numCreated s' = numCreated s ∧ ran s' = ran s ∧ cancelingTimers_ s' = cancelingTimers_ s
    ∧ callingExpiredTimers_ s' = callingExpiredTimers_ s ∧ ext s s').
Proof.
  intros Hn I Ha Htm. unfold settled.
  destruct (repeat_ tm && _) eqn:Er.
  - pose proof Er as [Erep _]%andb_prop. unfold restart. rewrite Erep.
    destruct (addTime (mkTimestamp n) (interval_ tm)) as [e|err] eqn:He; simpl.
    2:{ unfold addTime, double_to_i64, i64 in He. destruct (double_trunc _); simpl in He.
        - destruct (in_i64 _); simpl in He; [|left; congruence]. destruct (in_i64 _); simpl in He; [done|left; congruence].
        - left. congruence. }
    set (tm' := mkTimer _ _ _ _ _).
    assert (0 < microSecondsSinceEpoch e) as Hpos.
    { destruct (i_timer _ _ I a tm Htm) as (_ & _ & Ed). rewrite Erep in Ed. symmetry in Ed.
      pose proof (addTime_future n _ e Ed He). lia. }
    eapply returns_bind.
    { apply (insert_spec pend). by apply (inv_update a pend s tm). }
    intros [b s2] (I2 & Hh2 & Hn2 & Hf2 & Hr2 & Hcan2 & Hcal2 & x & Hx & Hin & Hb). simpl in *.
    rewrite lookup_insert_eq in Hx. injection Hx as <-. split_and!; try done.
    + destruct b; [|by eapply (armed_insert nonpos s s2 false tm' a)].
      destruct Hb as [l Hl]. intros t c k Hk HP. rewrite Hl in Hk. simplify_eq. unfold nonpos in HP. simpl in HP. lia.
    + intros y Hy. simplify_eq. rewrite Er. exists e. split_and!; [done|by apply Hin; left|].
      rewrite Hh2, lookup_insert_eq. done.
    + intros c Hc. by rewrite Hh2, lookup_insert_ne.
    + intros y Hy. apply Hin. by right.
    + split; [lia|]. intros c y. rewrite Hh2, lookup_insert_Some. intros [[<- <-]|[_ Hy]]; eauto.
  - unfold delete_timer, deref. rewrite Htm. simpl. split_and!; try done.
    + by apply inv_delete.
    + intros y Hy. simplify_eq. rewrite Er. apply lookup_delete_eq.
    + intros b Hb. by apply lookup_delete_ne.
    + split; [simpl; lia|]. intros c y. simpl. rewrite lookup_delete_Some. intros [_ Hy]. eauto.
Qed.

Lemma reset_loop_spec ex s n :
  0 < n → inv (ex.*2) s → armed nonpos s →
  returns benign (reset_loop s ex n) (λ s',
    inv [] s' ∧ armed nonpos s' ∧ (∀ x, x ∈ ex → settled n s s' x.2)
    ∧ (∀ b, b ∉ ex.*2 → heap s' !! b = heap s !! b) ∧ (∀ x, x ∈ timers_ s → x ∈ timers_ s')
    ∧ numCreated s' = numCreated s ∧ ran s' = ran s ∧ cancelingTimers_ s' = cancelingTimers_ s
    ∧ callingExpiredTimers_ s' = callingExpiredTimers_ s ∧ ext s s').
Proof.
  intros Hn. revert s. induction ex as [|[t a] ex IH]; intros s I Ha; cbn [reset_loop].
  { simpl. split_and!; try done; [set_solver|by apply ext_heap]. }
  destruct (i_pend_heap _ _ I a) as [[tm Htm] _]; [left|]. unfold deref at 1. rewrite Htm.
  cbn [mbind res_bind]. eapply returns_bind; [by apply (reset_one_spec a (ex.*2))|].
  intros s1 (I1 & Ha1 & Hs1 & Hh1 & Ht1 & Hn1 & Hr1 & Hc1 & Hx1 & He1).
  pose proof (i_pend _ _ I) as Hnd. simpl in Hnd. apply NoDup_cons in Hnd as [Hna Hnd].
  eapply returns_mono; [by apply IH|].
  intros s2 (I2 & Ha2 & Hs2 & Hh2 & Ht2 & Hn2 & Hr2 & Hc2 & Hx2 & He2). split_and!; try done; try congruence.
  - intros [t' b] [[= -> ->]|Hx]%elem_of_cons; simpl.
    + intros x Hx. specialize (Hs1 x Hx). case_match; [|by rewrite Hh2].
      destruct Hs1 as (e & ? & ? & ?). exists e. split_and!; [done|by apply Ht2|by rewrite Hh2].
    + assert (b ≠ a) as Hne.
      { intros ->. apply Hna. apply list_elem_of_fmap. by exists (t', a). }
      intros x Hb. specialize (Hs2 (t', b) Hx x). simpl in Hs2. rewrite Hh1, Hc1 in Hs2 by done.
      by apply Hs2.
  - intros b [Hb1 Hb2]%not_elem_of_cons. by rewrite Hh2, Hh1.
  - auto.
  - by eapply ext_trans.
Qed.

(** The end of [reset]: the alarm is set for the first timer left. *)
Lemma rearm_spec s :
  inv [] s → armed nonpos s →
  returns benign
    (nextExpire ← match timers_ s with
                  | [] => Ok (microSecondsSinceEpoch Timestamp_invalid)
                  | (_, a) :: _ => t ← deref s a; Ok (expiration_ t)
                  end;
     if Timestamp_valid (mkTimestamp nextExpire) then resetTimerfd clock s nextExpire else Ok s) (λ s',
    heap s' = heap s ∧ numCreated s' = numCreated s ∧ timers_ s' = timers_ s
    ∧ activeTimers_ s' = activeTimers_ s ∧ cancelingTimers_ s' = cancelingTimers_ s
    ∧ callingExpiredTimers_ s' = callingExpiredTimers_ s
    ∧ ran s' = ran s ∧ armed (λ _, True) s').
Proof.
  intros I Ha. destruct (timers_ s) as [|[t a] l] eqn:El.
  { simpl. split_and!; try done. intros t a l Hl. congruence. }
  destruct (i_entry _ _ I t a) as (tm & Htm & Et & _); [rewrite El; left|].
  unfold deref. rewrite Htm. simpl. rewrite Et. unfold Timestamp_valid. simpl.
  destruct (Z.ltb_spec 0 t) as [Hp|Hp].
  - eapply returns_mono; [apply resetTimerfd_spec|]. simpl.
    intros s' (E1 & E2 & E3 & E4 & E5 & E6 & E7 & Harm). rewrite <-El. split_and!; try done.
    intros t' a' l' Hl _. rewrite E3, El in Hl. by simplify_eq.
  - simpl. rewrite <-El. split_and!; try done. intros t' a' l' Hl _. apply (Ha t' a' l' Hl).
    rewrite El in Hl. simplify_eq. unfold nonpos. lia.
Qed.

(** Serving an alarm: which callbacks run, in which order, and what becomes of
    their timers. *)
Lemma handleRead_spec behave s :
  (∀ k, 0 < clock k) → inv [] s →
  returns benign (handleRead clock behave s) (λ s',
    let n := clock (ticks s) in
    let ex := filter (λ x, x.1 <= n) (timers_ s) in
    inv [] s' ∧ armed (λ _, True) s' ∧ callingExpiredTimers_ s' = false ∧ ext s s'
    ∧ ran s' = reverse (cb_of s <$> ex) ++ ran s
    ∧ (∀ t a tm, (t, a) ∈ ex → heap s !! a = Some tm →
        if repeat_ tm && bool_decide ((a, sequence_ tm) ∉ cancelingTimers_ s')
        then ∃ e, addTime (mkTimestamp n) (interval_ tm) = Ok e
              ∧ (microSecondsSinceEpoch e, a) ∈ timers_ s'
              ∧ heap s' !! a = Some (mkTimer (callback_ tm) (microSecondsSinceEpoch e) (interval_ tm)
                                       true (sequence_ tm))
        else heap s' !! a = None)).
Proof.
  intros Hclock I. unfold handleRead, now. cbn [ticks set_timerfd].
  set (n := clock (ticks s)). set (s0 := mkTQ _ _ _ _ _ _ _ _ _).
  assert (inv [] s0) as I0 by (by apply (inv_ext _ s)).
  pose proof (getExpired_spec s0 n I0) as Hg.
  destruct (getExpired s0 n) as [[ex s1]|e]; simpl in Hg; [|done].
  destruct Hg as (I1 & Eex & Hh1 & Hts1 & Hex1 & Hn1 & Hr1 & Hf1). cbn [mbind res_bind].
  eapply returns_bind.
  { apply (run_expired_spec nonpos behave (ex.*2) ex).
    - unfold nonpos. intros ? ? ?. lia.
    - by apply (inv_ext _ s1).
    - intros t a l Hl HP. simpl in Hl. assert ((t, a) ∈ timers_ s1) as Hin by (rewrite Hl; left).
      apply Hts1 in Hin as [_ Hin]. simpl in Hin. unfold nonpos in HP. pose proof (Hclock (ticks s)). lia.
    - intros x Hx. apply list_elem_of_fmap. eauto. }
  intros s2 (I2 & Ha2 & Hp2 & Hr2 & He2). unfold reset.
  eapply returns_bind.
  { apply (reset_loop_spec ex _ n); [apply Hclock|by apply (inv_ext _ s2)|exact Ha2]. }
  intros s3 (I3 & Ha3 & Hs3 & Hh3 & _ & Hn3 & Hr3 & Hc3 & Hx3 & He3). simpl in Hr3, Hc3, Hn3, Hx3.
  assert (ran s3 = reverse (cb_of s <$> ex) ++ ran s) as Hran.
  { rewrite Hr3, Hr2. simpl. rewrite Hr1. f_equal. f_equal. apply list_fmap_ext. intros i x Hx.
    unfold cb_of. simpl. by rewrite Hh1. }
  assert (ext s s3) as Hext.
  { eapply (ext_trans _ s2); [|exact He3]. eapply (ext_trans _ (set_calling true ∅ s1)); [|exact He2].
    by apply ext_heap. }
  assert (∀ t a tm, (t, a) ∈ ex → heap s !! a = Some tm → heap s2 !! a = Some tm) as Hsame.
  { intros t a tm Hin Htm. rewrite Hp2; [simpl; by rewrite Hh1|]. apply list_elem_of_fmap. by exists (t, a). }
  eapply returns_mono; [by apply rearm_spec|].
  intros s4 (E1 & E2 & E3 & E4 & E5 & Ecal & E6 & Ha4). cbv zeta. rewrite <-Eex. split_and!.
  - by apply (inv_ext _ s3).
  - done.
  - congruence.
  - eapply ext_trans; [done|]. by apply ext_heap.
  - congruence.
  - intros t a tm Hin Htm. specialize (Hs3 (t, a) Hin tm (Hsame t a tm Hin Htm)). simpl in Hs3.
    by rewrite E5, E3, E1, Hc3.
Qed.
End queue_lemmas.

Lemma destroy_spec s : inv [] s → ∃ s', destroy s = Ok s' ∧ heap s' = ∅.
Proof.
  intros I. unfold destroy.
  enough (∀ l s, NoDup l.*2 → (∀ a, a ∈ l.*2 ↔ is_Some (heap s !! a)) →
          ∃ s', delete_all s l = Ok s' ∧ heap s' = ∅) as Hd.
  { apply Hd.
    - apply NoDup_fmap_2_strong; [|apply sorted_NoDup, I].
      intros [t a] [t' a'] H1 H2 E. simpl in E. subst a'.
      apply (i_entry _ _ I) in H1 as (x & Hx & <- & _), H2 as (y & Hy & <- & _). by simplify_eq.
    - intros a. rewrite list_elem_of_fmap. split.
      + intros ([t b] & -> & Hin). apply (i_entry _ _ I) in Hin as (x & ? & _). eauto.
      + intros [x Hx]. apply (i_dom _ _ I) in Hx as [Hx|Hx]; [|set_solver]. by exists (expiration_ x, a). }
  clear s I. induction l as [|[t a] l IH]; intros s Hnd Hdom; simpl.
  { exists s. split; [done|]. apply map_eq. intros b. rewrite lookup_empty.
    destruct (heap s !! b) eqn:E; [|done]. assert (b ∈ @nil Z) by (apply Hdom; eauto). set_solver. }
  apply NoDup_cons in Hnd as [Hna Hnd].
  assert (is_Some (heap s !! a)) as [tm Htm] by (apply Hdom; left).
  unfold delete_timer, deref. rewrite Htm. simpl. apply IH; [done|].
  intros b. simpl. rewrite lookup_delete_is_Some, <-Hdom. simpl. rewrite elem_of_cons.
  split; [|naive_solver]. intros Hb. split; [|auto]. intros <-. done.
Qed.

(** ** Properties *)

(** What the loop's thread does to the queue, in any order. *)
Inductive op : Type :=
| OpAct (a : action)
| OpAlarm.

Section properties.
Context `{Allocator}.
Context (clock : nat → Z).
Context (behave : Z → list action).

Definition step (s : TimerQueue) (o : op) : res TimerQueue :=
  match o with
  | OpAct a => act clock s a
  | OpAlarm => handleRead clock behave s
  end.
Fixpoint run (s : TimerQueue) (l : list op) : res TimerQueue :=
  match l with
  | [] => Ok s
  | o :: l => s ← step s o; run s l
  end.

(** Between two operations of the loop. *)
Definition tq_ok (s : TimerQueue) : Prop :=
  inv [] s ∧ armed (λ _, True) s ∧ callingExpiredTimers_ s = false.

Lemma tq_ok_new : tq_ok newTimerQueue.
Proof. split_and!; [|done..]. split; simpl; try set_solver; try done; constructor. Qed.

Lemma step_ok s o : (∀ k, 0 < clock k) → tq_ok s →
  returns benign (step s o) (λ s', tq_ok s' ∧ ext s s').
Proof.
  intros Hc (I & Ha & Hcal). destruct o as [a|]; simpl.
  - eapply returns_mono; [apply (act_spec _ (λ _, True) []); done|].
    intros s' (I' & Ha' & _ & _ & Hcal' & He). split; [|done]. split_and!; try done. congruence.
  - eapply returns_mono; [by apply handleRead_spec|]. simpl.
    intros s' (I' & Ha' & Hcal' & He & _). done.
Qed.

Lemma run_ok s l : (∀ k, 0 < clock k) → tq_ok s →
  returns benign (run s l) (λ s', tq_ok s' ∧ ext s s').
Proof.
  intros Hc. revert s. induction l as [|o l IH]; intros s Hs; simpl.
  { split; [done|]. by apply ext_heap. }
  eapply returns_bind; [by apply step_ok|]. intros s1 [H1 He1].
  eapply returns_mono; [by apply IH|]. intros s2 [H2 He2]. split; [done|]. by eapply ext_trans.
Qed.


(** C29: Serving an alarm runs exactly the callbacks of the timers whose expiry is
    not later than the time read at its start, once each, in order of expiry and
    address. *)
Theorem alarm_runs_expired s s' :
  (∀ k, 0 < clock k) → tq_ok s → handleRead clock behave s = Ok s' →
  ran s' = reverse (cb_of s <$> filter (λ x, x.1 <= clock (ticks s)) (timers_ s)) ++ ran s.
Proof using behave.
  intros Hc (I & _) E. pose proof (handleRead_spec clock behave s Hc I) as H1.
  eapply returns_ok in H1; [|exact E]. apply H1.
Qed.

(** After an alarm, each timer that expired is either back in the queue, with
    its number and callback, at the alarm's time plus its interval (it repeats
    and no callback cancelled it), or freed. *)
Theorem alarm_settles s s' t a tm :
  (∀ k, 0 < clock k) → tq_ok s → handleRead clock behave s = Ok s' →
  (t, a) ∈ timers_ s → t <= clock (ticks s) → heap s !! a = Some tm →
  if repeat_ tm && bool_decide ((a, sequence_ tm) ∉ cancelingTimers_ s')
  then ∃ e, addTime (mkTimestamp (clock (ticks s))) (interval_ tm) = Ok e
            ∧ (microSecondsSinceEpoch e, a) ∈ timers_ s'
            ∧ heap s' !! a = Some (mkTimer (callback_ tm) (microSecondsSinceEpoch e)
                                     (interval_ tm) true (sequence_ tm))
  else heap s' !! a = None.
Proof using behave.
  intros Hc (I & _) E Hin Ht Htm. pose proof (handleRead_spec clock behave s Hc I) as H1.
  eapply returns_ok in H1; [|exact E]. cbv zeta in H1. destruct H1 as (_ & _ & _ & _ & _ & H1).
  apply (H1 t a tm); [|done]. by apply list_elem_of_filter.
Qed.

(** Cancelling an active timer removes that timer and no other. An identifier
    whose timer is gone stays without effect for ever: after any further
    operations, also when its address belongs to a new timer, cancelling it
    changes nothing. *)
Theorem cancel_exact s l s' a q :
  (∀ k, 0 < clock k) → tq_ok s → 0 < q <= numCreated s →
  ((a, q) ∈ activeTimers_ s →
     ∃ s1, cancelInLoop s (a, q) = Ok s1 ∧ tq_ok s1 ∧ heap s1 = delete a (heap s)
           ∧ activeTimers_ s1 = activeTimers_ s ∖ {[ (a, q) ]}
           ∧ ∀ x, x ∈ timers_ s1 ↔ x ∈ timers_ s ∧ x.2 ≠ a)
  ∧ ((∀ b tm, heap s !! b = Some tm → sequence_ tm ≠ q) → run s l = Ok s' →
     cancelInLoop s' (a, q) = Ok s').
Proof using behave.
  intros Hc Hs Hq. split.
  - intros Hin. destruct Hs as (I & Ha & Hcal).
    pose proof (cancelInLoop_spec (λ _, True) [] s (a, q) ltac:(done) I Ha) as Hspec.
    destruct (cancelInLoop s (a, q)) as [s1|e]; simpl in Hspec; [|done]. exists s1.
    destruct Hspec as (I1 & Ha1 & _ & _ & Hc1 & Hd). rewrite decide_True in Hd by done.
    destruct Hd as (Hh & _ & _ & Hact & Hts). split_and!; try done.
    split_and!; try done. congruence.
  - intros Hgone Hrun. pose proof (run_ok s l Hc Hs) as Hr. eapply returns_ok in Hr; [|exact Hrun].
    destruct Hr as [(I' & Ha' & Hcal') [_ Hext]].
    pose proof (cancelInLoop_spec (λ _, True) [] s' (a, q) ltac:(done) I' Ha') as Hspec.
    destruct (cancelInLoop s' (a, q)) as [s1|e]; simpl in Hspec; [|done].
    destruct Hspec as (_ & _ & _ & _ & _ & Hd). rewrite decide_False in Hd.
    + rewrite Hcal' in Hd. by subst.
    + intros Hin. apply (i_active _ _ I') in Hin as (tm & Htm & Eq & _).
      destruct (Hext a tm Htm) as (tm0 & Htm0 & Eq0 & _); [lia|]. by apply (Hgone a tm0 Htm0); lia.
Qed.
End properties.

(** ** Concrete runs *)

(** An allocator that hands out the least free address, so that a freed address
    is the next one used. *)
Definition least_free (X : gset Z) : option Z :=
  list_find (λ a, a ∉ X) (seqZ 1 (2 + Z.of_nat (size X))) ≫= λ p,
  if decide (0 < p.2 < UINTPTR_MAX) then Some p.2 else None.

#[local] Instance first_fit : Allocator.
Proof.
  refine {| alloc := least_free |}. intros X a. unfold least_free.
  destruct (list_find _ _) as [[i b]|] eqn:E; simpl; [|done].
  case_decide; [|done]. intros [= <-]. apply list_find_Some in E as (_ & Hb & _). done.
Defined.

(** A clock that ticks once per reading, and callbacks: 1 cancels the repeating
    timer at address 2 and starts another, the rest do nothing. *)
Definition sample_clock (k : nat) : Z := 1000 + Z.of_nat k.
Definition sample_behave (c : Z) : list action :=
  if c =? 1 then [Cancel 2 2; AddTimer 3 5000 (S754_zero false)] else [].
Definition sample_ops : list op :=
  [OpAct (AddTimer 1 500 (S754_zero false)); OpAct (AddTimer 2 600 (double_of_Z 1));
   OpAct (AddTimer 4 9000 (S754_zero false)); OpAct (Cancel 3 3)].

Lemma sample_clock_pos : ∀ k, 0 < sample_clock k.
Proof. intros k. unfold sample_clock. lia. Qed.


(** The state before the alarm. *)
Definition sample_state : TimerQueue :=
  match run sample_clock sample_behave newTimerQueue sample_ops with
  | Ok s => s | Err _ => newTimerQueue end.
Definition sample_after : TimerQueue :=
  match handleRead sample_clock sample_behave sample_state with
  | Ok s => s | Err _ => newTimerQueue end.

Lemma sample_state_ok : tq_ok sample_state.
Proof.
  pose proof (run_ok sample_clock sample_behave newTimerQueue sample_ops sample_clock_pos tq_ok_new) as H1.
  eapply returns_ok in H1; [apply H1|]. vm_compute. reflexivity.
Qed.

Lemma alarm_runs_expired_witness :
  ran sample_after = reverse (cb_of sample_state <$>
    filter (λ x, x.1 <= sample_clock (ticks sample_state)) (timers_ sample_state)) ++ ran sample_state.
Proof.
  apply (alarm_runs_expired sample_clock sample_behave sample_state sample_after);
    [exact sample_clock_pos | exact sample_state_ok | vm_compute; reflexivity].
Defined.

Lemma alarm_settles_witness : heap sample_after !! 1 = None.
Proof.
  pose proof (alarm_settles sample_clock sample_behave sample_state sample_after 500 1
    (mkTimer 1 500 (S754_zero false) false 1)) as H1. cbn [repeat_ andb] in H1. apply H1.
  - exact sample_clock_pos.
  - exact sample_state_ok.
  - vm_compute. reflexivity.
  - apply (bool_decide_unpack _). vm_compute. exact I.
  - vm_compute. discriminate.
  - vm_compute. reflexivity.
Defined.

(** Timer 3, cancelled before, left the address 3 to the timer numbered 4. *)
Lemma cancel_exact_witness :
  (∃ tm, heap sample_after !! 3 = Some tm ∧ sequence_ tm = 4)
  ∧ cancelInLoop sample_after (3, 3) = Ok sample_after.
Proof.
  split; [eexists; split; vm_compute; reflexivity|].
  apply (cancel_exact sample_clock sample_behave sample_state [OpAlarm] sample_after 3 3).
  - exact sample_clock_pos.
  - exact sample_state_ok.
  - vm_compute. split; congruence.
  - assert (map_Forall (λ _ tm, sequence_ tm ≠ 3) (heap sample_state)) as Hall.
    { apply (bool_decide_unpack _). vm_compute. exact I. }
    intros b tm Hb. exact (Hall b tm Hb).
  - vm_compute. reflexivity.
Defined.
