(* ===== verification/Channel.v ===== *)
(** * Channels (fishnet/net/channel.h, fishnet/net/channel.cc)

    A channel's event masks, the order in which its callbacks are dispatched,
    and the tie to an owner. *)

From S2P Require Import Prelude Printf.
Local Open Scope Z_scope.

(** ** Event masks *)

Definition POLLIN : Z := 1.
Definition POLLPRI : Z := 2.
Definition POLLOUT : Z := 4.
Definition POLLERR : Z := 8.
Definition POLLHUP : Z := 16.
Definition POLLNVAL : Z := 32.
Definition POLLRDHUP : Z := 8192.

Definition has (ev mask : Z) : bool := negb (Z.land ev mask =? 0).

Definition kNoneEvent : Z := 0.
Definition kReadEvent : Z := Z.lor POLLIN POLLPRI.
Definition kWriteEvent : Z := POLLOUT.

(** The callbacks that are set. *)
Inductive callback : Type := CloseCb | ErrorCb | ReadCb | WriteCb.

#[global] Instance callback_eq_dec : EqDecision callback.
Proof. solve_decision. Defined.

Record Channel := mkChannel {
  fd_ : Z; events_ : Z; revents_ : Z; index_ : Z; logHup_ : bool; tied_ : bool;
  eventHandling_ : bool; addedToLoop_ : bool; callbacks : list callback }.

#[global] Instance Channel_eq_dec : EqDecision Channel.
Proof. solve_decision. Defined.

Definition newChannel (fd : Z) : Channel := mkChannel fd 0 0 (-1) true false false false [].

Definition setCallback (k : callback) (c : Channel) : Channel :=
  mkChannel (fd_ c) (events_ c) (revents_ c) (index_ c) (logHup_ c) (tied_ c) (eventHandling_ c)
    (addedToLoop_ c) (k :: callbacks c).
Definition tie (c : Channel) : Channel :=
  mkChannel (fd_ c) (events_ c) (revents_ c) (index_ c) (logHup_ c) true (eventHandling_ c)
    (addedToLoop_ c) (callbacks c).
Definition setRevents (r : Z) (c : Channel) : Channel :=
  mkChannel (fd_ c) (events_ c) r (index_ c) (logHup_ c) (tied_ c) (eventHandling_ c)
    (addedToLoop_ c) (callbacks c).
Definition setIndex (i : Z) (c : Channel) : Channel :=
  mkChannel (fd_ c) (events_ c) (revents_ c) i (logHup_ c) (tied_ c) (eventHandling_ c)
    (addedToLoop_ c) (callbacks c).
Definition setEvents (e : Z) (c : Channel) : Channel :=
  mkChannel (fd_ c) e (revents_ c) (index_ c) (logHup_ c) (tied_ c) (eventHandling_ c)
    (addedToLoop_ c) (callbacks c).
Definition setAdded (b : bool) (c : Channel) : Channel :=
  mkChannel (fd_ c) (events_ c) (revents_ c) (index_ c) (logHup_ c) (tied_ c) (eventHandling_ c)
    b (callbacks c).
Definition setHandling (b : bool) (c : Channel) : Channel :=
  mkChannel (fd_ c) (events_ c) (revents_ c) (index_ c) (logHup_ c) (tied_ c) b
    (addedToLoop_ c) (callbacks c).

Definition isNoneEvent (c : Channel) : bool := events_ c =? kNoneEvent.
Definition isWriting (c : Channel) : bool := has (events_ c) kWriteEvent.
Definition isReading (c : Channel) : bool := has (events_ c) kReadEvent.

(** The mask changes; each is followed by [update()], see the event loop. *)
Definition enableReading (c : Channel) : Channel := setEvents (Z.lor (events_ c) kReadEvent) c.
Definition disableReading (c : Channel) : Channel :=
  setEvents (Z.land (events_ c) (Z.lnot kReadEvent)) c.
Definition enableWriting (c : Channel) : Channel := setEvents (Z.lor (events_ c) kWriteEvent) c.
Definition disableWriting (c : Channel) : Channel :=
  setEvents (Z.land (events_ c) (Z.lnot kWriteEvent)) c.
Definition disableAll (c : Channel) : Channel := setEvents kNoneEvent c.

(** ** Dispatch *)

Definition call (k : callback) (c : Channel) : list callback :=
  if decide (k ∈ callbacks c) then [k] else [].

(** The callbacks [handleEventWithGuard] runs, in order. *)
Definition handleEventWithGuard (c : Channel) : list callback :=
  let r := revents_ c in
  (if has r POLLHUP && negb (has r POLLIN) then call CloseCb c else [])
  ++ (if has r (Z.lor POLLERR POLLNVAL) then call ErrorCb c else [])
  ++ (if has r (Z.lor (Z.lor POLLIN POLLPRI) POLLRDHUP) then call ReadCb c else [])
  ++ (if has r POLLOUT then call WriteCb c else []).

(** [owner] tells whether the tied object is still alive. *)
Definition handleEvent (c : Channel) (owner : bool) : list callback :=
  if tied_ c then (if owner then handleEventWithGuard c else []) else handleEventWithGuard c.

Definition eventsToString (fd ev : Z) : bytes :=
  dec fd ++ str ": "
  ++ (if has ev POLLIN then str "IN " else []) ++ (if has ev POLLPRI then str "PRI " else [])
  ++ (if has ev POLLOUT then str "OUT " else []) ++ (if has ev POLLHUP then str "HUP " else [])
  ++ (if has ev POLLRDHUP then str "RDHUP " else []) ++ (if has ev POLLERR then str "ERR " else [])
  ++ (if has ev POLLNVAL then str "NVAL " else []).
Definition reventsToString (c : Channel) : bytes := eventsToString (fd_ c) (revents_ c).

(** ** Lemmas *)

(** The mask operations change the bits they name and no others. *)
Lemma mask_bits c k :
  Z.testbit (events_ (enableReading c)) k = Z.testbit (events_ c) k || Z.testbit kReadEvent k
  ∧ Z.testbit (events_ (disableReading c)) k = Z.testbit (events_ c) k && negb (Z.testbit kReadEvent k)
  ∧ Z.testbit (events_ (enableWriting c)) k = Z.testbit (events_ c) k || Z.testbit kWriteEvent k
  ∧ Z.testbit (events_ (disableWriting c)) k = Z.testbit (events_ c) k && negb (Z.testbit kWriteEvent k).
Proof.
  simpl. rewrite !Z.lor_spec, !Z.land_spec. destruct (Z.le_gt_cases 0 k).
  - rewrite !Z.lnot_spec by lia. done.
  - rewrite !Z.testbit_neg_r by lia. done.
Qed.

Lemma has_lor_r a m : m ≠ 0 → has (Z.lor a m) m = true.
Proof.
  intros Hm. unfold has. apply negb_true_iff, Z.eqb_neq. intros H. apply Hm.
  rewrite Z.land_lor_distr_l, Z.land_diag in H. by apply Z.lor_eq_0_iff in H as [_ ?].
Qed.

Lemma isWriting_enable c : isWriting (enableWriting c) = true ∧ isWriting (disableWriting c) = false.
Proof.
  unfold isWriting. simpl. split; [apply has_lor_r; discriminate|].
  unfold has. rewrite <-Z.land_assoc, (Z.land_comm (Z.lnot _)).
  by rewrite Z.land_lnot_diag, Z.land_0_r.
Qed.

(** Reading and writing interest are independent. *)
Lemma isWriting_reading c :
  isWriting (enableReading c) = isWriting c ∧ isWriting (disableReading c) = isWriting c.
Proof.
  unfold isWriting, has. simpl. rewrite Z.land_lor_distr_l, <-Z.land_assoc.
  change (Z.land kReadEvent kWriteEvent) with 0.
  change (Z.land (Z.lnot kReadEvent) kWriteEvent) with kWriteEvent. by rewrite Z.lor_0_r.
Qed.
