(* ===== verification/Poller.v ===== *)
(** * Pollers (fishnet/net/poller.h, poller.cc and the files of fishnet/net/poller)

    The two implementations of the I/O multiplexer over a shared store of
    channels, the interface the event loop uses, and the contract both meet. *)

From S2P Require Import Prelude Channel.
Local Open Scope Z_scope.

(** Channels by address; pollers hold addresses and update the index in place. *)
Abbreviation store := (gmap Z Channel).

Definition chan (cs : store) (a : Z) : res Channel :=
  match cs !! a with Some c => Ok c | None => Err OutOfBounds end.

#[global] Arguments chan _ _ : simpl never.

(** [ChannelMap]: descriptor to channel address. *)
Abbreviation ChannelMap := (gmap Z Z).

Definition hasChannel (channels_ : ChannelMap) (cs : store) (a : Z) : res bool :=
  c ← chan cs a; Ok (bool_decide (channels_ !! fd_ c = Some a)).

(** ** EPollPoller *)

Module EPollPoller.

Definition kNew : Z := -1.
Definition kAdded : Z := 1.
Definition kDeleted : Z := 2.

(** [kernel] is the interest list of the epoll instance: descriptor to the event
    mask and the user pointer; [nevents] is the size of [events_]. *)
Record EPoll := mkEPoll { channels_ : ChannelMap; kernel : gmap Z (Z * Z); nevents : nat }.

Definition kInitEventListSize : nat := 16.
Definition newEPoll : EPoll := mkEPoll (∅) (∅) kInitEventListSize.

Inductive ctl : Type := ADD | MOD | DEL.

(** [epoll_ctl]: adding a registered or changing an unregistered descriptor fails. *)
Definition epoll_ctl (k : gmap Z (Z * Z)) (op : ctl) (fd : Z) (ev : Z * Z) : option (gmap Z (Z * Z)) :=
  match op, k !! fd with
  | ADD, None => Some (<[fd := ev]> k)
  | MOD, Some _ => Some (<[fd := ev]> k)
  | DEL, Some _ => Some (delete fd k)
  | _, _ => None
  end.

(** A failed deletion is only logged; any other failure is fatal. *)
Definition update (p : EPoll) (operation : ctl) (c : Channel) (a : Z) : res EPoll :=
  match epoll_ctl (kernel p) operation (fd_ c) (events_ c, a) with
  | Some k => Ok (mkEPoll (channels_ p) k (nevents p))
  | None => match operation with DEL => Ok p | _ => Err Fatal end
  end.

Definition updateChannel (cs : store) (p : EPoll) (a : Z) : res (store * EPoll) :=
  c ← chan cs a;
  let index := index_ c in
  if (index =? kNew) || (index =? kDeleted) then
    p ← (if index =? kNew then
           assertb (bool_decide (channels_ p !! fd_ c = None));;
           Ok (mkEPoll (<[fd_ c := a]> (channels_ p)) (kernel p) (nevents p))
         else
           assertb (bool_decide (channels_ p !! fd_ c = Some a));;
           Ok p);
    let c := setIndex kAdded c in
    p ← update p ADD c a;
    Ok (<[a := c]> cs, p)
  else
    assertb (bool_decide (channels_ p !! fd_ c = Some a));;
    assertb (index =? kAdded);;
    if isNoneEvent c then
      p ← update p DEL c a;
      Ok (<[a := setIndex kDeleted c]> cs, p)
    else
      p ← update p MOD c a;
      Ok (cs, p).

Definition removeChannel (cs : store) (p : EPoll) (a : Z) : res (store * EPoll) :=
  c ← chan cs a;
  assertb (bool_decide (channels_ p !! fd_ c = Some a));;
  assertb (isNoneEvent c);;
  let index := index_ c in
  assertb ((index =? kAdded) || (index =? kDeleted));;
  let p := mkEPoll (delete (fd_ c) (channels_ p)) (kernel p) (nevents p) in
  p ← (if index =? kAdded then update p DEL c a else Ok p);
  Ok (<[a := setIndex kNew c]> cs, p).

(** [fillActiveChannels] on the entries [epoll_wait] stored: pointer and events. *)
Fixpoint fill (cs : store) (p : EPoll) (evs : list (Z * Z)) : res (store * list Z) :=
  match evs with
  | [] => Ok (cs, [])
  | (a, ev) :: evs =>
      c ← chan cs a;
      assertb (bool_decide (channels_ p !! fd_ c = Some a));;
      '(cs, l) ← fill (<[a := setRevents ev c]> cs) p evs;
      Ok (cs, a :: l)
  end.

(** [poll] for the result of [epoll_wait]: the reported entries (none for a
    timeout, an interruption or an error). *)
Definition poll (cs : store) (p : EPoll) (evs : list (Z * Z)) : res (store * EPoll * list Z) :=
  if decide (evs = []) then Ok (cs, p, [])
  else
    assertb (bool_decide (length evs <= nevents p)%nat);;
    '(cs, active) ← fill cs p evs;
    let p := if bool_decide (length evs = nevents p)
             then mkEPoll (channels_ p) (kernel p) (nevents p * 2) else p in
    Ok (cs, p, active).

Definition operationToString (op : ctl) : bytes :=
  match op with ADD => str "ADD" | DEL => str "DEL" | MOD => str "MOD" end.
End EPollPoller.

(** ** PollPoller *)

Module PollPoller.

Record pollfd := mkPollfd { pfd_fd : Z; pfd_events : Z; pfd_revents : Z }.

Record Poll := mkPoll { channels_ : ChannelMap; pollfds_ : list pollfd }.

Definition newPoll : Poll := mkPoll (∅) [].

Definition at_fd (p : Poll) (i : Z) : res pollfd :=
  match pollfds_ p !! Z.to_nat i with Some f => Ok f | None => Err OutOfBounds end.

Definition index_ok (p : Poll) (idx : Z) : bool := (0 <=? idx) && (idx <? zlen (pollfds_ p)).

Definition updateChannel (cs : store) (p : Poll) (a : Z) : res (store * Poll) :=
  c ← chan cs a;
  if index_ c <? 0 then
    assertb (bool_decide (channels_ p !! fd_ c = None));;
    let pfds := pollfds_ p ++ [mkPollfd (fd_ c) (s16 (events_ c)) 0] in
    let idx := zlen pfds - 1 in
    Ok (<[a := setIndex idx c]> cs, mkPoll (<[fd_ c := a]> (channels_ p)) pfds)
  else
    assertb (bool_decide (channels_ p !! fd_ c = Some a));;
    let idx := index_ c in
    assertb (index_ok p idx);;
    pfd ← at_fd p idx;
    assertb ((pfd_fd pfd =? fd_ c) || (pfd_fd pfd =? - fd_ c - 1));;
    let fd := if isNoneEvent c then - fd_ c - 1 else fd_ c in
    Ok (cs, mkPoll (channels_ p)
              (<[Z.to_nat idx := mkPollfd fd (s16 (events_ c)) 0]> (pollfds_ p))).

(** [pop_back]. *)
Definition pop {A} (l : list A) : list A := take (length l - 1) l.

Definition removeChannel (cs : store) (p : Poll) (a : Z) : res (store * Poll) :=
  c ← chan cs a;
  assertb (bool_decide (channels_ p !! fd_ c = Some a));;
  assertb (isNoneEvent c);;
  let idx := index_ c in
  assertb (index_ok p idx);;
  pfd ← at_fd p idx;
  assertb ((pfd_fd pfd =? - fd_ c - 1) && (pfd_events pfd =? events_ c));;
  let chs := delete (fd_ c) (channels_ p) in
  if idx =? zlen (pollfds_ p) - 1 then
    Ok (cs, mkPoll chs (pop (pollfds_ p)))
  else
    back ← at_fd p (zlen (pollfds_ p) - 1);
    let channelAtEnd := if pfd_fd back <? 0 then - pfd_fd back - 1 else pfd_fd back in
    (* channels_[channelAtEnd] of an absent key is a null pointer *)
    b ← match chs !! channelAtEnd with Some b => Ok b | None => Err OutOfBounds end;
    e ← chan cs b;
    Ok (<[b := setIndex idx e]> cs, mkPoll chs (pop (<[Z.to_nat idx := back]> (pollfds_ p)))).

(** [fillActiveChannels]: stops when [numEvents] entries were found. *)
Fixpoint fill (cs : store) (chs : ChannelMap) (pfds : list pollfd) (numEvents : Z)
    : res (store * list Z) :=
  match pfds with
  | [] => Ok (cs, [])
  | pfd :: pfds =>
      if 0 <? pfd_revents pfd then
        a ← match chs !! pfd_fd pfd with Some a => Ok a | None => Err AssertFailed end;
        c ← chan cs a;
        assertb (fd_ c =? pfd_fd pfd);;
        let cs := <[a := setRevents (pfd_revents pfd) c]> cs in
        if numEvents - 1 <=? 0 then Ok (cs, [a])
        else '(cs, l) ← fill cs chs pfds (numEvents - 1); Ok (cs, a :: l)
      else fill cs chs pfds numEvents
  end.

(** [poll] for what [::poll] stored: the [revents] of each entry and its result. *)
Definition poll (cs : store) (p : Poll) (revents : list Z) (numEvents : Z)
    : res (store * Poll * list Z) :=
  let pfds := zip_with (λ f r, mkPollfd (pfd_fd f) (pfd_events f) r) (pollfds_ p) revents in
  let p := mkPoll (channels_ p) pfds in
  if 0 <? numEvents then
    '(cs, active) ← fill cs (channels_ p) pfds numEvents; Ok (cs, p, active)
  else Ok (cs, p, []).
End PollPoller.

(** [newDefaultPoller]. *)
Definition newDefaultPoller (use_poll : bool) : EPollPoller.EPoll + PollPoller.Poll :=
  if use_poll then inr PollPoller.newPoll else inl EPollPoller.newEPoll.

(** ** The contract *)

(** What a channel is to the loop: its descriptor, its interest, and whether it
    is registered, watched ([Some true]) or silenced ([Some false]). *)
Record achan := mkA { a_fd : Z; a_ev : Z; a_reg : option bool }.
Abbreviation astate := (gmap Z achan).

(** The channels in use, as the store has them. *)
Definition rel (A : astate) (cs : store) : Prop :=
  ∀ a x, A !! a = Some x → ∃ c, cs !! a = Some c ∧ fd_ c = a_fd x ∧ events_ c = a_ev x
     ∧ addedToLoop_ c = bool_decide (is_Some (a_reg x)) ∧ (a_reg x = None → index_ c = -1)
     ∧ 0 <= a_fd x ∧ 0 <= a_ev x < 2 ^ 15.

(** The registered channels have distinct descriptors. *)
Definition fd_free (A : astate) (a : Z) (fd : Z) : Prop :=
  ∀ b y, A !! b = Some y → a_fd y = fd → is_Some (a_reg y) → b = a.

(** What a poller watches, according to the specification. *)
Definition awatched (A : astate) (fd ev a : Z) : Prop :=
  ∃ x, A !! a = Some x ∧ a_fd x = fd ∧ a_ev x = ev ∧ a_reg x = Some true.

(** [Channel::update()] after a change of the mask to [ev]. *)
Definition with_events (cs : store) (a : Z) (c : Channel) (ev : Z) : store :=
  <[a := setAdded true (setEvents ev c)]> cs.
(** [Channel::remove()] before the poller is called. *)
Definition with_removed (cs : store) (a : Z) (c : Channel) : store := <[a := setAdded false c]> cs.

Class PollerImpl (P : Type) := {
  p_new : P;
  p_update : store → P → Z → res (store * P);
  p_remove : store → P → Z → res (store * P);
  watched : P → Z → option (Z * Z);
  pok : astate → store → P → Prop;
  pok_new : pok ∅ ∅ p_new;
  pok_rel A cs p : pok A cs p → rel A cs;
  pok_watched A cs p fd ev a : pok A cs p → watched p fd = Some (ev, a) ↔ awatched A fd ev a;
  (** a channel that comes or goes unregistered *)
  pok_store A cs p A' cs' : pok A cs p → rel A' cs' →
    (∀ a x, is_Some (a_reg x) → A' !! a = Some x ↔ A !! a = Some x) →
    (∀ a x c, A !! a = Some x → is_Some (a_reg x) → cs' !! a = Some c ↔ cs !! a = Some c) →
    pok A' cs' p;
  pok_update A cs p a x c ev : pok A cs p → A !! a = Some x → cs !! a = Some c →
    0 <= ev < 2 ^ 15 → ev ≠ 0 ∨ a_reg x = Some true → fd_free A a (a_fd x) →
    ∃ cs' p', p_update (with_events cs a c ev) p a = Ok (cs', p')
      ∧ pok (<[a := mkA (a_fd x) ev (Some (negb (ev =? 0)))]> A) cs' p';
  pok_remove A cs p a x c : pok A cs p → A !! a = Some x → cs !! a = Some c →
    a_reg x = Some false → a_ev x = 0 →
    ∃ cs' p', p_remove (with_removed cs a c) p a = Ok (cs', p')
      ∧ pok (delete a A) cs' p' }.

(** The map from descriptors holds the registered channels. *)
Definition ch_ok (A : astate) (chs : ChannelMap) : Prop :=
  ∀ fd a, chs !! fd = Some a ↔ ∃ x, A !! a = Some x ∧ a_fd x = fd ∧ is_Some (a_reg x).

Lemma rel_set A cs a x ev reg c2 :
  rel A cs → A !! a = Some x → 0 <= ev < 2 ^ 15 →
  fd_ c2 = a_fd x → events_ c2 = ev → addedToLoop_ c2 = bool_decide (is_Some reg) →
  (reg = None → index_ c2 = -1) →
  rel (<[a := mkA (a_fd x) ev reg]> A) (<[a := c2]> cs).
Proof.
  intros H1 HA Hev E1 E2 E3 E4 b y. rewrite lookup_insert_Some. intros [[<- <-]|[Hne Hy]].
  - exists c2. rewrite lookup_insert_eq. simpl. destruct (H1 a x HA) as (_ & _ & _ & _ & _ & _ & ? & _).
    split_and!; try done; lia.
  - rewrite lookup_insert_ne by done. by apply H1.
Qed.

(** Forgetting a channel, whatever is stored for it. *)
Lemma rel_del A cs cs' a : rel A cs → (∀ b, b ≠ a → cs' !! b = cs !! b) → rel (delete a A) cs'.
Proof.
  intros H1 Hcs b y. rewrite lookup_delete_Some. intros [Hne Hy]. rewrite Hcs by done. by apply H1.
Qed.

Lemma ch_set A chs chs' a x ev w :
  ch_ok A chs → A !! a = Some x → fd_free A a (a_fd x) →
  (∀ fd, chs' !! fd = if decide (fd = a_fd x) then Some a else chs !! fd) →
  ch_ok (<[a := mkA (a_fd x) ev (Some w)]> A) chs'.
Proof.
  intros Hch HA Hfree Hch' fd b. rewrite Hch'. destruct (decide (fd = a_fd x)) as [->|Hfd].
  - split; [intros [= <-]; eexists; by rewrite lookup_insert_eq|].
    intros (y & Hy & Ey & Hr). rewrite lookup_insert_Some in Hy. destruct Hy as [[<- _]|[Hne Hy]]; [done|].
    f_equal. symmetry. by eapply Hfree.
  - rewrite (Hch fd b). split; intros (y & Hy & Ey & Hr).
    + exists y. rewrite lookup_insert_ne; [done|]. intros <-. congruence.
    + rewrite lookup_insert_Some in Hy. destruct Hy as [[<- <-]|[Hne Hy]]; [done|]. eauto.
Qed.

Lemma ch_unique A chs a b x y : ch_ok A chs → A !! a = Some x → A !! b = Some y →
  a_fd x = a_fd y → is_Some (a_reg x) → is_Some (a_reg y) → a = b.
Proof.
  intros Hch Hx Hy E Hrx Hry.
  assert (chs !! a_fd x = Some a) by (apply Hch; eauto).
  assert (chs !! a_fd x = Some b) by (apply Hch; rewrite E; eauto). congruence.
Qed.

Lemma ch_del A chs a x :
  ch_ok A chs → A !! a = Some x → is_Some (a_reg x) → ch_ok (delete a A) (delete (a_fd x) chs).
Proof.
  intros Hch HA Hr fd b. rewrite lookup_delete_Some, (Hch fd b). split.
  - intros (Hne & y & Hy & Ey & Hry). exists y. rewrite lookup_delete_ne; [done|]. intros <-. congruence.
  - intros (y & [Hne Hy]%lookup_delete_Some & Ey & Hry). split; [|eauto].
    intros E. destruct Hne. by eapply (ch_unique A chs a b x y); try done; congruence.
Qed.

(** ** epoll meets it *)

Module EPollOk.
Import EPollPoller.

Record ok (A : astate) (cs : store) (p : EPoll) : Prop := {
  e_rel : rel A cs;
  e_ch : ch_ok A (channels_ p);
  e_ker : ∀ fd ev a, kernel p !! fd = Some (ev, a) ↔ awatched A fd ev a;
  e_idx : ∀ a x c w, A !! a = Some x → cs !! a = Some c → a_reg x = Some w →
    index_ c = if w : bool then kAdded else kDeleted }.

(** The common result of the three branches of [updateChannel]. *)
Lemma ok_set A cs p a x ev c2 p' : ok A cs p → A !! a = Some x → 0 <= ev < 2 ^ 15 →
  fd_free A a (a_fd x) →
  fd_ c2 = a_fd x → events_ c2 = ev → addedToLoop_ c2 = true →
  index_ c2 = (if ev =? 0 then kDeleted else kAdded) →
  (∀ fd, channels_ p' !! fd = if decide (fd = a_fd x) then Some a else channels_ p !! fd) →
  (∀ fd, kernel p' !! fd = if decide (fd = a_fd x)
                           then (if ev =? 0 then None else Some (ev, a)) else kernel p !! fd) →
  ok (<[a := mkA (a_fd x) ev (Some (negb (ev =? 0)))]> A) (<[a := c2]> cs) p'.
Proof.
  intros [Hrel Hch Hker Hidx] HA Hev Hfree E1 E2 E3 E4 Hch' Hker'. split.
  - by apply rel_set.
  - by eapply ch_set.
  - intros fd ev' b. rewrite Hker'. unfold awatched. destruct (decide (fd = a_fd x)) as [->|Hfd].
    + split.
      * destruct (Z.eqb_spec ev 0); [done|]. intros [= <- <-]. eexists. rewrite lookup_insert_eq. split; [done|].
        simpl. done.
      * intros (y & Hy & Ey & Eev & Hr). rewrite lookup_insert_Some in Hy. destruct Hy as [[<- <-]|[Hne Hy]].
        -- simpl in *. destruct (Z.eqb_spec ev 0); [done|]. by subst.
        -- destruct Hne. symmetry. eapply Hfree; [exact Hy|done|rewrite Hr; eauto].
    + rewrite Hker. split; intros (y & Hy & Ey & Eev & Hr).
      * exists y. rewrite lookup_insert_ne; [done|]. intros <-. congruence.
      * rewrite lookup_insert_Some in Hy. destruct Hy as [[<- <-]|[Hne Hy]]; [done|]. exists y. done.
  - intros b y d w. rewrite !lookup_insert_Some. intros [[<- <-]|[Hne Hy]] [[Hab <-]|[Hne' Hd]] Hr; try done.
    + simpl in Hr. rewrite E4. injection Hr as <-. by destruct (ev =? 0).
    + by eapply Hidx.
Qed.

Lemma epoll_update_channel A cs p a x c ev : ok A cs p → A !! a = Some x → cs !! a = Some c →
  0 <= ev < 2 ^ 15 → ev ≠ 0 ∨ a_reg x = Some true → fd_free A a (a_fd x) →
  ∃ cs' p', updateChannel (with_events cs a c ev) p a = Ok (cs', p')
    ∧ ok (<[a := mkA (a_fd x) ev (Some (negb (ev =? 0)))]> A) cs' p'.
Proof.
  intros Hok HA Hc Hev Hne Hfree. pose proof Hok as [Hrel Hch Hker Hidx].
  destruct (Hrel a x HA) as (c' & Hc' & Hfd & Hevc & Hadd & Hnew & Hfd0 & _). simplify_eq.
  unfold updateChannel, with_events, chan. rewrite lookup_insert_eq. simpl. rewrite Hfd.
  assert (∀ b ev', kernel p !! a_fd x = Some (ev', b) → b = a ∧ a_reg x = Some true) as Hk.
  { intros b ev' (y & Hy & Ey & _ & Hr)%Hker. assert (b = a) as -> by (eapply Hfree; [done..|by rewrite Hr]).
    by simplify_eq. }
  assert (is_Some (a_reg x) → channels_ p !! a_fd x = Some a) as Hreg by (intros; apply Hch; eauto).
  destruct (a_reg x) as [[]|] eqn:Er.
  - rewrite (Hidx a x c true HA Hc Er). simpl. rewrite bool_decide_eq_true_2 by (apply Hreg; eauto). simpl.
    assert (is_Some (kernel p !! a_fd x)) as [v Hv].
    { exists (a_ev x, a). apply Hker. by exists x. }
    unfold isNoneEvent, kNoneEvent. simpl. destruct (Z.eqb_spec ev 0) as [->|He].
    + unfold update. simpl. rewrite Hfd, Hv. simpl. eexists _, _. split; [done|].
      rewrite insert_insert_eq. eapply (ok_set A cs p a x 0); try done; simpl.
      * intros fd. case_decide; [subst; apply Hreg; eauto|done].
      * intros fd. case_decide; [subst; apply lookup_delete_eq|by rewrite lookup_delete_ne].
    + unfold update. simpl. rewrite Hfd, Hv. simpl. eexists _, _. split; [done|].
      apply Z.eqb_neq in He. replace (Some true) with (Some (negb (ev =? 0))) by (by rewrite He).
      eapply (ok_set A cs p a x ev); try done; simpl; rewrite ?He; try done.
      * by rewrite (Hidx a x c true HA Hc Er).
      * intros fd. case_decide; [subst; apply Hreg; eauto|done].
      * intros fd. case_decide; [subst; apply lookup_insert_eq|by rewrite lookup_insert_ne].
  - destruct Hne as [He|]; [|done]. rewrite (Hidx a x c false HA Hc Er). simpl.
    rewrite bool_decide_eq_true_2 by (apply Hreg; eauto). simpl. unfold update. simpl. rewrite Hfd.
    destruct (kernel p !! a_fd x) as [[ev' b]|] eqn:Hv; [by destruct (Hk _ _ eq_refl)|]. simpl.
    eexists _, _. split; [done|]. rewrite insert_insert_eq. apply Z.eqb_neq in He.
    eapply (ok_set A cs p a x ev); try done; simpl; rewrite ?He; try done.
    + intros fd. case_decide; [subst; apply Hreg; eauto|done].
    + intros fd. case_decide; [subst; apply lookup_insert_eq|by rewrite lookup_insert_ne].
  - destruct Hne as [He|]; [|done]. rewrite (Hnew eq_refl). simpl.
    assert (channels_ p !! a_fd x = None) as Hnone.
    { destruct (channels_ p !! a_fd x) as [b|] eqn:Eb; [|done].
      apply Hch in Eb as (y & Hy & Ey & Hr). assert (b = a) as -> by (by eapply Hfree).
      simplify_eq. rewrite Er in Hr. by destruct Hr. }
    rewrite bool_decide_eq_true_2 by done. simpl. unfold update. simpl. rewrite Hfd.
    destruct (kernel p !! a_fd x) as [[ev' b]|] eqn:Hv; [by destruct (Hk _ _ eq_refl)|]. simpl.
    eexists _, _. split; [done|]. rewrite insert_insert_eq. apply Z.eqb_neq in He.
    eapply (ok_set A cs p a x ev); try done; simpl; rewrite ?He; try done;
      intros fd; (case_decide; [subst; apply lookup_insert_eq|by rewrite lookup_insert_ne]).
Qed.

Lemma epoll_remove_channel A cs p a x c : ok A cs p → A !! a = Some x → cs !! a = Some c →
  a_reg x = Some false → a_ev x = 0 →
  ∃ cs' p', removeChannel (with_removed cs a c) p a = Ok (cs', p') ∧ ok (delete a A) cs' p'.
Proof.
  intros Hok HA Hc Hr Hev. pose proof Hok as [Hrel Hch Hker Hidx].
  destruct (Hrel a x HA) as (c' & Hc' & Hfd & Hevc & Hadd & Hnew & Hfd0 & _). simplify_eq.
  unfold removeChannel, with_removed, chan. rewrite lookup_insert_eq. simpl. rewrite Hfd.
  rewrite bool_decide_eq_true_2 by (apply Hch; exists x; rewrite Hr; eauto). simpl.
  unfold isNoneEvent. simpl. rewrite Hevc, Hev. simpl. rewrite (Hidx a x c false HA Hc Hr). simpl.
  eexists _, _. split; [done|]. rewrite insert_insert_eq.
  split; simpl.
  - eapply rel_del; [done|]. intros b Hb. by rewrite lookup_insert_ne.
  - apply ch_del; [done..|by rewrite Hr].
  - intros fd ev b. rewrite Hker. unfold awatched. split; intros (y & Hy & Ey & Eev & Hry); exists y.
    + rewrite lookup_delete_ne; [done|]. intros <-. congruence.
    + by apply lookup_delete_Some in Hy as [_ Hy].
  - intros b y d w [Hne Hy]%lookup_delete_Some. rewrite lookup_insert_ne by done. by apply Hidx.
Qed.

Lemma epoll_store_change A cs p A' cs' : ok A cs p → rel A' cs' →
  (∀ a x, is_Some (a_reg x) → A' !! a = Some x ↔ A !! a = Some x) →
  (∀ a x c, A !! a = Some x → is_Some (a_reg x) → cs' !! a = Some c ↔ cs !! a = Some c) →
  ok A' cs' p.
Proof.
  intros [Hrel Hch Hker Hidx] Hrel' HA Hcs. split; [done| | |].
  - intros fd a. rewrite (Hch fd a). split; intros (x & Hx & ? & Hr); exists x; split_and!; try done; by apply HA.
  - intros fd ev a. rewrite Hker. unfold awatched.
    split; intros (x & Hx & ? & ? & Hr); exists x; split_and!; try done; apply HA; rewrite ?Hr; eauto.
  - intros a x c w Hx Hc Hr. apply HA in Hx; [|rewrite Hr; eauto].
    eapply Hidx; [done| |done]. eapply Hcs; [done|rewrite Hr; eauto|done].
Qed.

#[global, refine] Instance epoll_impl : PollerImpl EPoll := {|
  p_new := newEPoll; p_update := updateChannel; p_remove := removeChannel;
  watched p fd := kernel p !! fd; pok := ok |}.
Proof.
  - split; simpl.
    + intros a x; rewrite lookup_empty; done.
    + intros fd a. rewrite lookup_empty. split; [done|]. intros (x & Hx & _). by rewrite lookup_empty in Hx.
    + intros fd ev a. rewrite lookup_empty. split; [done|]. intros (x & Hx & _). by rewrite lookup_empty in Hx.
    + intros a x c w. by rewrite lookup_empty.
  - intros A cs p Hok. apply Hok.
  - intros A cs p fd ev a Hok. apply Hok.
  - apply epoll_store_change.
  - apply epoll_update_channel.
  - apply epoll_remove_channel.
Defined.
End EPollOk.

(** ** poll meets it *)

Module PollOk.
Import PollPoller.

Record ok (A : astate) (cs : store) (p : Poll) : Prop := {
  q_rel : rel A cs;
  q_ch : ch_ok A (channels_ p);
  q_idx : ∀ a x c w, A !! a = Some x → cs !! a = Some c → a_reg x = Some w →
    ∃ i r, index_ c = Z.of_nat i
           ∧ pollfds_ p !! i = Some (mkPollfd (if w : bool then a_fd x else - a_fd x - 1) (a_ev x) r);
  q_all : ∀ i f, pollfds_ p !! i = Some f →
    ∃ a x c w, A !! a = Some x ∧ cs !! a = Some c ∧ a_reg x = Some w ∧ index_ c = Z.of_nat i }.

Definition watched_fd (p : Poll) (fd : Z) : option (Z * Z) :=
  if fd <? 0 then None
  else match list_find (λ f, pfd_fd f = fd) (pollfds_ p) with
       | Some (_, f) => (λ a, (pfd_events f, a)) <$> channels_ p !! fd
       | None => None
       end.

(** Registered channels are determined by their index. *)
Lemma idx_unique A cs p a b x y c d : ok A cs p → A !! a = Some x → A !! b = Some y →
  cs !! a = Some c → cs !! b = Some d → is_Some (a_reg x) → is_Some (a_reg y) →
  index_ c = index_ d → a = b.
Proof.
  intros Hok Hx Hy Hc Hd [w Hw] [v Hv] E. pose proof Hok as [Hrel Hch Hidx Hall].
  destruct (Hidx a x c w Hx Hc Hw) as (i & r & Ei & Hi).
  destruct (Hidx b y d v Hy Hd Hv) as (j & r' & Ej & Hj).
  assert (i = j) as -> by lia. rewrite Hi in Hj. injection Hj as Efd _ _.
  destruct (Hrel a x Hx) as (_ & _ & _ & _ & _ & _ & ? & _).
  destruct (Hrel b y Hy) as (_ & _ & _ & _ & _ & _ & ? & _).
  eapply (ch_unique A (channels_ p) a b x y); try done. destruct w, v; lia.
Qed.

Lemma watched_spec A cs p fd ev a : ok A cs p →
  watched_fd p fd = Some (ev, a) ↔ awatched A fd ev a.
Proof.
  intros Hok. pose proof Hok as [Hrel Hch Hidx Hall]. unfold watched_fd, awatched.
  assert (∀ i f, pollfds_ p !! i = Some f → pfd_fd f = fd → 0 <= fd →
    ∃ b y, A !! b = Some y ∧ a_fd y = fd ∧ a_ev y = pfd_events f ∧ a_reg y = Some true) as Hent.
  { intros i f Hf Ef Hfd. destruct (Hall i f Hf) as (b & y & d & w & Hy & Hd & Hw & Ei).
    destruct (Hidx b y d w Hy Hd Hw) as (j & r & Ej & Hj). assert (j = i) as -> by lia.
    rewrite Hf in Hj. injection Hj as ->. simpl in *.
    destruct (Hrel b y Hy) as (_ & _ & _ & _ & _ & _ & ? & _).
    destruct w; [|lia]. exists b, y. done. }
  destruct (Z.ltb_spec fd 0) as [Hneg|Hpos].
  { split; [done|]. intros (x & Hx & <- & _). destruct (Hrel a x Hx) as (_ & _ & _ & _ & _ & _ & ? & _). lia. }
  destruct (list_find _ _) as [[i f]|] eqn:Hf.
  - apply list_find_Some in Hf as (Hi & Ef & _).
    destruct (Hent i f Hi Ef Hpos) as (b & y & Hy & Ey & Eev & Hr).
    assert (channels_ p !! fd = Some b) as -> by (apply Hch; exists y; rewrite Hr; eauto). simpl.
    split; [intros [= <- <-]; exists y; done|]. intros (x & Hx & Ex & Ex' & Hrx).
    assert (a = b) as -> by (eapply (ch_unique A (channels_ p)); try done; congruence).
    simplify_eq. congruence.
  - split; [done|]. intros (x & Hx & Ex & Ex' & Hr). apply list_find_None in Hf.
    destruct (Hrel a x Hx) as (c & Hc & _). destruct (Hidx a x c true Hx Hc Hr) as (i & r & _ & Hi).
    eapply Forall_lookup_1 in Hf; [|exact Hi]. simpl in Hf. done.
Qed.

Lemma poll_update_channel A cs p a x c ev : ok A cs p → A !! a = Some x → cs !! a = Some c →
  0 <= ev < 2 ^ 15 → ev ≠ 0 ∨ a_reg x = Some true → fd_free A a (a_fd x) →
  ∃ cs' p', updateChannel (with_events cs a c ev) p a = Ok (cs', p')
    ∧ ok (<[a := mkA (a_fd x) ev (Some (negb (ev =? 0)))]> A) cs' p'.
Proof.
  intros Hok HA Hc Hev Hne Hfree. pose proof Hok as [Hrel Hch Hidx Hall].
  destruct (Hrel a x HA) as (c' & Hc' & Hfd & Hevc & Hadd & Hnew & Hfd0 & _). simplify_eq.
  unfold updateChannel, with_events, chan. rewrite lookup_insert_eq. simpl. rewrite Hfd.
  rewrite (wraps_small 16) by lia.
  destruct (a_reg x) as [w|] eqn:Er.
  - destruct (Hidx a x c w HA Hc Er) as (i & r & Ei & Hi). rewrite Ei.
    rewrite (proj2 (Z.ltb_ge _ 0)) by lia.
    rewrite bool_decide_eq_true_2 by (apply Hch; exists x; rewrite Er; eauto). simpl.
    pose proof (lookup_lt_Some _ _ _ Hi) as Hlt.
    unfold index_ok, at_fd. rewrite (proj2 (Z.leb_le 0 _)), (proj2 (Z.ltb_lt _ _)) by (unfold zlen; lia).
    simpl. rewrite Nat2Z.id, Hi. simpl.
    assert (((if w then a_fd x else - a_fd x - 1) =? a_fd x)
            || ((if w then a_fd x else - a_fd x - 1) =? - a_fd x - 1) = true) as ->
      by (destruct w; rewrite Z.eqb_refl, ?orb_true_r; done).
    simpl. eexists _, _. split; [done|]. unfold isNoneEvent. simpl.
    set (f := mkPollfd _ _ _).
    assert (f = mkPollfd (if negb (ev =? 0) then a_fd x else - a_fd x - 1) ev 0) as ->.
    { subst f. unfold kNoneEvent. f_equal. by destruct (ev =? 0). }
    split; simpl.
    + apply rel_set; try done.
    + eapply ch_set; try done. intros fd. case_decide; [|done].
      subst. apply Hch. exists x. rewrite Er. eauto.
    + intros b y d v. rewrite !lookup_insert_Some. intros [[<- <-]|[Hne' Hy]] [[Hab <-]|[Hne'' Hd]] Hr; try done.
      * exists i, 0. simpl in *. injection Hr as <-. split; [done|]. by apply list_lookup_insert_eq.
      * destruct (Hidx b y d v Hy Hd Hr) as (j & r' & Ej & Hj). exists j, r'. split; [done|].
        rewrite list_lookup_insert_ne; [done|]. intros <-. destruct Hne'.
        eapply (idx_unique A cs p a b x y c d); try done; congruence.
    + intros j g Hg. destruct (decide (i = j)) as [<-|Hij].
      * exists a. eexists _, _, _. rewrite !lookup_insert_eq. done.
      * rewrite list_lookup_insert_ne in Hg by done. destruct (Hall j g Hg) as (b & y & d & v & Hy & Hd & Hv & Ej).
        assert (b ≠ a). { intros ->. simplify_eq. lia. }
        exists b, y, d, v. by rewrite !lookup_insert_ne by done.
  - destruct Hne as [He|]; [|done]. rewrite (Hnew eq_refl). simpl.
    assert (channels_ p !! a_fd x = None) as Hnone.
    { destruct (channels_ p !! a_fd x) as [b|] eqn:Eb; [|done].
      apply Hch in Eb as (y & Hy & Ey & Hr). assert (b = a) as -> by (by eapply Hfree).
      simplify_eq. rewrite Er in Hr. by destruct Hr. }
    rewrite bool_decide_eq_true_2 by done. simpl. eexists _, _. split; [done|]. rewrite insert_insert_eq.
    apply Z.eqb_neq in He. rewrite He. simpl. set (n := length (pollfds_ p)).
    assert (zlen (pollfds_ p ++ [mkPollfd (a_fd x) ev 0]) - 1 = Z.of_nat n) as ->
      by (unfold zlen; rewrite length_app; simpl; lia).
    assert ((pollfds_ p ++ [mkPollfd (a_fd x) ev 0]) !! n = Some (mkPollfd (a_fd x) ev 0)) as Hn
      by (apply list_lookup_middle; done).
    split; simpl.
    + apply rel_set; try done.
    + eapply ch_set; try done. intros fd. case_decide; [subst; apply lookup_insert_eq|by rewrite lookup_insert_ne].
    + intros b y d v. rewrite !lookup_insert_Some. intros [[<- <-]|[Hne' Hy]] [[Hab <-]|[Hne'' Hd]] Hr; try done.
      * exists n, 0. simpl in *. by injection Hr as <-.
      * destruct (Hidx b y d v Hy Hd Hr) as (j & r' & Ej & Hj). exists j, r'. split; [done|].
        rewrite lookup_app_l; [done|]. by eapply lookup_lt_Some.
    + intros j g Hg. destruct (decide (j = n)) as [->|Hij].
      * exists a. eexists _, _, _. rewrite !lookup_insert_eq. done.
      * rewrite lookup_app_l in Hg.
        2:{ apply lookup_lt_Some in Hg. rewrite length_app in Hg. simpl in Hg. lia. }
        destruct (Hall j g Hg) as (b & y & d & v & Hy & Hd & Hv & Ej).
        assert (b ≠ a). { intros ->. simplify_eq. }
        exists b, y, d, v. by rewrite !lookup_insert_ne by done.
Qed.

Lemma lookup_pop {B} (l : list B) i : pop l !! i = if decide (i < length l - 1)%nat then l !! i else None.
Proof.
  unfold pop. case_decide; [by apply lookup_take_lt|]. apply lookup_take_ge. lia.
Qed.

(** Moving the last entry into the removed one's place. *)
Lemma swap_removed A cs p a x c b y d v i r' :
  ok A cs p → A !! a = Some x → cs !! a = Some c → is_Some (a_reg x) → index_ c = Z.of_nat i →
  A !! b = Some y → cs !! b = Some d → a_reg y = Some v → a ≠ b →
  index_ d = Z.of_nat (length (pollfds_ p) - 1) → (i < length (pollfds_ p) - 1)%nat →
  ch_ok (delete a A) (delete (a_fd x) (channels_ p)) →
  let g := mkPollfd (if v then a_fd y else - a_fd y - 1) (a_ev y) r' in
  ok (delete a A) (<[b := setIndex (Z.of_nat i) d]> (<[a := setAdded false c]> cs))
     (mkPoll (delete (a_fd x) (channels_ p)) (pop (<[i := g]> (pollfds_ p)))).
Proof.
  intros Hok HA Hc Hr Ei Hy Hd Hv Hab Ed Hin Hch'. pose proof Hok as [Hrel Hch Hidx Hall].
  simpl. set (n := (length (pollfds_ p) - 1)%nat) in *.
  assert (∀ j, pop (<[i := mkPollfd (if v then a_fd y else - a_fd y - 1) (a_ev y) r']> (pollfds_ p)) !! j
    = if decide (j = i) then Some (mkPollfd (if v then a_fd y else - a_fd y - 1) (a_ev y) r')
      else if decide (j < n)%nat then pollfds_ p !! j else None) as Hlk.
  { intros j. rewrite lookup_pop, length_insert. fold n. destruct (decide (j = i)) as [->|Hji].
    - rewrite decide_True by done. apply list_lookup_insert_eq. lia.
    - by rewrite list_lookup_insert_ne by done. }
  split; simpl; [|done| |].
  - intros e z. rewrite lookup_delete_Some. intros [Hne Hz]. destruct (decide (e = b)) as [->|Heb].
    + rewrite lookup_insert_eq. destruct (Hrel b y Hy) as (d' & Hd' & ? & ? & ? & ? & ? & ?). simplify_eq.
      eexists. split; [done|]. simpl. split_and!; try done; try lia; congruence.
    + rewrite !lookup_insert_ne by done. by apply Hrel.
  - intros e z k w [Hne Hz]%lookup_delete_Some Hk Hw. rewrite lookup_insert_Some in Hk.
    destruct Hk as [[<- <-]|[Hbe Hk]].
    + simplify_eq. exists i, r'. simpl. split; [done|]. rewrite Hlk, decide_True by done. done.
    + rewrite lookup_insert_ne in Hk by done. destruct (Hidx e z k w Hz Hk Hw) as (j & r & Ej & Hj).
      exists j, r. split; [done|]. pose proof (lookup_lt_Some _ _ _ Hj). rewrite Hlk.
      rewrite decide_False, decide_True; [done| |].
      * assert (j ≠ n); [|lia]. intros ->. destruct Hbe.
        eapply (idx_unique A cs p b e y z d k); try done; congruence.
      * intros ->. destruct Hne. eapply (idx_unique A cs p a e x z c k); try done; congruence.
  - intros j f. rewrite Hlk. destruct (decide (j = i)) as [->|Hji].
    + intros _. exists b, y. eexists _, v. rewrite lookup_delete_ne, lookup_insert_eq by done. done.
    + case_decide; [|done]. intros Hf. destruct (Hall j f Hf) as (e & z & k & w & Hz & Hk & Hw & Ej).
      assert (a ≠ e) by (intros <-; simplify_eq; lia). assert (b ≠ e) by (intros <-; simplify_eq; lia).
      exists e, z, k, w. by rewrite lookup_delete_ne, !lookup_insert_ne by done.
Qed.

Lemma poll_remove_channel A cs p a x c : ok A cs p → A !! a = Some x → cs !! a = Some c →
  a_reg x = Some false → a_ev x = 0 →
  ∃ cs' p', removeChannel (with_removed cs a c) p a = Ok (cs', p') ∧ ok (delete a A) cs' p'.
Proof.
  intros Hok HA Hc Hr Hev. pose proof Hok as [Hrel Hch Hidx Hall].
  destruct (Hrel a x HA) as (c' & Hc' & Hfd & Hevc & Hadd & Hnew & Hfd0 & _). simplify_eq.
  destruct (Hidx a x c false HA Hc Hr) as (i & r & Ei & Hi). pose proof (lookup_lt_Some _ _ _ Hi) as Hlt.
  unfold removeChannel, with_removed, chan. rewrite lookup_insert_eq. simpl. rewrite Hfd, Ei.
  rewrite bool_decide_eq_true_2 by (apply Hch; exists x; rewrite Hr; eauto). simpl.
  unfold isNoneEvent. simpl. rewrite Hevc, Hev. simpl.
  unfold index_ok, at_fd. rewrite (proj2 (Z.leb_le 0 _)), (proj2 (Z.ltb_lt _ _)) by (unfold zlen; lia).
  simpl. rewrite Nat2Z.id, Hi. simpl. rewrite Hev, !Z.eqb_refl. simpl.
  pose proof (ch_del A (channels_ p) a x Hch HA ltac:(rewrite Hr; eauto)) as Hch'.
  destruct (Z.eqb_spec (Z.of_nat i) (zlen (pollfds_ p) - 1)) as [Elast|Elast]; unfold zlen in Elast.
  - eexists _, _. split; [done|]. split; simpl; [|done| |].
    + eapply rel_del; [done|]. intros b Hb. by rewrite lookup_insert_ne.
    + intros b y d w [Hne Hy]%lookup_delete_Some. rewrite lookup_insert_ne by done. intros Hd Hw.
      destruct (Hidx b y d w Hy Hd Hw) as (j & r' & Ej & Hj). exists j, r'. split; [done|].
      rewrite lookup_pop, decide_True; [done|]. pose proof (lookup_lt_Some _ _ _ Hj).
      assert (j ≠ i); [|lia]. intros ->. destruct Hne.
      eapply (idx_unique A cs p a b x y c d); try done. congruence.
    + intros j f. rewrite lookup_pop. case_decide; [|done]. intros Hf.
      destruct (Hall j f Hf) as (b & y & d & w & Hy & Hd & Hw & Ej).
      assert (a ≠ b) by (intros <-; simplify_eq; lia). exists b, y, d, w.
      by rewrite lookup_delete_ne, lookup_insert_ne by done.
  - replace (Z.to_nat (zlen (pollfds_ p) - 1)) with (length (pollfds_ p) - 1)%nat by (unfold zlen; lia).
    set (n := (length (pollfds_ p) - 1)%nat). assert (i < n)%nat as Hin by lia.
    destruct (lookup_lt_is_Some_2 (pollfds_ p) n) as [g Hg]; [lia|]. rewrite Hg. simpl.
    destruct (Hall n g Hg) as (b & y & d & v & Hy & Hd & Hv & Ej).
    destruct (Hidx b y d v Hy Hd Hv) as (j & r' & Ej' & Hj). assert (j = n) as -> by lia.
    rewrite Hg in Hj. injection Hj as ->. simpl.
    assert (a ≠ b) as Hab by (intros <-; simplify_eq; lia).
    destruct (Hrel b y Hy) as (_ & _ & _ & _ & _ & _ & Hfdy & _).
    assert ((if (if v then a_fd y else - a_fd y - 1) <? 0 then - (if v then a_fd y else - a_fd y - 1) - 1
             else if v then a_fd y else - a_fd y - 1) = a_fd y) as ->.
    { destruct v; [rewrite (proj2 (Z.ltb_ge _ _)) by lia|rewrite (proj2 (Z.ltb_lt _ _)) by lia]; lia. }
    assert (delete (a_fd x) (channels_ p) !! a_fd y = Some b) as ->.
    { apply Hch'. exists y. rewrite lookup_delete_ne by done. rewrite Hv. eauto. }
    simpl. unfold chan. rewrite lookup_insert_ne, Hd by done. simpl.
    eexists _, _. split; [done|]. by eapply swap_removed.
Qed.

Lemma poll_store_change A cs p A' cs' : ok A cs p → rel A' cs' →
  (∀ a x, is_Some (a_reg x) → A' !! a = Some x ↔ A !! a = Some x) →
  (∀ a x c, A !! a = Some x → is_Some (a_reg x) → cs' !! a = Some c ↔ cs !! a = Some c) →
  ok A' cs' p.
Proof.
  intros [Hrel Hch Hidx Hall] Hrel' HA Hcs. split; [done| | |].
  - intros fd a. rewrite (Hch fd a). split; intros (x & Hx & ? & Hr); exists x; split_and!; try done; by apply HA.
  - intros a x c w Hx Hc Hr. apply HA in Hx; [|rewrite Hr; eauto].
    eapply Hidx; [done| |done]. eapply Hcs; [done|rewrite Hr; eauto|done].
  - intros i f Hf. destruct (Hall i f Hf) as (a & x & c & w & Hx & Hc & Hr & Ei). exists a, x, c, w.
    split_and!; try done; [apply HA; [rewrite Hr; eauto|done]|eapply Hcs; [done|rewrite Hr; eauto|done]].
Qed.

#[global, refine] Instance poll_impl : PollerImpl Poll := {|
  p_new := newPoll; p_update := updateChannel; p_remove := removeChannel;
  watched := watched_fd; pok := ok |}.
Proof.
  - split; simpl.
    + intros a x; rewrite lookup_empty; done.
    + intros fd a. rewrite lookup_empty. split; [done|]. intros (x & Hx & _). by rewrite lookup_empty in Hx.
    + intros a x c w. by rewrite lookup_empty.
    + intros i f. by rewrite lookup_nil.
  - intros A cs p Hok. apply Hok.
  - intros A cs p fd ev a Hok. by eapply watched_spec.
  - apply poll_store_change.
  - apply poll_update_channel.
  - apply poll_remove_channel.
Defined.
End PollOk.

(** ** Clients *)

(** What the owners of channels do. *)
Inductive cop : Type :=
| CNew (a fd : Z)
| CEnableReading (a : Z) | CDisableReading (a : Z)
| CEnableWriting (a : Z) | CDisableWriting (a : Z) | CDisableAll (a : Z)
| CRemove (a : Z).

(** The new event mask of an operation on a mask. *)
Definition mask_op (o : cop) (ev : Z) : Z :=
  match o with
  | CEnableReading _ => Z.lor ev kReadEvent
  | CDisableReading _ => Z.land ev (Z.lnot kReadEvent)
  | CEnableWriting _ => Z.lor ev kWriteEvent
  | CDisableWriting _ => Z.land ev (Z.lnot kWriteEvent)
  | _ => kNoneEvent
  end.

(** The operation's effect on the channel itself. *)
Definition chan_op (o : cop) (c : Channel) : Channel :=
  match o with
  | CEnableReading _ => enableReading c
  | CDisableReading _ => disableReading c
  | CEnableWriting _ => enableWriting c
  | CDisableWriting _ => disableWriting c
  | _ => disableAll c
  end.

Definition op_addr (o : cop) : Z :=
  match o with
  | CNew a _ | CEnableReading a | CDisableReading a | CEnableWriting a | CDisableWriting a
  | CDisableAll a | CRemove a => a
  end.

Section client.
Context `{PollerImpl P}.

(** [Channel::update] and [Channel::remove] through the poller. *)
Definition update (cs : store) (p : P) (a : Z) (c : Channel) : res (store * P) :=
  p_update (<[a := setAdded true c]> cs) p a.
Definition remove (cs : store) (p : P) (a : Z) (c : Channel) : res (store * P) :=
  assertb (isNoneEvent c);; p_remove (<[a := setAdded false c]> cs) p a.

Definition step (s : store * P) (o : cop) : res (store * P) :=
  let '(cs, p) := s in
  match o with
  | CNew a fd => Ok (<[a := newChannel fd]> cs, p)
  | CRemove a => c ← chan cs a; remove cs p a c
  | _ => let a := op_addr o in c ← chan cs a; update cs p a (chan_op o c)
  end.

Fixpoint run (s : store * P) (l : list cop) : res (store * P) :=
  match l with
  | [] => Ok s
  | o :: l => s ← step s o; run s l
  end.
End client.

(** The protocol: a channel is registered by its first nonempty interest, under a
    descriptor no other registered channel has; it is silenced at most once in a
    row, and removed when silent. *)
Definition spec_step (A : astate) (o : cop) : option astate :=
  match o with
  | CNew a fd =>
      if decide (A !! a = None ∧ 0 <= fd) then Some (<[a := mkA fd 0 None]> A) else None
  | CRemove a =>
      x ← A !! a;
      if decide (a_reg x = Some false ∧ a_ev x = 0) then Some (delete a A) else None
  | _ =>
      let a := op_addr o in
      x ← A !! a;
      let ev := mask_op o (a_ev x) in
      if decide ((ev ≠ 0 ∨ a_reg x = Some true)
                 ∧ map_Forall (λ b y, a_fd y = a_fd x → is_Some (a_reg y) → b = a) A)
      then Some (<[a := mkA (a_fd x) ev (Some (negb (ev =? 0)))]> A) else None
  end.

Fixpoint spec_run (A : astate) (l : list cop) : option astate :=
  match l with
  | [] => Some A
  | o :: l => A ← spec_step A o; spec_run A l
  end.

Lemma mask_range o ev : 0 <= ev < 2 ^ 15 → 0 <= mask_op o ev < 2 ^ 15.
Proof.
  intros Hev. assert (∀ m, 0 <= m < 2 ^ 15 → 0 <= Z.lor ev m < 2 ^ 15) as Hor.
  { intros m Hm. split; [apply Z.lor_nonneg; lia|].
    destruct (Z.eq_dec (Z.lor ev m) 0) as [->|Hne]; [lia|].
    apply Z.log2_lt_pow2; [pose proof (proj2 (Z.lor_nonneg ev m)); lia|].
    rewrite Z.log2_lor by lia. apply Z.max_lub_lt.
    - destruct (Z.eq_dec ev 0) as [->|]; [done|]. apply Z.log2_lt_pow2; lia.
    - destruct (Z.eq_dec m 0) as [->|]; [done|]. apply Z.log2_lt_pow2; lia. }
  assert (∀ m, 0 <= Z.land ev m < 2 ^ 15) as Hand.
  { intros m. split; [apply Z.land_nonneg; lia|].
    assert (Z.land ev m = Z.land ev m mod 2 ^ 15) as ->; [|apply Z.mod_pos_bound; lia].
    rewrite <-Z.land_ones, <-Z.land_assoc, (Z.land_comm m), Z.land_assoc, Z.land_ones by lia.
    by rewrite Z.mod_small by lia. }
  destruct o; simpl; auto; try (unfold kNoneEvent; lia); apply Hor; vm_compute; split; congruence.
Qed.

Lemma step_refines `{PollerImpl P} A cs p o A' :
  pok A cs p → spec_step A o = Some A' → ∃ cs' p', step (cs, p) o = Ok (cs', p') ∧ pok A' cs' p'.
Proof.
  intros Hok Hs. pose proof (pok_rel A cs p Hok) as Hrel.
  assert (∀ a, o ≠ CRemove a ∧ (∀ fd, o ≠ CNew a fd) → op_addr o = a →
    ∃ cs' p', (c ← chan cs a; update cs p a (chan_op o c)) = Ok (cs', p') ∧ pok A' cs' p') as Hmask.
  { intros a Ho Ea. assert (spec_step A o = (x ← A !! a;
      let ev := mask_op o (a_ev x) in
      if decide ((ev ≠ 0 ∨ a_reg x = Some true)
                 ∧ map_Forall (λ b y, a_fd y = a_fd x → is_Some (a_reg y) → b = a) A)
      then Some (<[a := mkA (a_fd x) ev (Some (negb (ev =? 0)))]> A) else None)) as E.
    { destruct o; simpl in Ea; subst; try done; by destruct Ho as [? Ho]; try destruct (Ho _ eq_refl). }
    rewrite Hs in E. destruct (A !! a) as [x|] eqn:Hx; simpl in E; [|done].
    case_decide as Hd; [|done]. destruct Hd as [Hne Hfree]. injection E as ->.
    destruct (Hrel a x Hx) as (c & Hc & Hfd & Hev & _ & _ & _ & Hr). unfold chan. rewrite Hc. simpl.
    destruct (pok_update A cs p a x c (mask_op o (a_ev x)) Hok Hx Hc) as (cs' & p' & E' & Hok'); try done.
    { by apply mask_range. }
    exists cs', p'. split; [|done]. rewrite <-E', <-Hev. unfold update, with_events. do 2 f_equal.
    destruct o; simpl in *; try done; by destruct Ho as [? Ho]; try destruct (Ho _ eq_refl). }
  destruct o as [a fd|a|a|a|a|a|a]; try (apply Hmask; done); simpl in *.
  - case_decide as Hd; [|done]. destruct Hd as [Hn Hfd]. injection Hs as <-. eexists _, _. split; [done|].
    eapply pok_store; [exact Hok| | |].
    + intros b y. rewrite lookup_insert_Some. intros [[<- <-]|[Hne Hy]].
      * eexists. rewrite lookup_insert_eq. split; [done|]. simpl. split_and!; done.
      * rewrite lookup_insert_ne by done. by apply Hrel.
    + intros b y Hr. rewrite lookup_insert_Some. split; [|intros Hy; right; split; [congruence|done]].
      intros [[<- <-]|[_ Hy]]; [by destruct Hr|done].
    + intros b y c Hy Hr. rewrite lookup_insert_ne; [done|]. congruence.
  - destruct (A !! a) as [x|] eqn:Hx; simpl in Hs; [|done]. case_decide as Hd; [|done].
    destruct Hd as [Hr Hev]. injection Hs as <-.
    destruct (Hrel a x Hx) as (c & Hc & Hfd & Hevc & _). unfold chan. rewrite Hc. simpl.
    unfold remove, isNoneEvent. rewrite Hevc, Hev. simpl.
    by apply (pok_remove A cs p a x c).
Qed.

Lemma run_refines `{PollerImpl P} A cs p l A' :
  pok A cs p → spec_run A l = Some A' → ∃ cs' p', run (cs, p) l = Ok (cs', p') ∧ pok A' cs' p'.
Proof.
  revert A cs p. induction l as [|o l IH]; intros A cs p Hok Hs; cbn [run spec_run] in *.
  { simplify_eq. eauto. }
  destruct (spec_step A o) as [A1|] eqn:E; simpl in Hs; [|done].
  destruct (step_refines A cs p o A1 Hok E) as (cs1 & p1 & -> & Hok1). simpl. by eapply IH.
Qed.

(** C8: The two pollers are interchangeable: any sequence of channel operations
    that keeps the protocol runs on the epoll and on the poll implementation
    without a failed assertion or a fatal error, and afterwards the kernel
    watches exactly the same descriptors, with the same event masks and
    channels, namely those the protocol says. *)
Theorem pollers_agree l A :
  spec_run ∅ l = Some A →
  ∃ cs1 p1 cs2 p2,
    run (∅, EPollPoller.newEPoll) l = Ok (cs1, p1)
    ∧ run (∅, PollPoller.newPoll) l = Ok (cs2, p2)
    ∧ (∀ fd ev a, EPollPoller.kernel p1 !! fd = Some (ev, a) ↔ awatched A fd ev a)
    ∧ (∀ fd, PollOk.watched_fd p2 fd = EPollPoller.kernel p1 !! fd).
Proof.
  intros Hs.
  destruct (run_refines (P := EPollPoller.EPoll) ∅ ∅ _ l A pok_new Hs) as (cs1 & p1 & E1 & Hok1).
  destruct (run_refines (P := PollPoller.Poll) ∅ ∅ _ l A pok_new Hs) as (cs2 & p2 & E2 & Hok2).
  exists cs1, p1, cs2, p2. split_and!; [done..| |].
  - intros fd ev a. apply (pok_watched A cs1 p1 fd ev a Hok1).
  - intros fd. apply option_eq. intros [ev a].
    rewrite (pok_watched A cs2 p2 fd ev a Hok2). symmetry. apply (pok_watched A cs1 p1 fd ev a Hok1).
Qed.

Definition sample_ops : list cop :=
  [CNew 100 5; CEnableReading 100; CNew 200 6; CEnableReading 200; CEnableWriting 200;
   CNew 300 7; CEnableWriting 300; CDisableAll 100; CRemove 100; CDisableWriting 200].

Lemma pollers_agree_witness :
  ∃ A, spec_run ∅ sample_ops = Some A ∧ awatched A 6 3 200 ∧ ¬ awatched A 5 0 100 ∧
  ∃ cs1 p1 cs2 p2,
    run (∅, EPollPoller.newEPoll) sample_ops = Ok (cs1, p1)
    ∧ run (∅, PollPoller.newPoll) sample_ops = Ok (cs2, p2)
    ∧ (∀ fd ev a, EPollPoller.kernel p1 !! fd = Some (ev, a) ↔ awatched A fd ev a)
    ∧ (∀ fd, PollOk.watched_fd p2 fd = EPollPoller.kernel p1 !! fd).
Proof.
  eexists. split; [vm_compute; reflexivity|]. split; [eexists; split; [reflexivity|done]|].
  split; [intros (x & Hx & _); discriminate Hx|].
  apply (pollers_agree sample_ops). vm_compute. reflexivity.
Defined.

(** Silencing a channel that was never enabled and then removing it, as the
    destructor of an acceptor that never listened does, works on epoll and fails
    an assertion on poll, whose first registration does not negate the
    descriptor of an empty interest. *)
Theorem unused_channel_removal a fd :
  0 <= fd →
  (∃ cs p, run (∅, EPollPoller.newEPoll) [CNew a fd; CDisableAll a; CRemove a] = Ok (cs, p)
           ∧ EPollPoller.kernel p = ∅ ∧ EPollPoller.channels_ p = ∅)
  ∧ run (∅, PollPoller.newPoll) [CNew a fd; CDisableAll a; CRemove a] = Err AssertFailed.
Proof.
  intros Hfd.
  assert (∀ cs c, chan (<[a := c]> cs) a = Ok c) as Hch
    by (intros; unfold chan; by rewrite lookup_insert_eq).
  split; cbn [run step op_addr mbind res_bind]; rewrite Hch; cbn [mbind res_bind];
    unfold update; rewrite insert_insert_eq; cbn [p_update EPollOk.epoll_impl PollOk.poll_impl].
  - unfold EPollPoller.updateChannel. rewrite Hch. simpl. unfold EPollPoller.update. simpl.
    rewrite !lookup_empty. simpl. rewrite (lookup_empty (A := Z * Z)). simpl. rewrite Hch. simpl.
    unfold remove. simpl. unfold EPollPoller.removeChannel. rewrite Hch. simpl.
    rewrite bool_decide_eq_true_2 by apply lookup_insert_eq. simpl.
    unfold EPollPoller.update. simpl. rewrite lookup_insert_eq. simpl.
    eexists _, _. split; [done|]. simpl. by rewrite !delete_insert_id.
  - unfold PollPoller.updateChannel. rewrite Hch. simpl. rewrite lookup_empty. simpl. rewrite Hch. simpl.
    unfold remove. simpl. unfold PollPoller.removeChannel. rewrite Hch. simpl.
    rewrite bool_decide_eq_true_2 by apply lookup_insert_eq. simpl.
    by rewrite (proj2 (Z.eqb_neq fd (- fd - 1))) by lia.
Qed.

Lemma unused_channel_removal_witness :
  (∃ cs p, run (∅, EPollPoller.newEPoll) [CNew 1 3; CDisableAll 1; CRemove 1] = Ok (cs, p)
           ∧ EPollPoller.kernel p = ∅ ∧ EPollPoller.channels_ p = ∅)
  ∧ run (∅, PollPoller.newPoll) [CNew 1 3; CDisableAll 1; CRemove 1] = Err AssertFailed.
Proof. apply (unused_channel_removal 1 3). lia. Defined.

(** ** Delivery of events *)

(** Storing the reported events in the channels. *)
Definition set_reported (cs : store) (evs : list (Z * Z)) : store :=
  foldl (λ cs x, match cs !! x.1 with Some c => <[x.1 := setRevents x.2 c]> cs | None => cs end) cs evs.

Lemma set_revents_rel A cs a c r : rel A cs → cs !! a = Some c → rel A (<[a := setRevents r c]> cs).
Proof.
  intros Hrel Hc b y Hy. destruct (Hrel b y Hy) as (d & Hd & H1).
  destruct (decide (a = b)) as [<-|Hne].
  - simplify_eq. exists (setRevents r c). by rewrite lookup_insert_eq.
  - exists d. by rewrite lookup_insert_ne.
Qed.

(** Delivery touches only [revents_]: each field of each channel but that one is
    kept, so whatever depends on the others is. *)
Lemma set_reported_lookup cs evs b :
  match cs !! b with
  | Some c => ∃ r, set_reported cs evs !! b = Some (setRevents r c)
  | None => set_reported cs evs !! b = None
  end.
Proof.
  revert cs. induction evs as [|[a r] evs IH]; intros cs; simpl.
  - destruct (cs !! b) as [c|] eqn:E; [|done]. exists (revents_ c). by destruct c.
  - specialize (IH (match cs !! a with Some c => <[a := setRevents r c]> cs | None => cs end)).
    destruct (cs !! a) as [c|] eqn:E; [|done].
    destruct (decide (a = b)) as [<-|Hne].
    + rewrite lookup_insert_eq in IH. rewrite E. destruct IH as [r' IH]. by exists r'.
    + by rewrite lookup_insert_ne in IH.
Qed.

Lemma epoll_fill A cs p evs :
  EPollOk.ok A cs p → (∀ a r, (a, r) ∈ evs → ∃ fd ev, awatched A fd ev a) →
  EPollPoller.fill cs p evs = Ok (set_reported cs evs, evs.*1).
Proof.
  intros [Hrel Hch _ _] Hevs.
  assert (rel A cs ∧ ch_ok A (EPollPoller.channels_ p)) as Hinv by done. clear Hrel Hch.
  revert cs Hevs Hinv. induction evs as [|[a r] evs IH]; intros cs Hevs [Hrel Hch]; [done|]. simpl.
  destruct (Hevs a r) as (fd & ev & x & Hx & Hfd & _ & Hr); [left|].
  destruct (Hrel a x Hx) as (c & Hc & Hfdc & _). unfold chan. rewrite Hc. simpl.
  rewrite bool_decide_eq_true_2 by (apply Hch; exists x; rewrite Hr; eauto). simpl.
  rewrite IH; [done| |split; [by apply set_revents_rel|done]].
  intros b r' Hb. apply (Hevs b r'). by right.
Qed.

(** What [::poll] reports of a registered entry: nothing for a negative
    descriptor. *)
Definition reported (ready : Z → Z) (f : PollPoller.pollfd) : Z :=
  if PollPoller.pfd_fd f <? 0 then 0 else ready (PollPoller.pfd_fd f).

(** The active entries of a list, by address. *)
Definition active_of (chs : ChannelMap) (ready : Z → Z) (l : list PollPoller.pollfd) : list (Z * Z) :=
  omap (λ f, if 0 <? reported ready f
             then (λ a, (a, reported ready f)) <$> chs !! PollPoller.pfd_fd f else None) l.

Lemma poll_fill chs ready l cs n :
  (∀ f, f ∈ l → 0 < reported ready f →
     ∃ a c, chs !! PollPoller.pfd_fd f = Some a ∧ cs !! a = Some c ∧ fd_ c = PollPoller.pfd_fd f) →
  zlen (filter (λ f, 0 < reported ready f) l) <= n →
  PollPoller.fill cs chs
    ((λ f, PollPoller.mkPollfd (PollPoller.pfd_fd f) (PollPoller.pfd_events f) (reported ready f)) <$> l) n
  = Ok (set_reported cs (active_of chs ready l), (active_of chs ready l).*1).
Proof.
  revert cs n. induction l as [|f l IH]; intros cs n Hl Hn; [done|]. simpl.
  unfold active_of. simpl. fold (active_of chs ready l).
  destruct (Z.ltb_spec 0 (reported ready f)) as [Hr|Hr].
  - destruct (Hl f) as (a & c & Ha & Hc & Hfd); [left|done|]. rewrite Ha. simpl.
    unfold chan. rewrite Hc. simpl. rewrite Hfd, Z.eqb_refl. simpl.
    rewrite filter_cons_True in Hn by done. rewrite zlen_cons in Hn.
    destruct (Z.leb_spec (n - 1) 0) as [Hz|Hz].
    + assert (filter (λ f, 0 < reported ready f) l = []) as Hnil.
      { apply zlen_zero_inv. zlen_lia. }
      assert (active_of chs ready l = []) as ->; [|done].
      clear -Hnil. induction l as [|g l IH]; [done|]. rewrite filter_cons in Hnil. case_decide; [done|].
      unfold active_of. simpl. rewrite (proj2 (Z.ltb_ge _ _)) by lia. by apply IH.
    + rewrite IH; [done| |lia]. intros g Hg Hrg. destruct (Hl g) as (b & d & Hb & Hd & Hfdd); [by right|done|].
      exists b. destruct (decide (a = b)) as [<-|Hne].
      * simplify_eq. exists (setRevents (reported ready f) c). by rewrite lookup_insert_eq.
      * exists d. by rewrite lookup_insert_ne.
  - rewrite filter_cons_False in Hn by lia. apply IH; [|done]. intros g Hg. apply Hl. by right.
Qed.

(** Entries and watched channels correspond. *)
Lemma poll_entries A cs p ready : PollOk.ok A cs p → (∀ fd, 0 <= ready fd) →
  (∀ f, f ∈ PollPoller.pollfds_ p → 0 < reported ready f →
     ∃ a c, PollPoller.channels_ p !! PollPoller.pfd_fd f = Some a ∧ cs !! a = Some c
            ∧ fd_ c = PollPoller.pfd_fd f)
  ∧ (∀ a r, (a, r) ∈ active_of (PollPoller.channels_ p) ready (PollPoller.pollfds_ p) ↔
       ∃ fd ev, awatched A fd ev a ∧ r = ready fd ∧ 0 < r).
Proof.
  intros Hok Hready. pose proof Hok as [Hrel Hch Hidx Hall].
  assert (∀ f, f ∈ PollPoller.pollfds_ p → 0 < reported ready f →
    ∃ a x, A !! a = Some x ∧ a_fd x = PollPoller.pfd_fd f ∧ a_reg x = Some true
           ∧ reported ready f = ready (a_fd x)) as Hf.
  { intros f [i Hi]%list_elem_of_lookup Hr. destruct (Hall i f Hi) as (a & x & c & w & Hx & Hc & Hw & Ei).
    destruct (Hidx a x c w Hx Hc Hw) as (j & r & Ej & Hj). assert (j = i) as -> by lia.
    rewrite Hi in Hj. injection Hj as ->. destruct (Hrel a x Hx) as (_ & _ & _ & _ & _ & _ & ? & _).
    unfold reported in *. simpl in *. destruct w; [|rewrite (proj2 (Z.ltb_lt _ _)) in Hr by lia; lia].
    exists a, x. by rewrite (proj2 (Z.ltb_ge _ _)) by lia. }
  split.
  - intros f Hin Hr. destruct (Hf f Hin Hr) as (a & x & Hx & Ex & Hw & _).
    destruct (Hrel a x Hx) as (c & Hc & Hfd & _). exists a, c. split_and!; [|done|congruence].
    apply Hch. exists x. rewrite Hw. eauto.
  - intros a r. unfold active_of. rewrite list_elem_of_omap. split.
    + intros (f & Hin & Hsome). destruct (Z.ltb_spec 0 (reported ready f)) as [Hr|]; [|done].
      destruct (Hf f Hin Hr) as (b & x & Hx & Ex & Hw & Er).
      assert (PollPoller.channels_ p !! PollPoller.pfd_fd f = Some b) as Hb
        by (apply Hch; exists x; rewrite Hw; eauto).
      rewrite Hb in Hsome. simpl in Hsome. simplify_eq. exists (a_fd x), (a_ev x). split; [by exists x|]. done.
    + intros (fd & ev & (x & Hx & Ex & _ & Hw) & -> & Hpos). destruct (Hrel a x Hx) as (c & Hc & _ & _ & _ & _ & H0 & _).
      destruct (Hidx a x c true Hx Hc Hw) as (i & r' & _ & Hi).
      eexists. split; [by eapply list_elem_of_lookup_2|]. unfold reported. simpl.
      rewrite (proj2 (Z.ltb_ge _ 0)) by lia. rewrite Ex, (proj2 (Z.ltb_lt _ _)) by done.
      assert (PollPoller.channels_ p !! fd = Some a) as -> by (apply Hch; exists x; rewrite Hw; eauto). done.
Qed.

(** C32: Delivery. For any entries the kernel may report (channels that are
    watched, at most as many as the event array holds), the epoll poller makes
    exactly those channels active, in that order, with the reported events, and
    grows the array when it was full. For any readiness of the descriptors, the
    poll poller makes active exactly the watched channels whose descriptor is
    ready, with its events. Neither changes anything else of a channel. *)
Theorem poll_delivers A cs cs2 p q ready evs :
  EPollOk.ok A cs p → PollOk.ok A cs2 q → (∀ fd, 0 <= ready fd) →
  (∀ a r, (a, r) ∈ evs → ∃ fd ev, awatched A fd ev a) → (length evs <= EPollPoller.nevents p)%nat →
  (∃ p', EPollPoller.poll cs p evs = Ok (set_reported cs evs, p', evs.*1)
         ∧ EPollPoller.kernel p' = EPollPoller.kernel p
         ∧ EPollPoller.channels_ p' = EPollPoller.channels_ p
         ∧ (0 < EPollPoller.nevents p → length evs < EPollPoller.nevents p')%nat)
  ∧ (∃ q' act, PollPoller.poll cs2 q (reported ready <$> PollPoller.pollfds_ q)
                 (zlen (filter (λ f, 0 < reported ready f) (PollPoller.pollfds_ q)))
               = Ok (set_reported cs2 act, q', act.*1)
         ∧ ∀ a r, (a, r) ∈ act ↔ ∃ fd ev, awatched A fd ev a ∧ r = ready fd ∧ 0 < r)
  ∧ (∀ s b c l, s !! b = Some c → ∃ r, set_reported s l !! b = Some (setRevents r c)).
Proof.
  intros Hp Hq Hready Hevs Hlen. split_and!.
  - unfold EPollPoller.poll. destruct (decide (evs = [])) as [->|Hne].
    { exists p. simpl. split_and!; auto. }
    rewrite (bool_decide_eq_true_2 (length evs <= EPollPoller.nevents p)%nat) by done. simpl.
    rewrite (epoll_fill A) by done. simpl.
    eexists. split; [done|]. case_bool_decide; simpl; (split_and!; try done; lia).
  - destruct (poll_entries A cs2 q ready Hq Hready) as [Hent Hact].
    unfold PollPoller.poll.
    assert (zip_with (λ f r, PollPoller.mkPollfd (PollPoller.pfd_fd f) (PollPoller.pfd_events f) r)
      (PollPoller.pollfds_ q) (reported ready <$> PollPoller.pollfds_ q)
      = (λ f, PollPoller.mkPollfd (PollPoller.pfd_fd f) (PollPoller.pfd_events f) (reported ready f))
        <$> PollPoller.pollfds_ q) as ->.
    { clear. induction (PollPoller.pollfds_ q) as [|f l IH]; [done|]. cbn. f_equal. exact IH. }
    destruct (Z.ltb_spec 0 (zlen (filter (λ f, 0 < reported ready f) (PollPoller.pollfds_ q)))) as [Hn|Hn].
    + simpl. rewrite poll_fill by done. simpl. eexists _, _. split; [done|]. done.
    + eexists _, []. split; [done|]. intros a r. rewrite <-Hact.
      assert (filter (λ f, 0 < reported ready f) (PollPoller.pollfds_ q) = []) as Hnil
        by (apply zlen_zero_inv; zlen_lia).
      split; [set_solver|]. unfold active_of. intros (f & Hin & Hs)%list_elem_of_omap.
      destruct (Z.ltb_spec 0 (reported ready f)); [|done].
      assert (f ∈ filter (λ f, 0 < reported ready f) (PollPoller.pollfds_ q)) as Hf
        by (by apply list_elem_of_filter). rewrite Hnil in Hf. set_solver.
  - intros s b c l Hb. pose proof (set_reported_lookup s l b) as H. by rewrite Hb in H.
Qed.

(** One channel registered with each poller, its descriptor ready to read. *)
Definition one_ops : list cop := [CNew 100 5; CEnableReading 100].
Definition one_spec : astate := {[ 100 := mkA 5 3 (Some true) ]}.
Definition one_epoll : store * EPollPoller.EPoll :=
  match run (∅, EPollPoller.newEPoll) one_ops with Ok s => s | Err _ => (∅, EPollPoller.newEPoll) end.
Definition one_poll : store * PollPoller.Poll :=
  match run (∅, PollPoller.newPoll) one_ops with Ok s => s | Err _ => (∅, PollPoller.newPoll) end.

Lemma poll_delivers_witness :
  let '(cs, p) := one_epoll in let '(cs2, q) := one_poll in
  (∃ p', EPollPoller.poll cs p [(100, POLLIN)] = Ok (set_reported cs [(100, POLLIN)], p', [100]))
  ∧ (∃ q' act, PollPoller.poll cs2 q [POLLIN] 1 = Ok (set_reported cs2 act, q', act.*1)
       ∧ (100, POLLIN) ∈ act).
Proof.
  assert (∀ fd ev a, awatched one_spec fd ev a ↔ fd = 5 ∧ ev = 3 ∧ a = 100) as Haw.
  { intros fd ev a. unfold awatched, one_spec. split.
    - intros (x & [<- <-]%lookup_singleton_Some & <- & <- & _). done.
    - intros (-> & -> & ->). eexists. by rewrite lookup_singleton_eq. }
  destruct (run_refines (P := EPollPoller.EPoll) ∅ ∅ _ one_ops one_spec pok_new eq_refl)
    as (cs & p & E1 & Hok1).
  destruct (run_refines (P := PollPoller.Poll) ∅ ∅ _ one_ops one_spec pok_new eq_refl)
    as (cs2 & q & E2 & Hok2).
  change (run (∅, EPollPoller.newEPoll) one_ops = Ok (cs, p)) in E1.
  change (run (∅, PollPoller.newPoll) one_ops = Ok (cs2, q)) in E2.
  assert (one_epoll = (cs, p)) as -> by (unfold one_epoll; by rewrite E1).
  assert (one_poll = (cs2, q)) as -> by (unfold one_poll; by rewrite E2).
  assert (PollPoller.pollfds_ q = [PollPoller.mkPollfd 5 3 0]) as Hq
    by (vm_compute in E2; injection E2 as <- <-; reflexivity).
  assert (EPollPoller.nevents p = 16%nat) as Hp
    by (vm_compute in E1; injection E1 as <- <-; reflexivity).
  destruct (poll_delivers one_spec cs cs2 p q (λ fd, if fd =? 5 then POLLIN else 0) [(100, POLLIN)])
    as ((p' & Hp' & _) & (q' & act & Hq' & Hact) & _).
  - exact Hok1.
  - exact Hok2.
  - intros fd. simpl. destruct (fd =? 5); unfold POLLIN; lia.
  - intros a r [= -> ->]%list_elem_of_singleton. exists 5, 3. by apply Haw.
  - rewrite Hp. simpl. lia.
  - split; [by exists p'|]. exists q', act. rewrite Hq in Hq'. split; [exact Hq'|].
    apply Hact. exists 5, 3. split; [by apply Haw|]. split; [done|]. unfold POLLIN. lia.
Defined.
