(* ===== verification/EventLoop.v ===== *)
(** * Event loop (fishnet/net/event_loop.h, event_loop.cc)

    The loop's thread as a sequence of steps interleaved with other threads that
    queue functors and ask it to quit through the wake-up descriptor; the body of
    [loop()] as a function; the guards around the poller. *)

From S2P Require Import Prelude Double Timestamp TimerQueue Channel Poller.
Local Open Scope Z_scope.

(** ** State *)

(** Where the loop's thread is: outside [loop()], blocked in (or about to enter)
    [poll] ([first] for the first time since [loop()] was called), handling
    events, about to take the pending functors, or running those it took. *)
Inductive pc : Type :=
| Idle
| Polling (first : bool)
| Handling
| Taking
| Running (l : list Z).

(** A functor is a number. [evfd] is the counter of the wake-up eventfd,
    [waking] the number of calls in other threads that have changed
    [pendingFunctors_] or [quit_] and not yet written to it; [queued] and
    [executed] record every functor queued and run, in order. *)
Record EventLoop := mkLoop {
  at_pc : pc;
  looping_ : bool;
  quit_ : bool;
  eventHanding_ : bool;
  callingPendingFunctors_ : bool;
  iteration_ : Z;
  pendingFunctors_ : list Z;
  evfd : Z;
  waking : nat;
  queued : list Z;
  executed : list Z }.

Definition newEventLoop : EventLoop := mkLoop Idle false false false false 0 [] 0 0 [] [].

Definition goto (p : pc) (s : EventLoop) : EventLoop :=
  mkLoop p (looping_ s) (quit_ s) (eventHanding_ s) (callingPendingFunctors_ s) (iteration_ s)
    (pendingFunctors_ s) (evfd s) (waking s) (queued s) (executed s).
Definition set_flags (l q e c : bool) (s : EventLoop) : EventLoop :=
  mkLoop (at_pc s) l q e c (iteration_ s)
    (pendingFunctors_ s) (evfd s) (waking s) (queued s) (executed s).
Definition set_calling (c : bool) (s : EventLoop) : EventLoop :=
  set_flags (looping_ s) (quit_ s) (eventHanding_ s) c s.
Definition set_handling (e : bool) (s : EventLoop) : EventLoop :=
  set_flags (looping_ s) (quit_ s) e (callingPendingFunctors_ s) s.
Definition set_quit (q : bool) (s : EventLoop) : EventLoop :=
  set_flags (looping_ s) q (eventHanding_ s) (callingPendingFunctors_ s) s.
Definition set_looping (l : bool) (s : EventLoop) : EventLoop :=
  set_flags l (quit_ s) (eventHanding_ s) (callingPendingFunctors_ s) s.
Definition set_wake (e : Z) (w : nat) (s : EventLoop) : EventLoop :=
  mkLoop (at_pc s) (looping_ s) (quit_ s) (eventHanding_ s) (callingPendingFunctors_ s) (iteration_ s)
    (pendingFunctors_ s) e w (queued s) (executed s).

(** ** Operations on the queue of functors *)

(** [wakeup] adds 1 to the eventfd's counter, [handleRead] reads and resets it. *)
Definition wakeup (s : EventLoop) : EventLoop := set_wake (evfd s + 1) (waking s) s.
Definition handleRead (s : EventLoop) : EventLoop := set_wake 0 (waking s) s.

(** [pendingFunctors_.push_back] under the mutex. *)
Definition push (f : Z) (s : EventLoop) : EventLoop :=
  mkLoop (at_pc s) (looping_ s) (quit_ s) (eventHanding_ s) (callingPendingFunctors_ s) (iteration_ s)
    (pendingFunctors_ s ++ [f]) (evfd s) (waking s) (queued s ++ [f]) (executed s).

(** [queueInLoop] up to its wake-up; in the loop's thread the wake-up is part of
    the same step, in another thread it is a later step of that thread. *)
Definition queueInLoop (inLoopThread : bool) (f : Z) (s : EventLoop) : EventLoop :=
  let s := push f s in
  if negb inLoopThread then set_wake (evfd s) (S (waking s)) s
  else if callingPendingFunctors_ s then wakeup s else s.

Definition quit (inLoopThread : bool) (s : EventLoop) : EventLoop :=
  let s := set_quit true s in
  if negb inLoopThread then set_wake (evfd s) (S (waking s)) s else s.

Definition queueSize (s : EventLoop) : Z := zlen (pendingFunctors_ s).

(** What code running in the loop's thread does to the loop. *)
Inductive faction : Type :=
| FQueue (f : Z)
| FQuit.

Definition do_action (s : EventLoop) (a : faction) : EventLoop :=
  match a with
  | FQueue f => queueInLoop true f s
  | FQuit => quit true s
  end.
Definition do_actions (s : EventLoop) (l : list faction) : EventLoop := foldl do_action s l.

(** [while (!quit_)]: go on to poll, or leave [loop()]. *)
Definition loop_test (first : bool) (s : EventLoop) : EventLoop :=
  if quit_ s then goto Idle (set_looping false s) else goto (Polling first) s.

(** [loop()] up to its first test, after [assert(!looping_)]. *)
Definition loop_start (s : EventLoop) : res EventLoop :=
  assertb (negb (looping_ s));;
  Ok (loop_test true (set_quit false (set_looping true s))).

(** [poll] has returned: [++iteration_], [eventHanding_ = true]. *)
Definition poll_return (s : EventLoop) : EventLoop :=
  let s := set_handling true (goto Handling s) in
  mkLoop (at_pc s) (looping_ s) (quit_ s) (eventHanding_ s) (callingPendingFunctors_ s)
    (iteration_ s + 1) (pendingFunctors_ s) (evfd s) (waking s) (queued s) (executed s).

(** [doPendingFunctors], in the steps between which other threads can run: the
    flag, the swap under the mutex, each functor, the flag again. *)
Definition dpf_begin (s : EventLoop) : EventLoop := set_calling true (goto Taking (set_handling false s)).
Definition dpf_swap (s : EventLoop) : EventLoop :=
  mkLoop (Running (pendingFunctors_ s)) (looping_ s) (quit_ s) (eventHanding_ s)
    (callingPendingFunctors_ s) (iteration_ s) [] (evfd s) (waking s) (queued s) (executed s).
Definition dpf_end (s : EventLoop) : EventLoop := set_calling false s.

(** ** Channels and timers through the loop *)

(** [updateChannel], [removeChannel] and [hasChannel] with their guards; the
    thread check is a [LOG_FATAL]. [activeChannels_] and
    [currentActiveChannel_] hold channel addresses. *)
Section channels.
Context {P : Type} `{!PollerImpl P} (this : Z) (inLoopThread : bool).

Definition updateChannel (ownerLoop : Z) (cs : store) (p : P) (a : Z) : res (store * P) :=
  assertb (ownerLoop =? this);;
  guard_or Fatal inLoopThread;;
  p_update cs p a.

Definition removeChannel (ownerLoop : Z) (eventHanding : bool) (activeChannels_ : list Z)
    (currentActiveChannel_ : option Z) (cs : store) (p : P) (a : Z) : res (store * P) :=
  assertb (ownerLoop =? this);;
  guard_or Fatal inLoopThread;;
  (if eventHanding
   then assertb (bool_decide (currentActiveChannel_ = Some a) || bool_decide (a ∉ activeChannels_))
   else Ok ());;
  p_remove cs p a.
End channels.

Section timers.
Context `{!Allocator} (clock : nat → Z).

Definition runAt (s : TimerQueue) (time cb : Z) : res ((Z * Z) * TimerQueue) :=
  addTimer clock s cb time (S754_zero false).

Definition runAfter (s : TimerQueue) (delay : double) (cb : Z) : res ((Z * Z) * TimerQueue) :=
  let '(t, s) := now clock s in
  time ← addTime (mkTimestamp t) delay;
  runAt s (microSecondsSinceEpoch time) cb.

Definition runEvery (s : TimerQueue) (interval : double) (cb : Z) : res ((Z * Z) * TimerQueue) :=
  let '(t, s) := now clock s in
  time ← addTime (mkTimestamp t) interval;
  addTimer clock s cb (microSecondsSinceEpoch time) interval.
End timers.

Section loop.
(** What each functor does when it runs. *)
Context (behave : Z → list faction).

Definition dpf_run (f : Z) (l : list Z) (s : EventLoop) : EventLoop :=
  do_actions
    (mkLoop (Running l) (looping_ s) (quit_ s) (eventHanding_ s) (callingPendingFunctors_ s)
       (iteration_ s) (pendingFunctors_ s) (evfd s) (waking s) (queued s) (executed s ++ [f]))
    (behave f).

(** [runInLoop]: at once in the loop's thread, queued from another. *)
Definition runInLoop (inLoopThread : bool) (f : Z) (s : EventLoop) : EventLoop :=
  if inLoopThread then do_actions s (behave f) else queueInLoop false f s.

Fixpoint run_functors (l : list Z) (s : EventLoop) : EventLoop :=
  match l with
  | [] => s
  | f :: l => run_functors l (dpf_run f l s)
  end.

Definition doPendingFunctors (s : EventLoop) : EventLoop :=
  let s := dpf_swap (dpf_begin s) in
  dpf_end (run_functors (match at_pc s with Running l => l | _ => [] end) s).

(** The body of [loop()]'s [while] when no other thread interferes: [poll]
    reports the wake-up descriptor iff it is readable, and the callbacks of the
    other active channels do [events]. *)
Definition loop_body (events : list faction) (s : EventLoop) : EventLoop :=
  let s := poll_return s in
  let s := if 0 <? evfd s then handleRead s else s in
  loop_test false (doPendingFunctors (do_actions s events)).

(** One step of the system: of the loop's thread, or of another thread. *)
Inductive step : EventLoop → EventLoop → Prop :=
| s_outside s l : at_pc s = Idle → step s (do_actions s l)
| s_start s s' : at_pc s = Idle → loop_start s = Ok s' → step s s'
| s_poll s b : at_pc s = Polling b → step s (poll_return s)
| s_wake s : at_pc s = Handling → 0 < evfd s → step s (handleRead s)
| s_event s l : at_pc s = Handling → step s (do_actions s l)
| s_begin s : at_pc s = Handling → step s (dpf_begin s)
| s_swap s : at_pc s = Taking → step s (dpf_swap s)
| s_run s f l : at_pc s = Running (f :: l) → step s (dpf_run f l s)
| s_end s : at_pc s = Running [] → step s (loop_test false (dpf_end s))
| s_queue s f : step s (queueInLoop false f s)
| s_quit s : step s (quit false s)
| s_write s w : waking s = S w → step s (wakeup (set_wake (evfd s) w s)).

Definition steps : EventLoop → EventLoop → Prop := rtc step.

(** ** Invariant *)

(** The functors the loop has taken and not yet run. *)
Definition taken (s : EventLoop) : list Z :=
  match at_pc s with Running l => l | _ => [] end.

Definition woken (s : EventLoop) : Prop := 0 < evfd s ∨ (0 < waking s)%nat.

(** The states in which a pending functor needs a wake-up. *)
Definition needs_wake (s : EventLoop) : bool :=
  match at_pc s with Polling false | Running _ => true | _ => false end.
Definition in_dpf (s : EventLoop) : bool :=
  match at_pc s with Taking | Running _ => true | _ => false end.
Definition polling (s : EventLoop) : bool :=
  match at_pc s with Polling _ => true | _ => false end.
Definition outside (s : EventLoop) : bool :=
  match at_pc s with Idle => true | _ => false end.

Record inv (s : EventLoop) : Prop := {
  l_fifo : queued s = executed s ++ taken s ++ pendingFunctors_ s;
  l_evfd : 0 <= evfd s;
  l_calling : callingPendingFunctors_ s = in_dpf s;
  l_wake : needs_wake s = true → pendingFunctors_ s ≠ [] → woken s;
  l_quit : polling s = true → quit_ s = true → woken s;
  l_looping : looping_ s = negb (outside s) }.

Lemma do_actions_frame l s :
  at_pc (do_actions s l) = at_pc s ∧ executed (do_actions s l) = executed s
  ∧ callingPendingFunctors_ (do_actions s l) = callingPendingFunctors_ s
  ∧ waking (do_actions s l) = waking s ∧ looping_ (do_actions s l) = looping_ s
  ∧ iteration_ (do_actions s l) = iteration_ s
  ∧ evfd s <= evfd (do_actions s l)
  ∧ (∃ k, queued (do_actions s l) = queued s ++ k
          ∧ pendingFunctors_ (do_actions s l) = pendingFunctors_ s ++ k
          ∧ (callingPendingFunctors_ s = true → k ≠ [] → evfd s < evfd (do_actions s l))).
Proof.
  revert s. induction l as [|a l IH]; intros s; simpl.
  { split_and!; try done. exists []. by rewrite !app_nil_r. }
  destruct (IH (do_action s a)) as (E1 & E2 & E3 & E4 & E5 & Ei & E6 & k & E7 & E8 & E9).
  destruct a as [f|].
  - unfold do_action, queueInLoop in *. simpl in *.
    destruct (callingPendingFunctors_ s) eqn:Ec; simpl in *; (split_and!; try done; try congruence; try lia);
      exists (f :: k); rewrite E7, E8, <-!app_assoc; (split_and!; try done); lia.
  - simpl in *. split_and!; try done. eauto.
Qed.

Lemma inv_actions s l : inv s → at_pc s = Handling ∨ at_pc s = Idle → inv (do_actions s l).
Proof.
  intros [F E C W Q L] Hpc.
  destruct (do_actions_frame l s) as (E1 & E2 & E3 & E4 & E5 & _ & E6 & k & E7 & E8 & _).
  destruct Hpc as [Hpc|Hpc]; rewrite Hpc in *;
    (split; unfold taken, needs_wake, in_dpf, polling, outside in *; rewrite ?E1, ?Hpc in *;
      [by rewrite E7, E2, E8, F, <-!app_assoc | lia | congruence | done | done | congruence]).
Qed.

Lemma inv_run s f l : inv s → at_pc s = Running (f :: l) → inv (dpf_run f l s).
Proof.
  intros [F E C W Q L] Hpc. unfold dpf_run. set (s1 := mkLoop _ _ _ _ _ _ _ _ _ _ _).
  destruct (do_actions_frame (behave f) s1) as (E1 & E2 & E3 & E4 & E5 & _ & E6 & k & E7 & E8 & E9).
  unfold needs_wake, taken, in_dpf, polling, outside, woken in *. rewrite Hpc in *. simpl in *.
  split; unfold needs_wake, taken, in_dpf, polling, outside, woken; rewrite ?E1; simpl.
  - rewrite E7, E2, E8, F. by simplify_list_eq.
  - lia.
  - congruence.
  - intros _ Hne. rewrite E4. destruct k as [|g k].
    + rewrite E8, app_nil_r in Hne. destruct (W eq_refl Hne); [left; lia|by right].
    + left. assert (Hk : g :: k ≠ []) by done. pose proof (E9 C Hk). lia.
  - done.
  - congruence.
Qed.

Lemma inv_loop_test b s :
  queued s = executed s ++ pendingFunctors_ s → 0 <= evfd s → callingPendingFunctors_ s = false →
  (b = false → pendingFunctors_ s ≠ [] → woken s) → looping_ s = true → inv (loop_test b s).
Proof.
  intros F E C W L. unfold loop_test. destruct (quit_ s) eqn:Eq.
  - by split.
  - split; try done; [|cbn; congruence].
    unfold needs_wake, woken in *. simpl. destruct b; [done|]. intros _. by apply W.
Qed.

Lemma inv_foreign s s' :
  inv s → at_pc s' = at_pc s → evfd s <= evfd s' → woken s' →
  callingPendingFunctors_ s' = callingPendingFunctors_ s → looping_ s' = looping_ s →
  executed s' = executed s →
  (∃ k, queued s' = queued s ++ k ∧ pendingFunctors_ s' = pendingFunctors_ s ++ k) → inv s'.
Proof.
  intros [F E C W Q L] E1 E2 Hw E3 E4 E5 (k & E6 & E7).
  split; unfold taken, needs_wake, in_dpf, polling, outside in *; rewrite ?E1; try done.
  - by rewrite E6, E7, E5, F, <-!app_assoc.
  - lia.
  - congruence.
  - congruence.
Qed.

Lemma inv_step s s' : inv s → step s s' → inv s'.
Proof.
  intros Hi Hstep. pose proof Hi as [F E C W Q L].
  unfold taken, needs_wake, in_dpf, polling, outside, woken in *.
  destruct Hstep as [s l Hpc|s s' Hpc Hl|s b Hpc|s Hpc He|s l Hpc|s Hpc|s Hpc|s f l Hpc|s Hpc|s f|s|s w Hw];
    try (apply inv_actions; by auto); try (by apply inv_run); try (rewrite Hpc in * );
    simpl in *.
  - unfold loop_start in Hl. rewrite L in Hl. simpl in Hl. injection Hl as <-. by apply inv_loop_test.
  - by split.
  - split; unfold taken, needs_wake, in_dpf, polling, outside; cbn; rewrite ?Hpc; done.
  - split; cbn; try done.
  - split; cbn; try done. by rewrite app_nil_r.
  - apply inv_loop_test; cbn; try done. intros _ Hp. by apply W.
  - eapply inv_foreign; try exact Hi; try done; cbn; [right; cbn; lia|]. by exists [f].
  - eapply inv_foreign; try exact Hi; try done; cbn; [right; cbn; lia|].
    exists []. by rewrite !app_nil_r.
  - eapply inv_foreign; try exact Hi; try done; cbn; [lia|left; cbn; lia|].
    exists []. by rewrite !app_nil_r.
Qed.

Lemma inv_new : inv newEventLoop.
Proof. by split. Qed.

Lemma inv_steps s s' : inv s → steps s s' → inv s'.
Proof. intros Hi Hs. revert Hi. induction Hs; eauto using inv_step. Qed.

(** ** Progress *)

(** What a state reached from one in which [q] had been queued at iteration [n]
    owes to [q]: once a later iteration has taken the functors, all of [q] has
    been run or is about to be. *)
Definition owes (q : list Z) (n : Z) (s : EventLoop) : Prop :=
  n <= iteration_ s
  ∧ q `prefix_of` queued s
  ∧ (n < iteration_ s →
     match at_pc s with
     | Handling | Taking => True
     | _ => q `prefix_of` executed s ++ taken s
     end).

Lemma prefix_of_app_r {A} (q l k : list A) : q `prefix_of` l → q `prefix_of` l ++ k.
Proof. intros [z ->]. exists (z ++ k). by rewrite app_assoc. Qed.

(** The steps that only add to the queue. *)
Lemma owes_frame q n s s' :
  owes q n s → at_pc s' = at_pc s → iteration_ s' = iteration_ s → executed s' = executed s →
  (∃ k, queued s' = queued s ++ k) → owes q n s'.
Proof.
  intros (H1 & H2 & H3) E1 E2 E3 (k & E4). unfold owes, taken in *.
  rewrite E1, E2, E3, E4. split_and!; [done|by apply prefix_of_app_r|done].
Qed.

Lemma owes_actions q n s l : owes q n s → owes q n (do_actions s l).
Proof.
  intros H. destruct (do_actions_frame l s) as (E1 & E2 & _ & _ & _ & E3 & _ & k & E4 & _).
  eapply owes_frame; eauto.
Qed.

Lemma owes_test q n b s :
  n <= iteration_ s → q `prefix_of` queued s → (n < iteration_ s → q `prefix_of` executed s) →
  owes q n (loop_test b s).
Proof.
  intros H1 H2 H3. unfold loop_test.
  destruct (quit_ s); (split_and!; try done; cbn; rewrite app_nil_r; done).
Qed.

Lemma owes_step q n s s' : inv s → owes q n s → step s s' → owes q n s'.
Proof.
  intros [F _ _ _ _ _] Ho Hstep. pose proof Ho as (H1 & H2 & H3). unfold taken in *.
  destruct Hstep as [s l Hpc|s s' Hpc Hl|s b Hpc|s Hpc He|s l Hpc|s Hpc|s Hpc|s f l Hpc|s Hpc|s f|s|s w Hw];
    try (by apply owes_actions); try (rewrite Hpc in * ).
  - unfold loop_start in Hl. res_inv. subst. apply owes_test; cbn; try done.
    intros Hn. specialize (H3 Hn). by rewrite app_nil_r in H3.
  - split_and!; cbn; try done. lia.
  - by split_and!; cbn; rewrite ?Hpc.
  - by split_and!; cbn.
  - split_and!; cbn; try done. intros _. cbn in F. by rewrite <-F.
  - apply owes_actions. split_and!; cbn; try done. intros Hn. specialize (H3 Hn). by simplify_list_eq.
  - apply owes_test; cbn; try done. intros Hn. specialize (H3 Hn). by rewrite app_nil_r in H3.
  - eapply owes_frame; [exact Ho|done..|]. by exists [f].
  - eapply owes_frame; [exact Ho|done..|]. exists []. by rewrite app_nil_r.
  - eapply owes_frame; [exact Ho|done..|]. exists []. by rewrite app_nil_r.
Qed.

Lemma owes_steps q n s s' : inv s → owes q n s → steps s s' → owes q n s'.
Proof. intros Hi Ho Hs. revert Hi Ho. induction Hs; eauto using inv_step, owes_step. Qed.

(** ** The body of the loop *)

Definition queued_by (l : list faction) : list Z :=
  omap (λ a, match a with FQueue f => Some f | FQuit => None end) l.
Definition quits (l : list faction) : bool :=
  existsb (λ a, match a with FQuit => true | _ => false end) l.

Lemma do_actions_exact l s :
  pendingFunctors_ (do_actions s l) = pendingFunctors_ s ++ queued_by l
  ∧ queued (do_actions s l) = queued s ++ queued_by l
  ∧ quit_ (do_actions s l) = quit_ s || quits l.
Proof.
  revert s. induction l as [|a l IH]; intros s; simpl.
  { by rewrite !app_nil_r, orb_false_r. }
  destruct (IH (do_action s a)) as (-> & -> & ->). destruct a as [f|]; simpl.
  - unfold queueInLoop. simpl. destruct (callingPendingFunctors_ s); by simplify_list_eq.
  - by rewrite orb_true_r.
Qed.

Lemma run_functors_exact l s :
  at_pc s = Running l → callingPendingFunctors_ s = true →
  let s' := run_functors l s in
  steps s s' ∧ at_pc s' = Running [] ∧ executed s' = executed s ++ l
  ∧ pendingFunctors_ s' = pendingFunctors_ s ++ mjoin (queued_by ∘ behave <$> l)
  ∧ quit_ s' = quit_ s || existsb (quits ∘ behave) l
  ∧ callingPendingFunctors_ s' = true ∧ iteration_ s' = iteration_ s.
Proof.
  revert s. induction l as [|f l IH]; intros s Hpc Hc; simpl.
  { rewrite !app_nil_r, orb_false_r. by split_and!. }
  assert (Hst : step s (dpf_run f l s)) by by constructor.
  unfold dpf_run in *. set (s1 := mkLoop _ _ _ _ _ _ _ _ _ _ _) in *.
  destruct (do_actions_frame (behave f) s1) as (E1 & E2 & E3 & _ & _ & E4 & _).
  destruct (do_actions_exact (behave f) s1) as (E5 & _ & E6).
  destruct (IH (do_actions s1 (behave f))) as (I1 & I2 & I3 & I4 & I5 & I6 & I7); [done|by rewrite E3|].
  split_and!; try done.
  - by eapply rtc_l.
  - rewrite I3, E2. simpl. by simplify_list_eq.
  - rewrite I4, E5. simpl. by simplify_list_eq.
  - rewrite I5, E6. simpl. by rewrite orb_assoc.
  - by rewrite I7, E4.
Qed.
End loop.

(** A pass of the loop's body is a sequence of the loop thread's steps. *)
Lemma loop_body_steps behave events s b :
  at_pc s = Polling b → steps behave s (loop_body behave events s).
Proof.
  intros Hpc. unfold loop_body.
  set (s1 := poll_return s). set (s2 := if 0 <? evfd s1 then handleRead s1 else s1).
  assert (H1 : steps behave s s2 ∧ at_pc s2 = Handling).
  { subst s2. split; [|by destruct (0 <? evfd s1)].
    eapply rtc_l; [by eapply s_poll|]. destruct (0 <? evfd s1) eqn:E; [|done].
    apply rtc_once, s_wake; [done|lia]. }
  clearbody s2. destruct H1 as (H1 & P1). set (s3 := do_actions s2 events).
  destruct (do_actions_frame events s2) as (E1 & _). fold s3 in E1.
  set (s4 := dpf_swap (dpf_begin s3)).
  destruct (run_functors_exact behave (pendingFunctors_ s3) s4) as (I1 & I2 & _); [done..|].
  etrans; [exact H1|]. eapply rtc_l; [by apply (s_event _ _ events)|]. fold s3.
  eapply rtc_l; [apply s_begin; congruence|]. eapply rtc_l; [by apply s_swap|].
  etrans; [exact I1|]. apply rtc_once. by apply s_end.
Qed.

(** ** Properties *)

(** C6: whatever the functors do and however other threads interleave, the loop
    runs the queued functors in the order they were queued and each exactly
    once; and once the loop has completed an iteration that began after a
    functor was queued, that functor has been run. *)
Theorem eventloop_runs_queued behave s s' :
  steps behave newEventLoop s → steps behave s s' →
  queued s' = executed s' ++ taken s' ++ pendingFunctors_ s'
  ∧ (iteration_ s < iteration_ s' → at_pc s' = Idle ∨ polling s' = true →
     queued s `prefix_of` executed s').
Proof.
  intros H1 H2. pose proof (inv_steps _ _ _ inv_new H1) as Hi.
  pose proof (inv_steps _ _ _ Hi H2) as [F _ _ _ _ _]. split; [done|].
  intros Hn Hpc.
  assert (Ho : owes (queued s) (iteration_ s) s) by (split_and!; try done; lia).
  destruct (owes_steps _ _ _ _ _ Hi Ho H2) as (_ & _ & H). specialize (H Hn).
  unfold taken, polling in *. destruct (at_pc s'); destruct Hpc; try done; by rewrite app_nil_r in H.
Qed.


(** One pass through the body of [loop()], with no other thread
    interfering, is a run of the system that executes the functors pending when
    [poll] returns and those the event handlers queue, in that order, leaves
    exactly what they queued pending for the next pass, and ends the loop iff
    [quit] was called. *)
Theorem loop_body_exact behave events s b :
  at_pc s = Polling b → callingPendingFunctors_ s = false →
  let s' := loop_body behave events s in
  let run := pendingFunctors_ s ++ queued_by events in
  steps behave s s'
  ∧ executed s' = executed s ++ run
  ∧ pendingFunctors_ s' = mjoin (queued_by ∘ behave <$> run)
  ∧ at_pc s' = (if quit_ s || quits events || existsb (quits ∘ behave) run then Idle else Polling false)
  ∧ iteration_ s' = iteration_ s + 1.
Proof.
  intros Hpc Hc s' run. split; [by eapply loop_body_steps|]. subst s'. unfold loop_body.
  set (s1 := poll_return s). set (s2 := if 0 <? evfd s1 then handleRead s1 else s1).
  assert (H2 : executed s2 = executed s ∧ pendingFunctors_ s2 = pendingFunctors_ s
    ∧ quit_ s2 = quit_ s ∧ iteration_ s2 = iteration_ s + 1)
    by (subst s2; by destruct (0 <? evfd s1)).
  clearbody s2. destruct H2 as (P2 & P3 & P4 & P5). set (s3 := do_actions s2 events).
  destruct (do_actions_frame events s2) as (_ & E2 & _ & _ & _ & E4 & _).
  destruct (do_actions_exact events s2) as (E5 & _ & E6). fold s3 in E2, E4, E5, E6.
  set (s4 := dpf_swap (dpf_begin s3)).
  destruct (run_functors_exact behave (pendingFunctors_ s3) s4) as (_ & _ & I3 & I4 & I5 & _ & I7);
    [done..|].
  unfold doPendingFunctors. fold s4. change (at_pc s4) with (Running (pendingFunctors_ s3)). cbv iota.
  set (s5 := run_functors _ _ _) in *. cbn in I3, I4, I5, I7.
  assert (Hrun : pendingFunctors_ s3 = run) by (rewrite E5, P3; done).
  rewrite Hrun, ?E2, ?P2, ?E6, ?P4, ?E4, ?P5 in *.
  unfold loop_test. cbn. rewrite <-I5. destruct (quit_ s5); split_and!; done.
Qed.

(** ** Witnesses *)

Definition sample_behave (f : Z) : list faction :=
  if f =? 1 then [FQueue 3] else if f =? 3 then [FQuit] else [].

(** Another thread queues 1; the loop runs it, and it queues 3. *)
Definition sample_polling : EventLoop :=
  loop_test true (set_quit false (set_looping true (wakeup (set_wake 0 0 (queueInLoop false 1 newEventLoop))))).
Definition sample_second : EventLoop := loop_body sample_behave [FQueue 2] sample_polling.

Lemma sample_reach : steps sample_behave newEventLoop sample_polling.
Proof.
  eapply rtc_l; [apply (s_queue _ _ 1)|].
  eapply rtc_l; [by apply s_write|].
  apply rtc_once, s_start; reflexivity.
Qed.

Lemma sample_second_reach : steps sample_behave sample_polling sample_second.
Proof. exact (loop_body_steps sample_behave [FQueue 2] sample_polling true eq_refl). Qed.

Lemma loop_body_exact_witness :
  steps sample_behave sample_polling sample_second
  ∧ executed sample_second = [1; 2] ∧ pendingFunctors_ sample_second = [3]
  ∧ at_pc sample_second = Polling false.
Proof.
  destruct (loop_body_exact sample_behave [FQueue 2] sample_polling true) as (H1 & H2 & H3 & H4 & _);
    [reflexivity..|].
  split; [exact H1|]. split; [exact H2|]. split; [exact H3|]. exact H4.
Defined.


Lemma eventloop_runs_queued_witness :
  queued sample_polling = [1] ∧ [1] `prefix_of` executed sample_second.
Proof.
  destruct (eventloop_runs_queued sample_behave _ _ sample_reach sample_second_reach) as [_ H].
  split; [reflexivity|]. apply H; [reflexivity|right; reflexivity].
Defined.


(** The exception of the first [poll] is needed: a functor queued in the loop's
    own thread before [loop()] is called leaves the descriptor unreadable. *)
Example functor_before_loop_waits :
  ∃ s, steps (λ _, []) newEventLoop s
       ∧ at_pc s = Polling true ∧ pendingFunctors_ s = [7] ∧ evfd s = 0 ∧ waking s = 0%nat.
Proof.
  eexists. split.
  { eapply rtc_l; [by apply (s_outside _ _ [FQueue 7])|]. by apply rtc_once, s_start. }
  done.
Qed.
