(* ===== verification/LoopLife.v ===== *)
(** * Life of event loops (the constructor and the destructor of fishnet/net/event_loop.cc)

    The loops of a process: the thread-local pointer [t_loopInThisThread], the two
    channels a loop owns (of its timer queue and of its wake-up descriptor), their
    registration with the poller while the members are constructed, and their
    removal, in the order the members are destroyed. Everything goes through
    [Channel::update], [EventLoop::updateChannel] and the poller, with the
    assertions and thread checks on the way. Timers are in [TimerQueue]; a loop is
    destroyed outside [loop()], so that no event is being handled. *)

From S2P Require Import Prelude Channel Poller EventLoop.
Local Open Scope Z_scope.

(** ** What the destructor of a channel needs of a poller

    Beyond the contract of [Poller]: the map [hasChannel] looks at, and that a
    poller changes nothing of a channel but its index. *)
Class Registry (P : Type) `{!PollerImpl P} := {
  registry : P → ChannelMap;
  registry_ok A cs p : pok A cs p → ch_ok A (registry p);
  update_frame cs p a cs' p' b : p_update cs p a = Ok (cs', p') → ∃ i, cs' !! b = setIndex i <$> cs !! b
    ∨ cs' !! b = cs !! b;
  remove_frame cs p a cs' p' b : p_remove cs p a = Ok (cs', p') → ∃ i, cs' !! b = setIndex i <$> cs !! b
    ∨ cs' !! b = cs !! b }.

Lemma index_frame (cs : store) a i c b : cs !! a = Some c →
  ∃ j, <[a := setIndex i c]> cs !! b = setIndex j <$> cs !! b ∨ <[a := setIndex i c]> cs !! b = cs !! b.
Proof.
  intros Hc. exists i. destruct (decide (a = b)) as [<-|Hne].
  - left. by rewrite lookup_insert_eq, Hc.
  - right. by rewrite lookup_insert_ne.
Qed.

Lemma chan_inv cs a c : chan cs a = Ok c → cs !! a = Some c.
Proof. unfold chan. destruct (cs !! a); naive_solver. Qed.

#[global, refine] Instance epoll_registry : Registry EPollPoller.EPoll := {| registry := EPollPoller.channels_ |}.
Proof.
  - apply EPollOk.e_ch.
  - intros cs p a cs' p' b E. cbn [p_update EPollOk.epoll_impl] in E. unfold EPollPoller.updateChannel in E. res_inv.
    apply chan_inv in H. destruct (_ || _) in E; res_inv; simplify_eq; [by apply index_frame|].
    destruct (isNoneEvent x); res_inv; simplify_eq; [by apply index_frame|]. exists 0. by right.
  - intros cs p a cs' p' b E. cbn [p_remove EPollOk.epoll_impl] in E. unfold EPollPoller.removeChannel in E. res_inv.
    simplify_eq. apply chan_inv in H. by apply index_frame.
Defined.

#[global, refine] Instance poll_registry : Registry PollPoller.Poll := {| registry := PollPoller.channels_ |}.
Proof.
  - apply PollOk.q_ch.
  - intros cs p a cs' p' b E. cbn [p_update PollOk.poll_impl] in E. unfold PollPoller.updateChannel in E. res_inv.
    apply chan_inv in H. destruct (_ <? _) in E; res_inv; simplify_eq; [by apply index_frame|]. exists 0. by right.
  - intros cs p a cs' p' b E. cbn [p_remove PollOk.poll_impl] in E. unfold PollPoller.removeChannel in E. res_inv.
    destruct (_ =? _) in E; res_inv; simplify_eq; [exists 0; by right|].
    match goal with Hx : chan cs ?k = Ok _ |- ∃ j, <[?k := _]> _ !! _ = _ ∨ _ => apply chan_inv in Hx; by apply index_frame end.
Defined.

(** ** State *)

Section life.
Context {P : Type} `{!PollerImpl P} `{!Registry P}.

(** A loop: the thread that made it, the channels it owns with its poller, and the
    descriptors and addresses of its own two channels. *)
Record Loop := mkLife {
  threadId_ : Z; channels : store; poller_ : P;
  timerfd_ : Z; timerfdChannel_ : Z; wakeupFd_ : Z; wakeupChannel_ : Z }.

(** [t_loopInThisThread] by thread, the loops by address, the open descriptors of
    the loops' own channels. *)
Record World := mkWorld { t_loopInThisThread : gmap Z Z; loops : gmap Z Loop; fds : gset Z }.

Definition newWorld : World := mkWorld ∅ ∅ ∅.

(** ** Operations *)

(** What [eventfd] or [timerfd_create] returned; a failure is fatal. *)
Definition create_fd (r : Z) : res Z := guard_or Fatal (0 <=? r);; Ok r.
Definition close_fd (fd : Z) (w : World) : World := mkWorld (t_loopInThisThread w) (loops w) (fds w ∖ {[fd]}).

(** An operation on a channel of the loop [this], by the thread [tid]. *)
Definition chan_step (this threadId tid : Z) (s : store * P) (o : cop) : res (store * P) :=
  let '(cs, p) := s in
  match o with
  | CNew a fd => Ok (<[a := newChannel fd]> cs, p)
  | CRemove a => c ← chan cs a; assertb (isNoneEvent c);;
      removeChannel this (threadId =? tid) this false [] None (<[a := setAdded false c]> cs) p a
  | _ => let a := op_addr o in c ← chan cs a;
      updateChannel this (threadId =? tid) this (<[a := setAdded true (chan_op o c)]> cs) p a
  end.

(** [EventLoop::hasChannel] *)
Definition loop_hasChannel (this threadId tid : Z) (cs : store) (p : P) (a : Z) : res bool :=
  assertb (this =? this);; guard_or Fatal (threadId =? tid);; hasChannel (registry p) cs a.

(** [Channel::~Channel] *)
Definition Channel_dtor (this threadId tid a : Z) (s : store * P) : res (store * P) :=
  let '(cs, p) := s in
  c ← chan cs a;
  assertb (negb (eventHandling_ c));;
  assertb (negb (addedToLoop_ c));;
  (if threadId =? tid then b ← loop_hasChannel this threadId tid cs p a; assertb (negb b) else Ok ());;
  Ok (delete a cs, p).

(** [EventLoop::EventLoop] by the thread [tid] at the address [this], with what the
    system calls returned and the addresses of the two channels. *)
Definition EventLoop_ctor (tid this tfd wfd ta wa : Z) (w : World) : res World :=
  let op := chan_step this tid tid in
  tfd ← create_fd tfd;
  s ← op (∅, p_new) (CNew ta tfd);
  s ← op s (CEnableReading ta);
  wfd ← create_fd wfd;
  s ← op s (CNew wa wfd);
  guard_or Fatal (bool_decide (t_loopInThisThread w !! tid = None));;
  '(cs, p) ← op s (CEnableReading wa);
  Ok (mkWorld (<[tid := this]> (t_loopInThisThread w)) (<[this := mkLife tid cs p tfd ta wfd wa]> (loops w))
        ({[tfd; wfd]} ∪ fds w)).

(** [EventLoop::~EventLoop] by the thread [tid]: its body, then the members
    [wakeupChannel_], [timerQueue_] (whose body does the same for its channel) and
    [poller_]. *)
Definition EventLoop_dtor (tid this : Z) (w : World) : res World :=
  l ← match loops w !! this with Some l => Ok l | None => Err OutOfBounds end;
  let op := chan_step this (threadId_ l) tid in
  s ← op (channels l, poller_ l) (CDisableAll (wakeupChannel_ l));
  s ← op s (CRemove (wakeupChannel_ l));
  let w := close_fd (wakeupFd_ l) w in
  let w := mkWorld (delete tid (t_loopInThisThread w)) (loops w) (fds w) in
  s ← Channel_dtor this (threadId_ l) tid (wakeupChannel_ l) s;
  s ← op s (CDisableAll (timerfdChannel_ l));
  s ← op s (CRemove (timerfdChannel_ l));
  let w := close_fd (timerfd_ l) w in
  s ← Channel_dtor this (threadId_ l) tid (timerfdChannel_ l) s;
  Ok (mkWorld (t_loopInThisThread w) (delete this (loops w)) (fds w)).

(** An operation on one of the client's channels. *)
Definition use (tid this : Z) (o : cop) (w : World) : res World :=
  l ← match loops w !! this with Some l => Ok l | None => Err OutOfBounds end;
  '(cs, p) ← chan_step this (threadId_ l) tid (channels l, poller_ l) o;
  Ok (mkWorld (t_loopInThisThread w)
        (<[this := mkLife (threadId_ l) cs p (timerfd_ l) (timerfdChannel_ l) (wakeupFd_ l) (wakeupChannel_ l)]> (loops w))
        (fds w)).

Inductive lop : Type :=
| Create (tid this tfd wfd ta wa : Z)
| Destroy (tid this : Z)
| Use (tid this : Z) (o : cop).

Definition life_step (w : World) (o : lop) : res World :=
  match o with
  | Create tid this tfd wfd ta wa => EventLoop_ctor tid this tfd wfd ta wa w
  | Destroy tid this => EventLoop_dtor tid this w
  | Use tid this o => use tid this o w
  end.

Fixpoint life_run (w : World) (l : list lop) : res World :=
  match l with [] => Ok w | o :: l => w ← life_step w o; life_run w l end.
End life.

Arguments Loop _ : clear implicits.
Arguments World _ : clear implicits.

(** ** The contract *)

(** A loop to its clients: its thread, its own two channels, and the state of all
    its channels as the contract of the pollers has it. *)
Record aloop := mkAL { al_tid : Z; al_tfd : Z; al_ta : Z; al_wfd : Z; al_wa : Z; al_chans : astate }.

(** Both own channels are registered, watched for reading. *)
Definition own (fd : Z) : achan := mkA fd kReadEvent (Some true).

(** A thread creates a loop when it has none, with two new descriptors; only that
    thread uses or destroys it, and clients leave the loop's own channels alone. *)
Definition life_spec (S : gmap Z aloop) (o : lop) : option (gmap Z aloop) :=
  match o with
  | Create tid this tfd wfd ta wa =>
      if decide (S !! this = None ∧ map_Forall (λ _ L, al_tid L ≠ tid) S
                 ∧ map_Forall (λ _ L, al_tfd L ≠ tfd ∧ al_wfd L ≠ tfd ∧ al_tfd L ≠ wfd ∧ al_wfd L ≠ wfd) S
                 ∧ 0 <= tfd ∧ 0 <= wfd ∧ tfd ≠ wfd ∧ ta ≠ wa)
      then Some (<[this := mkAL tid tfd ta wfd wa (<[wa := own wfd]> {[ta := own tfd]})]> S) else None
  | Destroy tid this =>
      L ← S !! this; if decide (al_tid L = tid) then Some (delete this S) else None
  | Use tid this o =>
      L ← S !! this;
      if decide (al_tid L = tid ∧ op_addr o ≠ al_ta L ∧ op_addr o ≠ al_wa L) then
        A ← spec_step (al_chans L) o;
        Some (<[this := mkAL (al_tid L) (al_tfd L) (al_ta L) (al_wfd L) (al_wa L) A]> S)
      else None
  end.

Fixpoint life_spec_run (S : gmap Z aloop) (l : list lop) : option (gmap Z aloop) :=
  match l with [] => Some S | o :: l => S ← life_spec S o; life_spec_run S l end.

(** ** Lemmas *)

Local Abbreviation step := Poller.step.

Section lemmas.
Context {P : Type} `{!PollerImpl P} `{!Registry P}.
Implicit Types (cs : store) (p : P) (A : astate) (S : gmap Z aloop) (w : World P).

(** In its own thread the loop's guards hold, and the operation is the poller's. *)
Lemma chan_step_own this tid (s : store * P) o : chan_step this tid tid s o = step s o.
Proof.
  destruct s as [cs p]. unfold chan_step, step, updateChannel, removeChannel, update, remove. rewrite !Z.eqb_refl. by destruct o.
Qed.

(** A channel that is not being handled. *)
Definition calm cs a : Prop := ∃ c, cs !! a = Some c ∧ eventHandling_ c = false.

Lemma framed cs cs' b (Q : Channel → Prop) :
  (∃ i, cs' !! b = setIndex i <$> cs !! b ∨ cs' !! b = cs !! b) → (∀ i c, Q c → Q (setIndex i c)) →
  (∃ c, cs !! b = Some c ∧ Q c) → ∃ c, cs' !! b = Some c ∧ Q c.
Proof. intros (i & [E|E]) HQ (c & Hc & Hq); rewrite E, Hc; simpl; eauto. Qed.

Lemma calm_set cs a c b : eventHandling_ c = false → calm cs b → calm (<[a := c]> cs) b.
Proof.
  intros Hc (d & Hd & He). destruct (decide (a = b)) as [<-|Hne].
  - exists c. by rewrite lookup_insert_eq.
  - exists d. by rewrite lookup_insert_ne.
Qed.

Lemma calm_step cs p o cs' p' b : step (cs, p) o = Ok (cs', p') → calm cs (op_addr o) ∨ (∃ a fd, o = CNew a fd) →
  calm cs b → calm cs' b.
Proof using Registry0.
  intros E Ho Hb.
  assert (Hu : ∀ a c, op_addr o = a → (∀ fd, o ≠ CNew a fd) → cs !! a = Some c → eventHandling_ c = false).
  { intros a c <- Hn Hc. destruct Ho as [(d & Hd & He)|(a & fd & ->)]; [congruence|]. by destruct (Hn fd). }
  destruct o as [a fd|a|a|a|a|a|a]; cbn [step op_addr] in E; [simplify_eq; by apply calm_set|..];
    unfold remove, update in E; res_inv; match goal with Hx : chan _ _ = Ok _ |- _ => apply chan_inv in Hx end;
    (eapply framed; [first [by eapply update_frame | by eapply remove_frame]|done|]; apply calm_set; [|done]; simpl; by eapply Hu).
Qed.

(** After [remove()] a calm channel may be destroyed. *)
Lemma removed_calm cs p a cs' p' : step (cs, p) (CRemove a) = Ok (cs', p') → calm cs a →
  ∃ c, cs' !! a = Some c ∧ eventHandling_ c = false ∧ addedToLoop_ c = false.
Proof using Registry0.
  intros E (c & Hc & He). cbn [step op_addr] in E. unfold remove in E. res_inv. apply chan_inv in H.
  eapply framed; [by eapply remove_frame|done|]. simplify_eq. eexists. rewrite lookup_insert_eq. split; [done|]. by split.
Qed.

(** [new Channel] and [enableReading] with a descriptor nobody registered. *)
Lemma adopt A cs p a fd : pok A cs p → A !! a = None → 0 <= fd → (∀ b y, A !! b = Some y → a_fd y ≠ fd) →
  ∃ cs1 p1 cs2 p2, step (cs, p) (CNew a fd) = Ok (cs1, p1) ∧ step (cs1, p1) (CEnableReading a) = Ok (cs2, p2)
    ∧ pok (<[a := own fd]> A) cs2 p2 ∧ calm cs2 a ∧ ∀ b, calm cs b → calm cs2 b.
Proof using Registry0.
  intros Hok Ha Hfd Hfree. set (A1 := <[a := mkA fd 0 None]> A).
  assert (E1 : spec_step A (CNew a fd) = Some A1) by (cbn [spec_step]; by rewrite decide_True).
  assert (E2 : spec_step A1 (CEnableReading a) = Some (<[a := own fd]> A)).
  { assert (HA : A1 !! a = Some (mkA fd 0 None)) by apply lookup_insert_eq.
    cbn [spec_step op_addr]. rewrite HA. cbn [mbind option_bind a_fd a_ev a_reg mask_op].
    rewrite decide_True; [unfold A1; by rewrite insert_insert_eq|]. split; [by left|].
    intros b y [[<- <-]|[Hne Hy]]%lookup_insert_Some Hf Hr; [done|]. by destruct (Hfree b y Hy). }
  destruct (step_refines A cs p _ _ Hok E1) as (cs1 & p1 & S1 & Hok1).
  destruct (step_refines A1 cs1 p1 _ _ Hok1 E2) as (cs2 & p2 & S2 & Hok2).
  assert (Hc : calm cs1 a).
  { cbn [step] in S1. simplify_eq. eexists. rewrite lookup_insert_eq. by split. }
  exists cs1, p1, cs2, p2. split_and!; try done; [by eapply calm_step; [exact S2|left|]|].
  intros b Hb. eapply calm_step; [exact S2|by left|]. eapply calm_step; [exact S1|right; eauto|done].
Qed.

(** [disableAll], [remove] and the destructor of a channel that reads. *)
Lemma retire this tid A cs p a fd : pok A cs p → A !! a = Some (own fd) → calm cs a →
  ∃ cs1 p1 cs2 p2, step (cs, p) (CDisableAll a) = Ok (cs1, p1) ∧ step (cs1, p1) (CRemove a) = Ok (cs2, p2)
    ∧ Channel_dtor this tid tid a (cs2, p2) = Ok (delete a cs2, p2)
    ∧ pok (delete a A) (delete a cs2) p2 ∧ ∀ b, b ≠ a → calm cs b → calm (delete a cs2) b.
Proof using Registry0.
  intros Hok Ha Hc. set (A1 := <[a := mkA fd 0 (Some false)]> A).
  assert (E1 : spec_step A (CDisableAll a) = Some A1).
  { cbn [spec_step op_addr]. rewrite Ha. cbn [mbind option_bind a_fd a_ev a_reg mask_op own]. rewrite decide_True; [done|].
    split; [by right|]. intros b y Hy Hf Hr. pose proof (registry_ok A cs p Hok) as Hch.
    by apply (ch_unique A (registry p) b a y (own fd)). }
  assert (E2 : spec_step A1 (CRemove a) = Some (delete a A)).
  { assert (HA : A1 !! a = Some (mkA fd 0 (Some false))) by apply lookup_insert_eq.
    cbn [spec_step]. rewrite HA. cbn [mbind option_bind a_reg a_ev]. rewrite decide_True by done.
    unfold A1. by rewrite delete_insert_eq. }
  destruct (step_refines A cs p _ _ Hok E1) as (cs1 & p1 & S1 & Hok1).
  destruct (step_refines A1 cs1 p1 _ _ Hok1 E2) as (cs2 & p2 & S2 & Hok2).
  assert (Hc1 : calm cs1 a) by (eapply calm_step; [exact S1|by left|done]).
  destruct (removed_calm _ _ _ _ _ S2 Hc1) as (c & Hc2 & Hh & Had).
  exists cs1, p1, cs2, p2. split_and!; try done.
  - unfold Channel_dtor, loop_hasChannel, hasChannel, chan. rewrite Hc2. cbn [mbind res_bind]. rewrite Hh, Had, !Z.eqb_refl.
    simpl. rewrite bool_decide_eq_false_2; [done|]. intros Hr. apply (registry_ok _ _ _ Hok2) in Hr as (x & Hx & _).
    by rewrite lookup_delete_eq in Hx.
  - eapply pok_store; [exact Hok2| |done|].
    + apply (pok_rel _ _ _) in Hok2. replace (delete a A) with (delete a (delete a A)) by apply delete_delete_eq.
      eapply rel_del; [exact Hok2|]. intros b Hb. by apply lookup_delete_ne.
    + intros b x d [Hne _]%lookup_delete_Some _. by rewrite lookup_delete_ne.
  - intros b Hb Hcb. assert (Hc2b : calm cs2 b).
    { eapply calm_step; [exact S2|by left|]. eapply calm_step; [exact S1|by left|done]. }
    destruct Hc2b as (d & Hd & He). exists d. by rewrite lookup_delete_ne.
Qed.
End lemmas.

(** ** The loops refine their contract *)

Section refinement.
Context {P : Type} `{!PollerImpl P} `{!Registry P}.
Implicit Types (S : gmap Z aloop) (w : World P).

Record loop_ok (X : aloop) (l : Loop P) : Prop := {
  o_tid : threadId_ l = al_tid X;
  o_timer : timerfd_ l = al_tfd X ∧ timerfdChannel_ l = al_ta X;
  o_wake : wakeupFd_ l = al_wfd X ∧ wakeupChannel_ l = al_wa X;
  o_poller : pok (al_chans X) (channels l) (poller_ l);
  o_own : al_ta X ≠ al_wa X ∧ al_chans X !! al_ta X = Some (own (al_tfd X)) ∧ al_chans X !! al_wa X = Some (own (al_wfd X));
  o_calm : calm (channels l) (al_ta X) ∧ calm (channels l) (al_wa X)
    ∧ ∀ a, is_Some (al_chans X !! a) → calm (channels l) a }.

Definition fd_of (X : aloop) (fd : Z) : Prop := fd = al_tfd X ∨ fd = al_wfd X.

(** Each loop keeps its contract; the thread-local pointers are those of the live
    loops; the open descriptors are theirs, each of one loop. *)
Record world_ok S w : Prop := {
  k_loops : ∀ i, option_Forall2 loop_ok (S !! i) (loops w !! i);
  k_slots : ∀ t i, t_loopInThisThread w !! t = Some i ↔ ∃ X, S !! i = Some X ∧ al_tid X = t;
  k_fds : ∀ fd, fd ∈ fds w ↔ ∃ i X, S !! i = Some X ∧ fd_of X fd;
  k_one : ∀ i j X Y fd, S !! i = Some X → S !! j = Some Y → fd_of X fd → fd_of Y fd → i = j }.

Lemma world_loop S w i X : world_ok S w → S !! i = Some X → ∃ l, loops w !! i = Some l ∧ loop_ok X l.
Proof. intros [K _ _ _] HX. specialize (K i). rewrite HX in K. inversion K; eauto. Qed.

(** What [Create] does, up to the check of the thread-local pointer and after it. *)
Lemma create_steps this tid tfd wfd ta wa : 0 <= tfd → 0 <= wfd → tfd ≠ wfd → ta ≠ wa →
  ∃ s1 s2 s3 cs p, chan_step this tid tid (∅, p_new (P := P)) (CNew ta tfd) = Ok s1
    ∧ chan_step this tid tid s1 (CEnableReading ta) = Ok s2 ∧ chan_step this tid tid s2 (CNew wa wfd) = Ok s3
    ∧ chan_step this tid tid s3 (CEnableReading wa) = Ok (cs, p)
    ∧ loop_ok (mkAL tid tfd ta wfd wa (<[wa := own wfd]> {[ta := own tfd]})) (mkLife tid cs p tfd ta wfd wa).
Proof using Registry0.
  intros Ht Hw Htw Ha. destruct (adopt ∅ ∅ p_new ta tfd pok_new) as (cs1 & p1 & cs2 & p2 & S1 & S2 & Hok & Hc & _); try done.
  destruct (adopt (<[ta := own tfd]> ∅) cs2 p2 wa wfd Hok) as (cs3 & p3 & cs4 & p4 & S3 & S4 & Hok2 & Hc2 & Hk); try done.
  { by rewrite lookup_insert_ne. }
  { intros b y [[<- <-]|[_ Hy]]%lookup_insert_Some; [done|by rewrite lookup_empty in Hy]. }
  exists (cs1, p1), (cs2, p2), (cs3, p3), cs4, p4. rewrite !chan_step_own. split_and!; try done. split; simpl; try done.
  - split_and!; [done| |by rewrite lookup_insert_eq]. rewrite lookup_insert_ne by done. by rewrite lookup_singleton_eq.
  - split_and!; auto. intros a [x [[<- _]|[_ [<- _]%lookup_singleton_Some]]%lookup_insert_Some]; auto.
Qed.

Lemma loop_create_ok S w tid this tfd wfd ta wa S' : world_ok S w → life_spec S (Create tid this tfd wfd ta wa) = Some S' →
  ∃ w', EventLoop_ctor tid this tfd wfd ta wa w = Ok w' ∧ world_ok S' w'.
Proof using Registry0.
  intros [K1 K2 K3 K4] E. cbn [life_spec] in E. case_decide as Hd; [|done]. injection E as <-.
  destruct Hd as (Hn & Htid & Hfd & Ht & Hw & Htw & Ha).
  destruct (create_steps this tid tfd wfd ta wa Ht Hw Htw Ha) as (s1 & s2 & s3 & cs & p & E1 & E2 & E3 & E4 & Hok).
  unfold EventLoop_ctor, create_fd. rewrite (guard_or_true _ (0 <=? tfd)), (guard_or_true _ (0 <=? wfd)) by lia.
  cbn [mbind res_bind]. rewrite E1. cbn [mbind res_bind]. rewrite E2. cbn [mbind res_bind]. rewrite E3. cbn [mbind res_bind].
  rewrite bool_decide_eq_true_2; cycle 1.
  { apply eq_None_not_Some. intros [i (X & HX & Hx)%K2]. by destruct (Htid i X HX). }
  cbn [guard_or mbind res_bind]. rewrite E4. cbn [mbind res_bind]. eexists. split; [reflexivity|]. split; cbn [loops fds t_loopInThisThread].
  - intros i. destruct (decide (this = i)) as [<-|Hne]; [rewrite !lookup_insert_eq; by constructor|].
    by rewrite !lookup_insert_ne.
  - intros t i. destruct (decide (tid = t)) as [<-|Hne].
    + rewrite lookup_insert_eq. split; [intros [= <-]; eexists; by rewrite lookup_insert_eq|].
      intros (X & [[<- <-]|[_ HX]]%lookup_insert_Some & Hx); [done|]. by destruct (Htid i X HX).
    + rewrite lookup_insert_ne, K2 by done. split.
      * intros (X & HX & Hx). exists X. rewrite lookup_insert_ne; [done|]. congruence.
      * intros (X & [[<- <-]|[_ HX]]%lookup_insert_Some & Hx); [done|eauto].
  - intros fd. rewrite elem_of_union, K3. split.
    + intros [Hf|(i & X & HX & Hf)].
      * exists this. eexists. rewrite lookup_insert_eq. split; [done|]. unfold fd_of. simpl. set_solver.
      * exists i, X. rewrite lookup_insert_ne by congruence. done.
    + intros (i & X & [[<- <-]|[_ HX]]%lookup_insert_Some & Hf); [left; unfold fd_of in Hf; simpl in Hf; set_solver|eauto].
  - intros i j X Y fd [[<- <-]|[_ HX]]%lookup_insert_Some [[<- <-]|[_ HY]]%lookup_insert_Some Hx Hy; [done|..|by eapply K4];
      exfalso; unfold fd_of in *; simpl in *;
      [specialize (Hfd j Y HY)|specialize (Hfd i X HX)]; naive_solver congruence.
Qed.

Lemma loop_destroy_ok S w tid this S' : world_ok S w → life_spec S (Destroy tid this) = Some S' →
  ∃ w', EventLoop_dtor tid this w = Ok w' ∧ world_ok S' w'.
Proof using Registry0.
  intros Hw E. cbn [life_spec] in E. destruct (S !! this) as [X|] eqn:HX; simpl in E; [|done].
  case_decide as Htid; [|done]. injection E as <-. destruct (world_loop _ _ _ _ Hw HX) as (l & Hl & Hok).
  destruct Hok as [O1 [O2 O2'] [O3 O3'] O4 (O5 & O5' & O5'') (O6 & O6' & O7)].
  unfold EventLoop_dtor. rewrite Hl. cbn [mbind res_bind]. rewrite O1, Htid, O2, O2', O3, O3'. cbv zeta. rewrite !chan_step_own.
  destruct (retire this tid _ _ _ _ _ O4 O5'' O6') as (cs1 & p1 & cs2 & p2 & S1 & S2 & S3 & Hok2 & Hk).
  rewrite S1. cbn [mbind res_bind]. rewrite chan_step_own, S2. cbn [mbind res_bind]. rewrite S3. cbn [mbind res_bind].
  destruct (retire this tid (delete (al_wa X) (al_chans X)) (delete (al_wa X) cs2) p2 (al_ta X) (al_tfd X) Hok2)
    as (cs3 & p3 & cs4 & p4 & S4 & S5 & S6 & _ & _); [by rewrite lookup_delete_ne|by apply Hk|].
  rewrite chan_step_own, S4. cbn [mbind res_bind]. rewrite chan_step_own, S5. cbn [mbind res_bind]. rewrite S6. cbn [mbind res_bind].
  eexists. split; [reflexivity|]. destruct Hw as [K1 K2 K3 K4]. split; cbn [loops fds t_loopInThisThread close_fd].
  - intros i. destruct (decide (this = i)) as [<-|Hne]; [rewrite !lookup_delete_eq; constructor|]. by rewrite !lookup_delete_ne.
  - intros t i. rewrite lookup_delete_Some, K2. split.
    + intros (Hne & Y & HY & Hy). exists Y. rewrite lookup_delete_ne; [done|]. congruence.
    + intros (Y & [Hne HY]%lookup_delete_Some & Hy). split; [|eauto]. intros <-. apply Hne.
      assert (E1 : t_loopInThisThread w !! tid = Some this) by (apply K2; eauto).
      assert (E2 : t_loopInThisThread w !! tid = Some i) by (apply K2; eauto). congruence.
  - intros fd. rewrite !elem_of_difference, !elem_of_singleton, K3. split.
    + intros (((i & Y & HY & Hy) & N1) & N2). exists i, Y. rewrite lookup_delete_ne; [done|]. intros <-. unfold fd_of in Hy. naive_solver congruence.
    + intros (i & Y & [Hne HY]%lookup_delete_Some & Hy). split_and!; [by exists i, Y|..]; intros ->; apply Hne;
        eapply (K4 this i X Y); try done; unfold fd_of; auto.
  - intros i j X1 X2 fd [_ H1]%lookup_delete_Some [_ H2]%lookup_delete_Some. by eapply K4.
Qed.

(** A channel operation concerns its own channel, which must exist unless it is new. *)
Lemma spec_step_frame A o A' : spec_step A o = Some A' →
  (∀ b, b ≠ op_addr o → A' !! b = A !! b) ∧ (is_Some (A !! op_addr o) ∨ ∃ a fd, o = CNew a fd).
Proof.
  intros E. destruct o as [a fd|a|a|a|a|a|a]; cbn [spec_step op_addr] in *;
    [case_decide; simplify_eq; split; [intros b Hb; by rewrite lookup_insert_ne|eauto]|..];
    destruct (A !! a) as [x|] eqn:Ex; cbn [mbind option_bind] in E; try done; case_decide; try done; injection E as <-;
    (split; [intros b Hb; first [by rewrite lookup_insert_ne | by rewrite lookup_delete_ne]|left; eauto]).
Qed.

(** One loop changes and keeps its thread and its own descriptors. *)
Lemma world_upd S w i X X' l' : world_ok S w → S !! i = Some X → loop_ok X' l' →
  al_tid X' = al_tid X → al_tfd X' = al_tfd X → al_wfd X' = al_wfd X →
  world_ok (<[i := X']> S) (mkWorld (t_loopInThisThread w) (<[i := l']> (loops w)) (fds w)).
Proof.
  intros [K1 K2 K3 K4] HX Hok Et Ef Ew.
  assert (Hto : ∀ j Y, <[i := X']> S !! j = Some Y → ∃ Z, S !! j = Some Z ∧ al_tid Z = al_tid Y ∧ ∀ fd, fd_of Z fd ↔ fd_of Y fd).
  { unfold fd_of. intros j Y [[<- <-]|[_ HY]]%lookup_insert_Some; [exists X; by rewrite Et, Ef, Ew|by exists Y]. }
  assert (Hfrom : ∀ j Y, S !! j = Some Y → ∃ Z, <[i := X']> S !! j = Some Z ∧ al_tid Z = al_tid Y ∧ ∀ fd, fd_of Z fd ↔ fd_of Y fd).
  { unfold fd_of. intros j Y HY. destruct (decide (i = j)) as [<-|Hne].
    - exists X'. rewrite lookup_insert_eq. simplify_eq. by rewrite Et, Ef, Ew.
    - exists Y. by rewrite lookup_insert_ne. }
  split; cbn [loops fds t_loopInThisThread].
  - intros j. destruct (decide (i = j)) as [<-|Hne]; [rewrite !lookup_insert_eq; by constructor|]. by rewrite !lookup_insert_ne.
  - intros t j. rewrite K2. split; intros (Y & HY & Hy); [destruct (Hfrom j Y HY) as (Z & HZ & Ez & _)|destruct (Hto j Y HY) as (Z & HZ & Ez & _)];
      exists Z; (split; [done|congruence]).
  - intros fd. rewrite K3. split; intros (j & Y & HY & Hy); [destruct (Hfrom j Y HY) as (Z & HZ & _ & Ez)|destruct (Hto j Y HY) as (Z & HZ & _ & Ez)];
      exists j, Z; (split; [done|by apply Ez]).
  - intros j k Y1 Y2 fd H1 H2 F1 F2. destruct (Hto j Y1 H1) as (Z1 & HZ1 & _ & E1). destruct (Hto k Y2 H2) as (Z2 & HZ2 & _ & E2).
    eapply (K4 j k Z1 Z2 fd); try done; [by apply E1|by apply E2].
Qed.

Lemma loop_use_ok S w tid this o S' : world_ok S w → life_spec S (Use tid this o) = Some S' →
  ∃ w', use tid this o w = Ok w' ∧ world_ok S' w'.
Proof using Registry0.
  intros Hw E. cbn [life_spec] in E. destruct (S !! this) as [X|] eqn:HX; cbn [mbind option_bind] in E; [|done].
  case_decide as Hd; [|done]. destruct Hd as (Htid & Nt & Nw). destruct (spec_step (al_chans X) o) as [A|] eqn:EA; [|done].
  injection E as <-. destruct (world_loop _ _ _ _ Hw HX) as (l & Hl & Hok).
  destruct Hok as [O1 [O2 O2'] [O3 O3'] O4 (O5 & O5' & O5'') (O6 & O6' & O7)].
  destruct (step_refines _ _ _ _ _ O4 EA) as (cs & p & E & Hok). destruct (spec_step_frame _ _ _ EA) as [Hf Hex].
  unfold use. rewrite Hl. cbn [mbind res_bind]. rewrite O1, Htid, chan_step_own, E. cbn [mbind res_bind].
  assert (Hcalm : ∀ b, calm (channels l) b → calm cs b) by (intros b; eapply calm_step; [exact E|]; destruct Hex; auto).
  assert (Hlo : loop_ok (mkAL tid (al_tfd X) (al_ta X) (al_wfd X) (al_wa X) A)
    (mkLife tid cs p (timerfd_ l) (timerfdChannel_ l) (wakeupFd_ l) (wakeupChannel_ l))).
  { split; simpl; try done.
    - split_and!; [done|by rewrite Hf..].
    - split_and!; [by auto..|]. intros a Ha. destruct (decide (a = op_addr o)) as [->|Hne].
      + destruct Hex as [Hs|(a & fd & ->)]; [by apply Hcalm, O7|]. cbn [Poller.step] in E. simplify_eq. simpl.
        eexists. rewrite lookup_insert_eq. by split.
      + apply Hcalm, O7. by rewrite <-Hf. }
  eexists. split; [reflexivity|]. by eapply world_upd.
Qed.

Lemma life_step_ok S w o S' : world_ok S w → life_spec S o = Some S' → ∃ w', life_step w o = Ok w' ∧ world_ok S' w'.
Proof using Registry0. destruct o; eauto using loop_create_ok, loop_destroy_ok, loop_use_ok. Qed.

Lemma life_run_ok S w l S' : world_ok S w → life_spec_run S l = Some S' → ∃ w', life_run w l = Ok w' ∧ world_ok S' w'.
Proof using Registry0.
  revert S w. induction l as [|o l IH]; intros S w Hw E; cbn [life_run life_spec_run] in *; [simplify_eq; eauto|].
  destruct (life_spec S o) as [S1|] eqn:E1; cbn [mbind option_bind] in E; [|done].
  destruct (life_step_ok _ _ _ _ Hw E1) as (w1 & -> & Hw1). cbn [mbind res_bind]. by eapply IH.
Qed.

Lemma new_world_ok : world_ok ∅ (newWorld (P := P)).
Proof.
  split; simpl.
  - intros i. rewrite !lookup_empty. constructor.
  - intros t i. rewrite lookup_empty. split; [done|]. by intros (X & HX & _).
  - intros fd. split; [set_solver|]. by intros (i & X & HX & _).
  - by intros i j X Y fd HX.
Qed.
End refinement.

(** ** Properties *)

(** C9: any number of threads creating, using and destroying event loops, each
    thread at most one at a time, over either poller: no assertion fails and no
    thread check is fatal, from the first registration inside the constructor to
    the last channel destroyed; a thread's pointer is set exactly while it has a
    loop; each loop's poller watches its own two channels for reading and exactly the
    channels its clients registered; and the descriptors open are those of the
    live loops, so that each is closed once, by its own loop. *)
Theorem loop_lifetime (P : Type) `{!PollerImpl P} `{!Registry P} l S : life_spec_run ∅ l = Some S →
  ∃ w : World P, life_run newWorld l = Ok w
    ∧ (∀ t i, t_loopInThisThread w !! t = Some i ↔ ∃ X, S !! i = Some X ∧ al_tid X = t)
    ∧ (∀ i, is_Some (loops w !! i) ↔ is_Some (S !! i))
    ∧ (∀ i X, S !! i = Some X → ∃ lp, loops w !! i = Some lp ∧ threadId_ lp = al_tid X
         ∧ watched (poller_ lp) (al_tfd X) = Some (kReadEvent, al_ta X)
         ∧ watched (poller_ lp) (al_wfd X) = Some (kReadEvent, al_wa X)
         ∧ ∀ fd ev a, watched (poller_ lp) fd = Some (ev, a) ↔ awatched (al_chans X) fd ev a)
    ∧ (∀ fd, fd ∈ fds w ↔ ∃ i X, S !! i = Some X ∧ (fd = al_tfd X ∨ fd = al_wfd X)).
Proof.
  intros E. destruct (life_run_ok ∅ newWorld l S new_world_ok E) as (w & Hr & Hw). exists w.
  split; [done|]. pose proof Hw as [K1 K2 K3 K4]. split_and!; [done| | |done].
  - intros i. specialize (K1 i). by destruct K1.
  - intros i X HX. destruct (world_loop _ _ _ _ Hw HX) as (lp & Hl & [O1 O2 O3 O4 (O5 & O5' & O5'') O6]).
    exists lp. split_and!; [done|done|apply (pok_watched _ _ _ _ _ _ O4); by eexists..|]. intros fd ev a. by apply pok_watched with (cs := channels lp).
Qed.

(** Two threads, each with a loop; the first registers a connection, removes it,
    and destroys its loop. *)
Definition life_sample : list lop :=
  [Create 1 1000 3 4 1001 1002; Create 2 2000 5 6 2001 2002; Use 1 1000 (CNew 1500 9); Use 1 1000 (CEnableReading 1500);
   Use 1 1000 (CDisableAll 1500); Use 1 1000 (CRemove 1500); Destroy 1 1000; Create 1 1000 3 7 1001 1002].

Lemma loop_lifetime_witness : ∃ S (w : World EPollPoller.EPoll) (w' : World PollPoller.Poll),
  life_spec_run ∅ life_sample = Some S ∧ life_run newWorld life_sample = Ok w ∧ life_run newWorld life_sample = Ok w'
  ∧ t_loopInThisThread w !! 1 = Some 1000 ∧ fds w = {[3; 5; 6; 7]}.
Proof.
  eexists. destruct (loop_lifetime EPollPoller.EPoll life_sample _ ltac:(vm_compute; reflexivity)) as (w & Hw & _).
  destruct (loop_lifetime PollPoller.Poll life_sample _ ltac:(vm_compute; reflexivity)) as (w' & Hw' & _).
  exists w, w'. split; [vm_compute; reflexivity|]. split; [exact Hw|]. split; [exact Hw'|].
  vm_compute in Hw. injection Hw as <-. split; vm_compute; reflexivity.
Defined.

(** One loop per thread, and that thread's alone: a second loop in a thread that
    has one, the destructor in another thread, and a registration from another
    thread all end in [LOG_FATAL]. *)
Theorem loop_thread_bound (P : Type) `{!PollerImpl P} `{!Registry P} l S (w : World P) tid this X :
  life_spec_run ∅ l = Some S → life_run newWorld l = Ok w → S !! this = Some X →
  (∀ other tfd wfd ta wa, 0 <= tfd → 0 <= wfd → tfd ≠ wfd → ta ≠ wa →
     life_step w (Create (al_tid X) other tfd wfd ta wa) = Err Fatal)
  ∧ (tid ≠ al_tid X → life_step w (Destroy tid this) = Err Fatal
     ∧ ∀ a, is_Some (al_chans X !! a) → life_step w (Use tid this (CEnableReading a)) = Err Fatal).
Proof.
  intros E Hr HX. destruct (life_run_ok ∅ newWorld l S new_world_ok E) as (w0 & Hr0 & Hw).
  assert (w0 = w) as -> by congruence.
  destruct (world_loop _ _ _ _ Hw HX) as (lp & Hl & [O1 [O2 O2'] [O3 O3'] O4 _ (O6 & (c & Hc & _) & O7)]). split.
  - intros other tfd wfd ta wa Ht Hwf Htw Ha. cbn [life_step]. unfold EventLoop_ctor, create_fd.
    rewrite (guard_or_true _ (0 <=? tfd)), (guard_or_true _ (0 <=? wfd)) by lia. cbn [mbind res_bind].
    destruct (create_steps (P := P) other (al_tid X) tfd wfd ta wa Ht Hwf Htw Ha) as (s1 & s2 & s3 & cs & p & -> & S2 & S3 & _).
    cbn [mbind res_bind]. rewrite S2. cbn [mbind res_bind]. rewrite S3. cbn [mbind res_bind]. rewrite bool_decide_eq_false_2; [done|].
    assert (E1 : t_loopInThisThread w !! al_tid X = Some this) by (apply (k_slots _ _ Hw); eauto). by rewrite E1.
  - intros Hne. apply Z.eqb_neq in Hne. rewrite Z.eqb_sym in Hne. cbn [life_step]. unfold EventLoop_dtor, use. rewrite Hl. cbn [mbind res_bind].
    rewrite O1, O3'. cbv zeta. unfold chan_step, updateChannel. rewrite Hne, !Z.eqb_refl. cbn [op_addr]. split.
    + unfold chan. rewrite Hc. done.
    + intros a (d & Hd & _)%O7. unfold chan. rewrite Hd. done.
Qed.
