(* ===== verification/EventLoopThread.v ===== *)
(** * Loop threads (fishnet/net/event_loop_thread.h, event_loop_thread.cc,
    event_loop_thread_pool.h, event_loop_thread_pool.cc)

    The thread that owns a loop, as the interleaving of that thread and of the
    one that starts and destroys it, and the pool that hands loops out. *)

From S2P Require Import Prelude Printf.
Local Open Scope Z_scope.

(** ** EventLoopThread *)

Module EventLoopThread.

(** The thread: not started, constructing its loop and running the
    initialisation callback, between publishing [loop_] and calling [loop()],
    in [loop()], done. *)
Inductive thread_pc : Type := TNotStarted | TInit | TPublished | TLooping | TExited.

(** The owner: before [startLoop], in [cond_.wait()], holding the loop, in
    [thread_.join()] in the destructor, past the destructor. *)
Inductive owner_pc : Type := ONew | OWaiting | OHasLoop | OJoining | OGone.

(** [loop_set]: [loop_ != NULL]; [quit_] is the loop's. *)
Record state := mkState {
  thread : thread_pc; owner : owner_pc; loop_set : bool; exiting_ : bool; quit_ : bool }.

Definition init : state := mkState TNotStarted ONew false false false.

(** The destructor up to [join]: it reads [loop_] without the lock. *)
Definition destroy (s : state) : state :=
  if loop_set s then mkState (thread s) OJoining (loop_set s) true true
  else mkState (thread s) OGone (loop_set s) true (quit_ s).

Inductive step : state → state → Prop :=
(* startLoop: assert(!thread_.started()), start, wait for loop_, return it *)
| t_start s : owner s = ONew → thread s = TNotStarted →
    step s (mkState TInit OWaiting (loop_set s) (exiting_ s) (quit_ s))
| t_return s : owner s = OWaiting → loop_set s = true →
    step s (mkState (thread s) OHasLoop (loop_set s) (exiting_ s) (quit_ s))
(* threadFunc *)
| t_publish s : thread s = TInit →
    step s (mkState TPublished (owner s) true (exiting_ s) (quit_ s))
| t_loop s : thread s = TPublished →   (* EventLoop::loop: quit_ = false *)
    step s (mkState TLooping (owner s) (loop_set s) (exiting_ s) false)
| t_exit s : thread s = TLooping → quit_ s = true →
    step s (mkState TExited (owner s) false (exiting_ s) (quit_ s))
(* the user of the loop asks it to quit *)
| t_quit s : owner s = OHasLoop → thread s ≠ TExited →
    step s (mkState (thread s) (owner s) (loop_set s) (exiting_ s) true)
(* ~EventLoopThread *)
| t_destroy s : owner s = ONew ∨ owner s = OHasLoop → step s (destroy s)
| t_joined s : owner s = OJoining → thread s = TExited →
    step s (mkState (thread s) OGone (loop_set s) (exiting_ s) (quit_ s)).

Record inv (s : state) : Prop := {
  i_set : loop_set s = match thread s with TPublished | TLooping => true | _ => false end;
  i_run : owner s = OHasLoop ∨ owner s = OJoining → thread s = TPublished ∨ thread s = TLooping ∨ thread s = TExited;
  i_new : thread s = TNotStarted → owner s = ONew ∨ owner s = OGone;
  i_gone : owner s = OGone → thread s = TNotStarted ∨ thread s = TExited;
  i_start : owner s = ONew → thread s = TNotStarted }.

Lemma thread_inv_step s s' : inv s → step s s' → inv s'.
Proof.
  intros [H1 H2 H3 H4 H5] Hs.
  destruct Hs; unfold destroy in *; try destruct (loop_set s) eqn:?;
    (split; simpl in *; destruct (thread s) eqn:?, (owner s) eqn:?; naive_solver).
Qed.

Lemma thread_inv_reach s : rtc step init s → inv s.
Proof.
  assert (Hi : inv init) by by split; naive_solver.
  intros Hs. revert Hi. induction Hs; eauto using thread_inv_step.
Qed.


(** The runs used below: start, publish, return, then the destructor. *)
Definition racing : state := mkState TLooping OJoining true true false.

Lemma racing_reach : rtc step init racing.
Proof.
  eapply rtc_l; [by apply t_start|]. eapply rtc_l; [by apply t_publish|].
  eapply rtc_l; [by apply t_return|]. eapply rtc_l; [apply t_destroy; by right|].
  by apply rtc_once, t_loop.
Qed.


(** The destructor can wait forever: when it runs after [startLoop] has
    returned and before the thread has entered [loop()], its [quit()] is undone
    by the [quit_ = false] at the start of [loop()], and from then on the owner
    stays in [join] and the loop goes on, whatever happens. *)
Theorem destructor_can_hang :
  ∃ s, rtc step init s
       ∧ ∀ s', rtc step s s' → owner s' = OJoining ∧ thread s' = TLooping ∧ quit_ s' = false.
Proof.
  exists racing. split; [exact racing_reach|]. intros s' Hs.
  assert (Hr : s' = racing); [|by subst].
  remember racing as r eqn:Er. induction Hs as [|x y z Hxy _ IH]; [done|]. subst.
  exfalso. unfold racing in Hxy. inversion Hxy; simpl in *; naive_solver.
Qed.
End EventLoopThread.

(** ** EventLoopThreadPool *)

Module EventLoopThreadPool.

(** Loops are numbers: [0] is the base loop, [i + 1] the loop of the [i]-th
    thread. [threads_] holds the names of the threads; [inits] records the loops
    the initialisation callback was called with. *)
Record Pool := mkPool {
  name_ : bytes; started_ : bool; numThreads_ : Z; next_ : Z;
  threads_ : list bytes; loops_ : list Z; inits : list Z }.

Definition baseLoop_ : Z := 0.
Definition newPool (nameArg : bytes) : Pool := mkPool nameArg false 0 0 [] [] [].
Definition setThreadNum (n : Z) (p : Pool) : Pool :=
  mkPool (name_ p) (started_ p) n (next_ p) (threads_ p) (loops_ p) (inits p).

(** The name of the [i]-th thread, printed into [name_.size() + 32] bytes. *)
Definition thread_name (name : bytes) (i : Z) : bytes := snprintf (length name + 32) (name ++ dec i).

(** [new EventLoopThread{cb, buf}] and [startLoop], whose thread calls [cb] on
    its loop. *)
Definition start_thread (cb : bool) (p : Pool) (i : Z) : Pool :=
  mkPool (name_ p) (started_ p) (numThreads_ p) (next_ p)
    (threads_ p ++ [thread_name (name_ p) i]) (loops_ p ++ [i + 1])
    (if cb then inits p ++ [i + 1] else inits p).

Definition start (cb : bool) (p : Pool) : res Pool :=
  assertb (negb (started_ p));;
  let p := mkPool (name_ p) true (numThreads_ p) (next_ p) (threads_ p) (loops_ p) (inits p) in
  let p := foldl (start_thread cb) p (seqZ 0 (numThreads_ p)) in
  Ok (if (numThreads_ p =? 0) && cb
      then mkPool (name_ p) (started_ p) (numThreads_ p) (next_ p) (threads_ p) (loops_ p)
             (inits p ++ [baseLoop_])
      else p).

Definition at_loop (p : Pool) (i : Z) : res Z :=
  if 0 <=? i then match loops_ p !! Z.to_nat i with Some l => Ok l | None => Err OutOfBounds end
  else Err OutOfBounds.

Definition getNextLoop (p : Pool) : res (Z * Pool) :=
  assertb (started_ p);;
  if bool_decide (loops_ p = []) then Ok (baseLoop_, p) else
  loop ← at_loop p (next_ p);
  let next := next_ p + 1 in
  let next := if zlen (loops_ p) <=? u64 next then 0 else next in
  Ok (loop, mkPool (name_ p) (started_ p) (numThreads_ p) next (threads_ p) (loops_ p) (inits p)).

Definition getLoopForHash (p : Pool) (hashCode : Z) : res Z :=
  if bool_decide (loops_ p = []) then Ok baseLoop_ else at_loop p (hashCode mod zlen (loops_ p)).

Definition getAllLoops (p : Pool) : res (list Z) :=
  assertb (started_ p);;
  if bool_decide (loops_ p = []) then Ok [baseLoop_] else Ok (loops_ p).

(** [k] calls of [getNextLoop]. *)
Fixpoint getNextLoops (p : Pool) (k : nat) : res (list Z * Pool) :=
  match k with
  | O => Ok ([], p)
  | S k => '(l, p) ← getNextLoop p; '(ls, p) ← getNextLoops p k; Ok (l :: ls, p)
  end.

Lemma foldl_start cb p l :
  foldl (start_thread cb) p l =
  mkPool (name_ p) (started_ p) (numThreads_ p) (next_ p)
    (threads_ p ++ (thread_name (name_ p) <$> l)) (loops_ p ++ (Z.succ <$> l))
    (if cb then inits p ++ (Z.succ <$> l) else inits p).
Proof.
  revert p. induction l as [|i l IH]; intros [nm st n nx th lo ins]; simpl.
  { rewrite !app_nil_r. by destruct cb. }
  rewrite IH. simpl. rewrite <-!app_assoc. simpl. destruct cb; simpl; [|done].
  by rewrite <-app_assoc.
Qed.

(** The state of a started pool of [n] threads. *)
Definition pool_at (name : bytes) (cb : bool) (n next : Z) : Pool :=
  mkPool name true n next (thread_name name <$> seqZ 0 n) (seqZ 1 n)
    (if cb then (if n =? 0 then [baseLoop_] else seqZ 1 n) else []).

Lemma start_pool name cb n : start cb (setThreadNum n (newPool name)) = Ok (pool_at name cb n 0).
Proof.
  unfold start. simpl. rewrite foldl_start. simpl.
  assert (E : Z.succ <$> seqZ 0 n = seqZ 1 n).
  { rewrite <-(fmap_add_seqZ 1 0). apply list_fmap_ext. intros. lia. }
  rewrite E. unfold pool_at. destruct (n =? 0) eqn:En, cb; simpl; try done.
  apply Z.eqb_eq in En as ->. done.
Qed.

Lemma at_loop_pool name cb n next i : 0 <= i < n → at_loop (pool_at name cb n next) i = Ok (i + 1).
Proof.
  intros H. unfold at_loop. rewrite (proj2 (Z.leb_le 0 i)) by lia. simpl.
  rewrite lookup_seqZ_lt by lia. f_equal. lia.
Qed.

Lemma seqZ_not_nil m n : 0 < n → seqZ m n ≠ [].
Proof. intros H. rewrite seqZ_cons by done. done. Qed.

Lemma zlen_seqZ m n : 0 <= n → zlen (seqZ m n) = n.
Proof. intros. unfold zlen. rewrite length_seqZ. lia. Qed.

Lemma getNextLoop_pool name cb n next : 0 <= next < n → n < 2 ^ 31 →
  getNextLoop (pool_at name cb n next) = Ok (next + 1, pool_at name cb n ((next + 1) mod n)).
Proof.
  intros H Hn. unfold getNextLoop. simpl. rewrite bool_decide_eq_false_2 by (apply seqZ_not_nil; lia).
  rewrite at_loop_pool by lia. simpl. rewrite zlen_seqZ, wrapu_small by lia.
  destruct (n <=? next + 1) eqn:E; do 3 f_equal; unfold pool_at; f_equal.
  - assert (next + 1 = n) as -> by lia. by rewrite Z_mod_same_full.
  - rewrite Z.mod_small; lia.
Qed.

Lemma getNextLoops_pool name cb n next k : 0 <= next < n → n < 2 ^ 31 →
  getNextLoops (pool_at name cb n next) k =
  Ok ((λ i, (next + i) mod n + 1) <$> seqZ 0 (Z.of_nat k), pool_at name cb n ((next + Z.of_nat k) mod n)).
Proof.
  revert next. induction k as [|k IH]; intros next H Hn; cbn [getNextLoops].
  { rewrite Z.add_0_r, Z.mod_small by lia. done. }
  rewrite getNextLoop_pool by lia. simpl. pose proof (Z.mod_pos_bound (next + 1) n).
  rewrite IH by lia. simpl. rewrite (seqZ_cons 0 (Z.of_nat (S k))) by lia. rewrite fmap_cons.
  do 2 f_equal; [|f_equal; rewrite Zplus_mod_idemp_l; f_equal; lia].
  f_equal; [rewrite Z.add_0_r, Z.mod_small; lia|].
  replace (Z.pred (Z.of_nat (S k))) with (Z.of_nat k) by lia.
  change (Z.succ 0) with (1 + 0). rewrite <-(fmap_add_seqZ 1 0), <-list_fmap_compose.
  apply list_fmap_ext. intros i x _. simpl. rewrite Zplus_mod_idemp_l. do 2 f_equal. lia.
Qed.

Lemma dec_length_i32 i : 0 <= i < 2 ^ 31 → (length (dec i) <= 10)%nat.
Proof.
  intros H. unfold dec. rewrite (proj2 (Z.ltb_ge i 0)) by lia.
  apply (length_dec_nonneg_le 10); lia.
Qed.

(** A pool started with [n] threads names them after itself with the
    numbers [0 .. n-1] in full (the buffer is large enough), calls the
    initialisation callback once on each loop, and then hands the loops out
    round robin, whatever the number of calls; the same hash code always gives
    the same loop. *)
Theorem pool_round_robin name cb n k h :
  0 < n < 2 ^ 31 → 0 <= h →
  ∃ p, start cb (setThreadNum n (newPool name)) = Ok p
  ∧ threads_ p = (λ i, name ++ dec i) <$> seqZ 0 n
  ∧ getAllLoops p = Ok (seqZ 1 n)
  ∧ (cb = true → inits p = seqZ 1 n)
  ∧ ∃ p', getNextLoops p k = Ok ((λ i, i mod n + 1) <$> seqZ 0 (Z.of_nat k), p')
  ∧ getLoopForHash p' h = Ok (h mod n + 1).
Proof.
  intros Hn Hh. exists (pool_at name cb n 0). split; [apply start_pool|]. split_and!.
  - simpl. apply list_fmap_ext. intros i x Hx%list_elem_of_lookup_2%elem_of_seqZ.
    unfold thread_name, snprintf. apply take_ge. rewrite length_app.
    pose proof (dec_length_i32 x). lia.
  - unfold getAllLoops. simpl. by rewrite bool_decide_eq_false_2 by (apply seqZ_not_nil; lia).
  - intros ->. simpl. by rewrite (proj2 (Z.eqb_neq n 0)) by lia.
  - eexists. split; [by rewrite getNextLoops_pool by lia|].
    unfold getLoopForHash. simpl. rewrite bool_decide_eq_false_2 by (apply seqZ_not_nil; lia).
    rewrite zlen_seqZ by lia. pose proof (Z.mod_pos_bound h n). by rewrite at_loop_pool by lia.
Qed.

Lemma pool_round_robin_witness :
  ∃ p p', start true (setThreadNum 3 (newPool (str "srv"))) = Ok p
  ∧ getNextLoops p 5 = Ok ([1; 2; 3; 1; 2], p') ∧ getLoopForHash p' 7 = Ok 2.
Proof.
  destruct (pool_round_robin (str "srv") true 3 5 7) as (p & H1 & _ & _ & _ & p' & H2 & H3); [lia..|].
  exists p, p'. split; [exact H1|]. split; [exact H2|]. exact H3.
Defined.
End EventLoopThreadPool.
