(* ===== verification/Zjson.v ===== *)
(** * JSON values, parser and printer (fishnet/utils/zjson/zjson.hpp)

    Every operation of [Json]. The text being parsed is what precedes its NUL;
    reading at the end gives the NUL. *)

From S2P Require Import Prelude Printf Double.
#[local] Set Warnings "-register-all".
Local Open Scope Z_scope.

(** ** Types *)

Inductive Type_ : Set := kNull | kBoolean | kNumber | kString | kArray | kObject.

Inductive Ret : Set :=
| kParseOk
| kParseInvalidValue
| kParseExpectValue
| kParseRootNotSingular
| kParseNumberTooBig
| kParseMissQuotationMark
| kParseInvalidStringEscape
| kParseInvalidStringChar
| kParseInvalidUnicodeHex
| kParseInvalidUnicodeSurrogate
| kParseMissCommaOrSquareBracket
| kParseMissKey
| kParseMissColon
| kParseMissCommaOrCurlyBracket.

#[global] Instance Type_eq_dec : EqDecision Type_.
Proof. solve_decision. Defined.
#[global] Instance Ret_eq_dec : EqDecision Ret.
Proof. solve_decision. Defined.

(** A value: the tag and the member of the union it selects. An object is the
    sequence of entries of a [std::map], in key order. *)
Inductive Json : Type :=
| JNull
| JBoolean (b : bool)
| JNumber (x : double)
| JString (s : bytes)
| JArray (l : list Json)
| JObject (l : list (bytes * Json)).

Definition getType (j : Json) : Type_ :=
  match j with
  | JNull => kNull | JBoolean _ => kBoolean | JNumber _ => kNumber
  | JString _ => kString | JArray _ => kArray | JObject _ => kObject
  end.

(** ** [std::map<std::string, Json>] *)

(** Strings compare by their bytes, unsigned, then by length. *)
Fixpoint bytes_ltb (a b : bytes) : bool :=
  match a, b with
  | [], [] => false
  | [], _ :: _ => true
  | _ :: _, [] => false
  | x :: a, y :: b =>
      if byteZ x <? byteZ y then true
      else if byteZ y <? byteZ x then false else bytes_ltb a b
  end.

Fixpoint map_find {V} (k : bytes) (m : list (bytes * V)) : option V :=
  match m with
  | [] => None
  | (k', v) :: m => if bool_decide (k = k') then Some v else map_find k m
  end.

(** [emplace] leaves an existing entry alone. *)
Fixpoint map_emplace {V} (k : bytes) (v : V) (m : list (bytes * V)) : list (bytes * V) :=
  match m with
  | [] => [(k, v)]
  | (k', v') :: r =>
      if bool_decide (k = k') then m
      else if bytes_ltb k k' then (k, v) :: m else (k', v') :: map_emplace k v r
  end.

(** Assignment through the reference [operator[]] returns. *)
Fixpoint map_set {V} (k : bytes) (v : V) (m : list (bytes * V)) : list (bytes * V) :=
  match m with
  | [] => []
  | (k', v') :: r => if bool_decide (k = k') then (k, v) :: r else (k', v') :: map_set k v r
  end.

(** ** Copying and moving *)

(** [copy] has no case for booleans: the tag is copied and the union keeps what
    it held, [old] at the top and an unspecified [junk] in the fresh objects the
    copied containers hold. *)
Fixpoint copy (junk old : bool) (other : Json) : Json :=
  match other with
  | JNull => JNull
  | JBoolean _ => JBoolean old
  | JNumber x => JNumber x
  | JString s => JString s
  | JArray l => JArray (map (copy junk junk) l)
  | JObject l => JObject (map (λ kv, (kv.1, copy junk junk kv.2)) l)
  end.

(** [Json(const Json&)] leaves the union uninitialised; [operator=] clears it first. *)
Definition copy_construct (junk : bool) (other : Json) : Json := copy junk junk other.
Definition copy_assign (junk : bool) (other : Json) : Json := copy junk false other.

(** ** Access *)

(** [check_type] throws. *)
Definition check_type (j : Json) (t : Type_) : res unit := guard_or Thrown (bool_decide (getType j = t)).

Definition index_array (j : Json) (idx : Z) : res Json :=
  check_type j kArray;;
  match j with
  | JArray l => match l !! Z.to_nat idx with Some v => Ok v | None => Err Thrown end
  | _ => Err Thrown
  end.

Definition contain (j : Json) (key : bytes) : res bool :=
  check_type j kObject;;
  match j with JObject l => Ok (bool_decide (is_Some (map_find key l))) | _ => Err Thrown end.

(** [operator[](key)]: the value the reference designates and the object it is in. *)
Definition index_object (j : Json) (key : bytes) : res (Json * Json) :=
  l ← match j with
      | JNull => Ok []
      | JObject l => Ok l
      | _ => Err Thrown
      end;
  let l := map_emplace key JNull l in
  match map_find key l with Some v => Ok (v, JObject l) | None => Err Thrown end.

(** [j[key] = value]. *)
Definition set_key (j : Json) (key : bytes) (value : Json) : res Json :=
  '(_, o) ← index_object j key;
  match o with JObject l => Ok (JObject (map_set key value l)) | _ => Err Thrown end.

Definition get_boolean (j : Json) : res bool :=
  check_type j kBoolean;; match j with JBoolean b => Ok b | _ => Err Thrown end.
Definition get_number (j : Json) : res double :=
  check_type j kNumber;; match j with JNumber x => Ok x | _ => Err Thrown end.
Definition get_string (j : Json) : res bytes :=
  check_type j kString;; match j with JString s => Ok s | _ => Err Thrown end.
Definition get_array_size (j : Json) : res Z :=
  check_type j kArray;; match j with JArray l => Ok (zlen l) | _ => Err Thrown end.
Definition get_object_size (j : Json) : res Z :=
  check_type j kObject;; match j with JObject l => Ok (zlen l) | _ => Err Thrown end.
(** The entry [std::advance(it, idx)] reaches; past the end is undefined. *)
Definition get_object_entry (j : Json) (idx : Z) : res (bytes * Json) :=
  check_type j kObject;;
  match j with
  | JObject l => match l !! Z.to_nat idx with Some e => Ok e | None => Err OutOfBounds end
  | _ => Err Thrown
  end.

(** ** Parsing *)

(** What a parsing function does: a value and the text left, or an error. *)
Inductive pres (A : Type) : Type :=
| POk (a : A) (text : bytes)
| PErr (r : Ret).
Arguments POk {A} _ _.
Arguments PErr {A} _.

(** [*text] *)
Definition cur (text : bytes) : ascii := match text with c :: _ => c | [] => Ascii.zero end.

Definition is_ws (c : ascii) : bool :=
  (byteZ c =? 32) || (byteZ c =? 9) || (byteZ c =? 10) || (byteZ c =? 13).
Fixpoint parse_whitespace (text : bytes) : bytes :=
  match text with
  | c :: r => if is_ws c then parse_whitespace r else text
  | [] => []
  end.

Fixpoint skip_literal (literal text : bytes) : option bytes :=
  match literal with
  | [] => Some text
  | c :: l => if bool_decide (cur text = c) then skip_literal l (tail text) else None
  end.
Definition kLiteralNull : bytes := str "null".
Definition kLiteralTrue : bytes := str "true".
Definition kLiteralFalse : bytes := str "false".
Definition parse_literal (text literal : bytes) : pres Json :=
  match skip_literal literal text with Some r => POk JNull r | None => PErr kParseInvalidValue end.
Definition parse_boolean (text literal : bytes) (b : bool) : pres Json :=
  match skip_literal literal text with
  | Some r => POk (JBoolean b) r
  | None => PErr kParseInvalidValue
  end.

Definition ch2hex (ch : ascii) : Z :=
  let c := charZ ch in
  if (48 <=? c) && (c <=? 57) then c - 48
  else if (97 <=? c) && (c <=? 102) then c - 97 + 10
  else if (65 <=? c) && (c <=? 70) then c - 65 + 10
  else -1.

(** [strtod]: the hexadecimal form [0x...], which the caller never accepts but
    whose value it tests, and the decimal form. *)
Fixpoint span_hex (s : bytes) : bytes * bytes :=
  match s with
  | c :: s' => if 0 <=? ch2hex c then let '(d, r) := span_hex s' in (c :: d, r) else ([], s)
  | [] => ([], [])
  end.
Definition hex_value (d : bytes) : Z := foldl (λ v c, 16 * v + ch2hex c) 0 d.
Definition strtod_hex (s : bytes) : option double :=
  let '(ip, s1) := span_hex s in
  let '(fp, s2) := match s1 with "."%char :: r => span_hex r | _ => ([], s1) end in
  if bool_decide (ip = [] ∧ fp = []) then None else
  let ex := match s2 with
            | ("p"%char | "P"%char) :: r =>
                let '(eneg, r1) := match r with
                                   | "-"%char :: r' => (true, r')
                                   | "+"%char :: r' => (false, r')
                                   | _ => (false, r)
                                   end in
                (if eneg : bool then -1 else 1) * digits_value (span_digits r1).1
            | _ => 0
            end in
  Some (binary_normalize 53 1024 (hex_value (ip ++ fp)) (ex - 4 * zlen fp) false).
Definition strtod_value (s : bytes) : double :=
  let '(neg, s1) := match s with "-"%char :: r => (true, r) | _ => (false, s) end in
  let hex := match s1 with
             | "0"%char :: ("x"%char | "X"%char) :: r => strtod_hex r
             | _ => None
             end in
  match hex with
  | Some v => if neg : bool then SFopp v else v
  | None => match strtod s with Some (v, _) => v | None => S754_zero false end
  end.
Definition isinf (x : double) : bool := match x with S754_infinity _ => true | _ => false end.

(** The check of [parse_number]: where the number ends. *)
Definition skip_int (p : bytes) : option bytes :=
  let p := if bool_decide (cur p = "-"%char) then tail p else p in
  if bool_decide (cur p = "0"%char) then Some (tail p)
  else if is_digit (cur p) then Some (span_digits (tail p)).2
  else None.
Definition skip_frac (p : bytes) : option bytes :=
  if bool_decide (cur p = "."%char) then
    if is_digit (cur (tail p)) then Some (span_digits (tail (tail p))).2 else None
  else Some p.
Definition skip_exp (p : bytes) : option bytes :=
  if bool_decide (cur p = "e"%char) || bool_decide (cur p = "E"%char) then
    let p := tail p in
    let p := if bool_decide (cur p = "+"%char) || bool_decide (cur p = "-"%char) then tail p else p in
    if is_digit (cur p) then Some (span_digits (tail p)).2 else None
  else Some p.

Definition parse_number (text : bytes) : pres Json :=
  match (p ← skip_int text; p ← skip_frac p; skip_exp p) with
  | None => PErr kParseInvalidValue
  | Some p =>
      let number := strtod_value text in
      if isinf number then PErr kParseNumberTooBig else POk (JNumber number) p
  end.

(** [parse_hex4]: [None] for the source's [-1]. *)
Fixpoint parse_hex (n : nat) (code : Z) (text : bytes) : option (Z * bytes) :=
  match n with
  | O => Some (code, text)
  | S n =>
      let hex := ch2hex (cur text) in
      if hex <? 0 then None else parse_hex n (Z.shiftl code 4 + hex) (tail text)
  end.
Definition parse_hex4 (text : bytes) : option (Z * bytes) := parse_hex 4 0 text.

(** The bytes pushed for a code point. *)
Definition push_utf8 (code : Z) : option bytes :=
  if code <? 0x80 then Some [Zbyte code]
  else if code <? 0x800 then
    Some [Zbyte (Z.lor 0xC0 (Z.land 0x1F (Z.shiftr code 6)));
          Zbyte (Z.lor 0x80 (Z.land 0x3F code))]
  else if code <? 0x10000 then
    Some [Zbyte (Z.lor 0xE0 (Z.land 0x0F (Z.shiftr code 12)));
          Zbyte (Z.lor 0x80 (Z.land 0x3F (Z.shiftr code 6)));
          Zbyte (Z.lor 0x80 (Z.land 0x3F code))]
  else if code <? 0x10FFFF then
    Some [Zbyte (Z.lor 0xF0 (Z.land 0x07 (Z.shiftr code 18)));
          Zbyte (Z.lor 0x80 (Z.land 0x3F (Z.shiftr code 12)));
          Zbyte (Z.lor 0x80 (Z.land 0x3F (Z.shiftr code 6)));
          Zbyte (Z.lor 0x80 (Z.land 0x3F code))]
  else None.

Definition encode_utf8 (text : bytes) : pres bytes :=
  match parse_hex4 text with
  | None => PErr kParseInvalidUnicodeHex
  | Some (code, text) =>
      let finish code text :=
        match push_utf8 code with
        | Some b => POk b text
        | None => PErr kParseInvalidUnicodeHex
        end in
      if (0xD800 <=? code) && (code <? 0xDC00) then
        if bool_decide (cur text = "\"%char) && bool_decide (cur (tail text) = "u"%char) then
          match parse_hex4 (tail (tail text)) with
          | None => PErr kParseInvalidUnicodeSurrogate
          | Some (surrogate, text) =>
              if (0xDC00 <=? surrogate) && (surrogate <? 0xE000)
              then finish (0x10000 + (code - 0xD800) * 0x400 + (surrogate - 0xDC00)) text
              else PErr kParseInvalidUnicodeSurrogate
          end
        else PErr kParseInvalidUnicodeSurrogate
      else finish code text
  end.

Definition dquote : ascii := Ascii.ascii_of_nat 34.
Definition backslash : ascii := "\"%char.

(** The single-character escapes. *)
Definition unescape (c : ascii) : option ascii :=
  if bool_decide (c = "b"%char) then Some (Zbyte 8)
  else if bool_decide (c = "f"%char) then Some (Zbyte 12)
  else if bool_decide (c = "n"%char) then Some (Zbyte 10)
  else if bool_decide (c = "r"%char) then Some (Zbyte 13)
  else if bool_decide (c = "t"%char) then Some (Zbyte 9)
  else if bool_decide (c = "/"%char) then Some c
  else if bool_decide (c = dquote) then Some c
  else if bool_decide (c = backslash) then Some c
  else None.

(** The loop of [parse_string_raw]; it consumes at least a character a turn, so
    the length of the text is fuel enough. *)
Fixpoint string_loop (fuel : nat) (stack_ text : bytes) : pres bytes :=
  match text, fuel with
  | [], _ => PErr kParseMissQuotationMark
  | c :: r, O => PErr kParseMissQuotationMark
  | c :: r, S n =>
      if bool_decide (c = dquote) then POk stack_ r
      else if bool_decide (c = backslash) then
        if bool_decide (cur r = "u"%char) then
          match encode_utf8 (tail r) with
          | POk b text => string_loop n (stack_ ++ b) text
          | PErr e => PErr e
          end
        else match unescape (cur r) with
             | Some x => string_loop n (stack_ ++ [x]) (tail r)
             | None => PErr kParseInvalidStringEscape
             end
      else if byteZ c <? 0x20 then PErr kParseInvalidStringChar
      else string_loop n (stack_ ++ [c]) r
  end.
Definition parse_string_raw (stack_ text : bytes) : pres bytes :=
  string_loop (length text) stack_ (tail text).

(** [parse_string]: the scratch stack is empty on entry and restored. *)
Definition parse_string (text : bytes) : pres Json :=
  match parse_string_raw [] text with
  | POk s text => POk (JString s) text
  | PErr e => PErr e
  end.

(** [parse_text], the loop of [parse_array] and the loop of [parse_object];
    [None] when the fuel runs out. *)
Fixpoint parse_text (fuel : nat) (text : bytes) : option (pres Json) :=
  match fuel with
  | O => None
  | S fuel =>
      let text := parse_whitespace text in
      if bool_decide (cur text = Ascii.zero) then Some (PErr kParseExpectValue)
      else if bool_decide (cur text = "n"%char) then Some (parse_literal text kLiteralNull)
      else if bool_decide (cur text = "t"%char) then Some (parse_boolean text kLiteralTrue true)
      else if bool_decide (cur text = "f"%char) then Some (parse_boolean text kLiteralFalse false)
      else if bool_decide (cur text = dquote) then Some (parse_string text)
      else if bool_decide (cur text = "["%char) then
        let text := parse_whitespace (tail text) in
        if bool_decide (cur text = Ascii.zero) then Some (PErr kParseMissCommaOrSquareBracket)
        else if bool_decide (cur text = "]"%char) then Some (POk (JArray []) (tail text))
        else parse_elements fuel [] text
      else if bool_decide (cur text = "{"%char) then
        let text := parse_whitespace (tail text) in
        if bool_decide (cur text = Ascii.zero) then Some (PErr kParseMissCommaOrCurlyBracket)
        else if bool_decide (cur text = "}"%char) then Some (POk (JObject []) (tail text))
        else parse_members fuel [] text
      else Some (parse_number text)
  end
with parse_elements (fuel : nat) (array : list Json) (text : bytes) : option (pres Json) :=
  match fuel with
  | O => None
  | S fuel =>
      match parse_text fuel text with
      | Some (POk value text) =>
          let array := array ++ [value] in
          let text := parse_whitespace text in
          if bool_decide (cur text = "]"%char) then Some (POk (JArray array) (tail text))
          else if bool_decide (cur text = ","%char) then parse_elements fuel array (tail text)
          else Some (PErr kParseMissCommaOrSquareBracket)
      | r => r
      end
  end
with parse_members (fuel : nat) (object : list (bytes * Json)) (text : bytes) : option (pres Json) :=
  match fuel with
  | O => None
  | S fuel =>
      if negb (bool_decide (cur text = dquote)) then Some (PErr kParseMissKey) else
      match parse_string_raw [] text with
      | PErr _ => Some (PErr kParseMissKey)
      | POk key text =>
          let text := parse_whitespace text in
          if negb (bool_decide (cur text = ":"%char)) then Some (PErr kParseMissColon) else
          match parse_text fuel (tail text) with
          | Some (POk value text) =>
              let object := map_emplace key value object in
              let text := parse_whitespace text in
              if bool_decide (cur text = "}"%char) then Some (POk (JObject object) (tail text))
              else if bool_decide (cur text = ","%char)
              then parse_members fuel object (parse_whitespace (tail text))
              else Some (PErr kParseMissCommaOrCurlyBracket)
          | r => r
          end
      end
  end.

(** Enough fuel for a text: two units a character. *)
Definition parse_fuel (text : bytes) : nat := (2 * length text + 1)%nat.

(** The member function [parse]: the value left in the object and the return code. *)
Definition parse (text : bytes) : option (Json * Ret) :=
  match parse_text (parse_fuel text) text with
  | None => None
  | Some (PErr e) => Some (JNull, e)
  | Some (POk j rest) =>
      if bool_decide (cur (parse_whitespace rest) = Ascii.zero)
      then Some (j, kParseOk) else Some (JNull, kParseRootNotSingular)
  end.

(** The static [Json::parse] throws unless the text parses. *)
Definition Json_parse (text : bytes) : res Json :=
  match parse (c_str text) with
  | Some (j, kParseOk) => Ok j
  | _ => Err Thrown
  end.

(** ** Printing *)

Definition stringify_number (x : double) : bytes := fmt_g 17 x.

Definition hex_digit (x : Z) : ascii := if x <? 10 then Zbyte (x + 48) else Zbyte (x - 10 + 65).
Definition stringify_hex4 (code : Z) : bytes :=
  [hex_digit (code / 16 / 16 / 16 mod 16); hex_digit (code / 16 / 16 mod 16);
   hex_digit (code / 16 mod 16); hex_digit (code mod 16)].

(** The continuation bytes [stringify_utf8] reads: at the end of the string the
    terminator, past it nothing. *)
Fixpoint utf8_tail (n : nat) (code : Z) (s : bytes) : res Z :=
  match n with
  | O => Ok code
  | S n =>
      match s with
      | c :: s => utf8_tail n (Z.shiftl code 6 + Z.land (charZ c) 0x3F) s
      | [] => Err OutOfBounds
      end
  end.

(** [s] runs up to and including the terminator. *)
Definition stringify_utf8 (s : bytes) : res (bytes * nat) :=
  match s with
  | [] => Err OutOfBounds
  | c :: s =>
      let ch := charZ c in
      let count := if Z.land ch 0xF0 =? 0xF0 then 4
                   else if Z.land ch 0xE0 =? 0xE0 then 3
                   else if Z.land ch 0xC0 =? 0xC0 then 2 else 1 in
      let code := Z.shiftr (Z.land (Z.shiftl ch count) 0xFF) count in
      code ← utf8_tail (Z.to_nat count - 1) code s;
      let out :=
        if code <? 0x10000 then str "\u" ++ stringify_hex4 code
        else
          let code := Z.land code 0xFFFF in
          str "\u" ++ stringify_hex4 (code / 0x400 + 0xD800) ++
          str "\u" ++ stringify_hex4 (code mod 0x400 + 0xDC00) in
      Ok (out, Z.to_nat count)
  end.

(** The escapes the printer writes. *)
Definition escape (c : ascii) : option bytes :=
  let b := byteZ c in
  if b =? 8 then Some (str "\b") else if b =? 12 then Some (str "\f")
  else if b =? 10 then Some (str "\n") else if b =? 13 then Some (str "\r")
  else if b =? 9 then Some (str "\t") else if b =? 47 then Some (str "/")
  else if b =? 34 then Some [backslash; dquote] else if b =? 92 then Some [backslash; backslash]
  else None.

(** The loop over [str[pos]]; [s] is what is left of the string. A [char] is
    signed, so the test [< 0x20] also selects the bytes above 0x7F. *)
Fixpoint stringify_loop (fuel : nat) (s : bytes) : res bytes :=
  match s, fuel with
  | [], _ => Ok []
  | _ :: _, O => Err OutOfBounds
  | c :: r, S n =>
      match escape c with
      | Some e => t ← stringify_loop n r; Ok (e ++ t)
      | None =>
          if charZ c <? 0x20 then
            '(e, count) ← stringify_utf8 (s ++ [Ascii.zero]);
            t ← stringify_loop n (drop count s); Ok (e ++ t)
          else t ← stringify_loop n r; Ok (c :: t)
      end
  end.
Definition stringify_string_raw (s : bytes) : res bytes :=
  t ← stringify_loop (length s) s; Ok (dquote :: t ++ [dquote]).

(** [stack_push] of a C string stops at a NUL. *)
Definition stack_push (stack_ s : bytes) : bytes := stack_ ++ c_str s.

(** The loops of [stringify_array] and [stringify_object], for the function [f]
    that prints a nested value. *)
Definition stringify_elements (f : Json → res bytes) : bytes → list Json → res bytes :=
  fix elements (stack_ : bytes) (l : list Json) : res bytes :=
    match l with
    | [] => Ok (stack_ ++ ["]"%char])
    | x :: l =>
        subtext ← f x;
        let stack_ := stack_push stack_ subtext in
        elements (if bool_decide (length l = 0%nat) then stack_ else stack_ ++ [","%char]) l
    end.

Definition stringify_members (f : Json → res bytes) : bytes → list (bytes * Json) → res bytes :=
  fix members (stack_ : bytes) (l : list (bytes * Json)) : res bytes :=
    match l with
    | [] => Ok (stack_ ++ ["}"%char])
    | (key, x) :: l =>
        ktext ← stringify_string_raw key;
        vtext ← f x;
        let stack_ := stack_push (stack_push stack_ ktext ++ [":"%char]) vtext in
        members (if bool_decide (length l = 0%nat) then stack_ else stack_ ++ [","%char]) l
    end.

Fixpoint stringify (j : Json) : res bytes :=
  match j with
  | JNull => Ok kLiteralNull
  | JBoolean b => Ok (if b then kLiteralTrue else kLiteralFalse)
  | JNumber x => Ok (stringify_number x)
  | JString s => stringify_string_raw s
  | JArray l => stringify_elements stringify ["["%char] l
  | JObject l => stringify_members stringify ["{"%char] l
  end.

Definition dump (j : Json) : res bytes := t ← stringify j; Ok (c_str t).

(** Text with the double quotes written as single ones. *)
Definition quoted (s : string) : bytes := (λ c, if bool_decide (c = "'"%char) then dquote else c) <$> str s.

Example zjson_runs :
  Json_parse (quoted " { 'b' : [1, true , null], 'a' : 'x\u00e9\n' } ")
  = Ok (JObject [(str "a", JString (str "x" ++ [Zbyte 0xC3; Zbyte 0xA9; Zbyte 10]));
                 (str "b", JArray [JNumber (double_of_Z 1); JBoolean true; JNull])]).
Proof. vm_compute. reflexivity. Qed.
