(* ===== verification/ZjsonSpec.v ===== *)
(** * The JSON grammar, and what the parser and the printer do with it

    A declarative grammar of the texts [Json::parse] reads; the parser accepts
    exactly that grammar and gives the values it assigns, for every text; the
    printer writes a text of the grammar that denotes the value it printed. *)

From S2P Require Import Prelude Printf Double Zjson.
Local Open Scope Z_scope.

(** ** The grammar *)

(** Blank, tab, line feed and carriage return. *)
Definition blank (c : ascii) : Prop := c = " "%char ∨ c = Zbyte 9 ∨ c = Zbyte 10 ∨ c = Zbyte 13.
Definition ws (w : bytes) : Prop := Forall blank w.
Definition digits (d : bytes) : Prop := Forall (λ c, is_digit c = true) d.

(** Numbers: sign, integer without leading zeros, fraction, exponent. *)
Definition int_syntax (s : bytes) : Prop :=
  s = ["0"%char] ∨ ∃ d ds, s = d :: ds ∧ d ≠ "0"%char ∧ digits (d :: ds).
Definition frac_syntax (s : bytes) : Prop :=
  s = [] ∨ ∃ d ds, s = "."%char :: d :: ds ∧ digits (d :: ds).
Definition exp_syntax (s : bytes) : Prop :=
  s = [] ∨ ∃ e sg d ds, s = e :: sg ++ d :: ds ∧ (e = "e"%char ∨ e = "E"%char)
    ∧ (sg = [] ∨ sg = ["+"%char] ∨ sg = ["-"%char]) ∧ digits (d :: ds).
Definition number_syntax (s : bytes) : Prop :=
  ∃ sg ip fp ep, s = sg ++ ip ++ fp ++ ep ∧ (sg = [] ∨ sg = ["-"%char])
    ∧ int_syntax ip ∧ frac_syntax fp ∧ exp_syntax ep.

(** The UTF-8 form of a code point. *)
Definition utf8 (c : Z) : bytes :=
  if c <? 0x80 then [Zbyte c]
  else if c <? 0x800 then [Zbyte (0xC0 + c / 64); Zbyte (0x80 + c mod 64)]
  else if c <? 0x10000 then
    [Zbyte (0xE0 + c / 4096); Zbyte (0x80 + c / 64 mod 64); Zbyte (0x80 + c mod 64)]
  else [Zbyte (0xF0 + c / 262144); Zbyte (0x80 + c / 4096 mod 64);
        Zbyte (0x80 + c / 64 mod 64); Zbyte (0x80 + c mod 64)].

(** Four hexadecimal digits and their value. *)
Definition hex_value (c : ascii) (v : Z) : Prop :=
  0 <= v ∧ (str "0123456789abcdef" !! Z.to_nat v = Some c ∨ str "0123456789ABCDEF" !! Z.to_nat v = Some c).
Definition hex4 (h : bytes) (code : Z) : Prop :=
  ∃ a b c d va vb vc vd, h = [a; b; c; d]
    ∧ hex_value a va ∧ hex_value b vb ∧ hex_value c vc ∧ hex_value d vd
    ∧ code = ((va * 16 + vb) * 16 + vc) * 16 + vd.

(** The short escapes and what they stand for. *)
Definition escapes : list (ascii * ascii) :=
  [("b"%char, Zbyte 8); ("f"%char, Zbyte 12); ("n"%char, Zbyte 10); ("r"%char, Zbyte 13); ("t"%char, Zbyte 9);
   ("/"%char, "/"%char); (dquote, dquote); (backslash, backslash)].

(** Between the quotes: the text and the bytes it stands for. The reader takes
    no surrogate pair for U+10FFFF, the last code point. *)
Inductive chars : bytes → bytes → Prop :=
| C_nil : chars [] []
| C_plain c t s :
    0x20 <= byteZ c → c ≠ dquote → c ≠ backslash → chars t s → chars (c :: t) (c :: s)
| C_escape e c t s :
    (e, c) ∈ escapes → chars t s → chars (backslash :: e :: t) (c :: s)
| C_unicode h code t s :
    hex4 h code → ¬ 0xD800 <= code < 0xDC00 → chars t s →
    chars (backslash :: "u"%char :: h ++ t) (utf8 code ++ s)
| C_pair h1 h2 hi lo t s :
    hex4 h1 hi → hex4 h2 lo → 0xD800 <= hi < 0xDC00 → 0xDC00 <= lo < 0xE000 →
    0x10000 + (hi - 0xD800) * 0x400 + (lo - 0xDC00) ≠ 0x10FFFF → chars t s →
    chars (backslash :: "u"%char :: h1 ++ backslash :: "u"%char :: h2 ++ t)
      (utf8 (0x10000 + (hi - 0xD800) * 0x400 + (lo - 0xDC00)) ++ s).

(** The object of a sequence of members: the first value of a repeated key. *)
Definition object_of (object l : list (bytes * Json)) : list (bytes * Json) :=
  foldl (λ o kv, map_emplace kv.1 kv.2 o) object l.

Inductive jtext : bytes → Json → Prop :=
| T_null : jtext (str "null") JNull
| T_true : jtext (str "true") (JBoolean true)
| T_false : jtext (str "false") (JBoolean false)
| T_number s :
    number_syntax s → isinf (strtod_value s) = false → jtext s (JNumber (strtod_value s))
| T_string t s : chars t s → jtext (dquote :: t ++ [dquote]) (JString s)
| T_array_nil w : ws w → jtext ("["%char :: w ++ ["]"%char]) (JArray [])
| T_array t l : elements t l → jtext ("["%char :: t ++ ["]"%char]) (JArray l)
| T_object_nil w : ws w → jtext ("{"%char :: w ++ ["}"%char]) (JObject [])
| T_object t l : members t l → jtext ("{"%char :: t ++ ["}"%char]) (JObject (object_of [] l))
with elements : bytes → list Json → Prop :=
| E_one w1 t w2 v : ws w1 → jtext t v → ws w2 → elements (w1 ++ t ++ w2) [v]
| E_cons w1 t w2 v t' l :
    ws w1 → jtext t v → ws w2 → elements t' l →
    elements (w1 ++ t ++ w2 ++ ","%char :: t') (v :: l)
with members : bytes → list (bytes * Json) → Prop :=
| M_one w1 kt k w2 w3 t v w4 :
    ws w1 → chars kt k → ws w2 → ws w3 → jtext t v → ws w4 →
    members (w1 ++ dquote :: kt ++ dquote :: w2 ++ ":"%char :: w3 ++ t ++ w4) [(k, v)]
| M_cons w1 kt k w2 w3 t v w4 t' l :
    ws w1 → chars kt k → ws w2 → ws w3 → jtext t v → ws w4 → members t' l →
    members (w1 ++ dquote :: kt ++ dquote :: w2 ++ ":"%char :: w3 ++ t ++ w4 ++ ","%char :: t')
      ((k, v) :: l).

Scheme jtext_mut := Induction for jtext Sort Prop
  with elements_mut := Induction for elements Sort Prop
  with members_mut := Induction for members Sort Prop.
Combined Scheme jtext_mutind from jtext_mut, elements_mut, members_mut.

(** ** Characters and white space *)

(** Case analysis on the tests the parser makes of a character. *)
Ltac bd := repeat (case_bool_decide; simplify_eq; try done).
(** A character that is at once a digit (or blank) and some other character. *)
Ltac char_absurd :=
  repeat match goal with
  | H : is_digit ?c = true |- _ => is_var c; assert (48 <= byteZ c <= 57) by (unfold is_digit in H; lia); clear H
  end; subst; unfold byteZ in *; simpl in *; lia.

(** The parser's tests of a character are those of the grammar. *)
Lemma blank_is_ws c : blank c ↔ is_ws c = true.
Proof.
  split; [by intros [->|[->|[-> | ->]]]|]. unfold blank.
  destruct c as [[] [] [] [] [] [] [] []]; vm_compute; intros H; try discriminate H; auto.
Qed.

Lemma unescape_escapes e c : unescape e = Some c ↔ (e, c) ∈ escapes.
Proof.
  split.
  - unfold unescape, escapes. repeat (case_bool_decide as E; [subst; intros [= <-]; set_solver|clear E]). done.
  - unfold escapes. rewrite !elem_of_cons. intros H.
    repeat (destruct H as [H|H]; [injection H as -> ->; vm_compute; reflexivity|]). by apply not_elem_of_nil in H.
Qed.

Lemma hex_value_ch2hex c v : hex_value c v ↔ 0 <= v ∧ ch2hex c = v.
Proof.
  unfold hex_value. split.
  - intros [Hv H]. split; [done|]. rewrite <-(Z2Nat.id v) by done. clear Hv. set (n := Z.to_nat v) in *.
    do 16 (destruct n as [|n]; [destruct H as [H|H]; injection H as <-; reflexivity|]). by destruct H.
  - intros [Hv <-]. split; [done|].
    destruct c as [[] [] [] [] [] [] [] []]; vm_compute in Hv; try (by destruct Hv); vm_compute; auto.
Qed.

Lemma hex4_ch2hex h code : hex4 h code ↔
  ∃ a b c d, h = [a; b; c; d] ∧ Forall (λ x, 0 <= ch2hex x) h
    ∧ code = ((ch2hex a * 16 + ch2hex b) * 16 + ch2hex c) * 16 + ch2hex d.
Proof.
  unfold hex4. setoid_rewrite hex_value_ch2hex. split.
  - intros (a & b & c & d & va & vb & vc & vd & -> & [? <-] & [? <-] & [? <-] & [? <-] & ->).
    exists a, b, c, d. split; [done|]. split; [by repeat constructor|done].
  - intros (a & b & c & d & -> & H & ->). rewrite !Forall_cons in H. destruct H as (? & ? & ? & ? & _).
    exists a, b, c, d, (ch2hex a), (ch2hex b), (ch2hex c), (ch2hex d). by split_and!.
Qed.

Lemma ws_nil : ws [].
Proof. constructor. Qed.

Lemma parse_whitespace_app w t : ws w → parse_whitespace (w ++ t) = parse_whitespace t.
Proof. induction 1 as [|c w Hc%blank_is_ws _ IH]; simpl in *; [done|]. by rewrite Hc. Qed.

Lemma parse_whitespace_stop c t : is_ws c = false → parse_whitespace (c :: t) = c :: t.
Proof. intros H. simpl. by rewrite H. Qed.

Lemma parse_whitespace_spec t : ∃ w, ws w ∧ t = w ++ parse_whitespace t.
Proof.
  induction t as [|c t (w & Hw & E)]; simpl; [by exists []; split; [apply ws_nil|]|].
  destruct (is_ws c) eqn:Hc; [|by exists []; split; [apply ws_nil|]].
  exists (c :: w). split; [constructor; [by apply blank_is_ws|done]|]. simpl. by rewrite <-E.
Qed.

Lemma parse_whitespace_idem t : parse_whitespace (parse_whitespace t) = parse_whitespace t.
Proof. induction t as [|c t IH]; simpl; [done|]. destruct (is_ws c) eqn:E; [done|]. simpl. by rewrite E. Qed.

Lemma length_parse_whitespace t : (length (parse_whitespace t) <= length t)%nat.
Proof.
  destruct (parse_whitespace_spec t) as (w & _ & E). rewrite E at 2. rewrite length_app. lia.
Qed.

(** What may follow a value. *)
Definition delim (t : bytes) : Prop :=
  t = [] ∨ is_ws (cur t) = true ∨ cur t = ","%char ∨ cur t = "]"%char ∨ cur t = "}"%char.

Lemma delim_ws w t : ws w → delim t → delim (w ++ t).
Proof. intros [|c w' Hc%blank_is_ws _] Ht; [done|]. right. by left. Qed.

Lemma delim_stripped t :
  cur (parse_whitespace t) = ","%char ∨ cur (parse_whitespace t) = "]"%char
  ∨ cur (parse_whitespace t) = "}"%char ∨ parse_whitespace t = [] → delim t.
Proof.
  intros H. destruct (parse_whitespace_spec t) as (w & Hw & E). rewrite E. apply delim_ws; [done|].
  unfold delim. tauto.
Qed.

(** ** Numbers *)

Lemma span_digits_app d t : digits d → is_digit (cur t) = false → span_digits (d ++ t) = (d, t).
Proof.
  induction 1 as [|c d Hc _ IH]; simpl in *; intros Ht.
  - destruct t as [|c t]; simpl in *; [done|]. by rewrite Ht.
  - by rewrite Hc, IH.
Qed.

Lemma span_digits_spec t d r :
  span_digits t = (d, r) → t = d ++ r ∧ digits d ∧ is_digit (cur r) = false.
Proof.
  revert d r. induction t as [|c t IH]; simpl; intros d r.
  - intros [= <- <-]. split_and!; [done|constructor|done].
  - destruct (is_digit c) eqn:Hc.
    + destruct (span_digits t) as [d' r'] eqn:E. intros [= <- <-].
      destruct (IH _ _ eq_refl) as (-> & Hd & Hr). split_and!; [done|by constructor|done].
    + intros [= <- <-]. split_and!; [done|constructor|done].
Qed.

(** What follows the digits of a number. *)
Definition num_stop (t : bytes) : Prop :=
  is_digit (cur t) = false ∧ cur t ≠ "."%char ∧ cur t ≠ "e"%char ∧ cur t ≠ "E"%char
  ∧ cur t ≠ "x"%char ∧ cur t ≠ "X"%char.

Lemma delim_num_stop t : delim t → num_stop t.
Proof.
  unfold delim, num_stop. intros [->|[H|[->|[->| ->]]]]; [done| |done..].
  unfold is_ws in H. unfold is_digit.
  split_and!; [lia|intros E; rewrite E in H; vm_compute in H; done..].
Qed.

Lemma digits_cons d ds : digits (d :: ds) → is_digit d = true ∧ digits ds.
Proof. by intros [? ?]%Forall_cons. Qed.

Lemma digit_char c : is_digit c = true → 48 <= byteZ c <= 57.
Proof. unfold is_digit. lia. Qed.

(** A digit is none of the other characters. *)
Lemma digit_ne c x : is_digit c = true → is_digit x = false → c ≠ x.
Proof. intros H1 H2 ->. congruence. Qed.

(** Whether a text begins a fraction, an exponent, or neither. *)
Lemma frac_cur fp t : frac_syntax fp → num_stop t →
  is_digit (cur (fp ++ t)) = false ∧ cur (fp ++ t) ≠ "x"%char ∧ cur (fp ++ t) ≠ "X"%char.
Proof. intros [->|(d & ds & -> & _)] Ht; unfold num_stop in *; simpl; naive_solver. Qed.

Lemma exp_cur ep t : exp_syntax ep → num_stop t →
  is_digit (cur (ep ++ t)) = false ∧ cur (ep ++ t) ≠ "."%char
  ∧ cur (ep ++ t) ≠ "x"%char ∧ cur (ep ++ t) ≠ "X"%char.
Proof.
  intros [->|(e & sg & d & ds & -> & He & _)] Ht; unfold num_stop in *; simpl; [naive_solver|].
  by destruct He as [-> | ->].
Qed.

Lemma frac_exp_cur fp ep t : frac_syntax fp → exp_syntax ep → num_stop t →
  is_digit (cur (fp ++ ep ++ t)) = false
  ∧ cur (fp ++ ep ++ t) ≠ "x"%char ∧ cur (fp ++ ep ++ t) ≠ "X"%char.
Proof.
  intros [->|(d & ds & -> & _)] He Ht; simpl; [|done]. destruct (exp_cur ep t He Ht) as (? & ? & ? & ?). done.
Qed.

Lemma skip_int_app sg ip t :
  (sg = [] ∨ sg = ["-"%char]) → int_syntax ip → is_digit (cur t) = false →
  skip_int (sg ++ ip ++ t) = Some t.
Proof.
  intros Hs Hi Ht. unfold skip_int.
  assert (H : ∀ p, p = ip ++ t → (if bool_decide (cur p = "0"%char) then Some (tail p)
     else if is_digit (cur p) then Some (span_digits (tail p)).2 else None) = Some t).
  { intros p ->. destruct Hi as [->|(d & ds & -> & Hd & Hds)]; simpl; [done|].
    apply digits_cons in Hds as [H1 H2]. rewrite bool_decide_eq_false_2 by done.
    by rewrite H1, span_digits_app. }
  cbv zeta. apply H. destruct Hs as [-> | ->]; [|done]. rewrite app_nil_l.
  rewrite bool_decide_eq_false_2; [done|].
  destruct Hi as [->|(d & ds & -> & Hd & Hds)]; simpl; [done|].
  apply digits_cons in Hds as [H1 H2]. by apply digit_ne.
Qed.

Lemma skip_frac_app fp t : frac_syntax fp → is_digit (cur t) = false → cur t ≠ "."%char →
  skip_frac (fp ++ t) = Some t.
Proof.
  intros [->|(d & ds & -> & Hds)] Ht Hp; unfold skip_frac; simpl.
  - by rewrite bool_decide_eq_false_2.
  - apply digits_cons in Hds as [H1 H2]. by rewrite H1, span_digits_app.
Qed.

Lemma skip_exp_app ep t : exp_syntax ep → num_stop t → skip_exp (ep ++ t) = Some t.
Proof.
  intros He (Ht & _ & H1 & H2 & _). destruct He as [->|(e & sg & d & ds & -> & He & Hs & Hds)]; unfold skip_exp.
  { simpl. by rewrite (bool_decide_eq_false_2 _ H1), (bool_decide_eq_false_2 _ H2). }
  apply digits_cons in Hds as [Hd Hds]. rewrite <-app_comm_cons, <-app_assoc. simpl.
  destruct He as [-> | ->]; simpl; (destruct Hs as [->|[-> | ->]]; simpl;
    [rewrite (bool_decide_eq_false_2 (d = "+"%char)), (bool_decide_eq_false_2 (d = "-"%char))
       by (by apply digit_ne); simpl|..]; by rewrite Hd, span_digits_app).
Qed.

#[local] Arguments span_digits : simpl never.

(** The parts of [strtod]: sign, fraction, exponent. *)
Lemma strtod_sign s : is_digit (cur s) = true →
  match s with
  | "-"%char :: r => (true, r)
  | "+"%char :: r => (false, r)
  | _ => (false, s)
  end = (false, s).
Proof.
  destruct s as [|c r]; [done|]. simpl. intros H.
  destruct c as [[] [] [] [] [] [] [] []]; first [discriminate H | reflexivity].
Qed.

Lemma strtod_frac fp u : frac_syntax fp → is_digit (cur u) = false → cur u ≠ "."%char →
  match fp ++ u with "."%char :: r => span_digits r | _ => ([], fp ++ u) end = (tail fp, u).
Proof.
  intros [->|(d & ds & -> & Hds)] Hu Hdot; [|by apply (span_digits_app (d :: ds))].
  simpl. destruct u as [|c r]; [done|]. simpl in Hdot.
  destruct c as [[] [] [] [] [] [] [] []]; first [done | by destruct Hdot].
Qed.

Definition exp_value (ep : bytes) : Z :=
  match ep with
  | [] => 0
  | _ :: "-"%char :: r => -1 * digits_value r
  | _ :: "+"%char :: r => 1 * digits_value r
  | _ :: r => 1 * digits_value r
  end.

#[local] Arguments exp_value : simpl never.

Lemma strtod_exp ep t : exp_syntax ep → num_stop t →
  match ep ++ t with
  | ("e"%char | "E"%char) :: r =>
      let '(eneg, r1) := match r with
                         | "-"%char :: r' => (true, r')
                         | "+"%char :: r' => (false, r')
                         | _ => (false, r)
                         end in
      let '(ed, r2) := span_digits r1 in
      if bool_decide (ed = []) then (0, ep ++ t)
      else ((if eneg : bool then -1 else 1) * digits_value ed, r2)
  | _ => (0, ep ++ t)
  end = (exp_value ep, t).
Proof.
  intros [->|(e & sg & d & ds & -> & He & Hs & Hds)] Ht.
  - destruct Ht as (_ & _ & H1 & H2 & _). destruct t as [|c r]; [done|]. simpl in *.
    destruct c as [[] [] [] [] [] [] [] []]; first [done | by destruct H1 | by destruct H2].
  - pose proof (span_digits_app (d :: ds) t Hds (proj1 Ht)) as Hsp. simpl in Hsp.
    apply digits_cons in Hds as [Hd _]. rewrite <-app_comm_cons, <-app_assoc.
    destruct Hs as [->|[-> | ->]]; simpl.
    + pose proof (strtod_sign (d :: ds ++ t) Hd) as Hsg.
      assert (He' : exp_value (e :: d :: ds) = 1 * digits_value (d :: ds)).
      { destruct d as [[] [] [] [] [] [] [] []]; first [discriminate Hd | reflexivity]. }
      simpl in Hsg. destruct He as [-> | ->]; simpl; by rewrite Hsg, Hsp, He'.
    + destruct He as [-> | ->]; by rewrite Hsp.
    + destruct He as [-> | ->]; by rewrite Hsp.
Qed.

(** [strtod] reads a number of the grammar to its end and no further. *)
Lemma strtod_app sg ip fp ep t :
  (sg = [] ∨ sg = ["-"%char]) → int_syntax ip → frac_syntax fp → exp_syntax ep → num_stop t →
  strtod (sg ++ ip ++ fp ++ ep ++ t) =
  Some (let v := double_of_dec (digits_value (ip ++ tail fp)) (exp_value ep - zlen (tail fp)) in
        if bool_decide (sg = []) then v else SFopp v, t).
Proof.
  intros Hs Hi Hf He Ht.
  assert (Hip : digits ip ∧ ip ≠ []).
  { destruct Hi as [->|(d & ds & -> & _ & H)]; [by split; [repeat constructor|]|done]. }
  destruct Hip as [Hid Hne].
  destruct (exp_cur ep t He Ht) as (X1 & X2 & _). destruct (frac_exp_cur fp ep t Hf He Ht) as (F1 & _).
  assert (Hc : is_digit (cur (ip ++ fp ++ ep ++ t)) = true).
  { destruct ip; [done|]. by apply digits_cons in Hid as [? _]. }
  unfold strtod. destruct Hs as [-> | ->]; [rewrite app_nil_l, (strtod_sign _ Hc)|simpl];
    rewrite (span_digits_app ip _ Hid F1), (strtod_frac fp (ep ++ t) Hf X1 X2);
    (rewrite bool_decide_eq_false_2 by naive_solver); by rewrite (strtod_exp ep t He Ht).
Qed.

Lemma no_hex ip u : int_syntax ip → cur u ≠ "x"%char → cur u ≠ "X"%char →
  match ip ++ u with "0"%char :: ("x"%char | "X"%char) :: r => strtod_hex r | _ => None end = None.
Proof.
  intros [->|(d & ds & -> & Hd & _)] H1 H2; simpl.
  - destruct u as [|c r]; [done|]. simpl in *.
    destruct c as [[] [] [] [] [] [] [] []]; first [reflexivity | by destruct H1 | by destruct H2].
  - destruct d as [[] [] [] [] [] [] [] []]; first [reflexivity | by destruct Hd].
Qed.

Lemma minus_sign s : is_digit (cur s) = true →
  match s with "-"%char :: r => (true, r) | _ => (false, s) end = (false, s).
Proof.
  destruct s as [|c r]; [done|]. simpl. intros H.
  destruct c as [[] [] [] [] [] [] [] []]; first [discriminate H | reflexivity].
Qed.

Lemma num_stop_nil : num_stop [].
Proof. by split_and!. Qed.

Lemma int_cur ip u : int_syntax ip → is_digit (cur (ip ++ u)) = true.
Proof.
  intros [->|(d & ds & -> & _ & Hd)]; [done|]. by apply digits_cons in Hd as [? _].
Qed.

Lemma strtod_value_eq sg ip fp ep t :
  (sg = [] ∨ sg = ["-"%char]) → int_syntax ip → frac_syntax fp → exp_syntax ep → num_stop t →
  strtod_value (sg ++ ip ++ fp ++ ep ++ t) =
  (let v := double_of_dec (digits_value (ip ++ tail fp)) (exp_value ep - zlen (tail fp)) in
   if bool_decide (sg = []) then v else SFopp v).
Proof.
  intros Hs Hi Hf He Ht. pose proof (strtod_app sg ip fp ep t Hs Hi Hf He Ht) as Hst.
  destruct (frac_exp_cur fp ep t Hf He Ht) as (_ & X1 & X2).
  unfold strtod_value. rewrite Hst. destruct Hs as [-> | ->].
  - rewrite app_nil_l, (minus_sign _ (int_cur ip _ Hi)). by rewrite (no_hex ip _ Hi X1 X2).
  - cbn [app]. by rewrite (no_hex ip _ Hi X1 X2).
Qed.

Lemma strtod_value_app s t : number_syntax s → num_stop t → strtod_value (s ++ t) = strtod_value s.
Proof.
  intros (sg & ip & fp & ep & -> & Hs & Hi & Hf & He) Ht. rewrite <-!app_assoc.
  pose proof (strtod_value_eq sg ip fp ep [] Hs Hi Hf He num_stop_nil) as E. rewrite app_nil_r in E.
  by rewrite strtod_value_eq, E.
Qed.

Lemma parse_number_complete s t : number_syntax s → num_stop t → isinf (strtod_value s) = false →
  parse_number (s ++ t) = POk (JNumber (strtod_value s)) t.
Proof.
  intros Hn Ht Hinf. unfold parse_number. rewrite (strtod_value_app s t Hn Ht).
  destruct Hn as (sg & ip & fp & ep & -> & Hs & Hi & Hf & He). rewrite <-!app_assoc.
  destruct (exp_cur ep t He Ht) as (X1 & X2 & _). destruct (frac_exp_cur fp ep t Hf He Ht) as (F1 & _).
  rewrite skip_int_app by done. simpl. rewrite skip_frac_app by done. simpl.
  rewrite skip_exp_app by done. by rewrite Hinf.
Qed.

(** ** Numbers the parser accepts *)

Lemma cur_tail c t : cur t = c → c ≠ Ascii.zero → t = c :: tail t.
Proof. destruct t; simpl; intros; subst; done. Qed.

Lemma digit_tail t : is_digit (cur t) = true → t = cur t :: tail t.
Proof. destruct t; done. Qed.

Lemma digits_tail t d r : is_digit (cur t) = true → span_digits (tail t) = (d, r) →
  t = (cur t :: d) ++ r ∧ digits (cur t :: d) ∧ is_digit (cur r) = false.
Proof.
  intros Ht E. apply span_digits_spec in E as (E & Hd & Hr). split_and!; [|by constructor|done].
  rewrite (digit_tail t Ht) at 1. simpl. congruence.
Qed.

Lemma skip_int_sound t p : skip_int t = Some p →
  ∃ sg ip, t = sg ++ ip ++ p ∧ (sg = [] ∨ sg = ["-"%char]) ∧ int_syntax ip.
Proof.
  unfold skip_int. set (q := if bool_decide (cur t = "-"%char) then tail t else t). intros H.
  assert (Hq : ∃ ip, q = ip ++ p ∧ int_syntax ip).
  { case_bool_decide as E; [injection H as <-; exists ["0"%char]; split; [by apply cur_tail|by left]|].
    destruct (is_digit (cur q)) eqn:Hd; [|done].
    destruct (span_digits (tail q)) as [d r] eqn:Es. injection H as <-. simpl.
    destruct (digits_tail q d r Hd Es) as (Eq & Hds & _). exists (cur q :: d). split; [done|].
    right. eauto 10. }
  destruct Hq as (ip & Eq & Hi). subst q. case_bool_decide as E.
  - exists ["-"%char], ip. split_and!; [|by right|done]. rewrite <-Eq. by apply cur_tail.
  - exists [], ip. split_and!; [done|by left|done].
Qed.

Lemma skip_frac_sound t p : skip_frac t = Some p → ∃ fp, t = fp ++ p ∧ frac_syntax fp.
Proof.
  unfold skip_frac. case_bool_decide as E; [|intros [= ->]; exists []; split; [done|by left]].
  destruct (is_digit (cur (tail t))) eqn:Hd; [|done].
  destruct (span_digits (tail (tail t))) as [d r] eqn:Es. intros [= <-]. simpl.
  destruct (digits_tail _ d r Hd Es) as (Eq & Hds & _).
  exists ("."%char :: cur (tail t) :: d). split; [|right; eauto].
  rewrite (cur_tail _ t E) by done. simpl. f_equal. exact Eq.
Qed.

Lemma skip_exp_sound t p : skip_exp t = Some p → ∃ ep, t = ep ++ p ∧ exp_syntax ep.
Proof.
  unfold skip_exp. destruct (_ || _) eqn:E; [|intros [= ->]; exists []; split; [done|by left]].
  set (q := if _ || _ then _ else _). destruct (is_digit (cur q)) eqn:Hd; [|done].
  destruct (span_digits (tail q)) as [d r] eqn:Es. intros [= <-]. simpl.
  destruct (digits_tail _ d r Hd Es) as (Eq & Hds & _).
  assert (Ht : t = cur t :: tail t ∧ (cur t = "e"%char ∨ cur t = "E"%char)).
  { apply orb_true_iff in E as [E|E]; apply bool_decide_eq_true in E; (split; [by apply cur_tail; rewrite E|tauto]). }
  destruct Ht as [Ht Hc].
  assert (Hsg : ∃ sg, tail t = sg ++ q ∧ (sg = [] ∨ sg = ["+"%char] ∨ sg = ["-"%char])).
  { clear E. subst q.
    destruct (bool_decide (cur (tail t) = "+"%char) || bool_decide (cur (tail t) = "-"%char)) eqn:E2;
      [|by exists []; auto].
    apply orb_true_iff in E2 as [E2|E2]; apply bool_decide_eq_true in E2.
    - exists ["+"%char]. split; [by apply cur_tail|auto].
    - exists ["-"%char]. split; [by apply cur_tail|auto]. }
  destruct Hsg as (sg & Esg & Hsg). clearbody q.
  exists (cur t :: sg ++ cur q :: d). split; [|right; eauto 10].
  rewrite Ht at 1. simpl. f_equal. rewrite Esg, Eq at 1. by rewrite <-app_assoc.
Qed.

Lemma parse_number_sound t j r : parse_number t = POk j r → delim r →
  ∃ s, t = s ++ r ∧ number_syntax s ∧ j = JNumber (strtod_value s) ∧ isinf (strtod_value s) = false.
Proof.
  unfold parse_number. intros H Hr.
  destruct (skip_int t) as [p1|] eqn:E1; [|done]. simpl in H.
  destruct (skip_frac p1) as [p2|] eqn:E2; [|done]. simpl in H.
  destruct (skip_exp p2) as [p3|] eqn:E3; [|done].
  destruct (isinf (strtod_value t)) eqn:Hinf; [done|]. injection H as <- ->.
  apply skip_int_sound in E1 as (sg & ip & -> & Hs & Hi).
  apply skip_frac_sound in E2 as (fp & -> & Hf). apply skip_exp_sound in E3 as (ep & -> & He).
  assert (Hn : number_syntax (sg ++ ip ++ fp ++ ep)) by (exists sg, ip, fp, ep; auto).
  exists (sg ++ ip ++ fp ++ ep). pose proof (strtod_value_app _ r Hn (delim_num_stop r Hr)) as Hv.
  rewrite <-!app_assoc in *. split_and!; [done|done|by rewrite Hv|by rewrite <-Hv].
Qed.

(** ** Strings *)

Lemma lor_add_low k n b : 0 <= n → 0 <= b < 2 ^ n → Z.lor (k * 2 ^ n) b = k * 2 ^ n + b.
Proof.
  intros Hn Hb. rewrite <-Z.lxor_lor, <-Z.add_nocarry_lxor; try done;
    apply Z.bits_inj'; intros i Hi; rewrite Z.land_spec, Z.bits_0;
    (destruct (Z.lt_ge_cases i n) as [H|H];
      [by rewrite Z.mul_pow2_bits_low by lia|
       rewrite <-(Z.mod_small b (2 ^ n)) by lia; by rewrite Z.mod_pow2_bits_high, andb_false_r by lia]).
Qed.

Lemma land_low k x : 0 <= k → Z.land (Z.ones k) x = x mod 2 ^ k.
Proof. intros. by rewrite Z.land_comm, Z.land_ones. Qed.

(** The bit operations of the encoder as arithmetic. *)
Lemma push_utf8_eq c : 0 <= c < 0x10FFFF → push_utf8 c = Some (utf8 c).
Proof.
  intros Hc. unfold push_utf8, utf8. rewrite !Z.shiftr_div_pow2 by lia.
  change (2 ^ 6) with 64. change (2 ^ 12) with 4096. change (2 ^ 18) with 262144.
  change 0x1F with (Z.ones 5). change 0x3F with (Z.ones 6). change 0x0F with (Z.ones 4).
  change 0x07 with (Z.ones 3). rewrite !land_low by lia.
  assert (L6 : ∀ x, Z.lor 0x80 (x mod 2 ^ 6) = 0x80 + x mod 64).
  { intros x. apply (lor_add_low 2 6); [lia|]. apply Z.mod_pos_bound. lia. }
  rewrite !L6.
  destruct (c <? 0x80) eqn:E1; [done|]. destruct (c <? 0x800) eqn:E2.
  { rewrite (Z.mod_small (c / 64)) by (split; [apply Z.div_pos; lia|apply Z.div_lt_upper_bound; lia]).
    rewrite (lor_add_low 6 5); [done|lia|split; [apply Z.div_pos; lia|apply Z.div_lt_upper_bound; lia]]. }
  destruct (c <? 0x10000) eqn:E3.
  { rewrite (Z.mod_small (c / 4096)) by (split; [apply Z.div_pos; lia|apply Z.div_lt_upper_bound; lia]).
    rewrite (lor_add_low 14 4); [done|lia|split; [apply Z.div_pos; lia|apply Z.div_lt_upper_bound; lia]]. }
  rewrite (proj2 (Z.ltb_lt c 0x10FFFF)) by lia.
  rewrite (Z.mod_small (c / 262144)) by (split; [apply Z.div_pos; lia|apply Z.div_lt_upper_bound; lia]).
  rewrite (lor_add_low 30 3); [done|lia|split; [apply Z.div_pos; lia|apply Z.div_lt_upper_bound; lia]].
Qed.

Lemma ch2hex_range c : -1 <= ch2hex c < 16.
Proof. unfold ch2hex. repeat case_match; lia. Qed.

Lemma hex4_range h code : hex4 h code → 0 <= code < 0x10000.
Proof.
  intros (a & b & c & d & -> & H & ->)%hex4_ch2hex. rewrite !Forall_cons in H.
  pose proof (ch2hex_range a). pose proof (ch2hex_range b).
  pose proof (ch2hex_range c). pose proof (ch2hex_range d). lia.
Qed.

Lemma parse_hex4_complete h code t : hex4 h code → parse_hex4 (h ++ t) = Some (code, t).
Proof.
  intros (a & b & c & d & -> & H & ->)%hex4_ch2hex. rewrite !Forall_cons in H. destruct H as (Ha & Hb & Hc & Hd & _).
  unfold parse_hex4. cbn [parse_hex app cur tail].
  rewrite (proj2 (Z.ltb_ge _ _) Ha), (proj2 (Z.ltb_ge _ _) Hb), (proj2 (Z.ltb_ge _ _) Hc),
    (proj2 (Z.ltb_ge _ _) Hd), !Z.shiftl_mul_pow2 by lia.
  change (2 ^ 4) with 16. do 2 f_equal.
Qed.

Lemma parse_hex4_sound t code r : parse_hex4 t = Some (code, r) → ∃ h, t = h ++ r ∧ hex4 h code.
Proof.
  unfold parse_hex4. cbn [parse_hex].
  destruct t as [|a [|b [|c [|d t]]]]; cbn [cur tail];
    repeat match goal with |- context [ch2hex ?x <? 0] => destruct (ch2hex x <? 0) eqn:?; [done|] end;
    try done.
  intros [= <- <-].
  eexists [_; _; _; _]. split; [reflexivity|]. apply hex4_ch2hex. do 4 eexists. split; [reflexivity|].
  split; [repeat constructor; by apply Z.ltb_ge|]. rewrite !Z.shiftl_mul_pow2 by lia.
  change (2 ^ 4) with 16. lia.
Qed.

(** The two Unicode escapes, after the backslash and the [u]. *)
Inductive unicode : bytes → bytes → Prop :=
| U_single h code : hex4 h code → ¬ 0xD800 <= code < 0xDC00 → unicode h (utf8 code)
| U_pair h1 h2 hi lo code :
    hex4 h1 hi → hex4 h2 lo → 0xD800 <= hi < 0xDC00 → 0xDC00 <= lo < 0xE000 →
    code = 0x10000 + (hi - 0xD800) * 0x400 + (lo - 0xDC00) → code ≠ 0x10FFFF →
    unicode (h1 ++ backslash :: "u"%char :: h2) (utf8 code).

Lemma in_range_true (a b x : Z) : a <= x < b → (a <=? x) && (x <? b) = true.
Proof. intros. lia. Qed.
Lemma in_range_false (a b x : Z) : ¬ a <= x < b → (a <=? x) && (x <? b) = false.
Proof. intros. lia. Qed.

Lemma encode_utf8_complete u b t : unicode u b → encode_utf8 (u ++ t) = POk b t.
Proof.
  intros [h code Hh Hn|h1 h2 hi lo code H1 H2 R1 R2 Hc Hl]; unfold encode_utf8.
  - rewrite (parse_hex4_complete h code) by done. pose proof (hex4_range _ _ Hh).
    rewrite in_range_false by done. by rewrite push_utf8_eq by lia.
  - rewrite <-app_assoc, (parse_hex4_complete h1 hi) by done. rewrite in_range_true by done.
    cbn [app cur tail]. change (bool_decide ("\"%char = "\"%char) && bool_decide ("u"%char = "u"%char)) with true.
    rewrite (parse_hex4_complete h2 lo) by done. rewrite in_range_true by done.
    by rewrite <-Hc, push_utf8_eq by lia.
Qed.

Lemma encode_utf8_sound t b r : encode_utf8 t = POk b r → ∃ u, t = u ++ r ∧ unicode u b.
Proof.
  unfold encode_utf8. destruct (parse_hex4 t) as [[code t1]|] eqn:E1; [|done].
  apply parse_hex4_sound in E1 as (h & -> & Hh). pose proof (hex4_range _ _ Hh) as Hr.
  destruct ((0xD800 <=? code) && (code <? 0xDC00)) eqn:Eh.
  - destruct (bool_decide (cur t1 = "\"%char) && bool_decide (cur (tail t1) = "u"%char)) eqn:Eb; [|done].
    apply andb_true_iff in Eb as [B1 B2].
    apply bool_decide_eq_true in B1, B2.
    destruct (parse_hex4 (tail (tail t1))) as [[lo t2]|] eqn:E2; [|done].
    apply parse_hex4_sound in E2 as (h2 & Et & Hh2).
    destruct ((0xDC00 <=? lo) && (lo <? 0xE000)) eqn:El; [|done].
    set (c := 0x10000 + (code - 0xD800) * 0x400 + (lo - 0xDC00)).
    destruct (decide (c = 0x10FFFF)) as [Ec|Ec]; [by rewrite Ec|].
    rewrite push_utf8_eq by lia. intros [= <- <-].
    exists (h ++ backslash :: "u"%char :: h2). split; [|eapply U_pair; try done; lia].
    rewrite <-app_assoc. f_equal. rewrite (cur_tail _ t1 B1) by done. simpl. f_equal.
    rewrite (cur_tail _ (tail t1) B2) by done. by rewrite Et.
  - rewrite push_utf8_eq by lia. intros [= <- <-]. exists h. split; [done|]. constructor; [done|lia].
Qed.

Lemma chars_unicode u b t s : unicode u b → chars t s → chars (backslash :: "u"%char :: u ++ t) (b ++ s).
Proof.
  intros [h code Hh Hn|h1 h2 hi lo code H1 H2 R1 R2 -> Hl] Ht; [by constructor|].
  rewrite <-app_assoc. by constructor.
Qed.

(** The grammar read the way the loop reads it. *)
Lemma chars_cases (P : bytes → bytes → Prop) :
  P [] [] →
  (∀ c t s, 0x20 <= byteZ c → c ≠ dquote → c ≠ backslash → P t s → P (c :: t) (c :: s)) →
  (∀ e c t s, (e, c) ∈ escapes → P t s → P (backslash :: e :: t) (c :: s)) →
  (∀ u b t s, unicode u b → P t s → P (backslash :: "u"%char :: u ++ t) (b ++ s)) →
  ∀ t s, chars t s → P t s.
Proof.
  intros H0 H1 H2 H3. induction 1 as [|c t s|e c t s|h code t s|h1 h2 hi lo t s]; auto.
  - apply H3; [by constructor|done].
  - replace (h1 ++ backslash :: "u"%char :: h2 ++ t) with ((h1 ++ backslash :: "u"%char :: h2) ++ t)
      by (by rewrite <-app_assoc).
    apply H3; [by eapply U_pair|done].
Qed.

Lemma unescape_not_u e c : unescape e = Some c → e ≠ "u"%char.
Proof. intros H ->. done. Qed.

Lemma string_loop_complete tx s : chars tx s → ∀ n st r,
  (length (tx ++ dquote :: r) <= n)%nat → string_loop n st (tx ++ dquote :: r) = POk (st ++ s) r.
Proof.
  revert tx s. apply (chars_cases (λ tx s, ∀ n st r, (length (tx ++ dquote :: r) <= n)%nat →
    string_loop n st (tx ++ dquote :: r) = POk (st ++ s) r)).
  - intros [|n] st r Hn; simpl in *; [lia|]. by rewrite app_nil_r.
  - intros c t s Hc Hq Hb IH [|n] st r Hn; simpl in *; [lia|].
    rewrite !bool_decide_eq_false_2 by done. rewrite (proj2 (Z.ltb_ge _ _)) by done.
    rewrite IH by lia. by rewrite <-app_assoc.
  - intros e c t s He%unescape_escapes IH [|n] st r Hn; simpl in *; [lia|].
    rewrite (bool_decide_eq_false_2 (e = "u"%char)) by (by eapply unescape_not_u). rewrite He.
    change (bool_decide (backslash = dquote)) with false. change (bool_decide (backslash = backslash)) with true.
    cbv iota. rewrite IH by lia. by rewrite <-app_assoc.
  - intros u b t s Hu IH [|n] st r Hn; simpl in *; [lia|].
    change (bool_decide (backslash = dquote)) with false. change (bool_decide (backslash = backslash)) with true.
    change (bool_decide ("u"%char = "u"%char)) with true. cbv iota.
    rewrite <-app_assoc, (encode_utf8_complete u b) by done.
    rewrite IH; [by rewrite <-app_assoc|]. rewrite length_app in Hn. rewrite !length_app in *. lia.
Qed.

Lemma string_loop_sound n : ∀ st t st' r, string_loop n st t = POk st' r →
  ∃ tx s, t = tx ++ dquote :: r ∧ chars tx s ∧ st' = st ++ s.
Proof.
  induction n as [|n IH]; intros st [|c t] st' r H; simpl in H; try done.
  case_bool_decide as Hq.
  { injection H as <- <-. exists [], []. subst. split_and!; [done|constructor|by rewrite app_nil_r]. }
  case_bool_decide as Hb.
  - subst c. case_bool_decide as Hu.
    + destruct (encode_utf8 (tail t)) as [b r1|] eqn:E; [|done].
      apply encode_utf8_sound in E as (u & Eu & Hub). apply IH in H as (tx & s & -> & Hc & ->).
      exists (backslash :: "u"%char :: u ++ tx), (b ++ s).
      split_and!; [|by apply chars_unicode|by rewrite app_assoc].
      rewrite (cur_tail _ t Hu) by done. simpl. by rewrite Eu, app_assoc.
    + destruct (unescape (cur t)) as [x|] eqn:E; [|done]. apply IH in H as (tx & s & Et & Hc & ->).
      exists (backslash :: cur t :: tx), (x :: s).
      split_and!; [|by constructor; [apply unescape_escapes|]|by rewrite <-app_assoc].
      simpl. rewrite <-Et. f_equal. destruct t; done.
  - destruct (byteZ c <? 0x20) eqn:E; [done|]. apply IH in H as (tx & s & -> & Hc & ->).
    exists (c :: tx), (c :: s). split_and!; [done| |by rewrite <-app_assoc].
    constructor; try done. by apply Z.ltb_ge.
Qed.

(** ** Values *)

(** Decides the next character test of the goal. *)
Ltac char_step :=
  match goal with
  | |- context [bool_decide (?a = ?b)] =>
      first [ rewrite (bool_decide_eq_false_2 (a = b)) by (done || by apply digit_ne)
            | rewrite (bool_decide_eq_true_2 (a = b)) by done ]
  end.

(** [parse_text] on a text whose white space is skipped. *)
Lemma parse_text_skip n w c r : ws w → is_ws c = false →
  parse_text (S n) (w ++ c :: r) = parse_text (S n) (c :: r).
Proof. intros Hw Hc. cbn [parse_text]. by rewrite parse_whitespace_app. Qed.

Lemma parse_text_strip n t : parse_text n (parse_whitespace t) = parse_text n t.
Proof. destruct n; [done|]. cbn [parse_text]. by rewrite parse_whitespace_idem. Qed.

Lemma parse_elements_strip n acc t : parse_elements n acc (parse_whitespace t) = parse_elements n acc t.
Proof. destruct n; [done|]. cbn [parse_elements]. by rewrite parse_text_strip. Qed.

Lemma skip_literal_app l r : Forall (λ c, c ≠ Ascii.zero) l → skip_literal l (l ++ r) = Some r.
Proof.
  induction 1 as [|c l Hc _ IH]; [done|]. simpl. by rewrite bool_decide_eq_true_2.
Qed.

Lemma skip_literal_sound l t r : Forall (λ c, c ≠ Ascii.zero) l → skip_literal l t = Some r → t = l ++ r.
Proof.
  intros Hl. revert t. induction Hl as [|c l Hc _ IH]; simpl; intros t; [by intros [= ->]|].
  case_bool_decide as E; [|done]. intros H%IH. by rewrite (cur_tail c t E Hc), H.
Qed.

(** The first character of a number, and of a value. *)
Lemma number_first s : number_syntax s → ∃ c r, s = c :: r ∧ (is_digit c = true ∨ c = "-"%char).
Proof.
  intros (sg & ip & fp & ep & -> & Hsg & Hi & _). destruct Hsg as [-> | ->]; [|simpl; eauto 10].
  pose proof (int_cur ip (fp ++ ep) Hi). destruct ip; simpl in *; eauto.
  destruct Hi as [?|(?&?&?&?)]; done.
Qed.

Lemma jtext_first s v : jtext s v →
  ∃ c r, s = c :: r ∧ is_ws c = false ∧ c ≠ Ascii.zero ∧ c ≠ "]"%char ∧ c ≠ "}"%char.
Proof.
  intros Hs.
  assert (Hdig : ∀ c, is_digit c = true ∨ c = "-"%char →
    is_ws c = false ∧ c ≠ Ascii.zero ∧ c ≠ "]"%char ∧ c ≠ "}"%char).
  { intros c [H| ->]; [|done]. split_and!; try (by apply digit_ne).
    apply digit_char in H. unfold is_ws. lia. }
  destruct Hs as [| | |s Hn _| | | | |]; try (eexists _, _; split; [reflexivity|]; done).
  destruct (number_first s Hn) as (c & r & -> & Hc). eexists _, _. split; [done|]. by apply Hdig.
Qed.

(** The members of an object with the leading blanks removed. *)
Lemma members_first t l r : members t l → ∃ kt k w2 u,
  parse_whitespace (t ++ r) = dquote :: kt ++ dquote :: w2 ++ ":"%char :: u ∧ chars kt k ∧ ws w2.
Proof.
  intros Hm. destruct Hm as [w1 kt k w2 w3 t v w4 H1 Hk H2 H3 Ht H4|w1 kt k w2 w3 t v w4 t' l H1 Hk H2 H3 Ht H4 Hm];
    exists kt, k, w2; eexists; (split; [|done]); rewrite <-!app_assoc, parse_whitespace_app by done;
    simpl; rewrite <-!app_assoc; simpl; rewrite <-!app_assoc; reflexivity.
Qed.

Lemma parse_string_raw_complete kt k u :
  chars kt k → parse_string_raw [] (dquote :: kt ++ dquote :: u) = POk k u.
Proof. intros H. unfold parse_string_raw. simpl tail. rewrite (string_loop_complete kt k) by (done || simpl; lia). done. Qed.

(** Arithmetic on the lengths of texts. *)
Ltac len := repeat (rewrite ?length_app in *; simpl length in * ); lia.

Lemma element_step n acc w1 t v u :
  (∀ m w r, ws w → delim r → (2 * length (w ++ t ++ r) + 1 <= m)%nat →
     parse_text m (w ++ t ++ r) = Some (POk v r)) →
  ws w1 → delim u → (2 * length (w1 ++ t ++ u) + 1 <= n)%nat →
  parse_elements (S n) acc (w1 ++ t ++ u) =
    let u := parse_whitespace u in
    if bool_decide (cur u = "]"%char) then Some (POk (JArray (acc ++ [v])) (tail u))
    else if bool_decide (cur u = ","%char) then parse_elements n (acc ++ [v]) (tail u)
    else Some (PErr kParseMissCommaOrSquareBracket).
Proof. intros IH Hw Hu Hn. cbn [parse_elements]. by rewrite IH. Qed.

Lemma member_step n acc kt k w2 w3 t v u :
  (∀ m w r, ws w → delim r → (2 * length (w ++ t ++ r) + 1 <= m)%nat →
     parse_text m (w ++ t ++ r) = Some (POk v r)) →
  chars kt k → ws w2 → ws w3 → delim u → (2 * length (w3 ++ t ++ u) + 1 <= n)%nat →
  parse_members (S n) acc (dquote :: kt ++ dquote :: w2 ++ ":"%char :: w3 ++ t ++ u) =
    let object := map_emplace k v acc in
    let u := parse_whitespace u in
    if bool_decide (cur u = "}"%char) then Some (POk (JObject object) (tail u))
    else if bool_decide (cur u = ","%char) then parse_members n object (parse_whitespace (tail u))
    else Some (PErr kParseMissCommaOrCurlyBracket).
Proof.
  intros IH Hk H2 H3 Hu Hn. cbn [parse_members]. char_step. cbn [negb].
  rewrite (parse_string_raw_complete kt k) by done.
  rewrite parse_whitespace_app, parse_whitespace_stop by done. cbn [cur]. char_step. cbn [negb tail].
  by rewrite IH.
Qed.

Lemma member_text w1 kt w2 w3 t u T : ws w1 →
  T = w1 ++ dquote :: kt ++ dquote :: w2 ++ ":"%char :: w3 ++ t ++ u →
  parse_whitespace T = dquote :: kt ++ dquote :: w2 ++ ":"%char :: w3 ++ t ++ u.
Proof. intros Hw ->. by rewrite parse_whitespace_app, parse_whitespace_stop. Qed.

Lemma delim_close (c : ascii) r : c = "]"%char ∨ c = "}"%char ∨ c = ","%char → delim (c :: r).
Proof. unfold delim. simpl. tauto. Qed.

(** [parse_text] on each kind of value. *)
Ltac dispatch := cbn [parse_text]; rewrite parse_whitespace_stop by done; cbn [cur tail]; repeat char_step.

Lemma text_literals n r :
  parse_text (S n) (str "null" ++ r) = Some (POk JNull r)
  ∧ parse_text (S n) (str "true" ++ r) = Some (POk (JBoolean true) r)
  ∧ parse_text (S n) (str "false" ++ r) = Some (POk (JBoolean false) r).
Proof.
  split_and!.
  - change (str "null" ++ r) with ("n"%char :: str "ull" ++ r). dispatch.
    change ("n"%char :: str "ull" ++ r) with (kLiteralNull ++ r). unfold parse_literal.
    by rewrite skip_literal_app by (by repeat constructor).
  - change (str "true" ++ r) with ("t"%char :: str "rue" ++ r). dispatch.
    change ("t"%char :: str "rue" ++ r) with (kLiteralTrue ++ r). unfold parse_boolean.
    by rewrite skip_literal_app by (by repeat constructor).
  - change (str "false" ++ r) with ("f"%char :: str "alse" ++ r). dispatch.
    change ("f"%char :: str "alse" ++ r) with (kLiteralFalse ++ r). unfold parse_boolean.
    by rewrite skip_literal_app by (by repeat constructor).
Qed.

Lemma text_number n c r : is_digit c = true ∨ c = "-"%char →
  parse_text (S n) (c :: r) = Some (parse_number (c :: r)).
Proof.
  intros Hc. assert (Hw : is_ws c = false).
  { destruct Hc as [Hc| ->]; [|done]. apply digit_char in Hc. unfold is_ws. lia. }
  destruct Hc as [Hc| ->]; dispatch; done.
Qed.

Lemma text_string n t s r : chars t s →
  parse_text (S n) (dquote :: t ++ dquote :: r) = Some (POk (JString s) r).
Proof. intros H. dispatch. unfold parse_string. by rewrite (parse_string_raw_complete t s). Qed.

Lemma text_array n u :
  parse_text (S n) ("["%char :: u) =
    let u := parse_whitespace u in
    if bool_decide (cur u = Ascii.zero) then Some (PErr kParseMissCommaOrSquareBracket)
    else if bool_decide (cur u = "]"%char) then Some (POk (JArray []) (tail u))
    else parse_elements n [] u.
Proof. cbn [parse_text]. by rewrite parse_whitespace_stop. Qed.

Lemma text_object n u :
  parse_text (S n) ("{"%char :: u) =
    let u := parse_whitespace u in
    if bool_decide (cur u = Ascii.zero) then Some (PErr kParseMissCommaOrCurlyBracket)
    else if bool_decide (cur u = "}"%char) then Some (POk (JObject []) (tail u))
    else parse_members n [] u.
Proof. cbn [parse_text]. by rewrite parse_whitespace_stop. Qed.

(** The text of the elements begins with a value. *)
Lemma elements_first t l r : elements t l →
  let u := parse_whitespace (t ++ r) in cur u ≠ Ascii.zero ∧ cur u ≠ "]"%char.
Proof.
  intros He. assert (H : ∃ w s v u, t = w ++ s ++ u ∧ ws w ∧ jtext s v).
  { destruct He as [w1 s w2 v|w1 s w2 v t' l]; eauto 10. }
  destruct H as (w & s & v & u & -> & Hw & Hs).
  destruct (jtext_first s v Hs) as (c & r' & -> & Hc & ? & ? & _).
  rewrite <-!app_assoc, parse_whitespace_app by done. simpl app. rewrite parse_whitespace_stop by done. done.
Qed.

Lemma parse_complete :
  (∀ s v, jtext s v → ∀ n w r, ws w → delim r → (2 * length (w ++ s ++ r) + 1 <= n)%nat →
     parse_text n (w ++ s ++ r) = Some (POk v r))
  ∧ (∀ t l, elements t l → ∀ n acc r, (2 * length (t ++ "]"%char :: r) + 2 <= n)%nat →
     parse_elements n acc (t ++ "]"%char :: r) = Some (POk (JArray (acc ++ l)) r))
  ∧ (∀ t l, members t l → ∀ n acc r, (2 * length (t ++ "}"%char :: r) + 2 <= n)%nat →
     parse_members n acc (parse_whitespace (t ++ "}"%char :: r)) = Some (POk (JObject (object_of acc l)) r)).
Proof.
  apply jtext_mutind.
  - intros [|n] w r Hw Hr Hn; [lia|]. destruct (text_literals n r) as (E & _).
    rewrite <-E. by apply parse_text_skip.
  - intros [|n] w r Hw Hr Hn; [lia|]. destruct (text_literals n r) as (_ & E & _).
    rewrite <-E. by apply parse_text_skip.
  - intros [|n] w r Hw Hr Hn; [lia|]. destruct (text_literals n r) as (_ & _ & E).
    rewrite <-E. by apply parse_text_skip.
  - intros s Hs Hinf [|n] w r Hw Hr Hn; [lia|]. pose proof (parse_number_complete s r Hs (delim_num_stop r Hr) Hinf) as Hp.
    destruct (jtext_first _ _ (T_number s Hs Hinf)) as (c & u & E & Hc & _).
    destruct (number_first s Hs) as (c' & u' & E' & Hd). rewrite E in E'. injection E' as <- <-.
    rewrite <-Hp, E. simpl app. rewrite parse_text_skip by done. by apply text_number.
  - intros t s Ht [|n] w r Hw Hr Hn; [lia|]. rewrite <-app_comm_cons, <-app_assoc, parse_text_skip by done.
    by apply text_string.
  - intros wi Hwi [|n] w r Hw Hr Hn; [lia|]. rewrite <-app_comm_cons, <-app_assoc, parse_text_skip by done.
    rewrite text_array. cbv zeta. rewrite parse_whitespace_app by done. simpl app.
    rewrite parse_whitespace_stop by done. cbn [cur tail]. by repeat char_step.
  - intros t l He IH [|n] w r Hw Hr Hn; [lia|]. rewrite <-app_comm_cons, <-app_assoc, parse_text_skip by done.
    rewrite text_array. cbv zeta. simpl app. destruct (elements_first t l ("]"%char :: r) He) as [H1 H2].
    rewrite !bool_decide_eq_false_2 by done. rewrite parse_elements_strip, IH; [done|len].
  - intros wi Hwi [|n] w r Hw Hr Hn; [lia|]. rewrite <-app_comm_cons, <-app_assoc, parse_text_skip by done.
    rewrite text_object. cbv zeta. rewrite parse_whitespace_app by done. simpl app.
    rewrite parse_whitespace_stop by done. cbn [cur tail]. by repeat char_step.
  - intros t l Hm IH [|n] w r Hw Hr Hn; [lia|]. rewrite <-app_comm_cons, <-app_assoc, parse_text_skip by done.
    rewrite text_object. cbv zeta. simpl app.
    destruct (members_first t l ("}"%char :: r) Hm) as (kt & k & w2 & u & E & _).
    rewrite (bool_decide_eq_false_2 (cur _ = Ascii.zero)), (bool_decide_eq_false_2 (cur _ = "}"%char))
      by (by rewrite E). apply IH. len.
  - intros w1 t w2 v H1 Ht IH H2 [|n] acc r Hn; [lia|]. rewrite <-!app_assoc.
    rewrite (element_step n acc w1 t v (w2 ++ "]"%char :: r)); try done;
      [|apply delim_ws, delim_close; auto|len].
    cbv zeta. rewrite parse_whitespace_app, parse_whitespace_stop by done. cbn [cur tail]. by char_step.
  - intros w1 t w2 v t' l H1 Ht IH H2 He IHe [|n] acc r Hn; [lia|]. rewrite <-!app_assoc. simpl app.
    rewrite (element_step n acc w1 t v (w2 ++ ","%char :: t' ++ "]"%char :: r)); try done;
      [|apply delim_ws, delim_close; auto|len].
    cbv zeta. rewrite parse_whitespace_app, parse_whitespace_stop by done. cbn [cur tail]. do 2 char_step.
    rewrite IHe; [by rewrite <-app_assoc|len].
  - intros w1 kt k w2 w3 t v w4 H1 Hk H2 H3 Ht IH H4 [|n] acc r Hn; [lia|].
    rewrite (member_text w1 kt w2 w3 t (w4 ++ "}"%char :: r)) by (done || by simplify_list_eq).
    rewrite (member_step n acc kt k w2 w3 t v (w4 ++ "}"%char :: r)); try done;
      [|apply delim_ws, delim_close; auto|len].
    cbv zeta. rewrite parse_whitespace_app, parse_whitespace_stop by done. cbn [cur tail]. by char_step.
  - intros w1 kt k w2 w3 t v w4 t' l H1 Hk H2 H3 Ht IH H4 Hm IHm [|n] acc r Hn; [lia|].
    rewrite (member_text w1 kt w2 w3 t (w4 ++ ","%char :: t' ++ "}"%char :: r)) by (done || by simplify_list_eq).
    rewrite (member_step n acc kt k w2 w3 t v (w4 ++ ","%char :: t' ++ "}"%char :: r)); try done;
      [|apply delim_ws, delim_close; auto|len].
    cbv zeta. rewrite parse_whitespace_app, parse_whitespace_stop by done. cbn [cur tail]. do 2 char_step.
    apply IHm. len.
Qed.

(** ** What the parser accepts is in the grammar *)

Lemma parse_string_raw_sound t k r : cur t = dquote → parse_string_raw [] t = POk k r →
  ∃ kt, t = dquote :: kt ++ dquote :: r ∧ chars kt k.
Proof.
  intros Hc H. apply string_loop_sound in H as (kt & s & E & Hk & ->).
  exists kt. split; [|done]. rewrite (cur_tail _ t Hc) by done. by rewrite E.
Qed.

(** The value cases that do not recurse; a number needs what follows it. *)
Lemma flat_sound t v r : delim r →
  (cur t = "n"%char → parse_literal t kLiteralNull = POk v r → jtext (str "null") v ∧ t = str "null" ++ r)
  ∧ (cur t = "t"%char → parse_boolean t kLiteralTrue true = POk v r → jtext (str "true") v ∧ t = str "true" ++ r)
  ∧ (cur t = "f"%char → parse_boolean t kLiteralFalse false = POk v r → jtext (str "false") v ∧ t = str "false" ++ r)
  ∧ (cur t = dquote → parse_string t = POk v r → ∃ s, t = s ++ r ∧ jtext s v)
  ∧ (parse_number t = POk v r → ∃ s, t = s ++ r ∧ jtext s v).
Proof.
  intros Hr. unfold parse_literal, parse_boolean, parse_string. split_and!.
  1-3: intros _; destruct (skip_literal _ _) eqn:E; [|done]; intros [= <- <-];
    (split; [constructor|apply skip_literal_sound; [by repeat constructor|exact E]]).
  - intros Hc. destruct (parse_string_raw [] t) as [k u|] eqn:E; [|done]. intros [= <- <-].
    apply parse_string_raw_sound in E as (kt & -> & Hk); [|done].
    exists (dquote :: kt ++ [dquote]). split; [by simplify_list_eq|by constructor].
  - intros H. apply parse_number_sound in H as (s & -> & Hs & -> & Hi); [|done]. exists s.
    split; [done|by constructor].
Qed.

Definition text_sound (n : nat) : Prop := ∀ t v r,
  parse_text n t = Some (POk v r) → delim r → ∃ w s, t = w ++ s ++ r ∧ ws w ∧ jtext s v.
Definition elements_sound (n : nat) : Prop := ∀ acc t v r,
  parse_elements n acc t = Some (POk v r) →
  ∃ te l, t = te ++ "]"%char :: r ∧ elements te l ∧ v = JArray (acc ++ l).
Definition members_sound (n : nat) : Prop := ∀ acc t v r,
  parse_members n acc t = Some (POk v r) →
  ∃ te l, t = te ++ "}"%char :: r ∧ members te l ∧ v = JObject (object_of acc l).

Lemma elements_sound_step n : text_sound n → elements_sound n → elements_sound (S n).
Proof.
  intros IHt IHe acc t v r H. cbn [parse_elements] in H.
  destruct (parse_text n t) as [[v1 u|]|] eqn:E; [|done..].
  destruct (parse_whitespace_spec u) as (w2 & Hw2 & Eu). cbv zeta in H.
  case_bool_decide as Hc; [|case_bool_decide as Hc2; [|done]].
  - injection H as <- <-. destruct (IHt _ _ _ E) as (w1 & s & -> & Hw1 & Hs); [by apply delim_stripped; auto|].
    exists (w1 ++ s ++ w2), [v1]. split_and!; [|by constructor|done].
    rewrite Eu at 1. rewrite (cur_tail _ _ Hc) at 1 by done. by simplify_list_eq.
  - apply IHe in H as (te & l & Et & Hl & ->).
    destruct (IHt _ _ _ E) as (w1 & s & -> & Hw1 & Hs); [by apply delim_stripped; auto|].
    exists (w1 ++ s ++ w2 ++ ","%char :: te), (v1 :: l). split_and!; [|by constructor|by simplify_list_eq].
    rewrite Eu at 1. rewrite (cur_tail _ _ Hc2), Et at 1 by done. by simplify_list_eq.
Qed.

Lemma members_ws w t l : ws w → members t l → members (w ++ t) l.
Proof.
  intros Hw [w1 kt k w2 w3 u v w4|w1 kt k w2 w3 u v w4 t' l']; rewrite app_assoc; constructor; try done;
    by apply Forall_app.
Qed.

Lemma members_sound_step n : text_sound n → members_sound n → members_sound (S n).
Proof.
  intros IHt IHm acc t v r H. cbn [parse_members] in H.
  case_bool_decide as Hq; [|done]. cbn [negb] in H.
  destruct (parse_string_raw [] t) as [k u|] eqn:Ek; [|done].
  apply parse_string_raw_sound in Ek as (kt & -> & Hk); [|done].
  destruct (parse_whitespace_spec u) as (w2 & Hw2 & Eu). cbv zeta in H.
  case_bool_decide as Hcol; [|done]. cbn [negb] in H. rewrite (cur_tail _ _ Hcol) in Eu by done.
  destruct (parse_text n (tail (parse_whitespace u))) as [[v1 x|]|] eqn:E; [|done..].
  destruct (parse_whitespace_spec x) as (w4 & Hw4 & Ex).
  case_bool_decide as Hc; [|case_bool_decide as Hc2; [|done]].
  - injection H as <- <-. destruct (IHt _ _ _ E) as (w3 & s & Es & Hw3 & Hs); [by apply delim_stripped; auto|].
    exists ([] ++ dquote :: kt ++ dquote :: w2 ++ ":"%char :: w3 ++ s ++ w4), [(k, v1)].
    split_and!; [|by constructor; try done; apply ws_nil|done].
    rewrite Eu, Es, Ex at 1. rewrite (cur_tail _ _ Hc) at 1 by done. by simplify_list_eq.
  - apply IHm in H as (te & l & Et & Hl & ->).
    destruct (IHt _ _ _ E) as (w3 & s & Es & Hw3 & Hs); [by apply delim_stripped; auto|].
    destruct (parse_whitespace_spec (tail (parse_whitespace x))) as (w5 & Hw5 & E5).
    exists ([] ++ dquote :: kt ++ dquote :: w2 ++ ":"%char :: w3 ++ s ++ w4 ++ ","%char :: w5 ++ te), ((k, v1) :: l).
    split_and!; [|by constructor; try done; [apply ws_nil|apply members_ws]|done].
    rewrite Eu, Es, Ex at 1. rewrite (cur_tail _ _ Hc2), E5, Et at 1 by done. by simplify_list_eq.
Qed.

Lemma text_sound_step n : elements_sound n → members_sound n → text_sound (S n).
Proof.
  intros IHe IHm t v r H Hr. destruct (parse_whitespace_spec t) as (w & Hw & Et).
  enough (∃ s, parse_whitespace t = s ++ r ∧ jtext s v) as (s & E & Hs)
    by (exists w, s; split_and!; [by rewrite <-E|done|done]).
  cbn [parse_text] in H. cbv zeta in H. clear Et. revert H.
  generalize (parse_whitespace t). clear t w Hw. intros t H.
  destruct (flat_sound t v r Hr) as (F1 & F2 & F3 & F4 & F5).
  case_bool_decide as C0; [done|].
  case_bool_decide as C1; [injection H as H; destruct (F1 C1 H); eauto|].
  case_bool_decide as C2; [injection H as H; destruct (F2 C2 H); eauto|].
  case_bool_decide as C3; [injection H as H; destruct (F3 C3 H); eauto|].
  case_bool_decide as C4; [injection H as H; eauto|].
  case_bool_decide as C5.
  { rewrite (cur_tail _ t C5) by done. destruct (parse_whitespace_spec (tail t)) as (w & Hw & Et).
    case_bool_decide; [done|]. case_bool_decide as Hc.
    - injection H as <- <-. exists ("["%char :: w ++ ["]"%char]). split; [|by constructor].
      rewrite Et at 1. rewrite (cur_tail _ _ Hc) at 1 by done. by simplify_list_eq.
    - rewrite parse_elements_strip in H. apply IHe in H as (te & l & E & He & ->).
      exists ("["%char :: te ++ ["]"%char]). split; [rewrite E; by simplify_list_eq|by constructor]. }
  case_bool_decide as C6.
  { rewrite (cur_tail _ t C6) by done. destruct (parse_whitespace_spec (tail t)) as (w & Hw & Et).
    case_bool_decide; [done|]. case_bool_decide as Hc.
    - injection H as <- <-. exists ("{"%char :: w ++ ["}"%char]). split; [|by constructor].
      rewrite Et at 1. rewrite (cur_tail _ _ Hc) at 1 by done. by simplify_list_eq.
    - apply IHm in H as (te & l & E & He & ->).
      exists ("{"%char :: (w ++ te) ++ ["}"%char]). split; [rewrite Et, E at 1; by simplify_list_eq|].
      by constructor; apply members_ws. }
  injection H as H. auto.
Qed.

Lemma parse_sound n : text_sound n ∧ elements_sound n ∧ members_sound n.
Proof.
  induction n as [|n (IHt & IHe & IHm)]; [by split_and!|].
  split_and!; [by apply text_sound_step|by apply elements_sound_step|by apply members_sound_step].
Qed.

(** ** Termination *)

(** What is left after a value is a proper suffix of the text. *)
Definition consumed (t r : bytes) : Prop := ∃ x, t = x ++ r ∧ x ≠ [].

Lemma consumed_shrinks t r : consumed t r → (length r < length t)%nat.
Proof. intros ([|c x] & -> & Hx); [done|len]. Qed.

Lemma consumed_app w t r : consumed t r → consumed (w ++ t) r.
Proof.
  intros (x & -> & Hx). exists (w ++ x). split; [by rewrite app_assoc|]. by intros [_ ?]%app_nil.
Qed.

Lemma consumed_tail t r : consumed (tail t) r → consumed t r.
Proof. destruct t as [|c t]; [done|]. apply (consumed_app [c]). Qed.

Lemma consumed_stripped t r : consumed (parse_whitespace t) r → consumed t r.
Proof. destruct (parse_whitespace_spec t) as (w & _ & E). rewrite E at 2. apply consumed_app. Qed.

Lemma consumed_cur c t : cur t = c → c ≠ Ascii.zero → consumed t (tail t).
Proof. intros H1 H2. exists [c]. split; [by apply cur_tail|done]. Qed.

Lemma parse_number_consumed t v r : parse_number t = POk v r → consumed t r.
Proof.
  unfold parse_number. intros H.
  destruct (skip_int t) as [p1|] eqn:E1; [|done]. simpl in H.
  destruct (skip_frac p1) as [p2|] eqn:E2; [|done]. simpl in H.
  destruct (skip_exp p2) as [p3|] eqn:E3; [|done].
  destruct (isinf _); [done|]. injection H as _ ->.
  apply skip_int_sound in E1 as (sg & ip & -> & Hs & Hi).
  apply skip_frac_sound in E2 as (fp & -> & _). apply skip_exp_sound in E3 as (ep & -> & _).
  exists (sg ++ ip ++ fp ++ ep). split; [by simplify_list_eq|].
  destruct Hi as [->|(d & ds & -> & _)], Hs as [-> | ->]; done.
Qed.

Lemma tail_shrinks c t : cur t = c → c ≠ Ascii.zero → length t = S (length (tail t)).
Proof. intros H1 H2. by rewrite (cur_tail c t H1 H2). Qed.

Lemma elements_consumed n acc t v r : parse_elements n acc t = Some (POk v r) → consumed t r.
Proof.
  intros H. destruct (parse_sound n) as (_ & He & _). apply He in H as (te & l & -> & _).
  exists (te ++ ["]"%char]). split; [by simplify_list_eq|by destruct te].
Qed.
Lemma members_consumed n acc t v r : parse_members n acc t = Some (POk v r) → consumed t r.
Proof.
  intros H. destruct (parse_sound n) as (_ & _ & Hm). apply Hm in H as (te & l & -> & _).
  exists (te ++ ["}"%char]). split; [by simplify_list_eq|by destruct te].
Qed.

Lemma literal_consumed l t r : Forall (λ c, c ≠ Ascii.zero) l → l ≠ [] →
  skip_literal l t = Some r → consumed t r.
Proof. intros Hz Hne E. exists l. split; [by apply skip_literal_sound|done]. Qed.

Lemma text_consumed n t v r : parse_text n t = Some (POk v r) → consumed t r.
Proof.
  intros H. apply consumed_stripped.
  destruct n as [|n]; [done|]. cbn [parse_text] in H. cbv zeta in H. revert H.
  generalize (parse_whitespace t). clear t. intros t H.
  case_bool_decide as C0; [done|].
  unfold parse_literal, parse_boolean, parse_string in H.
  do 3 (case_bool_decide; [destruct (skip_literal _ _) eqn:E; [|done]; injection H as <- <-;
          eapply literal_consumed; [| |exact E]; [by repeat constructor|done]|]).
  case_bool_decide as C4.
  { destruct (parse_string_raw [] t) as [k u|] eqn:E; [|done]. injection H as <- <-.
    apply parse_string_raw_sound in E as (kt & -> & _); [|done].
    exists (dquote :: kt ++ [dquote]). split; [by simplify_list_eq|done]. }
  case_bool_decide as C5.
  { apply consumed_tail, consumed_stripped. case_bool_decide; [done|]. case_bool_decide as Hc.
    - injection H as <- <-. by eapply consumed_cur.
    - by apply elements_consumed in H. }
  case_bool_decide as C6.
  { apply consumed_tail, consumed_stripped. case_bool_decide; [done|]. case_bool_decide as Hc.
    - injection H as <- <-. by eapply consumed_cur.
    - by apply members_consumed in H. }
  injection H as H. by eapply parse_number_consumed.
Qed.

Lemma text_shrink n t v r : parse_text n t = Some (POk v r) → (length r < length t)%nat.
Proof. intros H. by eapply consumed_shrinks, text_consumed. Qed.

Definition parses (n : nat) : Prop :=
  (∀ t, (2 * length t + 1 <= n)%nat → is_Some (parse_text n t))
  ∧ (∀ acc t, (2 * length t + 2 <= n)%nat → is_Some (parse_elements n acc t))
  ∧ (∀ acc t, (2 * length t + 2 <= n)%nat → is_Some (parse_members n acc t)).

Lemma text_parses n : parses n → ∀ t, (2 * length t + 1 <= S n)%nat → is_Some (parse_text (S n) t).
Proof.
  intros (_ & He & Hm) t Hn. cbn [parse_text]. cbv zeta.
  pose proof (length_parse_whitespace t) as Hl. revert Hl. generalize (parse_whitespace t). intros u Hl.
  pose proof (length_parse_whitespace (tail u)) as Hl2.
  do 5 (case_bool_decide; [done|]).
  case_bool_decide as C5.
  { pose proof (tail_shrinks _ u C5 ltac:(done)). do 2 (case_bool_decide; [done|]). apply He. lia. }
  case_bool_decide as C6; [|done].
  pose proof (tail_shrinks _ u C6 ltac:(done)). do 2 (case_bool_decide; [done|]). apply Hm. lia.
Qed.

Lemma elements_parses n : parses n →
  ∀ acc t, (2 * length t + 2 <= S n)%nat → is_Some (parse_elements (S n) acc t).
Proof.
  intros (Ht & He & _) acc t Hn. cbn [parse_elements]. destruct (Ht t) as [[v u|e] E]; [lia|..]; rewrite E; [|done].
  apply text_shrink in E. cbv zeta. case_bool_decide; [done|]. case_bool_decide as Hc; [|done].
  pose proof (tail_shrinks _ _ Hc ltac:(done)). pose proof (length_parse_whitespace u). apply He. lia.
Qed.

Lemma members_parses n : parses n →
  ∀ acc t, (2 * length t + 2 <= S n)%nat → is_Some (parse_members (S n) acc t).
Proof.
  intros (Ht & _ & Hm) acc t Hn. cbn [parse_members]. case_bool_decide as Hq; [|done]. cbn [negb].
  destruct (parse_string_raw [] t) as [k u|] eqn:Ek; [|done].
  apply parse_string_raw_sound in Ek as (kt & -> & _); [|done]. cbv zeta.
  pose proof (length_parse_whitespace u) as Hu. case_bool_decide as Hc; [|done]. cbn [negb].
  pose proof (tail_shrinks _ _ Hc ltac:(done)).
  destruct (Ht (tail (parse_whitespace u))) as [[v x|e] E]; [len|..]; rewrite E; [|done].
  apply text_shrink in E. case_bool_decide; [done|]. case_bool_decide as Hc2; [|done].
  pose proof (tail_shrinks _ _ Hc2 ltac:(done)). pose proof (length_parse_whitespace x).
  pose proof (length_parse_whitespace (tail (parse_whitespace x))). apply Hm. len.
Qed.

Lemma parse_total n : parses n.
Proof.
  induction n as [|n IH]; [split_and!; intros; lia|].
  split_and!; [by apply text_parses|by apply elements_parses|by apply members_parses].
Qed.

(** ** Error codes *)

Lemma string_loop_err n st t e : string_loop n st t = PErr e → e ≠ kParseOk.
Proof.
  revert st t. induction n as [|n IH]; intros st [|c t]; simpl; try (by intros [= <-]).
  unfold encode_utf8. repeat case_match; try done; intros; simplify_eq; eauto.
Qed.

Lemma flat_err t e :
  (∀ l, parse_literal t l = PErr e → e ≠ kParseOk) ∧ (∀ l b, parse_boolean t l b = PErr e → e ≠ kParseOk)
  ∧ (parse_string t = PErr e → e ≠ kParseOk) ∧ (parse_number t = PErr e → e ≠ kParseOk).
Proof.
  unfold parse_literal, parse_boolean, parse_string, parse_number.
  split_and!; intros; repeat case_match; simplify_eq; try done.
  by eapply string_loop_err.
Qed.

Lemma parse_err n : ∀ t e acc m,
  (parse_text n t = Some (PErr e) → e ≠ kParseOk)
  ∧ (parse_elements n acc t = Some (PErr e) → e ≠ kParseOk)
  ∧ (parse_members n m t = Some (PErr e) → e ≠ kParseOk).
Proof.
  induction n as [|n IH]; intros t e acc m; [done|].
  pose proof (λ t e, proj1 (IH t e [] [])) as IHt. pose proof (λ t e acc, proj1 (proj2 (IH t e acc []))) as IHe.
  pose proof (λ t e m, proj2 (proj2 (IH t e [] m))) as IHm. clear IH. split_and!.
  - cbn [parse_text]. cbv zeta. generalize (parse_whitespace t). intros u.
    destruct (flat_err u e) as (F1 & F2 & F3 & F4).
    repeat case_bool_decide; intros; simplify_eq; eauto.
  - cbn [parse_elements]. destruct (parse_text n t) as [[v u|e']|] eqn:E; [|intros [= ->]; eauto|done].
    cbv zeta. repeat case_bool_decide; intros; simplify_eq; eauto.
  - cbn [parse_members]. cbv zeta. case_bool_decide; cbn [negb]; [|by intros [= <-]].
    destruct (parse_string_raw [] t) as [k u|]; [|by intros [= <-]].
    case_bool_decide; cbn [negb]; [|by intros [= <-]].
    destruct (parse_text n _) as [[v x|e']|] eqn:E; [|intros [= ->]; eauto|done].
    repeat case_bool_decide; intros; simplify_eq; eauto.
Qed.

(** ** Properties of the parser *)

Definition nul_free (t : bytes) : Prop := Forall (λ c, c ≠ Ascii.zero) t.


