(* ===== verification/ZjsonPrint.v ===== *)
(** * The JSON printer

    [dump] writes a text of the grammar that denotes the value, so that [parse]
    gives the value back; where it does not, and what copying loses. *)

From S2P Require Import Prelude Printf Double Zjson ZjsonSpec.
Local Open Scope Z_scope.

(** ** Strings *)

(** The code points the printer can write: below U+20000 and no surrogates. *)
Definition cp_ok (c : Z) : Prop := 0 <= c < 0x20000 ∧ ¬ 0xD800 <= c < 0xE000.
Definition utf8_ok (s : bytes) : Prop := ∃ cps, Forall cp_ok cps ∧ s = mjoin (utf8 <$> cps).

(** The form in which the printer writes a code point: above U+FFFF it keeps
    only the low 16 bits. *)
Definition unicode_escape (c : Z) : bytes :=
  if c <? 0x10000 then str "\u" ++ stringify_hex4 c
  else str "\u" ++ stringify_hex4 (c mod 0x10000 / 0x400 + 0xD800) ++
       str "\u" ++ stringify_hex4 (c mod 0x10000 mod 0x400 + 0xDC00).

Lemma hex_digit_value x : 0 <= x < 16 → ch2hex (hex_digit x) = x.
Proof.
  intros H. assert (Hx : x ∈ seqZ 0 16) by (apply elem_of_seqZ; lia). revert x H Hx.
  assert (F : Forall (λ x, ch2hex (hex_digit x) = x) (seqZ 0 16)) by (vm_compute; repeat constructor).
  intros x _ Hx. by eapply Forall_forall in F.
Qed.

Lemma hex4_printed c : 0 <= c < 0x10000 → hex4 (stringify_hex4 c) c.
Proof.
  intros H. unfold stringify_hex4. set (x1 := c / 16). set (x2 := x1 / 16). set (x3 := x2 / 16).
  apply hex4_ch2hex. eexists _, _, _, _. split; [done|]. rewrite !Forall_cons, Forall_nil.
  assert (0 <= x3 mod 16 < 16 ∧ 0 <= x2 mod 16 < 16 ∧ 0 <= x1 mod 16 < 16 ∧ 0 <= c mod 16 < 16)
    as (? & ? & ? & ?) by (split_and!; apply Z.mod_pos_bound; lia).
  rewrite !hex_digit_value by done. split; [lia|]. subst x3 x2 x1. dlia.
Qed.

Lemma chars_pair d t s : 0 <= d < 0x10000 → chars t s →
  chars (str "\u" ++ stringify_hex4 (d / 0x400 + 0xD800) ++
         str "\u" ++ stringify_hex4 (d mod 0x400 + 0xDC00) ++ t) (utf8 (0x10000 + d) ++ s).
Proof.
  intros Hd Ht.
  assert (0 <= d / 0x400 < 0x40 ∧ 0 <= d mod 0x400 < 0x400) as [? ?].
  { split; [split; [apply Z.div_pos; lia|apply Z.div_lt_upper_bound; lia]|apply Z.mod_pos_bound; lia]. }
  replace (0x10000 + d) with
    (0x10000 + ((d / 0x400 + 0xD800) - 0xD800) * 0x400 + ((d mod 0x400 + 0xDC00) - 0xDC00))
    by (pose proof (Z.div_mod d 0x400); lia).
  apply (C_pair (stringify_hex4 (d / 0x400 + 0xD800)) (stringify_hex4 (d mod 0x400 + 0xDC00)));
    [apply hex4_printed; lia|apply hex4_printed; lia|lia|lia| |done].
  pose proof (Z.div_mod d 0x400). lia.
Qed.

Lemma chars_escape_cp c t s : cp_ok c → chars t s → chars (unicode_escape c ++ t) (utf8 c ++ s).
Proof.
  intros [H1 H2] Ht. unfold unicode_escape. destruct (c <? 0x10000) eqn:E.
  - apply (C_unicode (stringify_hex4 c) c); [apply hex4_printed; lia|lia|done].
  - replace c with (0x10000 + c mod 0x10000) at 3 by dlia. rewrite <-!app_assoc.
    apply chars_pair; [dlia|done].
Qed.

(** What [stringify_utf8] computes from the first byte, for every byte. *)
Definition lead (c : ascii) : Z * Z :=
  let ch := charZ c in
  let count := if Z.land ch 0xF0 =? 0xF0 then 4 else if Z.land ch 0xE0 =? 0xE0 then 3
               else if Z.land ch 0xC0 =? 0xC0 then 2 else 1 in
  (count, Z.shiftr (Z.land (Z.shiftl ch count) 0xFF) count).

Lemma lead_value c : lead c =
  (let b := byteZ c in
   if b <? 0x80 then (1, b) else if b <? 0xC0 then (1, b - 0x80)
   else if b <? 0xE0 then (2, b - 0xC0) else if b <? 0xF0 then (3, b - 0xE0) else (4, b - 0xF0)).
Proof. destruct c as [[] [] [] [] [] [] [] []]; vm_compute; reflexivity. Qed.

Lemma cont_value c : Z.land (charZ c) 0x3F = byteZ c mod 64.
Proof. destruct c as [[] [] [] [] [] [] [] []]; vm_compute; reflexivity. Qed.

Lemma stringify_utf8_eq c r : stringify_utf8 (c :: r) =
  ('(code) ← utf8_tail (Z.to_nat (lead c).1 - 1) (lead c).2 r;
   Ok (if code <? 0x10000 then str "\u" ++ stringify_hex4 code
       else str "\u" ++ stringify_hex4 (Z.land code 0xFFFF / 0x400 + 0xD800) ++
            str "\u" ++ stringify_hex4 (Z.land code 0xFFFF mod 0x400 + 0xDC00), Z.to_nat (lead c).1)).
Proof. reflexivity. Qed.

Lemma byteZ_Zbyte_small z : 0 <= z < 256 → byteZ (Zbyte z) = z.
Proof. intros. rewrite byteZ_Zbyte. by apply Z.mod_small. Qed.

Lemma utf8_tail_cons n code b r : 0 <= b < 64 →
  utf8_tail (S n) code (Zbyte (0x80 + b) :: r) = utf8_tail n (code * 64 + b) r.
Proof.
  intros Hb. cbn [utf8_tail]. rewrite cont_value, byteZ_Zbyte_small by lia.
  rewrite Z.shiftl_mul_pow2 by lia. do 3 f_equal. change 0x80 with (2 * 64).
  rewrite Z.add_comm, Z.mod_add by lia. apply Z.mod_small. lia.
Qed.

Lemma land_ffff c : Z.land c 0xFFFF = c mod 0x10000.
Proof. change 0xFFFF with (Z.ones 16). by rewrite Z.land_ones. Qed.

(** A code point outside ASCII is read back from its bytes and printed. *)
Lemma stringify_utf8_cp c r : 0x80 <= c < 0x110000 →
  stringify_utf8 (utf8 c ++ r) = Ok (unicode_escape c, length (utf8 c)).
Proof.
  intros H. unfold utf8. rewrite (proj2 (Z.ltb_ge c 0x80)) by lia.
  assert (M : ∀ x, 0 <= x mod 64 < 64) by (intros; apply Z.mod_pos_bound; lia).
  destruct (c <? 0x800) eqn:E2; [|destruct (c <? 0x10000) eqn:E3]; cbn [app]; rewrite stringify_utf8_eq, lead_value.
  - assert (0 <= c / 64 < 32) by dlia. rewrite byteZ_Zbyte_small by lia. cbv zeta.
    rewrite (proj2 (Z.ltb_ge _ 0x80)), (proj2 (Z.ltb_ge _ 0xC0)), (proj2 (Z.ltb_lt _ 0xE0)) by lia.
    cbn [fst snd]. change (Z.to_nat 2 - 1)%nat with 1%nat. rewrite utf8_tail_cons by done. cbn [utf8_tail].
    replace ((0xC0 + c / 64 - 0xC0) * 64 + c mod 64) with c by dlia. simpl.
    unfold unicode_escape. by rewrite (proj2 (Z.ltb_lt c 0x10000)) by lia.
  - assert (0 <= c / 4096 < 16) by dlia. rewrite byteZ_Zbyte_small by lia. cbv zeta.
    rewrite (proj2 (Z.ltb_ge _ 0x80)), (proj2 (Z.ltb_ge _ 0xC0)), (proj2 (Z.ltb_ge _ 0xE0)), (proj2 (Z.ltb_lt _ 0xF0)) by lia.
    cbn [fst snd]. change (Z.to_nat 3 - 1)%nat with 2%nat. rewrite !utf8_tail_cons by done. cbn [utf8_tail].
    replace (((0xE0 + c / 4096 - 0xE0) * 64 + c / 64 mod 64) * 64 + c mod 64) with c
      by (change 4096 with (64 * 64); rewrite <-Z.div_div by lia; dlia). simpl.
    unfold unicode_escape. by rewrite E3.
  - assert (0 <= c / 262144 < 8) by dlia. rewrite byteZ_Zbyte_small by lia. cbv zeta.
    rewrite (proj2 (Z.ltb_ge _ 0x80)), (proj2 (Z.ltb_ge _ 0xC0)), (proj2 (Z.ltb_ge _ 0xE0)), (proj2 (Z.ltb_ge _ 0xF0)) by lia.
    cbn [fst snd]. change (Z.to_nat 4 - 1)%nat with 3%nat. rewrite !utf8_tail_cons by done. cbn [utf8_tail].
    replace ((((0xF0 + c / 262144 - 0xF0) * 64 + c / 4096 mod 64) * 64 + c / 64 mod 64) * 64 + c mod 64) with c
      by (change 262144 with (64 * 64 * 64); change 4096 with (64 * 64); rewrite <-!Z.div_div by lia; dlia).
    simpl. unfold unicode_escape. rewrite E3. by rewrite land_ffff.
Qed.

Lemma escape_chars c e t s : escape c = Some e → chars t s → chars (e ++ t) (c :: s).
Proof.
  intros He Ht. rewrite <-(Zbyte_byteZ c) in *. unfold escape in He. rewrite byteZ_Zbyte_small in He by apply byteZ_range.
  revert He. generalize (byteZ c). intros b He.
  repeat match type of He with context [b =? ?k] =>
    destruct (b =? k) eqn:E; [apply Z.eqb_eq in E; subst b; injection He as <-; simpl; first [by apply C_escape; [apply unescape_escapes|] | by apply C_plain]|clear E]
  end.
  done.
Qed.

Lemma escape_none c : escape c = None → c ≠ dquote ∧ c ≠ backslash.
Proof. intros H. by split; intros ->. Qed.

Lemma charZ_ascii c : byteZ c < 0x80 → charZ c = byteZ c.
Proof. intros H. unfold charZ. pose proof (byteZ_range c). apply wraps_small; lia. Qed.
Lemma charZ_high c : 0x80 <= byteZ c → charZ c < 0.
Proof.
  intros H. pose proof (byteZ_range c). unfold charZ. rewrite <-(Z.sub_add 256 (byteZ c)).
  unfold wraps. change (2 ^ (8 - 1)) with 128. change (2 ^ 8) with 256.
  replace (byteZ c - 256 + 256 + 128) with (byteZ c - 128 + 1 * 256) by lia.
  rewrite Z.mod_add, Z.mod_small; lia.
Qed.

(** The first byte of a code point outside ASCII. *)
Lemma utf8_high c : 0x80 <= c < 0x110000 → ∃ b r, utf8 c = b :: r ∧ 0x80 <= byteZ b.
Proof.
  intros H. unfold utf8. rewrite (proj2 (Z.ltb_ge c 0x80)) by lia.
  destruct (c <? 0x800) eqn:E2; [|destruct (c <? 0x10000) eqn:E3]; eexists _, _; (split; [reflexivity|]).
  - assert (0 <= c / 64 < 32) by dlia. rewrite byteZ_Zbyte_small by lia. lia.
  - assert (0 <= c / 4096 < 16) by dlia. rewrite byteZ_Zbyte_small by lia. lia.
  - assert (0 <= c / 262144 < 8) by dlia. rewrite byteZ_Zbyte_small by lia. lia.
Qed.

Lemma escape_high c : 0x80 <= byteZ c → escape c = None.
Proof. intros H. unfold escape. repeat (rewrite (proj2 (Z.eqb_neq _ _)) by lia). done. Qed.

Lemma stringify_ascii c r : byteZ c < 0x80 →
  stringify_utf8 (c :: r) = Ok (unicode_escape (byteZ c), 1%nat).
Proof.
  intros H. pose proof (byteZ_range c). rewrite stringify_utf8_eq, lead_value. cbv zeta.
  rewrite (proj2 (Z.ltb_lt (byteZ c) 0x80)) by lia. cbn [fst snd]. change (Z.to_nat 1 - 1)%nat with 0%nat.
  cbn [utf8_tail mbind res_bind]. unfold unicode_escape. by rewrite (proj2 (Z.ltb_lt (byteZ c) 0x10000)) by lia.
Qed.

(** [t] is what the loop prints for [s], and denotes it. *)
Definition prints (s t : bytes) : Prop :=
  chars t s ∧ ∀ n, (length s <= n)%nat → stringify_loop n s = Ok t.

Lemma loop_high c s t : 0x80 <= c < 0x110000 →
  (∀ n, (length s <= n)%nat → stringify_loop n s = Ok t) →
  ∀ n, (length (utf8 c ++ s) <= n)%nat → stringify_loop n (utf8 c ++ s) = Ok (unicode_escape c ++ t).
Proof.
  intros Hl IH n Hn. destruct (utf8_high c Hl) as (b & u & E & Hb).
  pose proof (stringify_utf8_cp c (s ++ [Ascii.zero]) Hl) as Hs.
  rewrite length_app in Hn. destruct n as [|n]; [rewrite E in Hn; simpl in Hn; lia|].
  rewrite app_assoc in Hs. assert (Hr : drop (length (utf8 c)) (utf8 c ++ s) = s) by apply drop_app_length.
  revert Hs Hr Hn. rewrite E. intros Hs Hr Hn. cbn [app stringify_loop] in *.
  rewrite escape_high, (proj2 (Z.ltb_lt (charZ b) 0x20)) by (pose proof (charZ_high b); lia).
  rewrite Hs. cbn [mbind res_bind]. by rewrite Hr, IH by (simpl in Hn; lia).
Qed.

(** One code point printed by the loop. *)
Lemma prints_cp c s t : cp_ok c → prints s t → ∃ t', prints (utf8 c ++ s) t'.
Proof.
  intros Hc [Ht IH]. pose proof (chars_escape_cp c t s Hc Ht) as Hu.
  destruct (Z.lt_ge_cases c 0x80) as [Hl|Hl].
  - assert (E : utf8 c = [Zbyte c]) by (unfold utf8; by rewrite (proj2 (Z.ltb_lt c 0x80))).
    assert (Hb : byteZ (Zbyte c) = c) by (destruct Hc; apply byteZ_Zbyte_small; lia).
    rewrite E in *. destruct (escape (Zbyte c)) as [e|] eqn:Ee.
    { exists (e ++ t). split; [by apply escape_chars|]. intros [|n] Hn; simpl in Hn; [lia|].
      cbn [app stringify_loop]. by rewrite Ee, IH by lia. }
    destruct (byteZ (Zbyte c) <? 0x20) eqn:Ec.
    + exists (unicode_escape c ++ t). split; [done|]. intros [|n] Hn; simpl in Hn; [lia|].
      cbn [app stringify_loop]. rewrite Ee, charZ_ascii, Ec, stringify_ascii, Hb by lia.
      cbn [mbind res_bind drop]. by rewrite IH by lia.
    + exists (Zbyte c :: t). destruct (escape_none _ Ee). split; [apply C_plain; try done; lia|].
      intros [|n] Hn; simpl in Hn; [lia|]. cbn [app stringify_loop].
      by rewrite Ee, charZ_ascii, Ec, IH by lia.
  - exists (unicode_escape c ++ t). split; [done|]. destruct Hc. apply loop_high; [lia|done].
Qed.

Lemma string_prints s : utf8_ok s → ∃ t, stringify_string_raw s = Ok (dquote :: t ++ [dquote]) ∧ chars t s.
Proof.
  intros (cps & H & ->). assert (Hp : ∃ t, prints (mjoin (utf8 <$> cps)) t).
  { induction H as [|c cps Hc _ [t IH]]; [|by apply (prints_cp c _ t)].
    exists []. split; [constructor|by intros []]. }
  destruct Hp as (t & Ht & Hl). exists t. split; [|done]. unfold stringify_string_raw. by rewrite Hl.
Qed.

(** ** Texts of the grammar contain no NUL *)

Lemma chars_nul_free t s : chars t s → nul_free t.
Proof.
  assert (Hh : ∀ h code, hex4 h code → nul_free h).
  { intros h code (a & b & c & d & -> & H & _)%hex4_ch2hex. eapply Forall_impl; [exact H|]. by intros x Hx ->. }
  induction 1; unfold nul_free in *; rewrite ?Forall_cons, ?Forall_app; try (by constructor);
    split_and!; try done; eauto; try (by intros ->); try (intros ->; by apply unescape_escapes in H).
  rewrite !Forall_cons, Forall_app. split_and!; eauto; done.
Qed.

Lemma ws_nul_free w : ws w → nul_free w.
Proof. intros H. eapply Forall_impl; [exact H|]. intros c Hc%blank_is_ws ->. done. Qed.

Lemma digits_nul_free d : digits d → nul_free d.
Proof. intros H. eapply Forall_impl; [exact H|]. by intros c Hc ->. Qed.

Lemma number_nul_free s : number_syntax s → nul_free s.
Proof.
  intros (sg & ip & fp & ep & -> & Hs & Hi & Hf & He). unfold nul_free.
  rewrite !Forall_app. split_and!.
  - destruct Hs as [-> | ->]; by repeat constructor.
  - destruct Hi as [->|(d & ds & -> & _ & H)]; [by repeat constructor|by apply digits_nul_free].
  - destruct Hf as [->|(d & ds & -> & H)]; [constructor|]. constructor; [done|]. by apply digits_nul_free.
  - destruct He as [->|(e & sg' & d & ds & -> & He & Hs' & H)]; [constructor|].
    constructor; [by destruct He as [-> | ->]|]. apply Forall_app. split; [|by apply digits_nul_free].
    destruct Hs' as [->|[-> | ->]]; by repeat constructor.
Qed.

Lemma jtext_nul_free :
  (∀ s v, jtext s v → nul_free s) ∧ (∀ t l, elements t l → nul_free t) ∧ (∀ t l, members t l → nul_free t).
Proof.
  apply jtext_mutind; intros; unfold nul_free in *;
    first [by apply (bool_decide_unpack _); vm_compute | by apply number_nul_free |
      rewrite ?Forall_app, ?Forall_cons, ?Forall_app, ?Forall_cons, ?Forall_app, ?Forall_cons, ?Forall_app, ?Forall_cons,
        ?Forall_app, ?Forall_nil;
      split_and!; first [done | by apply ws_nul_free | by eapply chars_nul_free]].
Qed.

Lemma c_str_nul_free t : nul_free t → c_str t = t.
Proof. induction 1 as [|c t Hc _ IH]; simpl in *; [done|]. rewrite bool_decide_eq_false_2 by done. by rewrite IH. Qed.

(** ** Values *)

(** The values the printer can write so that they read back: numbers whose
    printed form reads back, strings in UTF-8 below U+20000, objects with their
    keys in order. *)
Definition number_ok (x : double) : Prop := parse_number (stringify_number x) = POk (JNumber x) [].
Definition keys_ok (l : list (bytes * Json)) : Prop :=
  StronglySorted (λ a b, bytes_ltb a.1 b.1 = true) l.

Fixpoint json_ok (j : Json) : Prop :=
  match j with
  | JNull | JBoolean _ => True
  | JNumber x => number_ok x
  | JString s => utf8_ok s
  | JArray l => foldr (λ x P, json_ok x ∧ P) True l
  | JObject l => keys_ok l ∧ foldr (λ kv P, (utf8_ok kv.1 ∧ json_ok kv.2) ∧ P) True l
  end.

Lemma Json_induction (P : Json → Prop) :
  P JNull → (∀ b, P (JBoolean b)) → (∀ x, P (JNumber x)) → (∀ s, P (JString s)) →
  (∀ l, Forall P l → P (JArray l)) → (∀ l, Forall (λ kv, P kv.2) l → P (JObject l)) → ∀ j, P j.
Proof.
  intros H1 H2 H3 H4 H5 H6. fix IH 1. intros [|b|x|s|l|l];
    [exact H1|apply H2|apply H3|apply H4|apply H5|apply H6].
  - induction l as [|x l IHl]; constructor; [apply IH|exact IHl].
  - induction l as [|[k v] l IHl]; constructor; [apply IH|exact IHl].
Qed.

(** A map in key order is rebuilt by [emplace]. *)
Lemma bytes_ltb_irrefl a : bytes_ltb a a = false.
Proof. induction a as [|c a IH]; simpl; [done|]. by rewrite Z.ltb_irrefl. Qed.

Lemma bytes_ltb_asym a b : bytes_ltb a b = true → bytes_ltb b a = false.
Proof.
  revert b. induction a as [|x a IH]; intros [|y b]; simpl; try done.
  destruct (Z.ltb_spec (byteZ x) (byteZ y)), (Z.ltb_spec (byteZ y) (byteZ x)); try done; try lia; auto.
Qed.

Lemma emplace_last {V} (m : list (bytes * V)) k v :
  Forall (λ kv, bytes_ltb kv.1 k = true) m → map_emplace k v m = m ++ [(k, v)].
Proof.
  induction 1 as [|[k' v'] m H _ IH]; simpl in *; [done|].
  rewrite bool_decide_eq_false_2 by (intros ->; by rewrite bytes_ltb_irrefl in H).
  by rewrite (bytes_ltb_asym _ _ H), IH.
Qed.

Lemma object_of_sorted acc l : keys_ok (acc ++ l) → object_of acc l = acc ++ l.
Proof.
  revert acc. induction l as [|[k v] l IH]; intros acc H; simpl; [by rewrite app_nil_r|].
  assert (Ha : Forall (λ kv, bytes_ltb kv.1 k = true) acc).
  { clear IH. induction acc as [|a acc IHa]; constructor; simpl in H;
      apply StronglySorted_inv in H as [H1 H2]; [|by apply IHa].
    rewrite Forall_app, Forall_cons in H2. tauto. }
  unfold object_of in *. simpl. rewrite emplace_last by done. rewrite IH by (by rewrite <-app_assoc).
  by rewrite <-app_assoc.
Qed.

(** [f] prints [x] as a text that denotes it. *)
Definition printed (f : Json → res bytes) (x : Json) : Prop := ∃ t, f x = Ok t ∧ jtext t x.

Lemma jtext_push st t x : jtext t x → stack_push st t = st ++ t.
Proof. intros H. unfold stack_push. by rewrite c_str_nul_free by (by eapply (proj1 jtext_nul_free)). Qed.

Lemma elements_printed f x l st : Forall (printed f) (x :: l) →
  ∃ te, stringify_elements f st (x :: l) = Ok (st ++ te ++ ["]"%char]) ∧ elements te (x :: l).
Proof.
  revert x st. induction l as [|y l IH]; intros x st [(t & Et & Ht) Hl]%Forall_cons.
  - exists t. cbn [stringify_elements]. rewrite Et. cbn [mbind res_bind length]. char_step.
    rewrite (jtext_push st t x Ht). split; [by rewrite <-app_assoc|].
    pose proof (E_one [] t [] x ws_nil Ht ws_nil) as H. by rewrite app_nil_r in H.
  - destruct (IH y (stack_push st t ++ [","%char]) Hl) as (te & Ee & He).
    exists (t ++ ","%char :: te). split; [|by apply (E_cons [] t [] x te (y :: l) ws_nil Ht ws_nil)].
    change (stringify_elements f st (x :: y :: l)) with
      (subtext ← f x; stringify_elements f (if bool_decide (length (y :: l) = 0%nat)
         then stack_push st subtext else stack_push st subtext ++ [","%char]) (y :: l)).
    rewrite Et. cbn [mbind res_bind length]. char_step. rewrite Ee, (jtext_push st t x Ht).
    by simplify_list_eq.
Qed.

(** The same for the members of an object, whose keys are strings. *)
Lemma key_push st t s : chars t s → stack_push st (dquote :: t ++ [dquote]) = st ++ dquote :: t ++ [dquote].
Proof.
  intros H. unfold stack_push. rewrite c_str_nul_free; [done|].
  constructor; [done|]. apply Forall_app. split; [by eapply chars_nul_free|by repeat constructor].
Qed.

Lemma members_printed f k x l st : Forall (λ kv, utf8_ok kv.1 ∧ printed f kv.2) ((k, x) :: l) →
  ∃ te, stringify_members f st ((k, x) :: l) = Ok (st ++ te ++ ["}"%char]) ∧ members te ((k, x) :: l).
Proof.
  revert k x st. induction l as [|[k' y] l IH]; intros k x st [[Hk (t & Et & Ht)] Hl]%Forall_cons;
    simpl in Hk, Et, Ht; destruct (string_prints k Hk) as (kt & Ek & Hkt).
  - exists (dquote :: kt ++ dquote :: ":"%char :: t). cbn [stringify_members]. rewrite Ek, Et.
    cbn [mbind res_bind length]. char_step.
    rewrite (key_push st kt k Hkt), (jtext_push _ t x Ht). split; [by simplify_list_eq|].
    pose proof (M_one [] kt k [] [] t x [] ws_nil Hkt ws_nil ws_nil Ht ws_nil) as H. by rewrite app_nil_r in H.
  - destruct (IH k' y (stack_push (stack_push st (dquote :: kt ++ [dquote]) ++ [":"%char]) t ++ [","%char]) Hl)
      as (te & Ee & He).
    exists (dquote :: kt ++ dquote :: ":"%char :: t ++ ","%char :: te).
    split; [|by apply (M_cons [] kt k [] [] t x [] te ((k', y) :: l) ws_nil Hkt ws_nil ws_nil Ht ws_nil)].
    change (stringify_members f st ((k, x) :: (k', y) :: l)) with
      (ktext ← stringify_string_raw k; vtext ← f x;
       stringify_members f (if bool_decide (length ((k', y) :: l) = 0%nat)
         then stack_push (stack_push st ktext ++ [":"%char]) vtext
         else stack_push (stack_push st ktext ++ [":"%char]) vtext ++ [","%char]) ((k', y) :: l)).
    rewrite Ek, Et. cbn [mbind res_bind length]. char_step.
    rewrite Ee, (key_push st kt k Hkt), (jtext_push _ t x Ht). by simplify_list_eq.
Qed.

Lemma stringify_printed j : json_ok j → printed stringify j.
Proof.
  induction j as [|b|x|s|l IH|l IH] using Json_induction; intros Hj; unfold printed.
  - eexists. split; [reflexivity|constructor].
  - destruct b; eexists; (split; [reflexivity|constructor]).
  - eexists. split; [reflexivity|]. simpl in Hj. unfold number_ok in Hj.
    apply parse_number_sound in Hj as (s & Es & Hs & Hx & Hi); [|by left].
    rewrite app_nil_r in Es. rewrite Es, Hx. by constructor.
  - destruct (string_prints s Hj) as (t & Et & Ht). eexists. split; [exact Et|by constructor].
  - assert (Hl : Forall (printed stringify) l).
    { revert Hj. simpl. induction IH as [|x l Hx _ IHl]; simpl; [by constructor|]. intros [? ?]. constructor; auto. }
    destruct l as [|x l]; [eexists; split; [reflexivity|by apply (T_array_nil []), ws_nil]|].
    destruct (elements_printed stringify x l ["["%char] Hl) as (te & Ee & He).
    eexists. split; [exact Ee|by apply (T_array te)].
  - destruct Hj as [Hs Hj].
    assert (Hl : Forall (λ kv, utf8_ok kv.1 ∧ printed stringify kv.2) l).
    { clear Hs. revert Hj. induction IH as [|kv l Hx _ IHl]; simpl; [by constructor|]. intros [[? ?] ?].
      constructor; auto. }
    destruct l as [|[k x] l]; [eexists; split; [reflexivity|by apply (T_object_nil []), ws_nil]|].
    destruct (members_printed stringify k x l ["{"%char] Hl) as (te & Ee & He).
    eexists. split; [exact Ee|]. pose proof (T_object te _ He) as H. by rewrite object_of_sorted in H.
Qed.

(** ** Properties *)

Lemma parse_jtext t j : jtext t j → Json_parse t = Ok j.
Proof.
  intros Ht. unfold Json_parse, parse. rewrite c_str_nul_free by (by eapply (proj1 jtext_nul_free)).
  pose proof (proj1 parse_complete _ _ Ht (parse_fuel t) [] [] ws_nil (or_introl eq_refl)) as H.
  rewrite app_nil_r in H. simpl in H. by rewrite H by (unfold parse_fuel; lia).
Qed.

Lemma dump_jtext t v j : stringify j = Ok t → jtext t v → dump j = Ok t ∧ Json_parse t = Ok v.
Proof.
  intros E Ht. unfold dump. rewrite E. simpl. rewrite c_str_nul_free by (by eapply (proj1 jtext_nul_free)).
  split; [done|by apply parse_jtext].
Qed.


(** Characters from U+20000 up do not survive: the printer masks the code
    point to 16 bits instead of subtracting 0x10000, so the text reads back as a
    character of the plane U+10000 to U+1FFFF; and the reader refuses the escaped
    pair of the last character, U+10FFFF. *)
Theorem zjson_high_planes c : 0x20000 <= c < 0x110000 →
  (∃ t, dump (JString (utf8 c)) = Ok t
        ∧ Json_parse t = Ok (JString (utf8 (0x10000 + c mod 0x10000)))
        ∧ 0x10000 + c mod 0x10000 ≠ c)
  ∧ parse (quoted "'\uDBFF\uDFFF'") = Some (JNull, kParseInvalidUnicodeHex).
Proof.
  intros Hc. split; [|vm_compute; reflexivity].
  assert (Hm : 0 <= c mod 0x10000 < 0x10000) by (apply Z.mod_pos_bound; lia).
  assert (Hl : ∀ n, (length (utf8 c ++ []) <= n)%nat → stringify_loop n (utf8 c ++ []) = Ok (unicode_escape c ++ []))
    by (apply loop_high; [lia|by intros []]).
  rewrite !app_nil_r in Hl. pose proof (chars_pair _ [] [] Hm C_nil) as Ht. rewrite !app_nil_r in Ht.
  exists (dquote :: unicode_escape c ++ [dquote]).
  assert (Es : stringify (JString (utf8 c)) = Ok (dquote :: unicode_escape c ++ [dquote])).
  { simpl. unfold stringify_string_raw. by rewrite Hl. }
  destruct (dump_jtext _ (JString (utf8 (0x10000 + c mod 0x10000))) _ Es) as [H1 H2].
  { apply T_string. unfold unicode_escape. by rewrite (proj2 (Z.ltb_ge c 0x10000)) by lia. }
  split_and!; [done|done|lia].
Qed.

(** No boolean anywhere in a value. *)
Fixpoint no_boolean (j : Json) : bool :=
  match j with
  | JBoolean _ => false
  | JArray l => forallb no_boolean l
  | JObject l => forallb (λ kv, no_boolean kv.2) l
  | _ => true
  end.

(** Copying keeps a value intact, whatever was in the memory the copy is
    built in, iff no boolean occurs in it; assigning a boolean always stores
    [false]. *)
Theorem zjson_copy_loses_booleans j :
  ((∀ junk, copy_construct junk j = j) ↔ no_boolean j = true)
  ∧ (∀ junk b, copy_assign junk (JBoolean b) = JBoolean false).
Proof.
  split; [|done]. unfold copy_construct.
  assert (H : ∀ junk, no_boolean j = true → copy junk junk j = j).
  { intros junk. induction j as [|b|x|s|l IH|l IH] using Json_induction; simpl; intros Hj; try done; f_equal.
    - induction IH as [|x l Hx _ IHl]; simpl in *; [done|]. apply andb_prop in Hj as [? ?]. f_equal; auto.
    - induction IH as [|[k x] l Hx _ IHl]; simpl in *; [done|]. apply andb_prop in Hj as [? ?].
      f_equal; [f_equal|]; auto. }
  split; [|auto]. intros Hc. assert (Ht := Hc true). assert (Hf := Hc false). clear Hc H.
  induction j as [|b|x|s|l IH|l IH] using Json_induction; simpl in *; try done; [by destruct b| |].
  - injection Ht as Ht. injection Hf as Hf.
    induction IH as [|x l Hx _ IHl]; simpl in *; [done|]. injection Ht as ? ?. injection Hf as ? ?.
    apply andb_true_intro. auto.
  - injection Ht as Ht. injection Hf as Hf.
    induction IH as [|[k x] l Hx _ IHl]; simpl in *; [done|]. injection Ht as ? ?. injection Hf as ? ?.
    apply andb_true_intro. auto.
Qed.

(** ** Witnesses *)

Definition sample_json : Json :=
  JObject [(str "a", JArray [JNumber (double_of_dec 1 (-1)); JBoolean true; JNull]);
           (str "b", JString (str "x" ++ utf8 0xE9 ++ utf8 0x1F600 ++ [Zbyte 10]))].

Lemma sample_json_ok : json_ok sample_json.
Proof.
  assert (Hascii : ∀ c, cp_ok c → utf8_ok (utf8 c)).
  { intros c Hc. exists [c]. split; [by apply Forall_singleton|]. simpl. by rewrite app_nil_r. }
  split; [repeat constructor|]. split; [split; [apply (Hascii 97); split; lia|]|split; [split|done]].
  - split; [vm_compute; reflexivity|done].
  - apply (Hascii 98). split; lia.
  - exists [120; 0xE9; 0x1F600; 10]. split; [|reflexivity]. repeat (constructor; [split; lia|]). constructor.
Qed.


Lemma zjson_high_planes_witness :
  ∃ t, dump (JString (utf8 0x20BB7)) = Ok t ∧ Json_parse t = Ok (JString (utf8 0x10BB7)).
Proof.
  destruct (zjson_high_planes 0x20BB7) as [(t & H1 & H2 & _) _]; [lia|].
  exists t. split; [exact H1|exact H2].
Defined.
