(* ===== verification/ZjsonHeap.v ===== *)
(** * The memory of JSON values (fishnet/utils/zjson/zjson.hpp)

    A [Json] is a tag and a union that, for strings, arrays and objects, owns an
    object on the heap. This file models construction, destruction, copying,
    moving and indexing with the heap explicit, so that a leak, a double free and
    the use of a destroyed value are visible, and relates them to trees of values. *)

From S2P Require Import Prelude Double Zjson.
#[local] Set Warnings "-register-all,-notation-for-abbreviation".
Local Open Scope Z_scope.

(** ** Memory *)

(** [VZero] is the union after [memset], [VJunk] one never written. *)
Inductive val : Type := VZero | VJunk | VBool (b : bool) | VNum (x : double) | VPtr (l : positive).
Record cell := mkCell { type_ : Type_; value_ : val }.
(** What [new] makes: [std::string], [std::vector<Json>], [std::map<String, Json>]. *)
Inductive obj : Type := OStr (s : bytes) | OArr (l : list cell) | OObj (m : list (bytes * cell)).
Notation heap := (gmap positive obj).

(** The ways to go wrong: a null pointer, memory that was freed, a member of the
    union that was not the one written, an exception, the end of the stack. *)
Inductive fault : Set := NullPointer | Freed | WrongMember | Exception | TooDeep.
Inductive mem (A : Type) : Type := Done (a : A) | Fault (e : fault).
Arguments Done {A} _.
Arguments Fault {A} _.
#[global] Instance mem_bind : MBind mem := λ A B k m, match m with Done a => k a | Fault e => Fault e end.
#[global] Instance mem_ret : MRet mem := λ A a, Done a.

(** A [Json] object: a variable, an element of a vector, the value of a map's entry. *)
Inductive place : Type := PVar (x : nat) | PElem (l : positive) (i : nat) | PField (l : positive) (k : bytes).
#[global] Instance place_eq_dec : EqDecision place.
Proof. solve_decision. Defined.
Record mstate := mkM { vars : gmap nat cell; hp : heap }.

Definition slot_read (v : gmap nat cell) (h : heap) (p : place) : option cell :=
  match p with
  | PVar x => v !! x
  | PElem l i => match h !! l with Some (OArr cs) => cs !! i | _ => None end
  | PField l k => match h !! l with Some (OObj m) => map_find k m | _ => None end
  end.
Definition set_elem (i : nat) (c : cell) (o : obj) : obj := match o with OArr cs => OArr (<[i := c]> cs) | o => o end.
Definition set_field (k : bytes) (c : cell) (o : obj) : obj := match o with OObj m => OObj (map_set k c m) | o => o end.
Definition slot_write (v : gmap nat cell) (h : heap) (p : place) (c : cell) : mstate :=
  match p with
  | PVar x => mkM (<[x := c]> v) h
  | PElem l i => mkM v (alter (set_elem i c) l h)
  | PField l k => mkM v (alter (set_field k c) l h)
  end.
Definition read (s : mstate) (p : place) : mem cell :=
  match slot_read (vars s) (hp s) p with Some c => Done c | None => Fault Freed end.
Definition write (s : mstate) (p : place) (c : cell) : mem mstate :=
  match slot_read (vars s) (hp s) p with Some _ => Done (slot_write (vars s) (hp s) p c) | None => Fault Freed end.

(** [new], and the object a pointer designates. *)
Definition alloc (h : heap) (o : obj) : heap * positive := let l := fresh (dom h) in (<[l := o]> h, l).
Definition deref (h : heap) (v : val) : mem (positive * obj) :=
  match v with
  | VPtr l => match h !! l with Some o => Done (l, o) | None => Fault Freed end
  | VZero => Fault NullPointer
  | _ => Fault WrongMember
  end.

(** ** Operations *)

Definition null : cell := mkCell kNull VZero.

(** The destructors of the elements, one after the other. *)
Fixpoint each (f : heap → cell → mem heap) (cs : list cell) (h : heap) : mem heap :=
  match cs with [] => Done h | c :: cs => h ← f h c; each f cs h end.

(** [clear] of a value and [~Json]: what becomes of the heap. *)
Fixpoint destroy (n : nat) (h : heap) (c : cell) : mem heap :=
  match n with
  | O => Fault TooDeep
  | S n =>
      match type_ c with
      | kString =>
          match value_ c with
          | VZero => Done h
          | v => '(l, o) ← deref h v; match o with OStr _ => Done (delete l h) | _ => Fault WrongMember end
          end
      | kArray =>
          match value_ c with
          | VZero => Done h
          | v => '(l, o) ← deref h v;
                 match o with OArr cs => h ← each (destroy n) cs h; Done (delete l h) | _ => Fault WrongMember end
          end
      | kObject =>
          match value_ c with
          | VZero => Done h
          | v => '(l, o) ← deref h v;
                 match o with OObj m => h ← each (destroy n) m.*2 h; Done (delete l h) | _ => Fault WrongMember end
          end
      | _ => Done h
      end
  end.

Definition clear (n : nat) (p : place) (s : mstate) : mem mstate :=
  c ← read s p; h ← destroy n (hp s) c; write (mkM (vars s) h) p null.

(** Copying the elements into new ones, whose unions are uninitialised. *)
Fixpoint each_copy (f : heap → val → cell → mem (heap * val)) (cs : list cell) (h : heap) : mem (heap * list cell) :=
  match cs with
  | [] => Done (h, [])
  | c :: cs => '(h, v) ← f h VJunk c; '(h, r) ← each_copy f cs h; Done (h, mkCell (type_ c) v :: r)
  end.

(** The union [copy] leaves: [old] is what it held. *)
Fixpoint copy_value (n : nat) (h : heap) (old : val) (c : cell) : mem (heap * val) :=
  match n with
  | O => Fault TooDeep
  | S n =>
      match type_ c with
      | kNumber => Done (h, value_ c)
      | kString =>
          '(_, o) ← deref h (value_ c);
          match o with OStr s => let '(h, l) := alloc h (OStr s) in Done (h, VPtr l) | _ => Fault WrongMember end
      | kArray =>
          '(_, o) ← deref h (value_ c);
          match o with
          | OArr cs => '(h, r) ← each_copy (copy_value n) cs h; let '(h, l) := alloc h (OArr r) in Done (h, VPtr l)
          | _ => Fault WrongMember
          end
      | kObject =>
          '(_, o) ← deref h (value_ c);
          match o with
          | OObj m => '(h, r) ← each_copy (copy_value n) m.*2 h;
                      let '(h, l) := alloc h (OObj (zip m.*1 r)) in Done (h, VPtr l)
          | _ => Fault WrongMember
          end
      | _ => Done (h, old)
      end
  end.

(** [this->copy(other)] and [this->move(other)], each access in its place. *)
Definition copy (n : nat) (this other : place) (s : mstate) : mem mstate :=
  o ← read s other; c ← read s this;
  s ← write s this (mkCell (type_ o) (value_ c));
  o' ← read s other;
  '(h, v) ← copy_value n (hp s) (value_ c) (mkCell (type_ o) (value_ o'));
  write (mkM (vars s) h) this (mkCell (type_ o) v).
Definition move (this other : place) (s : mstate) : mem mstate :=
  o ← read s other; s ← write s this o; write s other (mkCell (type_ o) VZero).

Definition copy_assign (n : nat) (this other : place) (s : mstate) : mem mstate :=
  if decide (this = other) then Done s else s ← clear n this s; copy n this other s.
Definition move_assign (n : nat) (this other : place) (s : mstate) : mem mstate :=
  if decide (this = other) then Done s else s ← clear n this s; move this other s.

(** The constructors, for a variable [x]. *)
Definition construct (x : nat) (c : cell) (s : mstate) : mstate := mkM (<[x := c]> (vars s)) (hp s).
Definition construct_string (x : nat) (str : bytes) (s : mstate) : mstate :=
  let '(h, l) := alloc (hp s) (OStr str) in mkM (<[x := mkCell kString (VPtr l)]> (vars s)) h.
Definition copy_construct (n x : nat) (other : place) (s : mstate) : mem mstate :=
  copy n (PVar x) other (construct x (mkCell kNull VJunk) s).
Definition move_construct (x : nat) (other : place) (s : mstate) : mem mstate :=
  move (PVar x) other (construct x (mkCell kNull VJunk) s).
Definition destruct_var (n x : nat) (s : mstate) : mem mstate :=
  c ← read s (PVar x); h ← destroy n (hp s) c; Done (mkM (delete x (vars s)) h).

(** [operator[]], for a key and for a position. *)
Definition index_key (k : bytes) (p : place) (s : mstate) : mem (mstate * place) :=
  c ← read s p;
  s ← match type_ c with
      | kNull => let '(h, l) := alloc (hp s) (OObj []) in write (mkM (vars s) h) p (mkCell kObject (VPtr l))
      | kObject => Done s
      | _ => Fault Exception
      end;
  c ← read s p;
  '(l, o) ← deref (hp s) (value_ c);
  match o with
  | OObj m => Done (mkM (vars s) (<[l := OObj (map_emplace k null m)]> (hp s)), PField l k)
  | _ => Fault WrongMember
  end.
Definition index_at (i : nat) (p : place) (s : mstate) : mem (mstate * place) :=
  c ← read s p;
  if decide (type_ c = kArray) then
    '(l, o) ← deref (hp s) (value_ c);
    match o with
    | OArr cs => if decide (i < length cs)%nat then Done (s, PElem l i) else Fault Exception
    | _ => Fault WrongMember
    end
  else Fault Exception.

(** *** Expressions such as [x["a"][0]] *)

Inductive sel : Type := Key (k : bytes) | At (i : nat).
Definition index (e : sel) : place → mstate → mem (mstate * place) := match e with Key k => index_key k | At i => index_at i end.
Fixpoint eval_path (path : list sel) (p : place) (s : mstate) : mem (mstate * place) :=
  match path with [] => Done (s, p) | e :: path => '(s, p) ← index e p s; eval_path path p s end.

(** A statement of a program over [Json] variables. The right operand of an
    assignment is evaluated first. *)
Inductive stmt : Type :=
| SNew (x : nat) (c : cell) | SNewString (x : nat) (s : bytes)
| SCopyNew (x y : nat) (q : list sel) | SMoveNew (x y : nat) (q : list sel)
| SCopy (x : nat) (p : list sel) (y : nat) (q : list sel) | SMove (x : nat) (p : list sel) (y : nat) (q : list sel)
| SDelete (x : nat).
Definition exec (n : nat) (a : stmt) (s : mstate) : mem mstate :=
  match a with
  | SNew x c => Done (construct x c s)
  | SNewString x t => Done (construct_string x t s)
  | SCopyNew x y q => '(s, q) ← eval_path q (PVar y) s; copy_construct n x q s
  | SMoveNew x y q => '(s, q) ← eval_path q (PVar y) s; move_construct x q s
  | SCopy x p y q => '(s, q) ← eval_path q (PVar y) s; '(s, p) ← eval_path p (PVar x) s; copy_assign n p q s
  | SMove x p y q => '(s, q) ← eval_path q (PVar y) s; '(s, p) ← eval_path p (PVar x) s; move_assign n p q s
  | SDelete x => destruct_var n x s
  end.
Fixpoint execs (n : nat) (l : list stmt) (s : mstate) : mem mstate :=
  match l with [] => Done s | a :: l => s ← exec n a s; execs n l s end.

(** ** Values as trees *)

(** A number, boolean or null; a string, array or object that was moved from,
    whose tag stays and whose pointer is null; a string; an array; an object. *)
Inductive tree : Type :=
| Leaf (t : Type_) (v : val) | Shell (t : Type_) | TStr (s : bytes) | TArr (l : list tree) | TObj (m : list (bytes * tree)).

Section tree_ind.
Context (P : tree → Prop) (HL : ∀ t v, P (Leaf t v)) (HS : ∀ t, P (Shell t)) (HT : ∀ s, P (TStr s))
  (HA : ∀ l, Forall P l → P (TArr l)) (HO : ∀ m, Forall (λ kv, P kv.2) m → P (TObj m)).
Fixpoint tree_ind' (T : tree) : P T :=
  match T with
  | Leaf t v => HL t v
  | Shell t => HS t
  | TStr s => HT s
  | TArr l => HA l ((fix go l : Forall P l := match l with [] => Forall_nil_2 _ | T :: l => Forall_cons_2 _ _ _ (tree_ind' T) (go l) end) l)
  | TObj m => HO m ((fix go m : Forall (λ kv, P kv.2) m :=
      match m with [] => Forall_nil_2 _ | kv :: m => Forall_cons_2 _ _ _ (tree_ind' kv.2) (go m) end) m)
  end.
End tree_ind.

Definition plain (t : Type_) : bool := match t with kNull | kBoolean | kNumber => true | _ => false end.

(** *** Ownership: the tree a cell denotes, and exactly the part of the heap it owns *)

Section reps.
Context {A : Type} (R : A → cell → heap → Prop).
Fixpoint reps (l : list A) (cs : list cell) (h : heap) : Prop :=
  match l, cs with
  | [], [] => h = ∅
  | T :: l, c :: cs => ∃ h1 h2, h = h1 ∪ h2 ∧ h1 ##ₘ h2 ∧ R T c h1 ∧ reps l cs h2
  | _, _ => False
  end.
End reps.

Fixpoint rep (T : tree) (c : cell) (h : heap) : Prop :=
  match T with
  | Leaf t v => c = mkCell t v ∧ plain t = true ∧ h = ∅
  | Shell t => c = mkCell t VZero ∧ plain t = false ∧ h = ∅
  | TStr s => ∃ l, c = mkCell kString (VPtr l) ∧ h = {[l := OStr s]}
  | TArr Ts => ∃ l cs hs, c = mkCell kArray (VPtr l) ∧ h = <[l := OArr cs]> hs ∧ hs !! l = None ∧ reps rep Ts cs hs
  | TObj m => ∃ l cm hs, c = mkCell kObject (VPtr l) ∧ h = <[l := OObj cm]> hs ∧ hs !! l = None
                ∧ cm.*1 = m.*1 ∧ reps (λ kv, rep kv.2) m cm.*2 hs
  end.

(** The depth of the recursion of the destructor and of the copy. *)
Fixpoint depth (T : tree) : nat :=
  match T with
  | TArr l => S (foldr (λ T, Nat.max (depth T)) O l)
  | TObj m => S (foldr (λ kv, Nat.max (depth kv.2)) O m)
  | _ => 1
  end.

(** What a copy is, what is left where a value was moved from, and whether a value
    can be copied. *)
Fixpoint copied (old : val) (T : tree) : tree :=
  match T with
  | Leaf t v => if decide (t = kNumber) then Leaf t v else Leaf t old
  | TArr l => TArr (map (copied VJunk) l)
  | TObj m => TObj (map (λ kv, (kv.1, copied VJunk kv.2)) m)
  | T => T
  end.
Definition tag (T : tree) : Type_ :=
  match T with Leaf t _ => t | Shell t => t | TStr _ => kString | TArr _ => kArray | TObj _ => kObject end.
Definition moved (T : tree) : tree := if plain (tag T) then Leaf (tag T) VZero else Shell (tag T).
Fixpoint solid (T : tree) : bool :=
  match T with Shell _ => false | TArr l => forallb solid l | TObj m => forallb (λ kv, solid kv.2) m | _ => true end.

(** ** Lemmas on footprints *)

Lemma minus_union (h a b : heap) : (h ∖ a) ∖ b = h ∖ (a ∪ b).
Proof.
  apply map_eq. intros k. apply option_eq. intros x. rewrite !lookup_difference_Some, lookup_union_None. tauto.
Qed.
Lemma sub_minus (h a b : heap) : a ##ₘ b → a ∪ b ⊆ h → b ⊆ h ∖ a.
Proof.
  intros Hd Hs. apply map_subseteq_spec. intros k x Hk. apply lookup_difference_Some. split.
  - eapply lookup_weaken; [|exact Hs]. by apply lookup_union_Some_r.
  - by eapply map_disjoint_Some_r.
Qed.
Lemma delete_minus (h hs : heap) l o : delete l (h ∖ hs) = h ∖ <[l := o]> hs.
Proof.
  apply map_eq. intros k. apply option_eq. intros x. rewrite lookup_delete_Some, !lookup_difference_Some, lookup_insert_None. naive_solver.
Qed.
Lemma minus_none (h : heap) : h ∖ ∅ = h.
Proof. apply map_difference_empty. Qed.

Lemma rep_tag T c h : rep T c h → type_ c = tag T.
Proof. destruct T; simpl; naive_solver. Qed.

(** A property of the children from one that holds at their own depth. *)
Lemma depth_children {A} (d : A → nat) (P : nat → A → Prop) l n :
  Forall (λ T, ∀ n, (d T <= n)%nat → P n T) l → (foldr (λ T, Nat.max (d T)) O l <= n)%nat → Forall (P n) l.
Proof. induction 1 as [|T l HT _ IH]; simpl; intros Hn; constructor; [apply HT; lia|apply IH; lia]. Qed.

(** *** Destruction frees what is owned *)

Lemma each_destroy {A} (R : A → cell → heap → Prop) (f : heap → cell → mem heap) l cs hs h :
  Forall (λ T, ∀ c hf h, R T c hf → hf ⊆ h → f h c = Done (h ∖ hf)) l → reps R l cs hs → hs ⊆ h → each f cs h = Done (h ∖ hs).
Proof.
  intros Hl. revert cs hs h. induction Hl as [|T l HT _ IH]; intros [|c cs] hs h Hr Hs; simpl in *; try done.
  - subst. by rewrite minus_none.
  - destruct Hr as (h1 & h2 & -> & Hd & HR & Hr). rewrite (HT c h1 h HR) by (etrans; [by apply map_union_subseteq_l|done]).
    simpl. rewrite (IH cs h2) by (done || by apply sub_minus). by rewrite minus_union.
Qed.

Lemma destroy_rep T : ∀ n c hf h, rep T c hf → hf ⊆ h → (depth T <= n)%nat → destroy n h c = Done (h ∖ hf).
Proof.
  induction T as [t v|t|s|l IH|m IH] using tree_ind'; intros n c hf h Hr Hs Hn; (destruct n as [|n]; [simpl in Hn; lia|]); simpl in Hr.
  - destruct Hr as (-> & Hp & ->). rewrite minus_none. by destruct t.
  - destruct Hr as (-> & Hp & ->). rewrite minus_none. by destruct t.
  - destruct Hr as (p & -> & ->). cbn [destroy type_ value_ deref]. 
    assert (Hl : h !! p = Some (OStr s)) by (eapply lookup_weaken; [apply lookup_singleton_eq|done]).
    rewrite Hl. cbn [mbind mem_bind]. f_equal. by rewrite <-(minus_none h) at 1; rewrite (delete_minus h ∅ p (OStr s)), insert_empty.
  - destruct Hr as (p & cs & hs & -> & -> & Hp & Hr). cbn [destroy type_ value_ deref].
    assert (Hl : h !! p = Some (OArr cs)) by (eapply lookup_weaken; [apply lookup_insert_eq|done]).
    rewrite Hl. cbn [mbind mem_bind]. rewrite (each_destroy rep (destroy n) l cs hs); [|..|done|].
    + cbn [mbind mem_bind]. f_equal. apply delete_minus.
    + apply (depth_children depth (λ n T, ∀ c hf h, rep T c hf → hf ⊆ h → destroy n h c = Done (h ∖ hf))); [|simpl in Hn; lia].
      eapply Forall_impl; [exact IH|]. eauto.
    + etrans; [|exact Hs]. by apply insert_subseteq.
  - destruct Hr as (p & cs & hs & -> & -> & Hp & Hk & Hr). cbn [destroy type_ value_ deref].
    assert (Hl : h !! p = Some (OObj cs)) by (eapply lookup_weaken; [apply lookup_insert_eq|done]).
    rewrite Hl. cbn [mbind mem_bind]. rewrite (each_destroy (λ kv, rep kv.2) (destroy n) m cs.*2 hs); [|..|done|].
    + cbn [mbind mem_bind]. f_equal. apply delete_minus.
    + apply (depth_children (λ kv, depth kv.2) (λ n kv, ∀ c hf h, rep kv.2 c hf → hf ⊆ h → destroy n h c = Done (h ∖ hf)));
        [|simpl in Hn; lia]. eapply Forall_impl; [exact IH|]. eauto.
    + etrans; [|exact Hs]. by apply insert_subseteq.
Qed.

(** *** A copy is new *)

Lemma alloc_new h o : (alloc h o).1 = {[(alloc h o).2 := o]} ∪ h ∧ h !! (alloc h o).2 = None.
Proof. unfold alloc. simpl. rewrite insert_union_singleton_l. split; [done|]. apply not_elem_of_dom, is_fresh. Qed.

(** What copying a cell that denotes [T] does in any heap that contains it. *)
Definition copies (n : nat) (T : tree) : Prop :=
  ∀ c hf h old, rep T c hf → hf ⊆ h → solid T = true →
  ∃ hn v, copy_value n h old c = Done (hn ∪ h, v) ∧ hn ##ₘ h ∧ rep (copied old T) (mkCell (type_ c) v) hn.

Lemma each_copy_rep {A} (t : A → tree) (g : A → A) n l cs hs h :
  (∀ T, t (g T) = copied VJunk (t T)) →
  Forall (λ T, copies n (t T)) l → reps (λ T, rep (t T)) l cs hs → hs ⊆ h → forallb (λ T, solid (t T)) l = true →
  ∃ hn r, each_copy (copy_value n) cs h = Done (hn ∪ h, r) ∧ hn ##ₘ h ∧ reps (λ T, rep (t T)) (map g l) r hn ∧ length r = length l.
Proof.
  intros Hg Hl. revert cs hs h. induction Hl as [|T l HT _ IH]; intros [|c cs] hs h Hr Hs Hd; simpl in *; try done.
  - exists ∅, []. rewrite map_empty_union. split_and!; try done. apply map_disjoint_empty_l.
  - destruct Hr as (h1 & h2 & -> & Hd12 & HR & Hr). apply andb_true_iff in Hd as [Hd1 Hd2].
    assert (H1 : h1 ⊆ h) by (etrans; [by apply map_union_subseteq_l|done]).
    assert (H2 : h2 ⊆ h) by (etrans; [by apply map_union_subseteq_r|done]).
    destruct (HT c h1 h VJunk HR H1 Hd1) as (hn & v & -> & Hn & Hv). cbn [mbind mem_bind].
    destruct (IH cs h2 (hn ∪ h) Hr) as (hm & r & -> & Hm & Hrs & Hlen); [by apply map_union_subseteq_r'|done|].
    cbn [mbind mem_bind]. exists (hn ∪ hm), (mkCell (type_ c) v :: r).
    apply map_disjoint_union_r in Hm as [Hm1 Hm2]. split_and!.
    + f_equal. f_equal. rewrite map_union_assoc. f_equal. by apply map_union_comm.
    + by apply map_disjoint_union_l.
    + exists hn, hm. split_and!; try done. by rewrite Hg.
    + simpl; lia.
Qed.

Lemma copy_rep T : ∀ n, (depth T <= n)%nat → copies n T.
Proof.
  induction T as [t v|t|s|l IH|m IH] using tree_ind'; intros n Hn c hf h old Hr Hs Hd; (destruct n as [|n]; [simpl in Hn; lia|]); simpl in Hr.
  - destruct Hr as (-> & Hp & ->). exists ∅, (if decide (t = kNumber) then v else old). rewrite map_empty_union. split_and!.
    + by destruct t.
    + apply map_disjoint_empty_l.
    + simpl. by destruct (decide (t = kNumber)).
  - done.
  - destruct Hr as (p & -> & ->). cbn [copy_value type_ value_ deref].
    rewrite (lookup_weaken _ _ p (OStr s) (lookup_singleton_eq _ _) Hs). cbn [mbind mem_bind].
    destruct (alloc_new h (OStr s)) as [E1 E2]. destruct (alloc h (OStr s)) as [h' l']. simpl in *. subst h'.
    exists {[l' := OStr s]}, (VPtr l'). split_and!; try done; [by apply map_disjoint_singleton_l_2|by exists l'].
  - destruct Hr as (p & cs & hs & -> & -> & Hp & Hr). cbn [copy_value type_ value_ deref].
    rewrite (lookup_weaken _ _ p (OArr cs) (lookup_insert_eq _ _ _) Hs). cbn [mbind mem_bind].
    destruct (each_copy_rep (λ T, T) (copied VJunk) n l cs hs h) as (hn & r & -> & Hnd & Hrs & _); try done.
    + apply (depth_children depth copies); [done|simpl in Hn; lia].
    + etrans; [|exact Hs]. by apply insert_subseteq.
    + cbn [mbind mem_bind]. destruct (alloc_new (hn ∪ h) (OArr r)) as [E1 E2]. destruct (alloc (hn ∪ h) (OArr r)) as [h' l']. simpl in *. subst h'.
      apply lookup_union_None in E2 as [E2 E3]. exists (<[l' := OArr r]> hn), (VPtr l').
      rewrite <-insert_union_singleton_l, insert_union_l. split_and!; try done; [by apply map_disjoint_insert_l_2|].
      exists l', r, hn. done.
  - destruct Hr as (p & cs & hs & -> & -> & Hp & Hk & Hr). cbn [copy_value type_ value_ deref].
    rewrite (lookup_weaken _ _ p (OObj cs) (lookup_insert_eq _ _ _) Hs). cbn [mbind mem_bind].
    destruct (each_copy_rep snd (λ kv, (kv.1, copied VJunk kv.2)) n m cs.*2 hs h) as (hn & r & -> & Hnd & Hrs & Hlen); try done.
    + apply (depth_children (λ kv, depth kv.2) (λ n kv, copies n kv.2)); [done|simpl in Hn; lia].
    + etrans; [|exact Hs]. by apply insert_subseteq.
    + cbn [mbind mem_bind]. set (o := OObj (zip cs.*1 r)). destruct (alloc_new (hn ∪ h) o) as [E1 E2].
      destruct (alloc (hn ∪ h) o) as [h' l']. simpl in *. subst h'.
      apply lookup_union_None in E2 as [E2 E3]. exists (<[l' := o]> hn), (VPtr l').
      rewrite <-insert_union_singleton_l, insert_union_l. split_and!; try done; [by apply map_disjoint_insert_l_2|].
      assert (Hl1 : length cs.*1 = length r) by (by rewrite Hk, length_fmap).
      exists l', (zip cs.*1 r), hn. split_and!; try done.
      * rewrite fst_zip by lia. rewrite Hk. clear. induction m as [|[k T] m IH]; [done|]. cbn [map]. rewrite !fmap_cons. cbn [fst]. by f_equal.
      * rewrite snd_zip by lia. done.
Qed.

(** ** References into a value *)

(** The entries [operator[]] with a key finds or makes. *)
Definition entries (T : tree) : option (list (bytes * tree)) :=
  match T with Leaf kNull _ => Some [] | TObj m => Some m | _ => None end.
(** The value a path leads to, and the whole with another value in its place;
    missing entries are made on the way. *)
Fixpoint tref (path : list sel) (T : tree) : option (tree * (tree → tree)) :=
  match path with
  | [] => Some (T, λ t, t)
  | Key k :: path =>
      m ← entries T; let m := map_emplace k (Leaf kNull VZero) m in
      sub ← map_find k m; '(U, K) ← tref path sub; Some (U, λ t, TObj (map_set k (K t) m))
  | At i :: path =>
      match T with TArr l => sub ← l !! i; '(U, K) ← tref path sub; Some (U, λ t, TArr (<[i := K t]> l)) | _ => None end
  end.

(** *** One child of a list of children *)

Lemma reps_lookup {A} (R : A → cell → heap → Prop) l cs hs i T : reps R l cs hs → l !! i = Some T →
  ∃ c h1 h2, cs !! i = Some c ∧ R T c h1 ∧ hs = h1 ∪ h2 ∧ h1 ##ₘ h2
  ∧ ∀ T' c' h', R T' c' h' → h' ##ₘ h2 → reps R (<[i := T']> l) (<[i := c']> cs) (h' ∪ h2).
Proof.
  revert cs hs i. induction l as [|S l IH]; intros [|c cs] hs [|i] Hr Hi; simpl in *; try done.
  - injection Hi as ->. destruct Hr as (h1 & h2 & -> & Hd & HR & Hr). exists c, h1, h2. split_and!; try done. eauto 10.
  - destruct Hr as (h1 & h2 & -> & Hd & HR & Hr). destruct (IH cs h2 i Hr Hi) as (c1 & a & b & Hc & HT & -> & Hab & Hu).
    apply map_disjoint_union_r in Hd as [Hd1 Hd2]. exists c1, a, (h1 ∪ b). split_and!; try done.
    + rewrite !map_union_assoc. f_equal. by apply map_union_comm.
    + by apply map_disjoint_union_r_2.
    + intros T' c' h' HR' Hd'. apply map_disjoint_union_r in Hd' as [Hd'1 Hd'2]. exists h1, (h' ∪ b). split_and!; auto.
      * rewrite !map_union_assoc. f_equal. by apply map_union_comm.
      * by apply map_disjoint_union_r_2.
Qed.

Lemma reps_length {A} (R : A → cell → heap → Prop) l cs hs : reps R l cs hs → length cs = length l.
Proof. revert cs hs. induction l as [|T l IH]; intros [|c cs] hs Hr; simpl in *; try done. destruct Hr as (?&?&_&_&_&Hr). f_equal. eauto. Qed.

(** An entry by its key is a child by its position, which the keys determine. *)
Fixpoint position (k : bytes) (ks : list bytes) : option nat :=
  match ks with [] => None | k' :: ks => if bool_decide (k = k') then Some O else S <$> position k ks end.
Lemma map_find_position {V} k (m : list (bytes * V)) : map_find k m = i ← position k m.*1; m.*2 !! i.
Proof.
  induction m as [|[k' v] m IH]; [done|]. rewrite !fmap_cons. simpl. case_bool_decide; [done|]. rewrite IH.
  by destruct (position k m.*1).
Qed.
Lemma map_set_position {V} k w (m : list (bytes * V)) :
  (map_set k w m).*2 = match position k m.*1 with Some i => <[i := w]> m.*2 | None => m.*2 end.
Proof.
  induction m as [|[k' v] m IH]; [done|]. rewrite !fmap_cons. simpl. case_bool_decide; [done|]. rewrite fmap_cons, IH.
  by destruct (position k m.*1).
Qed.
Lemma map_set_keys {V} k w (m : list (bytes * V)) : (map_set k w m).*1 = m.*1.
Proof. induction m as [|[k' v] m IH]; [done|]. simpl. case_bool_decide as E; rewrite !fmap_cons; cbn [fst]; [by subst|by rewrite IH]. Qed.
Lemma map_emplace_keys {V W} k (v : V) (w : W) m m' : m.*1 = m'.*1 → (map_emplace k v m).*1 = (map_emplace k w m').*1.
Proof.
  revert m'. induction m as [|[k1 v1] m IH]; intros [|[k2 v2] m'] Hk; try done. injection Hk as Hk1 Hk2. cbn in Hk1. subst k2. assert (Hk : m.*1 = m'.*1) by exact Hk2.
  simpl. case_bool_decide; [rewrite !fmap_cons; cbn [fst]; by rewrite Hk|].
  destruct (bytes_ltb k k1); rewrite !fmap_cons; cbn [fst]; [by rewrite Hk|]. by rewrite (IH m' Hk).
Qed.

(** The children of an object, as those of an array. *)
Lemma reps_snd (m : list (bytes * tree)) cs hs : reps (λ kv, rep kv.2) m cs hs ↔ reps rep m.*2 cs hs.
Proof.
  revert cs hs. induction m as [|[k T] m IH]; intros [|c cs] hs; try done. simpl. setoid_rewrite IH. done.
Qed.

Lemma reps_emplace k (m : list (bytes * tree)) (cm : list (bytes * cell)) hs : cm.*1 = m.*1 → reps rep m.*2 cm.*2 hs →
  reps rep (map_emplace k (Leaf kNull VZero) m).*2 (map_emplace k null cm).*2 hs.
Proof.
  assert (Hnull : ∀ l cs h, reps rep l cs h → reps rep (Leaf kNull VZero :: l) (null :: cs) h).
  { intros l cs h Hr. exists ∅, h. rewrite map_empty_union. split_and!; try done. apply map_disjoint_empty_l. }
  revert cm hs. induction m as [|[k1 T] m IH]; intros [|[k2 c] cm] hs Hk Hr; try done; [by apply Hnull|].
  injection Hk as Hk1 Hk2. cbn in Hk1. subst k2. assert (Hk : cm.*1 = m.*1) by exact Hk2.
  cbn [map_emplace]. case_bool_decide; [done|]. destruct (bytes_ltb k k1); rewrite !fmap_cons; cbn [snd].
  - by apply (Hnull (T :: m.*2) (c :: cm.*2)).
  - destruct Hr as (h1 & h2 & -> & Hd & HR & Hr). exists h1, h2. split_and!; try done. by apply IH.
Qed.

Lemma find_emplace {V} k (v : V) m : is_Some (map_find k (map_emplace k v m)).
Proof.
  induction m as [|[k1 w] m IH]; simpl; [by rewrite bool_decide_eq_true_2|]. case_bool_decide as E.
  - simpl. by rewrite bool_decide_eq_true_2.
  - destruct (bytes_ltb k k1); simpl; [by rewrite bool_decide_eq_true_2|]. by rewrite bool_decide_eq_false_2.
Qed.

(** ** Places *)

Lemma slot_read_mono v (h h' : heap) p c : h ⊆ h' → slot_read v h p = Some c → slot_read v h' p = Some c.
Proof.
  intros Hs. destruct p as [x|l i|l k]; simpl; [done|..]; destruct (h !! l) as [o|] eqn:E; try done;
    by rewrite (lookup_weaken _ _ _ _ E Hs).
Qed.
Lemma map_set_same {V} k (v : V) m : map_find k m = Some v → map_set k v m = m.
Proof. induction m as [|[k' v'] m IH]; [done|]. simpl. case_bool_decide; [by subst; intros [= ->]|]. intros Hf. by rewrite IH. Qed.
Lemma slot_write_same v h p c : slot_read v h p = Some c → slot_write v h p c = mkM v h.
Proof.
  destruct p as [x|l i|l k]; simpl; intros Hr.
  - by rewrite insert_id.
  - destruct (h !! l) as [[| cs|]|] eqn:E; try done. f_equal. apply map_eq. intros j.
    destruct (decide (l = j)) as [<-|Hn]; [|by rewrite lookup_alter_ne]. rewrite lookup_alter_eq, E. simpl. by rewrite list_insert_id.
  - destruct (h !! l) as [[| |m]|] eqn:E; try done. f_equal. apply map_eq. intros j.
    destruct (decide (l = j)) as [<-|Hn]; [|by rewrite lookup_alter_ne]. rewrite lookup_alter_eq, E. simpl. do 2 f_equal.
    by apply map_set_same.
Qed.
Lemma map_find_set {V} k (v w : V) m : map_find k m = Some v → map_find k (map_set k w m) = Some w.
Proof.
  induction m as [|[k' v'] m IH]; simpl; [done|]. case_bool_decide; simpl; [by rewrite bool_decide_eq_true_2|].
  rewrite bool_decide_eq_false_2 by done. done.
Qed.
Lemma map_set_set {V} k (v w : V) m : map_set k w (map_set k v m) = map_set k w m.
Proof.
  induction m as [|[k' v'] m IH]; simpl; [done|]. case_bool_decide; simpl; [by rewrite bool_decide_eq_true_2|].
  rewrite bool_decide_eq_false_2 by done. by rewrite IH.
Qed.
(** Reading back what was written, and writing twice. *)
Lemma slot_read_write v h p a c : slot_read v h p = Some a →
  slot_read (vars (slot_write v h p c)) (hp (slot_write v h p c)) p = Some c.
Proof.
  destruct p as [x|l i|l k]; simpl; intros Hr.
  - apply lookup_insert_eq.
  - rewrite lookup_alter_eq. destruct (h !! l) as [[| cs|]|]; try done. simpl. apply list_lookup_insert_eq. by eapply lookup_lt_Some.
  - rewrite lookup_alter_eq. destruct (h !! l) as [[| |m]|]; try done. simpl. by eapply map_find_set.
Qed.
Lemma slot_write_write v h p a c : slot_write (vars (slot_write v h p a)) (hp (slot_write v h p a)) p c = slot_write v h p c.
Proof.
  destruct p as [x|l i|l k]; simpl; f_equal.
  - apply insert_insert_eq.
  - rewrite alter_alter_eq. apply alter_ext. intros [| cs|] _; simpl; try done. by rewrite list_insert_insert_eq.
  - rewrite alter_alter_eq. apply alter_ext. intros [| |m] _; simpl; try done. by rewrite map_set_set.
Qed.
Lemma slot_write_dom v h p c : dom (hp (slot_write v h p c)) = dom h.
Proof. destruct p; simpl; [done|apply dom_alter_L..]. Qed.
(** A write to a place of one part of the heap leaves the other. *)
Lemma slot_write_union v (h g : heap) p a c : slot_read v h p = Some a →
  slot_write v (h ∪ g) p c = mkM (vars (slot_write v h p c)) (hp (slot_write v h p c) ∪ g).
Proof.
  assert (Halt : ∀ f l o, h !! l = Some o → alter f l (h ∪ g) = alter f l h ∪ g).
  { intros f l o E. apply map_eq. intros j. destruct (decide (l = j)) as [<-|Hn].
    - rewrite lookup_alter_eq, !lookup_union, lookup_alter_eq, E. simpl. by rewrite !union_Some_l.
    - rewrite lookup_alter_ne by done. rewrite !lookup_union. by rewrite lookup_alter_ne. }
  destruct p as [x|l i|l k]; simpl; intros Hr; [done|..]; destruct (h !! l) eqn:E; try done; f_equal; by eapply Halt.
Qed.

(** ** A variable seen from a place inside it *)

(** The place [p], in the variable [x], holds [T], which owns [h]; the rest of the
    variable owns [hk] and everything else [fr]; with [T'] at the place the variable
    would hold [K T']. *)
Record focus (s : mstate) (x : nat) (p : place) (K : tree → tree) (T : tree) (c : cell) (h hk fr : heap) : Prop := {
  f_read : slot_read (vars s) hk p = Some c;
  f_rep : rep T c h;
  f_hp : hp s = hk ∪ (h ∪ fr);
  f_d1 : hk ##ₘ h; f_d2 : hk ##ₘ fr; f_d3 : h ##ₘ fr;
  f_var : ∀ y, p = PVar y → y = x;
  f_plug : ∀ T' c' h', rep T' c' h' → hk ##ₘ h' →
    ∃ cr, vars (slot_write (vars s) hk p c') !! x = Some cr ∧ rep (K T') cr (hp (slot_write (vars s) hk p c') ∪ h') }.

Lemma focus_var s x T c h fr : vars s !! x = Some c → rep T c h → hp s = h ∪ fr → h ##ₘ fr → focus s x (PVar x) (λ t, t) T c h ∅ fr.
Proof.
  intros Hx Hr Hh Hd. split; simpl; try done.
  - by rewrite map_empty_union.
  - apply map_disjoint_empty_l.
  - apply map_disjoint_empty_l.
  - by intros y [= ->].
  - intros T' c' h' Hr' _. exists c'. rewrite lookup_insert_eq, map_empty_union. done.
Qed.

(** Leaving the place. *)
Lemma focus_close s x p K T c h hk fr : focus s x p K T c h hk fr →
  ∃ cr hr, vars s !! x = Some cr ∧ rep (K T) cr hr ∧ hp s = hr ∪ fr ∧ hr ##ₘ fr.
Proof.
  intros [F1 F2 F3 F4 F5 F6 F7 F8]. destruct (F8 T c h F2 F4) as (cr & Hc & Hr). rewrite slot_write_same in Hc, Hr by done. simpl in *.
  exists cr, (hk ∪ h). split_and!; try done; [by rewrite F3, map_union_assoc|by apply map_disjoint_union_l_2].
Qed.

Lemma write_disjoint v h p c g : h ##ₘ g → hp (slot_write v h p c) ##ₘ g.
Proof. rewrite !map_disjoint_dom, slot_write_dom. done. Qed.

(** Another value at the place. *)
Lemma focus_replace s x p K T c h hk fr T' c' h' fr' : focus s x p K T c h hk fr → rep T' c' h' → hk ##ₘ h' → hk ##ₘ fr' → h' ##ₘ fr' →
  focus (slot_write (vars s) (hk ∪ (h' ∪ fr')) p c') x p K T' c' h' (hp (slot_write (vars s) hk p c')) fr'.
Proof.
  intros [F1 F2 F3 F4 F5 F6 F7 F8] Hr Hd1 Hd2 Hd3. rewrite (slot_write_union _ hk _ p c) by done. split; simpl; try done.
  - by eapply slot_read_write.
  - by apply write_disjoint.
  - by apply write_disjoint.
  - intros T2 c2 h2 Hr2 Hd. rewrite slot_write_write. apply F8; [done|]. revert Hd. rewrite !map_disjoint_dom, slot_write_dom. done.
Qed.

Lemma focus_vars s x p K T c h hk fr c' g : focus s x p K T c h hk fr → delete x (vars (slot_write (vars s) g p c')) = delete x (vars s).
Proof. intros F. destruct p as [y|l i|l k]; simpl; try done. rewrite (f_var _ _ _ _ _ _ _ _ _ F y eq_refl). apply delete_insert_eq. Qed.
Lemma focus_read s x p K T c h hk fr : focus s x p K T c h hk fr → slot_read (vars s) (hp s) p = Some c.
Proof. intros F. rewrite (f_hp _ _ _ _ _ _ _ _ _ F). eapply slot_read_mono; [|apply F]. by apply map_union_subseteq_l. Qed.
Lemma focus_reads s x p K T c h hk fr : focus s x p K T c h hk fr → read s p = Done c.
Proof. intros F. unfold read. by rewrite (focus_read _ _ _ _ _ _ _ _ _ F). Qed.
Lemma focus_writes s x p K T c h hk fr c' : focus s x p K T c h hk fr → write s p c' = Done (slot_write (vars s) (hp s) p c').
Proof. intros F. unfold write. by rewrite (focus_read _ _ _ _ _ _ _ _ _ F). Qed.

(** *** One step into the value at the place *)

(** An object [o] on the heap at [l] whose slot [q] holds [T1]; [o' c] is [o] with
    [c] in the slot. *)
Lemma focus_step s x p K T c h hk fr l o o' h1 h2 q T1 c1 G :
  focus s x p K T c h hk fr → h = <[l := o]> (h1 ∪ h2) → (h1 ∪ h2) !! l = None → h1 ##ₘ h2 →
  (∀ v g c', slot_write v (<[l := o]> g) q c' = mkM v (<[l := o' c']> g)) →
  (∀ v g, slot_read v (<[l := o]> g) q = Some c1) → (∀ y, q ≠ PVar y) → rep T1 c1 h1 →
  (∀ T' c' h', rep T' c' h' → h' ##ₘ h2 → h' !! l = None → rep (G T') c (<[l := o' c']> (h' ∪ h2))) →
  focus s x q (λ t, K (G t)) T1 c1 h1 (hk ∪ <[l := o]> h2) fr.
Proof.
  intros [F1 F2 F3 F4 F5 F6 F7 F8] -> Hl Hd Hw Hrd Hq Hr1 HG. apply lookup_union_None in Hl as [Hl1 Hl2].
  assert (Hk : hk !! l = None) by (eapply map_disjoint_Some_r; [exact F4|apply lookup_insert_eq]).
  assert (E : ∀ g o, hk ∪ <[l := o]> g = <[l := o]> (hk ∪ g)) by (intros; by rewrite insert_union_r).
  apply map_disjoint_insert_r in F4 as [_ F4]. apply map_disjoint_insert_l in F6 as [Hfl F6].
  apply map_disjoint_union_r in F4 as [F41 F42]. apply map_disjoint_union_l in F6 as [F61 F62].
  split; try done.
  - rewrite E. apply Hrd.
  - rewrite F3, !E, <-!insert_union_l, <-!insert_union_r by done. f_equal.
    rewrite !map_union_assoc, <-(map_union_assoc hk h1), <-(map_union_assoc hk h2). do 2 f_equal. by apply map_union_comm.
  - apply map_disjoint_union_l_2; [done|]. apply map_disjoint_insert_l_2; [done|done].
  - apply map_disjoint_union_l_2; [done|]. by apply map_disjoint_insert_l_2.
  - intros y Hy. by destruct (Hq y).
  - intros T' c' h' Hr' Hd'. apply map_disjoint_union_l in Hd' as [Hd1 Hd2]. apply map_disjoint_insert_l in Hd2 as [Hl' Hd2].
    rewrite E, Hw. simpl. destruct (F8 (G T') c (<[l := o' c']> (h' ∪ h2))) as (cr & Hc & Hr).
    + by apply HG.
    + apply map_disjoint_insert_r_2; [done|]. by apply map_disjoint_union_r_2.
    + rewrite slot_write_same in Hc, Hr by done. simpl in *. exists cr. split; [done|].
      rewrite E in Hr. rewrite <-insert_union_l, <-map_union_assoc, (map_union_comm h2 h') by done. exact Hr.
Qed.

Lemma focus_at s x p K l c h hk fr i T1 : focus s x p K (TArr l) c h hk fr → l !! i = Some T1 →
  ∃ a c1 h1 hk', index_at i p s = Done (s, PElem a i) ∧ focus s x (PElem a i) (λ t, K (TArr (<[i := t]> l))) T1 c1 h1 hk' fr.
Proof.
  intros F Hi. pose proof (f_rep _ _ _ _ _ _ _ _ _ F) as (a & cs & hs & -> & -> & Ha & Hr).
  pose proof (reps_length _ _ _ _ Hr) as Hlen. destruct (reps_lookup _ _ _ _ _ _ Hr Hi) as (c1 & h1 & h2 & Hc & HR & -> & Hd & Hu).
  exists a, c1, h1, (hk ∪ <[a := OArr cs]> h2). split.
  - unfold index_at. rewrite (focus_reads _ _ _ _ _ _ _ _ _ F). cbn [mbind mem_bind type_ value_]. rewrite decide_True by done.
    assert (E : hp s !! a = Some (OArr cs)).
    { rewrite (f_hp _ _ _ _ _ _ _ _ _ F). apply lookup_union_Some_r; [apply map_disjoint_union_r_2; apply F|].
      apply lookup_union_Some_l, lookup_insert_eq. }
    cbn [deref]. rewrite E. cbn [mbind mem_bind]. rewrite decide_True; [done|]. rewrite Hlen. by eapply lookup_lt_Some.
  - eapply (focus_step s x p K (TArr l) _ _ hk fr a (OArr cs) (λ c', OArr (<[i := c']> cs)) h1 h2); try done.
    + intros v g c'. simpl. by rewrite alter_insert_eq.
    + intros v g. simpl. by rewrite lookup_insert_eq.
    + intros T' c' h' Hr' Hd' Hl'. apply lookup_union_None in Ha as [_ Ha].
      exists a, (<[i := c']> cs), (h' ∪ h2). split_and!; try done; [by apply lookup_union_None|]. by apply Hu.
Qed.

(** What the state is when the value at a place is replaced and its cell is not. *)
Lemma focus_heap s x p K T c h hk fr T' h' fr' : focus s x p K T c h hk fr → rep T' c h' → hk ##ₘ h' → hk ##ₘ fr' → h' ##ₘ fr' →
  focus (mkM (vars s) (hk ∪ (h' ∪ fr'))) x p K T' c h' hk fr'.
Proof.
  intros F Hr Hd1 Hd2 Hd3. pose proof (f_read _ _ _ _ _ _ _ _ _ F) as F1.
  pose proof (focus_replace _ _ _ _ _ _ _ _ _ _ _ _ _ F Hr Hd1 Hd2 Hd3) as F'.
  rewrite (slot_write_same _ hk) in F' by done. rewrite (slot_write_union _ hk _ p c), (slot_write_same _ hk) in F' by done. exact F'.
Qed.

Lemma focus_object s x p K T c h hk fr m : focus s x p K T c h hk fr → entries T = Some m →
  ∃ s' c' h' hk', (match type_ c with
      | kNull => let '(h, l) := alloc (hp s) (OObj []) in write (mkM (vars s) h) p (mkCell kObject (VPtr l))
      | kObject => Done s
      | _ => Fault Exception
      end) = Done s' ∧ focus s' x p K (TObj m) c' h' hk' fr ∧ delete x (vars s') = delete x (vars s).
Proof.
  intros F He. pose proof (f_rep _ _ _ _ _ _ _ _ _ F) as Hr. destruct T as [t v|t|st|l|m']; try done; simpl in He.
  - destruct t; try done. injection He as <-. destruct Hr as (-> & _ & ->). cbn [type_].
    destruct (alloc_new (hp s) (OObj [])) as [E1 E2]. destruct (alloc (hp s) (OObj [])) as [h' l]. simpl in E1, E2. subst h'.
    rewrite (f_hp _ _ _ _ _ _ _ _ _ F), map_empty_union in E2 |- *. apply lookup_union_None in E2 as [E2 E3].
    assert (Hd : hk ##ₘ {[l := OObj []]}) by (by apply map_disjoint_singleton_r_2).
    assert (Hd' : {[l := OObj []]} ##ₘ fr) by (by apply map_disjoint_singleton_l_2).
    assert (Eh : {[l := OObj []]} ∪ (hk ∪ fr) = hk ∪ ({[l := OObj []]} ∪ fr)).
    { rewrite !map_union_assoc. f_equal. by apply map_union_comm. }
    rewrite Eh. unfold write. cbn [vars hp].
    rewrite (slot_read_mono _ hk _ _ _ (map_union_subseteq_l _ _) (f_read _ _ _ _ _ _ _ _ _ F)).
    eexists _, _, _, _. split; [reflexivity|]. split.
    + eapply focus_replace; [exact F|..|done|apply F|done]. exists l, [], ∅. rewrite insert_empty. done.
    + by eapply focus_vars.
  - injection He as <-. destruct Hr as (l & cm & hs & -> & _). eauto 10.
Qed.

Lemma focus_key s x p K T c h hk fr m k T1 : focus s x p K T c h hk fr → entries T = Some m →
  map_find k (map_emplace k (Leaf kNull VZero) m) = Some T1 →
  ∃ s' a c1 h1 hk', index_key k p s = Done (s', PField a k)
  ∧ focus s' x (PField a k) (λ t, K (TObj (map_set k t (map_emplace k (Leaf kNull VZero) m)))) T1 c1 h1 hk' fr
  ∧ delete x (vars s') = delete x (vars s).
Proof.
  intros F He Hf. unfold index_key. rewrite (focus_reads _ _ _ _ _ _ _ _ _ F). cbn [mbind mem_bind].
  destruct (focus_object _ _ _ _ _ _ _ _ _ _ F He) as (s1 & c0 & h0 & hk0 & E & F0 & Hv). rewrite E. cbn [mbind mem_bind].
  clear E F. rewrite (focus_reads _ _ _ _ _ _ _ _ _ F0). cbn [mbind mem_bind].
  pose proof (f_rep _ _ _ _ _ _ _ _ _ F0) as (a & cm & hs & -> & -> & Ha & Hk & Hr). rewrite reps_snd in Hr.
  pose proof (f_hp _ _ _ _ _ _ _ _ _ F0) as Hh. pose proof (f_d1 _ _ _ _ _ _ _ _ _ F0) as D1. pose proof (f_d3 _ _ _ _ _ _ _ _ _ F0) as D3.
  pose proof (f_d2 _ _ _ _ _ _ _ _ _ F0) as D2.
  apply map_disjoint_insert_r in D1 as [D1a D1]. apply map_disjoint_insert_l in D3 as [D3a D3].
  assert (Ea : hp s1 !! a = Some (OObj cm)).
  { rewrite Hh. rewrite lookup_union_r by done. by apply lookup_union_Some_l, lookup_insert_eq. }
  cbn [deref value_]. rewrite Ea. cbn [mbind mem_bind]. set (m2 := map_emplace k (Leaf kNull VZero) m) in *. set (cm2 := map_emplace k null cm).
  assert (Hk2 : cm2.*1 = m2.*1) by (by apply map_emplace_keys).
  pose proof (reps_emplace k m cm hs Hk Hr) as Hr2. fold m2 cm2 in Hr2.
  assert (Eh : <[a := OObj cm2]> (hp s1) = hk0 ∪ (<[a := OObj cm2]> hs ∪ fr)).
  { rewrite Hh. rewrite <-!insert_union_l, <-!insert_union_r by done. by rewrite insert_insert_eq. }
  rewrite Eh. rewrite map_find_position in Hf. destruct (position k m2.*1) as [i|] eqn:Ei; [|done]. simpl in Hf.
  destruct (reps_lookup _ _ _ _ _ _ Hr2 Hf) as (c1 & h1 & h2 & Hc & HR & -> & Hd & Hu).
  assert (F2 : focus (mkM (vars s1) (hk0 ∪ (<[a := OObj cm2]> (h1 ∪ h2) ∪ fr))) x p K (TObj m2) (mkCell kObject (VPtr a)) (<[a := OObj cm2]> (h1 ∪ h2)) hk0 fr).
  { eapply focus_heap; [exact F0|..].
    - exists a, cm2, (h1 ∪ h2). split_and!; try done. by rewrite reps_snd.
    - by apply map_disjoint_insert_r_2.
    - done.
    - by apply map_disjoint_insert_l_2. }
  eexists _, a, c1, h1, (hk0 ∪ <[a := OObj cm2]> h2). split; [reflexivity|]. split; [|done].
  eapply (focus_step _ x p K (TObj m2) _ _ hk0 fr a (OObj cm2) (λ c', OObj (map_set k c' cm2)) h1 h2); try done.
  - intros v g c'. simpl. by rewrite alter_insert_eq.
  - intros v g. simpl. rewrite lookup_insert_eq, map_find_position, Hk2, Ei. done.
  - intros T' c' h' Hr' Hd' Hl'. apply lookup_union_None in Ha as [_ Ha].
    exists a, (map_set k c' cm2), (h' ∪ h2). split_and!; try done; [by apply lookup_union_None|by rewrite !map_set_keys|].
    rewrite reps_snd, !map_set_position, Hk2, Ei. by apply Hu.
Qed.

Lemma eval_path_focus path : ∀ s x p K0 T c h hk fr U K, focus s x p K0 T c h hk fr → tref path T = Some (U, K) →
  ∃ s' p' c' h' hk', eval_path path p s = Done (s', p') ∧ focus s' x p' (λ t, K0 (K t)) U c' h' hk' fr
  ∧ delete x (vars s') = delete x (vars s).
Proof.
  induction path as [|[k|i] path IH]; intros s x p K0 T c h hk fr U K F Ht; cbn [tref] in Ht.
  - injection Ht as <- <-. exists s, p, c, h, hk. done.
  - destruct (entries T) as [m|] eqn:He; [|done]. cbn in Ht. destruct (map_find k _) as [sub|] eqn:Hf; [|done]. cbn in Ht.
    destruct (tref path sub) as [[U' K']|] eqn:Hp; [|done]. injection Ht as -> <-.
    destruct (focus_key _ _ _ _ _ _ _ _ _ _ _ _ F He Hf) as (s1 & a & c1 & h1 & hk1 & E & F1 & Hv).
    destruct (IH _ _ _ _ _ _ _ _ _ _ _ F1 Hp) as (s2 & p2 & c2 & h2 & hk2 & E2 & F2 & Hv2).
    exists s2, p2, c2, h2, hk2. cbn [eval_path index]. rewrite E. split_and!; [exact E2|exact F2|congruence].
  - destruct T as [| | |l|]; try done. destruct (l !! i) as [sub|] eqn:Hf; [|done]. cbn in Ht.
    destruct (tref path sub) as [[U' K']|] eqn:Hp; [|done]. injection Ht as -> <-.
    destruct (focus_at _ _ _ _ _ _ _ _ _ _ _ F Hf) as (a & c1 & h1 & hk1 & E & F1).
    destruct (IH _ _ _ _ _ _ _ _ _ _ _ F1 Hp) as (s2 & p2 & c2 & h2 & hk2 & E2 & F2 & Hv2).
    exists s2, p2, c2, h2, hk2. cbn [eval_path index]. rewrite E. done.
Qed.

Lemma minus_middle (a h b : heap) : a ##ₘ h → h ##ₘ b → (a ∪ (h ∪ b)) ∖ h = a ∪ (∅ ∪ b).
Proof.
  intros H1 H2. rewrite map_empty_union. apply map_eq. intros i. apply option_eq. intros o.
  rewrite lookup_difference_Some, !lookup_union_Some_raw.
  rewrite map_disjoint_spec in H1, H2. destruct (h !! i) eqn:E; naive_solver.
Qed.

(** ** Two variables *)

Section two.
Context (x y : nat) (Hxy : x ≠ y).

(** A place in [x] and one in [y], with [hr] the rest of the heap. *)
Record two (hr : heap) (s : mstate) p Kx Tx cx (hx hkx : heap) q Ky Ty cy (hy hky : heap) : Prop := {
  t_x : focus s x p Kx Tx cx hx hkx (hky ∪ (hy ∪ hr));
  t_y : focus s y q Ky Ty cy hy hky (hkx ∪ (hx ∪ hr)) }.

Lemma two_swap_heaps (a b c d hr : heap) : a ##ₘ c ∪ (d ∪ hr) → b ##ₘ c ∪ (d ∪ hr) → c ##ₘ a ∪ (b ∪ hr) → d ##ₘ a ∪ (b ∪ hr) →
  a ∪ (b ∪ (c ∪ (d ∪ hr))) = c ∪ (d ∪ (a ∪ (b ∪ hr))).
Proof using Type.
  rewrite !map_disjoint_union_r. intros (Hac & Had & _) (Hbc & Hbd & _) (Hca & Hcb & _) (Hda & Hdb & _).
  rewrite !map_union_assoc. f_equal. rewrite <-(map_union_assoc (a ∪ b) c d), <-(map_union_assoc (c ∪ d) a b).
  apply map_union_comm. rewrite !map_disjoint_union_l, !map_disjoint_union_r. done.
Qed.

(** A focus does not depend on the rest of the memory. *)
Lemma focus_frame s s' z q K T c h hk fr fr' : focus s z q K T c h hk fr → vars s' !! z = vars s !! z →
  hp s' = hk ∪ (h ∪ fr') → hk ##ₘ fr' → h ##ₘ fr' → focus s' z q K T c h hk fr'.
Proof using Type.
  intros [F1 F2 F3 F4 F5 F6 F7 F8] Hv Hh Hd1 Hd2. split; try done.
  - destruct q as [w|l i|l k]; simpl in *; try done. by rewrite (F7 w eq_refl), Hv, <-(F7 w eq_refl).
  - intros T' c' h' Hr Hd. destruct (F8 T' c' h' Hr Hd) as (cr & Hc & Hr'). exists cr. destruct q as [w|l i|l k]; simpl in *.
    + rewrite (F7 w eq_refl) in *. rewrite lookup_insert_eq in *. done.
    + by rewrite Hv.
    + by rewrite Hv.
Qed.

Lemma two_rest hr s p Kx Tx cx hx hkx q Ky Ty cy hy hky : two hr s p Kx Tx cx hx hkx q Ky Ty cy hy hky →
  (hkx ##ₘ hr ∧ hx ##ₘ hr) ∧ hky ##ₘ hr ∧ hy ##ₘ hr.
Proof using Type. intros [Fx Fy]. destruct Fx as [_ _ _ _ A B _ _], Fy as [_ _ _ _ C D _ _]. rewrite !map_disjoint_union_r in *. tauto. Qed.

(** Another value at the place in [x]. *)
Lemma two_replace hr s p Kx Tx cx hx hkx q Ky Ty cy hy hky T' c' h' hr' :
  two hr s p Kx Tx cx hx hkx q Ky Ty cy hy hky → rep T' c' h' → h' ##ₘ hkx → h' ##ₘ hky ∪ (hy ∪ hr') →
  hkx ##ₘ hr' → hky ##ₘ hr' → hy ##ₘ hr' →
  two hr' (slot_write (vars s) (hkx ∪ (h' ∪ (hky ∪ (hy ∪ hr')))) p c') p Kx T' c' h' (hp (slot_write (vars s) hkx p c')) q Ky Ty cy hy hky.
Proof using Hxy.
  intros [Fx Fy] Hr Hd1 Hd2 Hr1 Hr2 Hr3. pose proof (f_d2 _ _ _ _ _ _ _ _ _ Fx) as D2. pose proof (f_d1 _ _ _ _ _ _ _ _ _ Fy) as E1.
  rewrite !map_disjoint_union_r in D2. destruct D2 as (D21 & D22 & _).
  assert (D2 : hkx ##ₘ hky ∪ (hy ∪ hr')) by (by rewrite !map_disjoint_union_r).
  pose proof (focus_replace _ _ _ _ _ _ _ _ _ _ _ _ (hky ∪ (hy ∪ hr')) Fx Hr (symmetry Hd1) D2 Hd2) as Fx'. split; [exact Fx'|].
  pose proof (f_hp _ _ _ _ _ _ _ _ _ Fx') as Hh. set (hk' := hp (slot_write (vars s) hkx p c')) in *.
  assert (Dk : hk' ##ₘ hky ∪ (hy ∪ hr')) by (by apply write_disjoint).
  rewrite !map_disjoint_union_r in *. destruct Hd2 as (Hd21 & Hd22 & Hd23). destruct Dk as (Dk1 & Dk2 & Dk3).
  eapply (focus_frame s); [exact Fy|..].
  - assert (E : delete x (vars (slot_write (vars s) (hkx ∪ (h' ∪ (hky ∪ (hy ∪ hr')))) p c')) = delete x (vars s)) by (by eapply focus_vars).
    rewrite <-(lookup_delete_ne (vars s) x y) by done. rewrite <-E. by rewrite lookup_delete_ne.
  - rewrite Hh. apply two_swap_heaps; rewrite !map_disjoint_union_r; split_and!; try done.
  - rewrite !map_disjoint_union_r. split_and!; done.
  - rewrite !map_disjoint_union_r. split_and!; done.
Qed.

(** Both variables. *)
Lemma two_close hr s p Kx Tx cx hx hkx q Ky Ty cy hy hky : two hr s p Kx Tx cx hx hkx q Ky Ty cy hy hky →
  ∃ a ha b hb, vars s !! x = Some a ∧ rep (Kx Tx) a ha ∧ vars s !! y = Some b ∧ rep (Ky Ty) b hb
  ∧ hp s = ha ∪ (hb ∪ hr) ∧ ha ##ₘ hb ∪ hr ∧ hb ##ₘ hr.
Proof using Type.
  intros [Fx Fy]. destruct (focus_close _ _ _ _ _ _ _ _ _ Fx) as (a & ha & Ha & Hra & Hh & Hd).
  destruct Fy as [F1 F2 F3 F4 F5 F6 F7 F8]. destruct (F8 Ty cy hy F2 F4) as (b & Hb & Hrb). rewrite slot_write_same in Hb, Hrb by done.
  simpl in *. exists a, ha, b, (hky ∪ hy). rewrite !map_disjoint_union_r in *. split_and!; try tauto.
  { by rewrite Hh, !map_union_assoc. }
  destruct F5 as (_ & _ & ?), F6 as (_ & _ & ?). by apply map_disjoint_union_l_2.
Qed.

Lemma clear_two n hr s p Kx Tx cx hx hkx q Ky Ty cy hy hky : two hr s p Kx Tx cx hx hkx q Ky Ty cy hy hky → (depth Tx <= n)%nat →
  ∃ s' hkx', clear n p s = Done s' ∧ two hr s' p Kx (Leaf kNull VZero) null ∅ hkx' q Ky Ty cy hy hky
  ∧ delete x (vars s') = delete x (vars s).
Proof using Hxy.
  intros Ht Hn. pose proof (t_x _ _ _ _ _ _ _ _ _ _ _ _ _ _ Ht) as F. unfold clear. rewrite (focus_reads _ _ _ _ _ _ _ _ _ F).
  cbn [mbind mem_bind]. rewrite (destroy_rep Tx n cx hx (hp s)); [|apply F| |done].
  - cbn [mbind mem_bind]. rewrite (f_hp _ _ _ _ _ _ _ _ _ F), minus_middle by apply F. unfold write. cbn [vars hp].
    rewrite (slot_read_mono _ hkx _ _ _ (map_union_subseteq_l _ _) (f_read _ _ _ _ _ _ _ _ _ F)).
    eexists _, _. split; [reflexivity|]. split; [|by eapply focus_vars].
    destruct (two_rest _ _ _ _ _ _ _ _ _ _ _ _ _ _ Ht) as ((? & ?) & ? & ?).
    apply (two_replace hr s p Kx Tx cx hx hkx); try done; apply map_disjoint_empty_l.
  - rewrite (f_hp _ _ _ _ _ _ _ _ _ F). transitivity (hx ∪ (hky ∪ (hy ∪ hr))); [by apply map_union_subseteq_l|].
    apply map_union_subseteq_r. apply map_disjoint_union_r_2; apply F.
Qed.

(** A write in [x] is not seen from the place in [y]. *)
Lemma two_read_other hr s p Kx Tx cx hx hkx q Ky Ty cy hy hky c' : two hr s p Kx Tx cx hx hkx q Ky Ty cy hy hky →
  read (slot_write (vars s) (hp s) p c') q = Done cy.
Proof using Hxy.
  intros [Fx Fy]. unfold read.
  enough (slot_read (vars (slot_write (vars s) (hp s) p c')) (hp (slot_write (vars s) (hp s) p c')) q = Some cy) as -> by done. pose proof (focus_vars _ _ _ _ _ _ _ _ _ c' (hp s) Fx) as Hv.
  assert (Hy : vars (slot_write (vars s) (hp s) p c') !! y = vars s !! y).
  { rewrite <-(lookup_delete_ne _ x y), Hv by done. by rewrite lookup_delete_ne. }
  rewrite (f_hp _ _ _ _ _ _ _ _ _ Fx), (slot_write_union _ hkx _ p cx) in * by apply Fx. cbn [vars hp] in *.
  pose proof (f_read _ _ _ _ _ _ _ _ _ Fy) as Hr.
  assert (Hsub : hky ⊆ hp (slot_write (vars s) hkx p c') ∪ (hx ∪ (hky ∪ (hy ∪ hr)))).
  { etrans; [|apply map_union_subseteq_r; apply write_disjoint, map_disjoint_union_r_2; apply Fx].
    etrans; [|apply map_union_subseteq_r; apply Fx]. by apply map_union_subseteq_l. }
  eapply (slot_read_mono _ hky); [exact Hsub|]. destruct q as [w|l i|l k]; simpl in *; try done.
  pose proof (f_var _ _ _ _ _ _ _ _ _ Fy w eq_refl) as ->. by rewrite Hy.
Qed.

Lemma copy_two n hr s p Kx v hkx q Ky Ty cy hy hky :
  two hr s p Kx (Leaf kNull v) (mkCell kNull v) ∅ hkx q Ky Ty cy hy hky → solid Ty = true → (depth Ty <= n)%nat →
  ∃ s' c' hn hkx', copy n p q s = Done s' ∧ two hr s' p Kx (copied v Ty) c' hn hkx' q Ky Ty cy hy hky
  ∧ delete x (vars s') = delete x (vars s).
Proof using Hxy.
  intros Ht Hs Hn. pose proof Ht as [Fx Fy]. unfold copy. rewrite (focus_reads _ _ _ _ _ _ _ _ _ Fx), (focus_reads _ _ _ _ _ _ _ _ _ Fy).
  cbn [mbind mem_bind type_ value_]. rewrite (focus_writes _ _ _ _ _ _ _ _ _ _ Fx). cbn [mbind mem_bind].
  rewrite (two_read_other hr s p Kx _ _ _ _ q Ky Ty cy hy hky _ Ht). cbn [mbind mem_bind].
  replace (mkCell (type_ cy) (value_ cy)) with cy by (by destruct cy). set (c4 := mkCell (type_ cy) v).
  pose proof (f_hp _ _ _ _ _ _ _ _ _ Fx) as Hh. rewrite map_empty_union in Hh.
  assert (E4 : slot_write (vars s) (hp s) p c4 = mkM (vars (slot_write (vars s) hkx p c4)) (hp (slot_write (vars s) hkx p c4) ∪ (hky ∪ (hy ∪ hr)))).
  { rewrite Hh. eapply slot_write_union, Fx. }
  rewrite E4. cbn [vars hp]. set (hk4 := hp (slot_write (vars s) hkx p c4)).
  pose proof (f_d2 _ _ _ _ _ _ _ _ _ Fx) as D2. assert (D4 : hk4 ##ₘ hky ∪ (hy ∪ hr)) by (by apply write_disjoint).
  destruct (copy_rep Ty n Hn cy hy (hk4 ∪ (hky ∪ (hy ∪ hr))) v) as (hn & w & -> & Hnd & Hrw); [apply Fy| |done|].
  { etrans; [|by apply map_union_subseteq_r]. etrans; [|apply map_union_subseteq_r, map_disjoint_union_r_2; [apply Fy|]].
    - by apply map_union_subseteq_l.
    - pose proof (f_d2 _ _ _ _ _ _ _ _ _ Fy) as D. by apply map_disjoint_union_r in D as [_ [_ D]%map_disjoint_union_r]. }
  cbn [mbind mem_bind]. apply map_disjoint_union_r in Hnd as [Hn1 Hn2].
  assert (Hn3 : hn ##ₘ hkx) by (rewrite map_disjoint_dom in *; unfold hk4 in Hn1; by rewrite slot_write_dom in Hn1).
  assert (Eh : hn ∪ (hk4 ∪ (hky ∪ (hy ∪ hr))) = hk4 ∪ (hn ∪ (hky ∪ (hy ∪ hr)))).
  { rewrite (map_union_assoc hn hk4), (map_union_assoc hk4 hn). f_equal. by apply map_union_comm. }
  rewrite Eh. unfold write. cbn [vars hp].
  assert (R4 : slot_read (vars (slot_write (vars s) hkx p c4)) hk4 p = Some c4) by (eapply slot_read_write, Fx).
  rewrite (slot_read_mono _ hk4 _ _ _ (map_union_subseteq_l _ _) R4).
  rewrite (slot_write_union _ hk4 _ p c4) by done. unfold hk4 at 1 2. rewrite slot_write_write.
  rewrite <-(slot_write_union _ hkx _ p _ _ (f_read _ _ _ _ _ _ _ _ _ Fx)).
  eexists _, _, hn, _. split; [reflexivity|]. split; [|by eapply focus_vars].
  destruct (two_rest _ _ _ _ _ _ _ _ _ _ _ _ _ _ Ht) as ((? & ?) & ? & ?).
  by apply (two_replace hr s p Kx (Leaf kNull v) (mkCell kNull v) ∅ hkx).
Qed.
End two.

Lemma two_sym x y hr s p Kx Tx cx hx hkx q Ky Ty cy hy hky : two x y hr s p Kx Tx cx hx hkx q Ky Ty cy hy hky →
  two y x hr s q Ky Ty cy hy hky p Kx Tx cx hx hkx.
Proof. by intros []. Qed.

Lemma moved_rep T c h : rep T c h → rep (moved T) (mkCell (type_ c) VZero) ∅.
Proof. intros Hr. rewrite (rep_tag _ _ _ Hr). unfold moved. by destruct (plain (tag T)) eqn:E. Qed.

(** Places in different variables are different. *)
Lemma two_apart x y hr s p Kx Tx cx hx hkx q Ky Ty cy hy hky : x ≠ y → two x y hr s p Kx Tx cx hx hkx q Ky Ty cy hy hky → p ≠ q.
Proof.
  intros Hxy [Fx Fy] <-. pose proof (f_read _ _ _ _ _ _ _ _ _ Fx) as Rx. pose proof (f_read _ _ _ _ _ _ _ _ _ Fy) as Ry.
  pose proof (f_d2 _ _ _ _ _ _ _ _ _ Fx) as D. apply map_disjoint_union_r in D as [D _]. rewrite map_disjoint_spec in D.
  destruct p as [v|l i|l k]; simpl in *.
  - pose proof (f_var _ _ _ _ _ _ _ _ _ Fx v eq_refl). pose proof (f_var _ _ _ _ _ _ _ _ _ Fy v eq_refl). congruence.
  - destruct (hkx !! l) eqn:E1, (hky !! l) eqn:E2; try done. by eapply D.
  - destruct (hkx !! l) eqn:E1, (hky !! l) eqn:E2; try done. by eapply D.
Qed.

(** Writes to different variables commute. *)
Lemma slot_write_comm x y hr s p Kx Tx cx hx hkx q Ky Ty cy hy hky a b : x ≠ y → two x y hr s p Kx Tx cx hx hkx q Ky Ty cy hy hky →
  let w s p c := slot_write (vars s) (hp s) p c in w (w s p a) q b = w (w s q b) p a.
Proof.
  intros Hxy [Fx Fy] w. unfold w.
  pose proof (f_read _ _ _ _ _ _ _ _ _ Fx) as Rx. pose proof (f_read _ _ _ _ _ _ _ _ _ Fy) as Ry.
  pose proof (f_var _ _ _ _ _ _ _ _ _ Fx) as Vx. pose proof (f_var _ _ _ _ _ _ _ _ _ Fy) as Vy.
  assert (Hl : ∀ l l', is_Some (hkx !! l) → is_Some (hky !! l') → l ≠ l').
  { intros l l' [o Ho] [o' Ho'] <-. pose proof (f_d2 _ _ _ _ _ _ _ _ _ Fx) as D. apply map_disjoint_union_r in D as [D _].
    by eapply map_disjoint_spec. }
  assert (Px : match p with PVar v => v = x | PElem l _ | PField l _ => is_Some (hkx !! l) end).
  { destruct p as [v|l i|l k]; simpl in Rx; [by apply Vx|by destruct (hkx !! l)..]. }
  assert (Py : match q with PVar v => v = y | PElem l _ | PField l _ => is_Some (hky !! l) end).
  { destruct q as [v|l i|l k]; simpl in Ry; [by apply Vy|by destruct (hky !! l)..]. }
  clear -Hl Px Py Hxy. destruct p as [v|l i|l k], q as [v'|l' i'|l' k']; cbn [slot_write vars hp]; try done; f_equal;
    try (apply alter_alter_ne; symmetry; by apply Hl). subst. by apply insert_insert_ne.
Qed.

Lemma move_two x y hr s p Kx v hkx q Ky Ty cy hy hky : x ≠ y →
  two x y hr s p Kx (Leaf kNull v) (mkCell kNull v) ∅ hkx q Ky Ty cy hy hky →
  ∃ s' hkx' hky', move p q s = Done s' ∧ two x y hr s' p Kx Ty cy hy hkx' q Ky (moved Ty) (mkCell (type_ cy) VZero) ∅ hky'
  ∧ delete x (delete y (vars s')) = delete x (delete y (vars s)).
Proof.
  intros Hxy Ht. pose proof Ht as [Fx Fy]. unfold move. rewrite (focus_reads _ _ _ _ _ _ _ _ _ Fy).
  cbn [mbind mem_bind]. rewrite (focus_writes _ _ _ _ _ _ _ _ _ _ Fx). cbn [mbind mem_bind].
  pose proof (two_read_other x y Hxy hr s p Kx _ _ _ _ q Ky Ty cy hy hky cy Ht) as Hrd. unfold read in Hrd. unfold write.
  destruct (slot_read _ _ q) eqn:Eq in Hrd; [|done]. rewrite Eq.
  rewrite (slot_write_comm x y hr s p Kx _ _ _ _ q Ky Ty cy hy hky cy (mkCell (type_ cy) VZero) Hxy Ht).
  destruct (two_rest _ _ _ _ _ _ _ _ _ _ _ _ _ _ _ _ Ht) as ((R1 & _) & R2 & R3).
  pose proof (f_d1 _ _ _ _ _ _ _ _ _ Fy) as D1. pose proof (f_d2 _ _ _ _ _ _ _ _ _ Fx) as D2. rewrite !map_disjoint_union_r in D2.
  destruct D2 as (D21 & D22 & _). set (cm := mkCell (type_ cy) VZero).
  (* [y] gives its value up, which the rest then holds *)
  assert (Eh : hp s = hky ∪ (∅ ∪ (hkx ∪ (∅ ∪ (hy ∪ hr))))).
  { rewrite (f_hp _ _ _ _ _ _ _ _ _ Fy), !map_empty_union, !(map_union_assoc hy), !(map_union_assoc hkx). do 2 f_equal. by apply map_union_comm. }
  assert (T1 : two y x (hy ∪ hr) (slot_write (vars s) (hp s) q cm) q Ky (moved Ty) cm ∅ (hp (slot_write (vars s) hky q cm))
                 p Kx (Leaf kNull v) (mkCell kNull v) ∅ hkx).
  { rewrite Eh. apply (two_replace y x (not_eq_sym Hxy) hr s q Ky Ty cy hy hky); try apply map_disjoint_empty_l;
      [by apply two_sym|eapply moved_rep, Fy|by apply map_disjoint_union_r_2..]. }
  (* and [x] takes it *)
  apply two_sym in T1. set (s1 := slot_write (vars s) (hp s) q cm) in *. set (hky1 := hp (slot_write (vars s) hky q cm)) in *.
  assert (D3 : hky1 ##ₘ hy ∧ hky1 ##ₘ hr) by (by split; apply write_disjoint). destruct D3 as [D31 D32].
  assert (Eh1 : hp s1 = hkx ∪ (hy ∪ (hky1 ∪ (∅ ∪ hr)))).
  { rewrite (f_hp _ _ _ _ _ _ _ _ _ (t_x _ _ _ _ _ _ _ _ _ _ _ _ _ _ _ _ T1)), !map_empty_union, !(map_union_assoc hky1), !(map_union_assoc hy).
    do 2 f_equal. by apply map_union_comm. }
  eexists _, _, _. split; [reflexivity|]. split.
  - rewrite Eh1. apply (two_replace x y Hxy (hy ∪ hr) s1 p Kx (Leaf kNull v) (mkCell kNull v) ∅ hkx); try done.
    + apply Fy.
    + rewrite map_empty_union. by apply map_disjoint_union_r_2.
    + apply map_disjoint_empty_l.
  - pose proof (focus_vars _ _ _ _ _ _ _ _ _ cy (hp s1) (t_x _ _ _ _ _ _ _ _ _ _ _ _ _ _ _ _ T1)) as V1.
    pose proof (focus_vars _ _ _ _ _ _ _ _ _ cm (hp s) Fy) as V2. fold s1 in V2.
    rewrite (delete_delete _ x y), V1, (delete_delete _ y x), V2. done.
Qed.

(** ** Programs *)

(** Every variable denotes a tree, and together they own the heap exactly. *)
Inductive repenv : gmap nat cell → gmap nat tree → heap → Prop :=
| env_none : repenv ∅ ∅ ∅
| env_var v e h x c T hx : repenv v e h → v !! x = None → e !! x = None → rep T c hx → hx ##ₘ h →
    repenv (<[x := c]> v) (<[x := T]> e) (hx ∪ h).

Lemma repenv_new v e h x : repenv v e h → e !! x = None → v !! x = None.
Proof.
  induction 1 as [|v e h y c T hy _ IH Hv He HT Hd]; [done|]. rewrite !lookup_insert_None. intros [? ?]. auto.
Qed.

Lemma repenv_take v e h x T : repenv v e h → e !! x = Some T →
  ∃ c hx h', v !! x = Some c ∧ rep T c hx ∧ hx ##ₘ h' ∧ h = hx ∪ h' ∧ repenv (delete x v) (delete x e) h'.
Proof.
  induction 1 as [|v e h y c U hy Hr IH Hv He HU Hd]; [done|]. destruct (decide (y = x)) as [->|Hn].
  - rewrite lookup_insert_eq. intros [= ->]. exists c, hy, h. rewrite lookup_insert_eq, !delete_insert_id by done. done.
  - rewrite lookup_insert_ne by done. intros Hx. destruct (IH Hx) as (c1 & hx & h' & Hv1 & HT & Hd1 & -> & Hr1).
    apply map_disjoint_union_r in Hd as [Hd2 Hd3]. exists c1, hx, (hy ∪ h'). rewrite lookup_insert_ne by done. split_and!; try done.
    + by apply map_disjoint_union_r_2.
    + rewrite !map_union_assoc. f_equal. by apply map_union_comm.
    + rewrite !delete_insert_ne by done. constructor; try done; rewrite lookup_delete_ne by done; done.
Qed.

Lemma repenv_put v e h' x c T hx : repenv (delete x v) (delete x e) h' → v !! x = Some c → rep T c hx → hx ##ₘ h' →
  repenv v (<[x := T]> e) (hx ∪ h').
Proof.
  intros Hr Hv HT Hd. rewrite <-(insert_delete_id v x c Hv), <-(insert_delete_eq e x T).
  by constructor; [|apply lookup_delete_eq..| |].
Qed.

(** The variables after a change of two of them. *)
Lemma repenv_put2 v e hr x y a ha A b hb B : x ≠ y → repenv (delete x (delete y v)) (delete x (delete y e)) hr →
  v !! x = Some a → rep A a ha → v !! y = Some b → rep B b hb → ha ##ₘ hb ∪ hr → hb ##ₘ hr →
  repenv v (<[x := A]> (<[y := B]> e)) (ha ∪ (hb ∪ hr)).
Proof.
  intros Hxy Hr Hx HA Hy HB Hd1 Hd2. eapply repenv_put; [|done..]. rewrite delete_insert_ne by done.
  eapply repenv_put; [|by rewrite lookup_delete_ne|done|done]. by rewrite !(delete_delete _ y x).
Qed.

(** *** The same statements on trees *)

Definition texec (n : nat) (a : stmt) (e : gmap nat tree) : option (gmap nat tree) :=
  match a with
  | SNew x c => guard (e !! x = None ∧ plain (type_ c) = true);; Some (<[x := Leaf (type_ c) (value_ c)]> e)
  | SNewString x t => guard (e !! x = None);; Some (<[x := TStr t]> e)
  | SCopyNew x y q =>
      guard (e !! x = None);; T ← e !! y; '(U, K) ← tref q T; guard (solid U = true ∧ (depth U <= n)%nat);;
      Some (<[x := copied VJunk U]> (<[y := K U]> e))
  | SMoveNew x y q => guard (e !! x = None);; T ← e !! y; '(U, K) ← tref q T; Some (<[x := U]> (<[y := K (moved U)]> e))
  | SCopy x p y q =>
      guard (x ≠ y);; Ty ← e !! y; '(U, Ky) ← tref q Ty; Tx ← e !! x; '(V, Kx) ← tref p Tx;
      guard (solid U = true ∧ (depth U <= n)%nat ∧ (depth V <= n)%nat);; Some (<[x := Kx (copied VZero U)]> (<[y := Ky U]> e))
  | SMove x p y q =>
      guard (x ≠ y);; Ty ← e !! y; '(U, Ky) ← tref q Ty; Tx ← e !! x; '(V, Kx) ← tref p Tx;
      guard (depth V <= n)%nat;; Some (<[x := Kx U]> (<[y := Ky (moved U)]> e))
  | SDelete x => T ← e !! x; guard (depth T <= n)%nat;; Some (delete x e)
  end.
Fixpoint texecs (n : nat) (l : list stmt) (e : gmap nat tree) : option (gmap nat tree) :=
  match l with [] => Some e | a :: l => e ← texec n a e; texecs n l e end.

(** *** Simulation *)

(** From a place in [y] and the variable [x] to a place in each. *)
Lemma open_two x y hr s q Ky U cy hy hky path Tx cX hX V Kx : x ≠ y →
  focus s y q Ky U cy hy hky (hX ∪ hr) → vars s !! x = Some cX → rep Tx cX hX → hX ##ₘ hr → tref path Tx = Some (V, Kx) →
  ∃ s' p cx hx hkx, eval_path path (PVar x) s = Done (s', p) ∧ two x y hr s' p Kx V cx hx hkx q Ky U cy hy hky
  ∧ delete x (vars s') = delete x (vars s).
Proof.
  intros Hxy Fy Hx HX Hd Ht. pose proof (f_d1 _ _ _ _ _ _ _ _ _ Fy) as D1. pose proof (f_d2 _ _ _ _ _ _ _ _ _ Fy) as D2.
  pose proof (f_d3 _ _ _ _ _ _ _ _ _ Fy) as D3. apply map_disjoint_union_r in D2 as [D21 D22], D3 as [D31 D32].
  assert (F0 : focus s x (PVar x) (λ t, t) Tx cX hX ∅ (hky ∪ (hy ∪ hr))).
  { apply focus_var; try done.
    - rewrite (f_hp _ _ _ _ _ _ _ _ _ Fy), !map_union_assoc, <-(map_union_assoc hX hky hy).
      apply (f_equal (λ m, m ∪ hr)), map_union_comm. by apply map_disjoint_union_l_2.
    - rewrite !map_disjoint_union_r. done. }
  destruct (eval_path_focus path _ _ _ _ _ _ _ _ _ _ _ F0 Ht) as (s' & p & cx & hx & hkx & E & Fx & Hv).
  exists s', p, cx, hx, hkx. split; [done|]. split; [|done]. split; [exact Fx|].
  pose proof (f_d2 _ _ _ _ _ _ _ _ _ Fx) as E2. pose proof (f_d3 _ _ _ _ _ _ _ _ _ Fx) as E3.
  eapply (focus_frame s); [exact Fy|..].
  - rewrite <-(lookup_delete_ne (vars s) x y), <-Hv by done. by rewrite lookup_delete_ne.
  - rewrite (f_hp _ _ _ _ _ _ _ _ _ Fx). rewrite !map_disjoint_union_r in *.
    apply two_swap_heaps; rewrite !map_disjoint_union_r; split_and!; tauto || (symmetry; tauto).
  - rewrite !map_disjoint_union_r in *. split_and!; [symmetry; tauto..|tauto].
  - rewrite !map_disjoint_union_r in *. split_and!; [symmetry; tauto..|tauto].
Qed.

(** A state in which every variable denotes its tree. *)
Definition denotes (s : mstate) (e : gmap nat tree) : Prop := repenv (vars s) e (hp s).

(** The places an assignment is between. *)
Lemma open_assign x y p q s e Tx Ty U Ky V Kx : x ≠ y → denotes s e → e !! y = Some Ty → tref q Ty = Some (U, Ky) →
  e !! x = Some Tx → tref p Tx = Some (V, Kx) →
  ∃ s1 q' s2 p' cx hx hkx cy hy hky hr, eval_path q (PVar y) s = Done (s1, q') ∧ eval_path p (PVar x) s1 = Done (s2, p')
  ∧ two x y hr s2 p' Kx V cx hx hkx q' Ky U cy hy hky
  ∧ repenv (delete x (delete y (vars s2))) (delete x (delete y e)) hr.
Proof.
  intros Hxy Hd Hy Hq Hx Hp. destruct (repenv_take _ _ _ _ _ Hd Hy) as (cY & hY & h1 & Hvy & HY & Hd1 & Hh & Hr1).
  destruct (repenv_take _ _ _ x Tx Hr1) as (cX & hX & hr & Hvx & HX & Hd2 & -> & Hr2); [by rewrite lookup_delete_ne|].
  rewrite lookup_delete_ne in Hvx by done.
  pose proof (focus_var s y Ty cY hY _ Hvy HY Hh Hd1) as F0.
  destruct (eval_path_focus q _ _ _ _ _ _ _ _ _ _ _ F0 Hq) as (s1 & q' & cy & hy & hky & E1 & Fy & V1).
  assert (Hx1 : vars s1 !! x = Some cX) by (rewrite <-(lookup_delete_ne _ y x), V1, lookup_delete_ne; done).
  destruct (open_two x y hr s1 q' Ky U cy hy hky p Tx cX hX V Kx Hxy Fy Hx1 HX Hd2 Hp) as (s2 & p' & cx & hx & hkx & E2 & Ht & V2).
  exists s1, q', s2, p', cx, hx, hkx, cy, hy, hky, hr. split_and!; try done.
  by rewrite (delete_delete (vars s2)), V2, (delete_delete (vars s1)), V1.
Qed.

(** The end of an assignment. *)
Lemma close_assign x y hr s p Kx V cx hx hkx q Ky U cy hy hky e : x ≠ y → two x y hr s p Kx V cx hx hkx q Ky U cy hy hky →
  repenv (delete x (delete y (vars s))) (delete x (delete y e)) hr → denotes s (<[x := Kx V]> (<[y := Ky U]> e)).
Proof.
  intros Hxy Ht Hr. destruct (two_close _ _ _ _ _ _ _ _ _ _ _ _ _ _ _ _ Ht) as (a & ha & b & hb & Ha & HA & Hb & HB & Hh & Hd1 & Hd2).
  unfold denotes. rewrite Hh. by eapply repenv_put2.
Qed.

(** The places a new variable is made from. *)
Lemma open_new x y q s e Ty U Ky : denotes s e → e !! x = None → e !! y = Some Ty → tref q Ty = Some (U, Ky) →
  ∃ s1 q' cy hy hky hr, x ≠ y ∧ eval_path q (PVar y) s = Done (s1, q')
  ∧ two x y hr (construct x (mkCell kNull VJunk) s1) (PVar x) (λ t, t) (Leaf kNull VJunk) (mkCell kNull VJunk) ∅ ∅ q' Ky U cy hy hky
  ∧ repenv (delete x (delete y (vars (construct x (mkCell kNull VJunk) s1)))) (delete x (delete y e)) hr.
Proof.
  intros Hd Hx Hy Hq. assert (Hxy : x ≠ y) by congruence. pose proof (repenv_new _ _ _ _ Hd Hx) as Hvx.
  destruct (repenv_take _ _ _ _ _ Hd Hy) as (cY & hY & hr & Hvy & HY & Hd1 & Hh & Hr1).
  destruct (eval_path_focus q _ _ _ _ _ _ _ _ _ _ _ (focus_var s y Ty cY hY _ Hvy HY Hh Hd1) Hq) as (s1 & q' & cy & hy & hky & E1 & Fy & V1).
  exists s1, q', cy, hy, hky, hr. split_and!; try done.
  - split.
    + apply focus_var; [simpl; by rewrite lookup_insert_eq|done| |apply map_disjoint_empty_l].
      simpl. rewrite map_empty_union. apply Fy.
    + eapply (focus_frame s1); [exact Fy|simpl; by rewrite lookup_insert_ne|..].
      * rewrite !map_empty_union. apply Fy.
      * rewrite !map_empty_union. apply Fy.
      * rewrite !map_empty_union. apply Fy.
  - simpl. rewrite delete_insert_ne by done. rewrite delete_insert_eq, V1. rewrite !(delete_id _ x); [done|..].
    + rewrite lookup_delete_ne; done.
    + by rewrite lookup_delete_ne.
Qed.

(** *** Each statement does to the variables what it does to the trees *)

Lemma exec_new n x c s e e' : denotes s e → texec n (SNew x c) e = Some e' → ∃ s', exec n (SNew x c) s = Done s' ∧ denotes s' e'.
Proof.
  intros Hd. simpl. intros He.
  case_guard as G; [|done]. destruct G as [Gx Gp]. injection He as <-. eexists. split; [done|]. unfold denotes. simpl.
  rewrite <-(map_empty_union (hp s)). constructor; try done; [by eapply repenv_new| |apply map_disjoint_empty_l]. by destruct c.
Qed.
Lemma exec_new_string n x t s e e' : denotes s e → texec n (SNewString x t) e = Some e' → ∃ s', exec n (SNewString x t) s = Done s' ∧ denotes s' e'.
Proof.
  intros Hd. simpl. intros He.
  case_guard as Gx; [|done]. injection He as <-. eexists. split; [done|]. unfold denotes, construct_string.
  destruct (alloc_new (hp s) (OStr t)) as [E1 E2]. destruct (alloc (hp s) (OStr t)) as [h' l]. simpl in *. subst h'.
  constructor; try done; [by eapply repenv_new|by exists l|by apply map_disjoint_singleton_l_2].
Qed.
Lemma exec_copy_new n x y q s e e' : denotes s e → texec n (SCopyNew x y q) e = Some e' → ∃ s', exec n (SCopyNew x y q) s = Done s' ∧ denotes s' e'.
Proof.
  intros Hd. simpl. intros He.
  case_guard as Gx; [|done]. simpl in He. destruct (e !! y) as [Ty|] eqn:Hy; [|done]. simpl in He.
  destruct (tref q Ty) as [[U K]|] eqn:Hq; [|done]. simpl in He. case_guard as G; [|done]. destruct G as [G1 G2]. injection He as <-.
  destruct (open_new x y q s e Ty U K Hd Gx Hy Hq) as (s1 & q' & cy & hy & hky & hr & Hxy & E & Ht & Hr).
  rewrite E. cbn [mbind mem_bind]. unfold copy_construct.
  destruct (copy_two x y Hxy n _ _ _ _ _ _ _ _ _ _ _ _ Ht G1 G2) as (s2 & c2 & hn & hk2 & E2 & Ht2 & V2).
  exists s2. split; [done|]. apply (close_assign _ _ _ _ _ _ _ _ _ _ _ _ _ _ _ _ e Hxy Ht2).
  by rewrite (delete_delete (vars s2)), V2, (delete_delete (vars (construct _ _ _))).
Qed.
Lemma exec_move_new n x y q s e e' : denotes s e → texec n (SMoveNew x y q) e = Some e' → ∃ s', exec n (SMoveNew x y q) s = Done s' ∧ denotes s' e'.
Proof.
  intros Hd. simpl. intros He.
  case_guard as Gx; [|done]. simpl in He. destruct (e !! y) as [Ty|] eqn:Hy; [|done]. simpl in He.
  destruct (tref q Ty) as [[U K]|] eqn:Hq; [|done]. injection He as <-.
  destruct (open_new x y q s e Ty U K Hd Gx Hy Hq) as (s1 & q' & cy & hy & hky & hr & Hxy & E & Ht & Hr).
  rewrite E. cbn [mbind mem_bind]. unfold move_construct.
  destruct (move_two x y _ _ _ _ _ _ _ _ _ _ _ _ Hxy Ht) as (s2 & hk2 & hky2 & E2 & Ht2 & V2).
  exists s2. split; [done|]. apply (close_assign _ _ _ _ _ _ _ _ _ _ _ _ _ _ _ _ e Hxy Ht2). by rewrite V2.
Qed.
Lemma exec_copy n x p y q s e e' : denotes s e → texec n (SCopy x p y q) e = Some e' → ∃ s', exec n (SCopy x p y q) s = Done s' ∧ denotes s' e'.
Proof.
  intros Hd. simpl. intros He.
  case_guard as Hxy; [|done]. simpl in He. destruct (e !! y) as [Ty|] eqn:Hy; [|done]. simpl in He.
  destruct (tref q Ty) as [[U Ky]|] eqn:Hq; [|done]. simpl in He. destruct (e !! x) as [Tx|] eqn:Hx; [|done]. simpl in He.
  destruct (tref p Tx) as [[V Kx]|] eqn:Hp; [|done]. simpl in He. case_guard as G; [|done]. destruct G as (G1 & G2 & G3). injection He as <-.
  destruct (open_assign x y p q s e Tx Ty U Ky V Kx Hxy Hd Hy Hq Hx Hp) as (s1 & q' & s2 & p' & cx & hx & hkx & cy & hy & hky & hr & E1 & E2 & Ht & Hr).
  rewrite E1. cbn [mbind mem_bind]. rewrite E2. cbn [mbind mem_bind]. unfold copy_assign. rewrite decide_False by (by eapply two_apart).
  destruct (clear_two x y Hxy n _ _ _ _ _ _ _ _ _ _ _ _ _ _ Ht G3) as (s3 & hk3 & E3 & Ht3 & V3). rewrite E3. cbn [mbind mem_bind].
  destruct (copy_two x y Hxy n _ _ _ _ _ _ _ _ _ _ _ _ Ht3 G1 G2) as (s4 & c4 & hn & hk4 & E4 & Ht4 & V4).
  exists s4. split; [done|]. apply (close_assign _ _ _ _ _ _ _ _ _ _ _ _ _ _ _ _ e Hxy Ht4).
  by rewrite (delete_delete (vars s4)), V4, V3, (delete_delete (vars s2)).
Qed.
Lemma exec_move n x p y q s e e' : denotes s e → texec n (SMove x p y q) e = Some e' → ∃ s', exec n (SMove x p y q) s = Done s' ∧ denotes s' e'.
Proof.
  intros Hd. simpl. intros He.
  case_guard as Hxy; [|done]. simpl in He. destruct (e !! y) as [Ty|] eqn:Hy; [|done]. simpl in He.
  destruct (tref q Ty) as [[U Ky]|] eqn:Hq; [|done]. simpl in He. destruct (e !! x) as [Tx|] eqn:Hx; [|done]. simpl in He.
  destruct (tref p Tx) as [[V Kx]|] eqn:Hp; [|done]. simpl in He. case_guard as G; [|done]. injection He as <-.
  destruct (open_assign x y p q s e Tx Ty U Ky V Kx Hxy Hd Hy Hq Hx Hp) as (s1 & q' & s2 & p' & cx & hx & hkx & cy & hy & hky & hr & E1 & E2 & Ht & Hr).
  rewrite E1. cbn [mbind mem_bind]. rewrite E2. cbn [mbind mem_bind]. unfold move_assign. rewrite decide_False by (by eapply two_apart).
  destruct (clear_two x y Hxy n _ _ _ _ _ _ _ _ _ _ _ _ _ _ Ht G) as (s3 & hk3 & E3 & Ht3 & V3). rewrite E3. cbn [mbind mem_bind].
  destruct (move_two x y _ _ _ _ _ _ _ _ _ _ _ _ Hxy Ht3) as (s4 & hk4 & hky4 & E4 & Ht4 & V4).
  exists s4. split; [done|]. apply (close_assign _ _ _ _ _ _ _ _ _ _ _ _ _ _ _ _ e Hxy Ht4).
  by rewrite V4, (delete_delete (vars s3)), V3, (delete_delete (vars s2)).
Qed.
Lemma exec_delete n x s e e' : denotes s e → texec n (SDelete x) e = Some e' → ∃ s', exec n (SDelete x) s = Done s' ∧ denotes s' e'.
Proof.
  intros Hd. simpl. intros He.
  destruct (e !! x) as [T|] eqn:Hx; [|done]. simpl in He. case_guard as G; [|done]. injection He as <-.
  destruct (repenv_take _ _ _ _ _ Hd Hx) as (c & hx & h' & Hv & HT & Hdj & Hh & Hr).
  unfold destruct_var, read. simpl. rewrite Hv. cbn [mbind mem_bind].
  rewrite (destroy_rep T n c hx (hp s) HT); [|rewrite Hh; by apply map_union_subseteq_l|done]. cbn [mbind mem_bind].
  eexists. split; [done|]. unfold denotes. simpl. rewrite Hh.
  replace ((hx ∪ h') ∖ hx) with h'; [done|]. rewrite <-(map_empty_union h') at 1. rewrite <-(map_empty_union (hx ∪ h')).
  rewrite minus_middle by (done || apply map_disjoint_empty_l). by rewrite !map_empty_union.
Qed.

Lemma exec_sound n a s e e' : denotes s e → texec n a e = Some e' → ∃ s', exec n a s = Done s' ∧ denotes s' e'.
Proof. destruct a; eauto using exec_new, exec_new_string, exec_copy_new, exec_move_new, exec_copy, exec_move, exec_delete. Qed.
Lemma execs_sound n l s e e' : denotes s e → texecs n l e = Some e' → ∃ s', execs n l s = Done s' ∧ denotes s' e'.
Proof.
  revert s e. induction l as [|a l IH]; intros s e Hd He; simpl in He.
  - injection He as <-. by exists s.
  - destruct (texec n a e) as [e1|] eqn:E; [|done]. destruct (exec_sound n a s e e1 Hd E) as (s1 & E1 & Hd1).
    destruct (IH s1 e1 Hd1 He) as (s2 & E2 & Hd2). exists s2. simpl. rewrite E1. done.
Qed.

(** ** The values of [Zjson] *)

(** The value a tree stands for, [junk] being what an unwritten boolean reads as;
    a value that was moved from stands for none. *)
Definition bool_of (junk : bool) (v : val) : bool := match v with VBool b => b | VJunk => junk | _ => false end.
Definition num_of (v : val) : option double := match v with VNum d => Some d | VZero => Some (double_of_Z 0) | _ => None end.
Fixpoint json_of (junk : bool) (T : tree) : option Json :=
  match T with
  | Leaf kNull _ => Some JNull
  | Leaf kBoolean v => Some (JBoolean (bool_of junk v))
  | Leaf kNumber v => JNumber <$> num_of v
  | Leaf _ _ | Shell _ => None
  | TStr s => Some (JString s)
  | TArr l => JArray <$> mapM (json_of junk) l
  | TObj m => JObject <$> mapM (λ kv, pair kv.1 <$> json_of junk kv.2) m
  end.

Lemma mapM_children {A B} (f g : A → option B) (r : A → A) (h : B → B) l ys :
  Forall (λ a, ∀ b, f a = Some b → g (r a) = Some (h b)) l → mapM f l = Some ys → mapM g (map r l) = Some (map h ys).
Proof.
  intros Hl. revert ys. induction Hl as [|a l Ha _ IH]; intros ys; simpl; [by intros [= <-]|].
  destruct (f a) as [b|] eqn:E; [|done]. simpl. destruct (mapM f l) as [bs|]; [|done]. intros [= <-].
  rewrite (Ha b eq_refl). simpl. by rewrite (IH bs eq_refl).
Qed.

(** A copy stands for what [Zjson.copy] says. *)
Lemma copied_json junk T : ∀ old j, json_of junk T = Some j →
  json_of junk (copied old T) = Some (Zjson.copy junk (bool_of junk old) j).
Proof.
  induction T as [t v|t|s|l IH|m IH] using tree_ind'; intros old j Hj; simpl in *.
  - destruct t; simpl in *; try done; try (by injection Hj as <-). destruct (num_of v) eqn:E; [|done]. simpl in *. by injection Hj as <-.
  - done.
  - by injection Hj as <-.
  - destruct (mapM (json_of junk) l) as [ys|] eqn:E; [|done]. injection Hj as <-.
    rewrite (mapM_children (json_of junk) (json_of junk) (copied VJunk) (Zjson.copy junk junk) l ys); [done| |done].
    eapply Forall_impl; [exact IH|]. intros T HT b. apply (HT VJunk).
  - destruct (mapM _ m) as [ys|] eqn:E; [|done]. injection Hj as <-.
    rewrite (mapM_children (λ kv, pair kv.1 <$> json_of junk kv.2) (λ kv, pair kv.1 <$> json_of junk kv.2) (λ kv, (kv.1, copied VJunk kv.2)) (λ kv, (kv.1, Zjson.copy junk junk kv.2)) m ys); [done| |exact E].
    eapply Forall_impl; [exact IH|]. intros [k T] HT b. simpl in *. destruct (json_of junk T) as [j|] eqn:Ej; [|done].
    intros [= <-]. by rewrite (HT VJunk j eq_refl).
Qed.

(** ** Properties *)


(** [x["k"] = y; y = std::move(x["k"]);] and the end of both. *)
Definition sample_program : list stmt :=
  [SNew 0 null; SNewString 1 (str "v"); SCopy 0 [Key (str "k")] 1 []; SMove 1 [] 0 [Key (str "k")]].

(** Assigning a value a part of itself, [x = x["k"]] or [x = std::move(x["k"])],
    uses freed memory, whatever the object and the part: both operators clear the
    left operand, and with it the right one, before they read it. *)
Theorem assign_part_use_after_free n x k m s e : denotes s e → e !! x = Some (TObj m) →
  (depth (TObj (map_emplace k (Leaf kNull VZero) m)) <= n)%nat →
  exec n (SCopy x [] x [Key k]) s = Fault Freed ∧ exec n (SMove x [] x [Key k]) s = Fault Freed.
Proof.
  intros Hd Hx Hn. destruct (repenv_take _ _ _ _ _ Hd Hx) as (c & hx & fr & Hv & HT & Hdj & Hh & _).
  destruct (find_emplace k (Leaf kNull VZero) m) as [U Hf].
  destruct (focus_key s x _ _ _ _ _ _ _ m k U (focus_var s x _ c hx fr Hv HT Hh Hdj) eq_refl Hf) as (s1 & a & c1 & h1 & hk & E & F & _).
  destruct (focus_close _ _ _ _ _ _ _ _ _ F) as (cr & hr & Hcr & Hr & Hh1 & Hd1). rewrite (map_set_same k U _ Hf) in Hr.
  assert (Ec : clear n (PVar x) s1 = Done (mkM (<[x := null]> (vars s1)) fr)).
  { unfold clear, read. simpl. rewrite Hcr. cbn [mbind mem_bind].
    rewrite (destroy_rep _ n cr hr (hp s1) Hr); [|rewrite Hh1; by apply map_union_subseteq_l|done]. cbn [mbind mem_bind].
    unfold write. simpl. rewrite Hcr. do 2 f_equal. rewrite Hh1, <-(map_empty_union (hr ∪ fr)), minus_middle by (done || apply map_disjoint_empty_l).
    by rewrite !map_empty_union. }
  assert (Ef : read (mkM (<[x := null]> (vars s1)) fr) (PField a k) = Fault Freed).
  { pose proof (f_read _ _ _ _ _ _ _ _ _ F) as Rd. simpl in Rd. unfold read. simpl. destruct (hk !! a) eqn:Ea; [|done].
    by rewrite (map_disjoint_Some_l _ _ _ _ (f_d2 _ _ _ _ _ _ _ _ _ F) Ea). }
  unfold exec. cbn [eval_path index]. rewrite E. cbn [mbind mem_bind]. unfold copy_assign, move_assign, copy, move.
  rewrite decide_False by done. rewrite Ec. cbn [mbind mem_bind]. by rewrite Ef.
Qed.

Lemma assign_part_use_after_free_witness :
  ∃ s, execs 9 [SNew 0 null; SNewString 1 (str "v"); SCopy 0 [Key (str "k")] 1 []] (mkM ∅ ∅) = Done s
  ∧ exec 9 (SCopy 0 [] 0 [Key (str "k")]) s = Fault Freed.
Proof.
  destruct (execs_sound 9 [SNew 0 null; SNewString 1 (str "v"); SCopy 0 [Key (str "k")] 1 []] (mkM ∅ ∅) ∅
    {[0%nat := TObj [(str "k", TStr (str "v"))]; 1%nat := TStr (str "v")]} env_none) as (s & E & Hd); [vm_compute; reflexivity|].
  exists s. split; [exact E|].
  exact (proj1 (assign_part_use_after_free 9 0 (str "k") [(str "k", TStr (str "v"))] s _ Hd ltac:(vm_compute; reflexivity) ltac:(vm_compute; lia))).
Defined.

(** Assigning to a part of a value that value: the copy meets the part, whose tag
    is already that of an object, and follows its null pointer; the move makes the
    part own itself, and the end of the variables frees nothing of it. *)
Theorem assign_whole_to_part :
  let p := [SNew 0 null; SNewString 1 (str "v"); SMove 0 [Key (str "k")] 1 []] in
  execs 9 (p ++ [SCopy 0 [Key (str "k")] 0 []]) (mkM ∅ ∅) = Fault NullPointer
  ∧ ∃ s, execs 9 (p ++ [SMove 0 [Key (str "k")] 0 []; SDelete 0; SDelete 1]) (mkM ∅ ∅) = Done s
    ∧ vars s = ∅ ∧ hp s ≠ ∅.
Proof.
  split; [vm_compute; reflexivity|]. eexists. split; [vm_compute; reflexivity|]. split; [reflexivity|].
  intros H. apply (f_equal (λ h : heap, size h)) in H. vm_compute in H. discriminate H.
Qed.

(** A value that was moved from keeps its tag: it says it is a string, and asking
    for its text, or copying it, follows a null pointer. *)
Theorem moved_from_has_a_tag n x T s e : denotes s e → e !! x = Some T → plain (tag T) = false →
  ∃ s', exec n (SMoveNew (fresh (dom e)) x []) s = Done s' ∧ ∃ c, vars s' !! x = Some c ∧ type_ c = tag T
  ∧ deref (hp s') (value_ c) = Fault NullPointer.
Proof.
  intros Hd Hx Hp. assert (Hf : e !! fresh (dom e) = None) by (apply not_elem_of_dom, is_fresh).
  destruct (exec_move_new n (fresh (dom e)) x [] s e (<[fresh (dom e) := T]> (<[x := moved T]> e)) Hd) as (s' & E & Hd').
  { simpl. rewrite Hf. simpl. rewrite Hx. done. }
  exists s'. split; [done|]. assert (Hne : fresh (dom e) ≠ x) by congruence.
  destruct (repenv_take _ _ _ x (moved T) Hd') as (c & hx & h' & Hv & Hr & _); [rewrite lookup_insert_ne by done; apply lookup_insert_eq|].
  exists c. split; [done|]. unfold moved in Hr. rewrite Hp in Hr. by destruct Hr as (-> & _ & _).
Qed.
