(* ===== verification/TcpConnection.v ===== *)
(** * TCP connection (fishnet/net/tcp_connection.h, tcp_connection.cc)

    The connection's state machine with its two buffers, its channel and its
    socket, and the functors it leaves in the loop's queue. *)

From S2P Require Import Prelude Endian Buffer Channel.
Local Open Scope Z_scope.

(** ** State *)

Inductive StateE : Set := kDisconnected | kConnecting | kConnected | kDisconnecting.

#[global] Instance StateE_eq_dec : EqDecision StateE.
Proof. solve_decision. Defined.

(** What the connection queues in its loop: member functions to run there, and
    the two callbacks it defers. *)
Inductive functor : Type :=
| FSend (message : bytes)
| FShutdown
| FForceClose
| FStartRead
| FStopRead
| FWriteComplete
| FHighWaterMark (size : Z).

(** The calls of the user's callbacks: [connectionCallback_] with the connection
    up or down, [closeCallback_], and the others. *)
Inductive event : Type :=
| EvUp | EvDown | EvClose | EvMessage | EvWriteComplete | EvHighWaterMark (size : Z) | EvError.

(** [pending] is the connection's part of the loop's queue and [delayed] the
    number of its timers; [sent] is what the kernel has taken, [shut] whether
    the write side has been shut down, [accepted] the bytes the connection has
    taken on to send, [received] what it has read and [consumed] what its user
    has retrieved. *)
Record Conn := mkConn {
  state_ : StateE;
  reading_ : bool;
  channel_ : Channel;
  inputBuffer_ : Buffer;
  outputBuffer_ : Buffer;
  highWaterMark_ : Z;
  hasWriteComplete : bool;
  hasHighWaterMark : bool;
  pending : list functor;
  delayed : nat;
  shut : bool;
  sent : bytes;
  accepted : bytes;
  received : bytes;
  consumed : bytes;
  log : list event }.

Definition set_state (st : StateE) (s : Conn) : Conn :=
  mkConn st (reading_ s) (channel_ s) (inputBuffer_ s) (outputBuffer_ s) (highWaterMark_ s)
    (hasWriteComplete s) (hasHighWaterMark s) (pending s) (delayed s) (shut s) (sent s) (accepted s)
    (received s) (consumed s) (log s).
Definition set_reading (b : bool) (s : Conn) : Conn :=
  mkConn (state_ s) b (channel_ s) (inputBuffer_ s) (outputBuffer_ s) (highWaterMark_ s)
    (hasWriteComplete s) (hasHighWaterMark s) (pending s) (delayed s) (shut s) (sent s) (accepted s)
    (received s) (consumed s) (log s).
Definition set_channel (c : Channel) (s : Conn) : Conn :=
  mkConn (state_ s) (reading_ s) c (inputBuffer_ s) (outputBuffer_ s) (highWaterMark_ s)
    (hasWriteComplete s) (hasHighWaterMark s) (pending s) (delayed s) (shut s) (sent s) (accepted s)
    (received s) (consumed s) (log s).
Definition set_input (b : Buffer) (r c : bytes) (s : Conn) : Conn :=
  mkConn (state_ s) (reading_ s) (channel_ s) b (outputBuffer_ s) (highWaterMark_ s)
    (hasWriteComplete s) (hasHighWaterMark s) (pending s) (delayed s) (shut s) (sent s) (accepted s)
    r c (log s).
Definition set_output (b : Buffer) (d a : bytes) (s : Conn) : Conn :=
  mkConn (state_ s) (reading_ s) (channel_ s) (inputBuffer_ s) b (highWaterMark_ s)
    (hasWriteComplete s) (hasHighWaterMark s) (pending s) (delayed s) (shut s) d a
    (received s) (consumed s) (log s).
Definition set_pending (l : list functor) (s : Conn) : Conn :=
  mkConn (state_ s) (reading_ s) (channel_ s) (inputBuffer_ s) (outputBuffer_ s) (highWaterMark_ s)
    (hasWriteComplete s) (hasHighWaterMark s) l (delayed s) (shut s) (sent s) (accepted s)
    (received s) (consumed s) (log s).
Definition set_delayed (n : nat) (s : Conn) : Conn :=
  mkConn (state_ s) (reading_ s) (channel_ s) (inputBuffer_ s) (outputBuffer_ s) (highWaterMark_ s)
    (hasWriteComplete s) (hasHighWaterMark s) (pending s) n (shut s) (sent s) (accepted s)
    (received s) (consumed s) (log s).
Definition set_shut (s : Conn) : Conn :=
  mkConn (state_ s) (reading_ s) (channel_ s) (inputBuffer_ s) (outputBuffer_ s) (highWaterMark_ s)
    (hasWriteComplete s) (hasHighWaterMark s) (pending s) (delayed s) true (sent s) (accepted s)
    (received s) (consumed s) (log s).
Definition note (e : event) (s : Conn) : Conn :=
  mkConn (state_ s) (reading_ s) (channel_ s) (inputBuffer_ s) (outputBuffer_ s) (highWaterMark_ s)
    (hasWriteComplete s) (hasHighWaterMark s) (pending s) (delayed s) (shut s) (sent s) (accepted s)
    (received s) (consumed s) (log s ++ [e]).
(** [loop_->queueInLoop] *)
Definition queue (f : functor) (s : Conn) : Conn := set_pending (pending s ++ [f]) s.

(** The channel operations: a mask change followed by [update()]. *)
Definition update_with (f : Channel → Channel) (s : Conn) : Conn :=
  set_channel (setAdded true (f (channel_ s))) s.
(** [Channel::remove] with the poller's requirement that the channel is registered. *)
Definition channel_remove (s : Conn) : res Conn :=
  assertb (isNoneEvent (channel_ s));;
  assertb (addedToLoop_ (channel_ s));;
  Ok (set_channel (setAdded false (channel_ s)) s).

Definition connected (s : Conn) : bool := bool_decide (state_ s = kConnected).
Definition open (s : Conn) : bool := bool_decide (state_ s = kConnected ∨ state_ s = kDisconnecting).

Definition disconnected (s : Conn) : bool := bool_decide (state_ s = kDisconnected).
Definition stateToString (s : Conn) : bytes :=
  match state_ s with
  | kDisconnected => str "kDisconnected"
  | kConnecting => str "kConnecting"
  | kConnected => str "kConnected"
  | kDisconnecting => str "kDisconnecting"
  end.
(** [setHighWaterMarkCallback]: sets the callback and the mark. *)
Definition setHighWaterMarkCallback (mark : Z) (s : Conn) : Conn :=
  mkConn (state_ s) (reading_ s) (channel_ s) (inputBuffer_ s) (outputBuffer_ s) mark
    (hasWriteComplete s) true (pending s) (delayed s) (shut s) (sent s) (accepted s)
    (received s) (consumed s) (log s).

(** The constructor; [wc] and [hw] tell which optional callbacks are set. *)
Definition newTcpConnection (sockfd : Z) (wc hw : bool) : res Conn :=
  inb ← newBuffer kInitialSize;
  outb ← newBuffer kInitialSize;
  let c := setCallback ErrorCb (setCallback CloseCb (setCallback WriteCb (setCallback ReadCb (newChannel sockfd)))) in
  Ok (mkConn kConnecting true c inb outb (64 * 1024 * 1024) wc hw [] 0 false [] [] [] [] []).

(** ** Operations *)

(** The result of [write(2)]: the number of bytes taken, or [errno]. *)
Inductive wret : Type := WOk (n : Z) | WErr (errno : Z).
Definition EWOULDBLOCK : Z := 11.
Definition EPIPE : Z := 32.
Definition ECONNRESET : Z := 104.

(** The first half of [sendInLoop]: the direct write when nothing is queued.
    Gives [nwrote], [remaining], [faultError]. *)
Definition send_direct (w : wret) (data : bytes) (s : Conn) : Z * Z * bool * Conn :=
  let len := zlen data in
  if negb (isWriting (channel_ s)) && (readableBytes (outputBuffer_ s) =? 0) then
    match w with
    | WOk n =>
        let remaining := u64 (len - n) in
        let s := set_output (outputBuffer_ s) (sent s ++ take (Z.to_nat n) data)
                   (accepted s ++ take (Z.to_nat n) data) s in
        (n, remaining, false,
         if (remaining =? 0) && hasWriteComplete s then queue FWriteComplete s else s)
    | WErr e => (0, len, negb (e =? EWOULDBLOCK) && ((e =? EPIPE) || (e =? ECONNRESET)), s)
    end
  else (0, len, false, s).

(** The second half: what is left goes to the output buffer. *)
Definition send_rest (data : bytes) (nwrote remaining : Z) (s : Conn) : res Conn :=
  let oldLen := readableBytes (outputBuffer_ s) in
  let s := if (highWaterMark_ s <=? u64 (oldLen + remaining)) && (oldLen <? highWaterMark_ s)
              && hasHighWaterMark s
           then queue (FHighWaterMark (u64 (oldLen + remaining))) s else s in
  let rest := drop (Z.to_nat nwrote) data in
  b ← append rest remaining (outputBuffer_ s);
  let s := set_output b (sent s) (accepted s ++ rest) s in
  Ok (if negb (isWriting (channel_ s)) then update_with enableWriting s else s).

Definition sendInLoop (w : wret) (data : bytes) (s : Conn) : res Conn :=
  if bool_decide (state_ s = kDisconnected) then Ok s else
  let '(nwrote, remaining, faultError, s) := send_direct w data s in
  assertb (remaining <=? zlen data);;
  if negb faultError && (0 <? remaining) then send_rest data nwrote remaining s else Ok s.

Definition send (inLoopThread : bool) (w : wret) (message : bytes) (s : Conn) : res Conn :=
  if connected s then
    if inLoopThread then sendInLoop w message s else Ok (queue (FSend message) s)
  else Ok s.

(** [send] of a [Buffer]: the connection and the caller's buffer. *)
Definition send_buffer (inLoopThread : bool) (w : wret) (buf : Buffer) (s : Conn) : res (Conn * Buffer) :=
  if connected s then
    if inLoopThread then
      d ← mem_read (peek buf) (readableBytes buf) (buffer_ buf);
      s ← sendInLoop w d s;
      Ok (s, retrieveAll buf)
    else
      '(d, buf) ← retrieveAllAsString buf;
      Ok (queue (FSend d) s, buf)
  else Ok (s, buf).

Definition shutdownInLoop (s : Conn) : Conn :=
  if negb (isWriting (channel_ s)) then set_shut s else s.
Definition shutdown (inLoopThread : bool) (s : Conn) : Conn :=
  if connected s then
    let s := set_state kDisconnecting s in
    if inLoopThread then shutdownInLoop s else queue FShutdown s
  else s.

Definition handleClose (s : Conn) : res Conn :=
  assertb (open s);;
  Ok (note EvClose (note EvDown (update_with disableAll (set_state kDisconnected s)))).

Definition forceClose (s : Conn) : Conn :=
  if open s then queue FForceClose (set_state kDisconnecting s) else s.
Definition forceCloseWithDelay (s : Conn) : Conn :=
  if open s then let s := set_state kDisconnecting s in set_delayed (S (delayed s)) s else s.
Definition forceCloseInLoop (s : Conn) : res Conn := if open s then handleClose s else Ok s.

Definition startReadInLoop (s : Conn) : Conn :=
  if negb (reading_ s) || negb (isReading (channel_ s))
  then set_reading true (update_with enableReading s) else s.
Definition stopReadInLoop (s : Conn) : Conn :=
  if reading_ s || isReading (channel_ s)
  then set_reading false (update_with disableReading s) else s.
Definition startRead (inLoopThread : bool) (s : Conn) : Conn :=
  if inLoopThread then startReadInLoop s else queue FStartRead s.
Definition stopRead (inLoopThread : bool) (s : Conn) : Conn :=
  if inLoopThread then stopReadInLoop s else queue FStopRead s.

Definition connectEstablished (s : Conn) : res Conn :=
  assertb (bool_decide (state_ s = kConnecting));;
  let s := set_state kConnected s in
  let s := set_channel (tie (channel_ s)) s in
  Ok (note EvUp (update_with enableReading s)).

Definition connectDestroyed (s : Conn) : res Conn :=
  let s := if connected s
           then note EvDown (update_with disableAll (set_state kDisconnected s)) else s in
  channel_remove s.

(** The destructor's assertion. *)
Definition destroy (s : Conn) : res unit := assertb (bool_decide (state_ s = kDisconnected)).

Definition handleError (s : Conn) : Conn := note EvError s.

Definition handleRead (readv : list Z → sysret) (s : Conn) : res Conn :=
  '(n, _, b) ← readFd readv (inputBuffer_ s);
  let d := match readv (readFd_vec (inputBuffer_ s)) with SysOk d => d | SysErr _ => [] end in
  let s := set_input b (received s ++ d) (consumed s) s in
  if 0 <? n then Ok (note EvMessage s)
  else if n =? 0 then handleClose s
  else Ok (handleError s).

Definition handleWrite (w : wret) (s : Conn) : res Conn :=
  if isWriting (channel_ s) then
    d ← mem_read (peek (outputBuffer_ s)) (readableBytes (outputBuffer_ s)) (buffer_ (outputBuffer_ s));
    match w with
    | WOk n =>
        if 0 <? n then
          b ← retrieve n (outputBuffer_ s);
          let s := set_output b (sent s ++ take (Z.to_nat n) d) (accepted s) s in
          if readableBytes b =? 0 then
            let s := update_with disableWriting s in
            let s := if hasWriteComplete s then queue FWriteComplete s else s in
            Ok (if bool_decide (state_ s = kDisconnecting) then shutdownInLoop s else s)
          else Ok s
        else Ok s
    | WErr _ => Ok s
    end
  else Ok s.

(** The channel's callbacks, as the constructor binds them. *)
Definition callback_run (readv : list Z → sysret) (w : wret) (s : Conn) (k : callback) : res Conn :=
  match k with
  | ReadCb => handleRead readv s
  | WriteCb => handleWrite w s
  | CloseCb => handleClose s
  | ErrorCb => Ok (handleError s)
  end.
Fixpoint callbacks_run (readv : list Z → sysret) (w : wret) (s : Conn) (l : list callback) : res Conn :=
  match l with
  | [] => Ok s
  | k :: l => s ← callback_run readv w s k; callbacks_run readv w s l
  end.

(** One pass of [Channel::handleEvent] for the events [r] the poller reported. *)
Definition handle_event (r : Z) (readv : list Z → sysret) (w : wret) (s : Conn) : res Conn :=
  let c := setRevents r (channel_ s) in
  callbacks_run readv w (set_channel c s) (handleEvent c true).

(** The loop runs the first functor of its queue. *)
Definition run_functor (w : wret) (s : Conn) : res Conn :=
  match pending s with
  | [] => Ok s
  | f :: l =>
      let s := set_pending l s in
      match f with
      | FSend d => sendInLoop w d s
      | FShutdown => Ok (shutdownInLoop s)
      | FForceClose => forceCloseInLoop s
      | FStartRead => Ok (startReadInLoop s)
      | FStopRead => Ok (stopReadInLoop s)
      | FWriteComplete => Ok (note EvWriteComplete s)
      | FHighWaterMark n => Ok (note (EvHighWaterMark n) s)
      end
  end.

(** The user's callback retrieves [n] bytes of the input buffer. *)
Definition consume (n : Z) (s : Conn) : res Conn :=
  '(d, b) ← retrieveAsString n (inputBuffer_ s);
  Ok (set_input b (received s) (consumed s ++ d) s).

Inductive op : Type :=
| OpEstablish
| OpSend (inLoopThread : bool) (message : bytes) (w : wret)
| OpShutdown (inLoopThread : bool)
| OpForceClose
| OpForceCloseDelay
| OpTimer
| OpStartRead (inLoopThread : bool)
| OpStopRead (inLoopThread : bool)
| OpEvent (revents : Z) (readv : list Z → sysret) (w : wret)
| OpFunctor (w : wret)
| OpConsume (n : Z)
| OpDestroy.

Definition step (s : Conn) (o : op) : res Conn :=
  match o with
  | OpEstablish => connectEstablished s
  | OpSend b d w => send b w d s
  | OpShutdown b => Ok (shutdown b s)
  | OpForceClose => Ok (forceClose s)
  | OpForceCloseDelay => Ok (forceCloseWithDelay s)
  | OpTimer => Ok (match delayed s with O => s | S n => forceClose (set_delayed n s) end)
  | OpStartRead b => Ok (startRead b s)
  | OpStopRead b => Ok (stopRead b s)
  | OpEvent r rd w => handle_event r rd w s
  | OpFunctor w => run_functor w s
  | OpConsume n => consume n s
  | OpDestroy => connectDestroyed s
  end.

Fixpoint run (s : Conn) (l : list op) : res Conn :=
  match l with
  | [] => Ok s
  | o :: l => s ← step s o; run s l
  end.

(** ** What the buffer promises *)

Section buffer_facts.
Context (b : Buffer) (Hb : buffer_ok b).

Lemma buf_readable : readableBytes b = zlen (content b).
Proof using Hb. destruct (layout_of_ok b Hb) as (p & q & Hl). by eapply readable_layout. Qed.

Lemma buf_peek : mem_read (peek b) (readableBytes b) (buffer_ b) = Ok (content b).
Proof using Hb.
  destruct (layout_of_ok b Hb) as (p & q & Hl). rewrite buf_readable.
  rewrite (peek_read b p (content b) q Hl) by zlen_lia. by rewrite to_nat_zlen, firstn_all.
Qed.

Lemma buf_append d : writerIndex_ b + zlen d <= vec_max_size →
  ∃ b', append d (zlen d) b = Ok b' ∧ buffer_ok b' ∧ content b' = content b ++ d.
Proof using Hb.
  intros Hd. destruct (layout_of_ok b Hb) as (p & q & Hl).
  assert (Hw : writerIndex_ b = zlen p + zlen (content b)) by (destruct Hl as [E _]; rewrite E at 1; done).
  destruct (append_layout b p (content b) q d Hl) as (b' & p' & q' & E & Hl' & _); [lia|].
  exists b'. split; [done|]. by eapply layout_ok.
Qed.

Lemma buf_retrieve n : 0 <= n <= zlen (content b) →
  ∃ b', retrieve n b = Ok b' ∧ buffer_ok b' ∧ content b' = drop (Z.to_nat n) (content b).
Proof using Hb.
  intros Hn. destruct (layout_of_ok b Hb) as (p & q & Hl).
  destruct (retrieve_layout b p _ q Hl n Hn) as (b' & p' & q' & E & Hl').
  exists b'. split; [done|]. by eapply layout_ok.
Qed.

Lemma buf_retrieve_string n : 0 <= n <= zlen (content b) →
  ∃ b', retrieveAsString n b = Ok (take (Z.to_nat n) (content b), b') ∧ buffer_ok b'
        ∧ content b' = drop (Z.to_nat n) (content b).
Proof using Hb.
  intros Hn. destruct (layout_of_ok b Hb) as (p & q & Hl). unfold retrieveAsString.
  rewrite assertb_true by (rewrite buf_readable; bsolve; lia). simpl.
  rewrite (peek_read b p (content b) q Hl) by lia. simpl.
  destruct (buf_retrieve n Hn) as (b' & -> & Hb'). simpl. eauto.
Qed.
End buffer_facts.

Lemma buf_new : ∃ b, newBuffer kInitialSize = Ok b ∧ buffer_ok b ∧ content b = [].
Proof.
  destruct (newBuffer_layout kInitialSize) as (b & p & q & E & Hl & _);
    [unfold kInitialSize; lia|unfold kCheapPrepend, kInitialSize, vec_max_size; lia|].
  exists b. split; [done|]. by eapply layout_ok.
Qed.

(** ** Invariant *)

(** The calls of the callbacks that mark the life of a connection. *)
Definition life (e : event) : bool := match e with EvUp | EvDown | EvClose => true | _ => false end.
Definition lifeline (s : Conn) : list event := filter (λ e, life e = true) (log s).

Definition idle (s : Conn) : Prop := state_ s = kConnecting ∨ state_ s = kDisconnected.

Record inv (s : Conn) : Prop := {
  c_in : buffer_ok (inputBuffer_ s);
  c_out : buffer_ok (outputBuffer_ s);
  c_stream : accepted s = sent s ++ content (outputBuffer_ s);
  c_received : received s = consumed s ++ content (inputBuffer_ s);
  c_writing : isWriting (channel_ s) = open s && negb (bool_decide (content (outputBuffer_ s) = []));
  c_none : idle s → events_ (channel_ s) = 0;
  c_added : open s = true → addedToLoop_ (channel_ s) = true;
  c_shut : shut s = true →
    state_ s = kDisconnected ∨ (state_ s = kDisconnecting ∧ content (outputBuffer_ s) = []);
  c_new : state_ s = kConnecting → pending s = [] ∧ delayed s = 0%nat ∧ content (outputBuffer_ s) = [];
  c_down : state_ s = kConnected → FShutdown ∉ pending s;
  c_life : match state_ s with
           | kConnecting => lifeline s = []
           | kConnected | kDisconnecting => lifeline s = [EvUp]
           | kDisconnected => lifeline s = [EvUp; EvDown] ∨ lifeline s = [EvUp; EvDown; EvClose]
           end }.

Lemma inv_newTcpConnection fd wc hw : ∃ s, newTcpConnection fd wc hw = Ok s ∧ inv s ∧ state_ s = kConnecting
  ∧ sent s = [] ∧ received s = [].
Proof.
  destruct buf_new as (b & E & Hb & Hc). unfold newTcpConnection. rewrite E. simpl.
  eexists. split; [reflexivity|]. split; [|done].
  split; simpl; rewrite ?Hc; try done.
Qed.

(** The masks of a channel with no events. *)
Lemma isWriting_none c : events_ c = 0 → isWriting c = false.
Proof. unfold isWriting. by intros ->. Qed.

Lemma open_cases s : open s = true ↔ state_ s = kConnected ∨ state_ s = kDisconnecting.
Proof. apply bool_decide_eq_true. Qed.
Lemma open_idle s : open s = false ↔ idle s.
Proof. unfold open, idle. rewrite bool_decide_eq_false. destruct (state_ s); naive_solver. Qed.

(** Queueing a functor and noting an ordinary callback change nothing else. *)
Lemma inv_queue f s : inv s → state_ s ≠ kConnecting → (f = FShutdown → state_ s ≠ kConnected) →
  inv (queue f s).
Proof.
  intros [] Hn Hf. split; try done. simpl. intros E. rewrite elem_of_app, list_elem_of_singleton.
  intros [H|H]; [by apply c_down0|]. by apply Hf.
Qed.

Lemma lifeline_note e s : lifeline (note e s) = lifeline s ++ (if life e then [e] else []).
Proof. unfold lifeline. simpl. rewrite filter_app. f_equal. by destruct e. Qed.

Lemma inv_note e s : inv s → life e = false → inv (note e s).
Proof.
  intros [] He. split; try done. rewrite lifeline_note, He, app_nil_r. done.
Qed.

Lemma inv_pending f l s : inv s → pending s = f :: l → inv (set_pending l s).
Proof.
  intros [] Hn. split; try done; simpl; intros E; [destruct (c_new0 E); congruence|].
  intros H. apply (c_down0 E). rewrite Hn. by apply list_elem_of_further.
Qed.

(** Changing only the reading interest. *)
Lemma inv_reading f b s : inv s → state_ s ≠ kConnecting →
  (∀ c, isWriting (f c) = isWriting c) → (idle s → events_ (f (channel_ s)) = 0) →
  inv (set_reading b (update_with f s)).
Proof.
  intros [] Hn Hf Hi. split; try done.
  change (isWriting (f (channel_ s)) = open s && negb (bool_decide (content (outputBuffer_ s) = []))).
  by rewrite Hf.
Qed.

(** ** The kernel's side *)

(** [write(2)] takes at most what it is given, and fails with [EPIPE] once the
    write side is shut down. *)
Definition write_ok (s : Conn) (d : bytes) (w : wret) : Prop :=
  match w with
  | WOk n => 0 <= n <= zlen d ∧ shut s = false
  | WErr e => shut s = true → e = EPIPE
  end.

(** There is room for [n] more bytes in a vector. *)
Definition room (b : Buffer) (n : Z) : Prop := writerIndex_ b + n <= vec_max_size.

(** The events [poll] reports for a TCP socket: a hang-up without input is
    reported alone (of the reading events). *)
Definition events_ok (r : Z) : Prop :=
  has r POLLHUP && negb (has r POLLIN) = true → has r (Z.lor (Z.lor POLLIN POLLPRI) POLLRDHUP) = false.

(** ** Sending *)

(** A state reached without touching the life cycle. *)
Definition same_life (s s' : Conn) : Prop :=
  state_ s' = state_ s ∧ shut s' = shut s ∧ lifeline s' = lifeline s
  ∧ addedToLoop_ (channel_ s) = addedToLoop_ (channel_ s') ∧ delayed s' = delayed s.

Lemma vec_max_64 : vec_max_size < 2 ^ 63.
Proof. unfold vec_max_size. lia. Qed.

Lemma send_rest_ok s d n :
  inv s → open s = true → shut s = false → 0 <= n < zlen d →
  room (outputBuffer_ s) (zlen d) →
  ∃ s', send_rest d n (zlen d - n) s = Ok s' ∧ inv s' ∧ state_ s' = state_ s.
Proof.
  intros [I1 I2 I3 I4 I5 I6 I7 I8 I9 I10 I11] Ho Hs Hn Hr. unfold send_rest.
  set (s1 := if (_ && _)%bool then queue _ s else s).
  assert (Hs1 : ∃ l, s1 = set_pending l s ∧ (state_ s = kConnecting → l = [])
    ∧ (state_ s = kConnected → FShutdown ∉ l)).
  { subst s1. apply open_cases in Ho.
    match goal with |- context [if ?c then queue _ _ else _] => destruct c end;
      [|exists (pending s); split; [by destruct s|]; split; [intros E; by destruct (I9 E)|done]].
    eexists. split; [reflexivity|]. split; [intros E; rewrite E in Ho; by destruct Ho|].
    intros E. rewrite elem_of_app, list_elem_of_singleton. intros [H|H]; [by apply I10|done]. }
  destruct Hs1 as (l & -> & Hl & Hl2). simpl.
  set (r := drop (Z.to_nat n) d).
  assert (Er : zlen r = zlen d - n) by (unfold zlen, r; rewrite length_drop; unfold zlen in Hn; lia).
  destruct (buf_append (outputBuffer_ s) I2 r) as (b & Eb & Hb & Hc); [unfold room in Hr; lia|].
  rewrite <-Er, Eb. simpl.
  assert (Hne : content b ≠ []).
  { rewrite Hc. intros [_ E]%app_nil. rewrite E in Er. rewrite zlen_nil in Er. lia. }
  eexists. split; [reflexivity|]. destruct (isWriting (channel_ s)) eqn:Ew; simpl.
  - split; [|done]. split; simpl; try done.
    + by rewrite I3, Hc, app_assoc.
    + change (isWriting (channel_ s) = open s && negb (bool_decide (content b = []))).
      by rewrite Ew, Ho, bool_decide_eq_false_2.
    + congruence.
    + intros E. apply open_cases in Ho. rewrite E in Ho. by destruct Ho.
  - split; [|done]. split; simpl; try done.
    + by rewrite I3, Hc, app_assoc.
    + change (isWriting (enableWriting (channel_ s)) = open s && negb (bool_decide (content b = []))).
      rewrite (proj1 (isWriting_enable _)), Ho, bool_decide_eq_false_2; done.
    + intros Hi. apply open_idle in Hi. cbn in Hi. by change (open s = false) in Hi; congruence.
    + congruence.
    + intros E. apply open_cases in Ho. rewrite E in Ho. by destruct Ho.
Qed.

(** Handing [d] to the kernel directly, with nothing in the output buffer. *)
Lemma inv_direct s d : inv s → content (outputBuffer_ s) = [] →
  inv (set_output (outputBuffer_ s) (sent s ++ d) (accepted s ++ d) s).
Proof.
  intros [I1 I2 I3 I4 I5 I6 I7 I8 I9 I10 I11] Hc. split; try done. simpl. by rewrite I3, Hc, !app_nil_r.
Qed.

Lemma sendInLoop_ok s d w :
  inv s → state_ s ≠ kConnecting → write_ok s d w → room (outputBuffer_ s) (zlen d) →
  ∃ s', sendInLoop w d s = Ok s' ∧ inv s' ∧ state_ s' = state_ s.
Proof.
  intros Hi Hn Hw Hr. unfold sendInLoop. case_bool_decide as Hd; [eauto|].
  assert (Ho : open s = true) by (apply open_cases; destruct (state_ s); naive_solver).
  pose proof Hi as [I1 I2 I3 I4 I5 I6 I7 I8 I9 I10 I11].
  assert (Hlen : zlen d <= vec_max_size) by (unfold room in Hr; destruct I2 as (? & _); lia).
  pose proof vec_max_64. pose proof (zlen_nonneg d).
  unfold send_direct. rewrite I5, Ho, (buf_readable _ I2).
  assert (Hz : (zlen (content (outputBuffer_ s)) =? 0) = bool_decide (content (outputBuffer_ s) = [])).
  { case_bool_decide as E; [by rewrite E|]. apply Z.eqb_neq. intros ?%zlen_zero_inv. done. }
  rewrite Hz. case_bool_decide as Hc; simpl.
  - destruct w as [n|e]; simpl in Hw.
    + destruct Hw as [Hw Hsh]. rewrite wrapu_small by lia. rewrite assertb_true by (bsolve; lia). simpl.
      set (s1 := set_output _ _ _ s).
      assert (H1 : inv s1) by (by apply inv_direct).
      assert (H2 : ∀ c : bool, inv (if c then queue FWriteComplete s1 else s1)) by (intros []; [by apply inv_queue; try done; simpl; destruct (state_ s)|done]).
      destruct (0 <? zlen d - n) eqn:E.
      * rewrite (proj2 (Z.eqb_neq (zlen d - n) 0)) by lia. simpl.
        destruct (send_rest_ok s1 d n) as (s' & -> & H'); try done; [lia|]. eauto.
      * eexists. split; [reflexivity|]. split; [apply H2|]. match goal with |- context [if ?c then queue _ _ else _] => by destruct c end.
    + rewrite assertb_true by (bsolve; lia). simpl.
      match goal with |- context [if ?c then send_rest _ _ _ _ else _] => destruct c eqn:E end; [|eauto].
      apply andb_prop in E as [E1 E2].
      destruct (shut s) eqn:Esh.
      * rewrite (Hw eq_refl) in E1. discriminate E1.
      * destruct (send_rest_ok s d 0) as (s' & E & H'); try done; [lia|]. rewrite Z.sub_0_r in E. eauto.
  - rewrite assertb_true by (bsolve; lia). simpl. destruct (0 <? zlen d) eqn:E; [|eauto].
    assert (Esh : shut s = false) by (destruct (shut s); naive_solver).
    destruct (send_rest_ok s d 0) as (s' & E' & H'); try done; [lia|]. rewrite Z.sub_0_r in E'. eauto.
Qed.

(** ** Closing *)

Lemma shutdownInLoop_ok s : inv s → state_ s = kDisconnecting ∨ state_ s = kDisconnected →
  inv (shutdownInLoop s) ∧ state_ (shutdownInLoop s) = state_ s.
Proof.
  intros Hi Hst. unfold shutdownInLoop. destruct (isWriting (channel_ s)) eqn:Ew; [done|]. simpl.
  destruct Hi as [I1 I2 I3 I4 I5 I6 I7 I8 I9 I10 I11]. split; [|done]. split; try done. simpl.
  intros _. destruct Hst as [Hst|Hst]; [right|by left]. split; [done|].
  assert (Ho : open s = true) by (apply open_cases; auto).
  rewrite I5, Ho in Ew. simpl in Ew. by apply negb_false_iff, bool_decide_eq_true in Ew.
Qed.

Lemma set_disconnecting s : inv s → open s = true → (shut s = true → state_ s = kDisconnecting) →
  inv (set_state kDisconnecting s).
Proof.
  intros [I1 I2 I3 I4 I5 I6 I7 I8 I9 I10 I11] Ho Hs. split; try done; simpl.
  - change (isWriting (channel_ s) = true && negb (bool_decide (content (outputBuffer_ s) = []))).
    by rewrite I5, Ho.
  - unfold idle. simpl. naive_solver.
  - intros _. by apply I7.
  - intros E. right. split; [done|]. destruct (I8 E) as [E'|[_ ?]]; [|done]. rewrite (Hs E) in E'. done.
  - apply open_cases in Ho as [E|E]; by rewrite E in I11.
Qed.

Lemma open_shut s : inv s → open s = true → shut s = true → state_ s = kDisconnecting.
Proof. intros Hi Ho Hs. destruct (c_shut s Hi Hs) as [E|[E _]]; [|done]. apply open_cases in Ho. rewrite E in Ho. by destruct Ho. Qed.

Lemma handleClose_ok s : inv s → open s = true →
  ∃ s', handleClose s = Ok s' ∧ inv s' ∧ state_ s' = kDisconnected.
Proof.
  intros [I1 I2 I3 I4 I5 I6 I7 I8 I9 I10 I11] Ho. unfold handleClose. rewrite Ho. simpl.
  eexists. split; [reflexivity|]. split; [|done]. split; try done; simpl.
  - auto.
  - right. unfold lifeline in *. simpl. rewrite !filter_app.
    apply open_cases in Ho as [E|E]; rewrite E in I11; by rewrite I11.
Qed.

(** ** Reading and writing *)

Lemma handleWrite_ok s w : inv s → write_ok s (content (outputBuffer_ s)) w →
  ∃ s', handleWrite w s = Ok s' ∧ inv s' ∧ state_ s' = state_ s.
Proof.
  intros Hi Hw. unfold handleWrite. destruct (isWriting (channel_ s)) eqn:Ew; [|eauto].
  pose proof Hi as [I1 I2 I3 I4 I5 I6 I7 I8 I9 I10 I11]. rewrite (buf_peek _ I2). simpl.
  destruct w as [n|e]; [|eauto]. destruct (0 <? n) eqn:En; [|eauto]. destruct Hw as [Hn Hsh].
  destruct (buf_retrieve (outputBuffer_ s) I2 n Hn) as (b & -> & Hb & Hc). simpl.
  assert (Ho : open s = true ∧ content (outputBuffer_ s) ≠ []).
  { rewrite I5 in Ew. apply andb_prop in Ew as [? E]. split; [done|]. by apply negb_true_iff, bool_decide_eq_false in E. }
  destruct Ho as [Ho Hne].
  assert (Hstream : accepted s = (sent s ++ take (Z.to_nat n) (content (outputBuffer_ s))) ++ content b)
    by (by rewrite I3, Hc, <-app_assoc, take_drop).
  rewrite (buf_readable b Hb). destruct (zlen (content b) =? 0) eqn:Ez.
  - apply Z.eqb_eq, zlen_zero_inv in Ez.
    set (s1 := update_with disableWriting _).
    assert (H1 : inv s1).
    { split; try done; simpl.
      - change (isWriting (disableWriting (channel_ s)) = open s && negb (bool_decide (content b = []))).
        rewrite (proj2 (isWriting_enable _)), Ez. by rewrite andb_false_r.
      - intros Hid%open_idle. by change (open s = false) in Hid; congruence.
      - congruence.
      - intros E. apply open_cases in Ho. rewrite E in Ho. by destruct Ho. }
    set (s2 := if hasWriteComplete s1 then queue FWriteComplete s1 else s1).
    assert (H2 : inv s2 ∧ state_ s2 = state_ s).
    { subst s2. destruct (hasWriteComplete s1); [|done]. split; [|done]. apply inv_queue; [done| |done].
      apply open_cases in Ho. simpl. destruct Ho as [-> | ->]; done. }
    destruct H2 as [H2 E2].
    exists (if bool_decide (state_ s2 = kDisconnecting) then shutdownInLoop s2 else s2).
    split; [reflexivity|]. clearbody s2 s1. clear I5. case_bool_decide as Hd; [|split; [exact H2|exact E2]].
    destruct (shutdownInLoop_ok s2 H2) as [H3 E3]; [by left|]. split; [done|congruence].
  - eexists. split; [reflexivity|]. split; [|done]. split; try done; simpl.
    + change (isWriting (channel_ s) = open s && negb (bool_decide (content b = []))).
      rewrite Ew, Ho, bool_decide_eq_false_2; [done|]. intros E. rewrite E in Ez. done.
    + congruence.
    + intros E. apply open_cases in Ho. rewrite E in Ho. by destruct Ho.
Qed.

Lemma handleRead_ok s readv : inv s → open s = true → readv_ok readv →
  zlen (buffer_ (inputBuffer_ s)) + extrabuf_size <= vec_max_size →
  ∃ s', handleRead readv s = Ok s' ∧ inv s' ∧ (state_ s' = state_ s ∨ state_ s' = kDisconnected)
    ∧ outputBuffer_ s' = outputBuffer_ s ∧ shut s' = shut s.
Proof.
  intros Hi Ho Hrv Hm. pose proof Hi as [I1 I2 I3 I4 I5 I6 I7 I8 I9 I10 I11]. unfold handleRead.
  destruct (readv (readFd_vec (inputBuffer_ s))) as [d|e] eqn:E.
  - destruct (readFd_layout readv _ d I1 Hrv Hm E) as (b & -> & Hb & Hc & _). simpl.
    set (s1 := set_input _ _ _ s).
    assert (H1 : inv s1) by (split; try done; simpl; by rewrite I4, Hc, app_assoc).
    destruct (0 <? zlen d) eqn:Ed; [eexists; split; [reflexivity|]; split; [by apply inv_note|auto]|].
    destruct (zlen d =? 0) eqn:Ez; [|zlen_lia].
    destruct (handleClose_ok s1 H1 Ho) as (s' & E' & H' & Es). exists s'. split_and!; auto.
    all: unfold handleClose in E'; res_inv; by subst.
  - unfold readFd. rewrite E. simpl. eexists. split; [reflexivity|]. split; [|auto].
    apply inv_note; [|done]. split; try done. simpl. by rewrite app_nil_r.
Qed.

(** ** Dispatch *)

Lemma callbacks_run_app readv w s l1 l2 :
  callbacks_run readv w s (l1 ++ l2) = (s' ← callbacks_run readv w s l1; callbacks_run readv w s' l2).
Proof.
  revert s. induction l1 as [|k l1 IH]; intros s; simpl; [done|].
  destruct (callback_run readv w s k); simpl; [apply IH|done].
Qed.

(** What a callback may do to the rest: close the connection. *)
Definition after (s s' : Conn) : Prop :=
  inv s' ∧ (state_ s' = state_ s ∨ state_ s' = kDisconnected)
  ∧ outputBuffer_ s' = outputBuffer_ s ∧ shut s' = shut s ∧ inputBuffer_ s' = inputBuffer_ s.

Lemma after_refl s : inv s → after s s.
Proof. unfold after. auto. Qed.

Lemma run_close readv w s c (b : bool) : inv s → open s = true →
  ∃ s', callbacks_run readv w s (if b then call CloseCb c else []) = Ok s' ∧ after s s'
        ∧ (b = false → s' = s).
Proof.
  intros Hi Ho. unfold call. destruct b; [|by eexists; split; [reflexivity|]; split; [by apply after_refl|]].
  case_decide; [|by eexists; split; [reflexivity|]; split; [by apply after_refl|]].
  simpl. destruct (handleClose_ok s Hi Ho) as (s' & E & H' & Es). rewrite E. simpl.
  eexists. split; [reflexivity|]. split; [|done]. unfold handleClose in E. res_inv. subst.
  unfold after. auto.
Qed.

Lemma run_error readv w s c (b : bool) : inv s →
  ∃ s', callbacks_run readv w s (if b then call ErrorCb c else []) = Ok s' ∧ after s s' ∧ state_ s' = state_ s.
Proof.
  intros Hi. unfold call. destruct b; [case_decide|]; simpl; eexists; (split; [reflexivity|]);
    (split; [|done]); try (by apply after_refl). unfold after. split_and!; auto. by apply inv_note.
Qed.

Lemma run_read readv w s c (b : bool) : inv s → (b = true → open s = true) → readv_ok readv →
  zlen (buffer_ (inputBuffer_ s)) + extrabuf_size <= vec_max_size →
  ∃ s', callbacks_run readv w s (if b then call ReadCb c else []) = Ok s' ∧ inv s'
    ∧ (state_ s' = state_ s ∨ state_ s' = kDisconnected)
    ∧ outputBuffer_ s' = outputBuffer_ s ∧ shut s' = shut s.
Proof.
  intros Hi Ho Hrv Hm. unfold call. destruct b; [case_decide|]; simpl; try (eexists; split; [reflexivity|]; by auto).
  destruct (handleRead_ok s readv Hi (Ho eq_refl) Hrv Hm) as (s' & -> & H'). simpl. eauto.
Qed.

Lemma run_write readv w s c (b : bool) : inv s → write_ok s (content (outputBuffer_ s)) w →
  ∃ s', callbacks_run readv w s (if b then call WriteCb c else []) = Ok s' ∧ inv s' ∧ state_ s' = state_ s.
Proof.
  intros Hi Hw. unfold call. destruct b; [case_decide|]; simpl; try (eexists; split; [reflexivity|]; by auto).
  destruct (handleWrite_ok s w Hi Hw) as (s' & -> & H'). simpl. eauto.
Qed.

Lemma handle_event_ok s r readv w :
  inv s → open s = true → events_ok r → readv_ok readv →
  zlen (buffer_ (inputBuffer_ s)) + extrabuf_size <= vec_max_size →
  write_ok s (content (outputBuffer_ s)) w →
  ∃ s', handle_event r readv w s = Ok s' ∧ inv s' ∧ (state_ s' = state_ s ∨ state_ s' = kDisconnected).
Proof.
  intros Hi Ho He Hrv Hm Hw. unfold handle_event. set (c := setRevents r (channel_ s)).
  assert (H0 : inv (set_channel c s)) by (destruct Hi; by split).
  assert (E : handleEvent c true = handleEventWithGuard c) by (unfold handleEvent; by destruct (tied_ c)).
  rewrite E. unfold handleEventWithGuard. change (revents_ c) with r. rewrite callbacks_run_app.
  destruct (run_close readv w (set_channel c s) c (has r POLLHUP && negb (has r POLLIN))) as (s1 & -> & (A1 & A2 & A3 & A4 & A5) & A6);
    [done|done|]. cbn [mbind res_bind].
  destruct (run_error readv w s1 c (has r (Z.lor POLLERR POLLNVAL)) A1) as (s2 & E2 & (B1 & _ & B3 & B4 & B5) & B6).
  rewrite callbacks_run_app, E2. cbn [mbind res_bind].
  assert (Hread : has r (Z.lor (Z.lor POLLIN POLLPRI) POLLRDHUP) = true → open s2 = true).
  { intros Hr. destruct (has r POLLHUP && negb (has r POLLIN)) eqn:Eh.
    - by rewrite (He Eh) in Hr.
    - unfold open. rewrite B6, (A6 eq_refl). exact Ho. }
  destruct (run_read readv w s2 c _ B1 Hread Hrv) as (s3 & E3 & C1 & C2 & C3 & C4); [by rewrite B5, A5|].
  rewrite callbacks_run_app, E3. cbn [mbind res_bind].
  destruct (run_write readv w s3 c (has r POLLOUT) C1) as (s4 & E4 & D1 & D2).
  { unfold write_ok in *. rewrite C4, B4, A4, C3, B3, A3. exact Hw. }
  exists s4. split; [exact E4|]. split; [done|]. rewrite D2. destruct C2 as [-> | ->]; [|auto]. rewrite B6. exact A2.
Qed.

(** ** Every legal operation *)

(** What is required of the user, the kernel and the machine for each
    operation: in particular reading is not started again on a closed
    connection, and a connection is not destroyed while it is shutting down. *)
Definition functor_ok (w : wret) (s : Conn) : Prop :=
  match pending s with
  | FSend d :: _ => write_ok s d w ∧ room (outputBuffer_ s) (zlen d)
  | FStartRead :: _ => state_ s ≠ kDisconnected
  | _ => True
  end.

Definition legal (s : Conn) (o : op) : Prop :=
  match o with
  | OpEstablish => state_ s = kConnecting
  | OpSend b d w => b = true → write_ok s d w ∧ room (outputBuffer_ s) (zlen d)
  | OpStartRead true => open s = true
  | OpStartRead false | OpStopRead _ => state_ s ≠ kConnecting
  | OpEvent r rd w =>
      open s = true ∧ events_ok r ∧ readv_ok rd
      ∧ zlen (buffer_ (inputBuffer_ s)) + extrabuf_size <= vec_max_size
      ∧ write_ok s (content (outputBuffer_ s)) w
  | OpFunctor w => functor_ok w s
  | OpConsume n => 0 <= n <= zlen (content (inputBuffer_ s))
  | OpDestroy => (state_ s = kConnected ∨ state_ s = kDisconnected) ∧ addedToLoop_ (channel_ s) = true
  | _ => True
  end.

Fixpoint legal_run (s : Conn) (l : list op) : Prop :=
  match l with
  | [] => True
  | o :: l => legal s o ∧ ∀ s', step s o = Ok s' → legal_run s' l
  end.

Lemma events_reading_off c : events_ c = 0 → events_ (disableReading c) = 0.
Proof. simpl. by intros ->. Qed.

Lemma stopReadInLoop_ok s : inv s → state_ s ≠ kConnecting → inv (stopReadInLoop s).
Proof.
  intros Hi Hn. unfold stopReadInLoop. destruct (_ || _); [|done]. apply inv_reading; try done.
  - intros c. apply isWriting_reading.
  - intros Hid. by apply events_reading_off, (c_none s Hi).
Qed.

Lemma startReadInLoop_ok s : inv s → open s = true → inv (startReadInLoop s).
Proof.
  intros Hi Ho. unfold startReadInLoop. destruct (_ || _); [|done]. apply inv_reading; try done.
  - apply open_cases in Ho. intros E. rewrite E in Ho. by destruct Ho.
  - intros c. apply isWriting_reading.
  - intros Hid%open_idle. congruence.
Qed.

Lemma forceClose_ok s : inv s → inv (forceClose s).
Proof.
  intros Hi. unfold forceClose. destruct (open s) eqn:Ho; [|done].
  apply inv_queue; [|done|done]. apply set_disconnecting; [done..|]. by apply open_shut.
Qed.

Lemma inv_delayed n s : inv s → state_ s ≠ kConnecting → inv (set_delayed n s).
Proof. intros [] Hn. by split. Qed.

Lemma run_functor_ok w s : inv s → functor_ok w s → ∃ s', run_functor w s = Ok s' ∧ inv s'.
Proof.
  intros Hi Hf. unfold run_functor, functor_ok in *. destruct (pending s) as [|f l] eqn:Ep; [eauto|].
  assert (H1 : inv (set_pending l s)) by (by apply (inv_pending f)).
  assert (Hn : state_ s ≠ kConnecting) by (intros E; destruct (c_new s Hi E); congruence).
  destruct f as [d| | | | | |n].
  - destruct Hf as [Hw Hr]. destruct (sendInLoop_ok (set_pending l s) d w H1 Hn Hw Hr) as (s' & ? & ? & _). eauto.
  - eexists. split; [reflexivity|]. apply shutdownInLoop_ok; [done|]. simpl.
    assert (state_ s ≠ kConnected) by (intros E; apply (c_down s Hi E); rewrite Ep; by left).
    destruct (state_ s); naive_solver.
  - unfold forceCloseInLoop. destruct (open (set_pending l s)) eqn:Ho; [|eauto].
    destruct (handleClose_ok _ H1 Ho) as (s' & ? & ? & _). eauto.
  - eexists. split; [reflexivity|]. apply startReadInLoop_ok; [done|]. apply open_cases. simpl.
    destruct (state_ s); naive_solver.
  - eexists. split; [reflexivity|]. by apply stopReadInLoop_ok.
  - eexists. split; [reflexivity|]. by apply inv_note.
  - eexists. split; [reflexivity|]. by apply inv_note.
Qed.

Lemma connectDestroyed_ok s : inv s → state_ s = kConnected ∨ state_ s = kDisconnected →
  addedToLoop_ (channel_ s) = true → ∃ s', connectDestroyed s = Ok s' ∧ inv s' ∧ state_ s' = kDisconnected.
Proof.
  intros [I1 I2 I3 I4 I5 I6 I7 I8 I9 I10 I11] Hst Ha. unfold connectDestroyed, connected, channel_remove.
  destruct Hst as [E|E].
  - rewrite bool_decide_eq_true_2 by done. simpl. eexists. split; [reflexivity|]. split; [|done].
    split; try done; simpl; [by left|]. left. unfold lifeline in *. simpl. rewrite filter_app.
    rewrite E in I11. by rewrite I11.
  - rewrite bool_decide_eq_false_2 by (by rewrite E). unfold isNoneEvent. rewrite I6, Ha by (by right). simpl.
    eexists. split; [reflexivity|]. split; [|done]. split; try done. simpl.
    intros Ho%open_cases. simpl in Ho. rewrite E in Ho. by destruct Ho.
Qed.

Lemma connectEstablished_ok s : inv s → state_ s = kConnecting → ∃ s', connectEstablished s = Ok s' ∧ inv s'.
Proof.
  intros [I1 I2 I3 I4 I5 I6 I7 I8 I9 I10 I11] E. unfold connectEstablished.
  rewrite bool_decide_eq_true_2 by done. simpl.
  destruct (I9 E) as (P1 & P2 & P3). eexists. split; [reflexivity|]. split; try done; simpl.
  - change (isWriting (enableReading (tie (channel_ s))) = true && negb (bool_decide (content (outputBuffer_ s) = []))).
    rewrite (proj1 (isWriting_reading _)), P3. unfold isWriting. simpl. by rewrite (I6 (or_introl E)).
  - intros [Hid|Hid]; done.
  - intros Hs. destruct (I8 Hs) as [E'|[E' _]]; congruence.
  - rewrite P1. intros _ []%elem_of_nil.
  - unfold lifeline in *. simpl. rewrite filter_app. rewrite E in I11. by rewrite I11.
Qed.

Lemma consume_ok s n : inv s → 0 <= n <= zlen (content (inputBuffer_ s)) → ∃ s', consume n s = Ok s' ∧ inv s'.
Proof.
  intros [I1 I2 I3 I4 I5 I6 I7 I8 I9 I10 I11] Hn. unfold consume.
  destruct (buf_retrieve_string (inputBuffer_ s) I1 n Hn) as (b & -> & Hb & Hc). simpl.
  eexists. split; [reflexivity|]. split; try done. simpl. by rewrite I4, Hc, <-app_assoc, take_drop.
Qed.

Lemma shutdown_ok b s : inv s → inv (shutdown b s).
Proof.
  intros Hi. unfold shutdown, connected. case_bool_decide as E; [|done].
  assert (Ho : open s = true) by (apply open_cases; auto).
  assert (H1 : inv (set_state kDisconnecting s)) by (apply set_disconnecting; [done..|]; by apply open_shut).
  destruct b; [apply shutdownInLoop_ok; auto|by apply inv_queue].
Qed.

Lemma conn_step_ok s o : inv s → legal s o → ∃ s', step s o = Ok s' ∧ inv s'.
Proof.
  intros Hi Hl. destruct o as [|b d w|b| | | |b|b|r rd w|w|n|]; simpl in *.
  - by apply connectEstablished_ok.
  - unfold send, connected. case_bool_decide as E; [|eauto].
    assert (Hn : state_ s ≠ kConnecting) by congruence.
    destruct b; [destruct (Hl eq_refl); destruct (sendInLoop_ok s d w) as (s' & ? & ? & _); eauto|].
    eexists. split; [reflexivity|]. by apply inv_queue.
  - eexists. split; [reflexivity|]. by apply shutdown_ok.
  - eexists. split; [reflexivity|]. by apply forceClose_ok.
  - eexists. split; [reflexivity|]. unfold forceCloseWithDelay. destruct (open s) eqn:Ho; [|done].
    apply inv_delayed; [|done]. apply set_disconnecting; [done..|]. by apply open_shut.
  - eexists. split; [reflexivity|]. destruct (delayed s) eqn:Ed; [done|]. apply forceClose_ok, inv_delayed; [done|].
    intros E. destruct (c_new s Hi E) as (_ & ? & _). congruence.
  - eexists. split; [reflexivity|]. destruct b; simpl; [by apply startReadInLoop_ok|by apply inv_queue].
  - eexists. split; [reflexivity|]. destruct b; simpl; [by apply stopReadInLoop_ok|by apply inv_queue].
  - destruct Hl as (H1 & H2 & H3 & H4 & H5).
    destruct (handle_event_ok s r rd w Hi H1 H2 H3 H4 H5) as (s' & ? & ? & _). eauto.
  - by apply run_functor_ok.
  - by apply consume_ok.
  - destruct Hl as [H1 H2]. destruct (connectDestroyed_ok s Hi H1 H2) as (s' & ? & ? & _). eauto.
Qed.

Lemma conn_run_ok l s : inv s → legal_run s l → ∃ s', run s l = Ok s' ∧ inv s'.
Proof.
  revert s. induction l as [|o l IH]; intros s Hi Hl; simpl; [eauto|].
  destruct Hl as [Ho Hl]. destruct (conn_step_ok s o Hi Ho) as (s1 & E & H1). rewrite E. simpl.
  by apply IH; [|apply Hl].
Qed.

(** ** Properties *)

(** [s] is reached from a fresh connection by legal operations. *)
Definition reached (fd : Z) (wc hw : bool) (l : list op) (s : Conn) : Prop :=
  ∃ s0, newTcpConnection fd wc hw = Ok s0 ∧ legal_run s0 l ∧ run s0 l = Ok s.

Lemma reached_inv fd wc hw l s : reached fd wc hw l s → inv s.
Proof.
  intros (s0 & E & Hl & Hr). destruct (inv_newTcpConnection fd wc hw) as (s1 & E1 & Hi & _).
  rewrite E in E1. injection E1 as <-. destruct (conn_run_ok l s0 Hi Hl) as (s' & E' & ?). congruence.
Qed.


(** [handleWrite] called with the kernel taking [ns] bytes in turn. *)
Fixpoint writes (s : Conn) (ns : list Z) : res Conn :=
  match ns with
  | [] => Ok s
  | n :: ns => s ← handleWrite (WOk n) s; writes s ns
  end.
Definition total (ns : list Z) : Z := foldr Z.add 0 ns.

(** One [handleWrite] in the shutting-down state. *)
Lemma handleWrite_flush s n : inv s → state_ s = kDisconnecting → shut s = false →
  0 < n <= zlen (content (outputBuffer_ s)) →
  ∃ s', handleWrite (WOk n) s = Ok s' ∧ inv s' ∧ state_ s' = kDisconnecting ∧ accepted s' = accepted s
    ∧ content (outputBuffer_ s') = drop (Z.to_nat n) (content (outputBuffer_ s))
    ∧ shut s' = bool_decide (content (outputBuffer_ s') = []).
Proof.
  intros Hi Hst Hsh Hn. destruct (handleWrite_ok s (WOk n) Hi) as (s' & E & Hi' & Es); [by split; [lia|]|].
  exists s'. split; [done|]. split; [done|]. split; [congruence|].
  pose proof Hi as [I1 I2 I3 I4 I5 I6 I7 I8 I9 I10 I11].
  assert (Hne : content (outputBuffer_ s) ≠ []) by (intros Ec; rewrite Ec in Hn; unfold zlen in Hn; simpl in Hn; lia).
  assert (Ho : open s = true) by (apply open_cases; auto).
  assert (Ew : isWriting (channel_ s) = true) by (by rewrite I5, Ho, bool_decide_eq_false_2).
  destruct (buf_retrieve (outputBuffer_ s) I2 n) as (b & Eb & Hb & Hc); [lia|].
  unfold handleWrite in E. rewrite Ew, (buf_peek _ I2) in E. simpl in E.
  rewrite (proj2 (Z.ltb_lt 0 n)), Eb in E by lia. simpl in E. rewrite (buf_readable b Hb) in E.
  destruct (zlen (content b) =? 0) eqn:Ez; injection E as <-.
  - apply Z.eqb_eq, zlen_zero_inv in Ez. unfold shutdownInLoop.
    destruct (hasWriteComplete s); simpl; rewrite Hst; simpl;
      change (isWriting (setAdded true (disableWriting (channel_ s)))) with (isWriting (disableWriting (channel_ s)));
      rewrite (proj2 (isWriting_enable _)); simpl; by rewrite Ez, <-Hc, bool_decide_eq_true_2.
  - simpl. rewrite Hsh, bool_decide_eq_false_2; [done|]. intros E. by rewrite E in Ez.
Qed.

Lemma writes_flush ns : ∀ s, inv s → state_ s = kDisconnecting → shut s = false →
  content (outputBuffer_ s) ≠ [] → Forall (λ n, 0 < n) ns → total ns = zlen (content (outputBuffer_ s)) →
  ∃ s', writes s ns = Ok s' ∧ shut s' = true ∧ sent s' = accepted s ∧ accepted s' = accepted s.
Proof.
  induction ns as [|n ns IH]; intros s Hi Hst Hsh Hne Hpos Ht.
  { destruct Hne. apply zlen_zero_inv. by rewrite <-Ht. }
  apply Forall_cons in Hpos as [Hn Hpos]. simpl in Ht.
  assert (Htot : 0 <= total ns ∧ (ns ≠ [] → 0 < total ns)).
  { clear -Hpos. induction Hpos as [|m ns Hm _ [IH1 IH2]]; simpl; [split; [lia|done]|]. split; lia. }
  destruct (handleWrite_flush s n Hi Hst Hsh) as (s1 & E1 & H1 & Hs1 & Ha & Hc & Hsh1); [lia|].
  simpl. rewrite E1. simpl.
  assert (Hl : zlen (content (outputBuffer_ s1)) = total ns).
  { rewrite Hc. unfold zlen in *. rewrite length_drop. lia. }
  destruct ns as [|m ns].
  - simpl in Hl. apply zlen_zero_inv in Hl. rewrite bool_decide_eq_true_2 in Hsh1 by done.
    exists s1. split_and!; try done. rewrite <-Ha. by rewrite (c_stream s1 H1), Hl, app_nil_r.
  - assert (Hne1 : content (outputBuffer_ s1) ≠ []).
    { intros Ec. rewrite Ec, zlen_nil in Hl. destruct Htot as [_ Htot]. specialize (Htot ltac:(done)). lia. }
    rewrite bool_decide_eq_false_2 in Hsh1 by done.
    destruct (IH s1 H1 Hs1 Hsh1 Hne1 Hpos (eq_sym Hl)) as (s' & E' & ? & ? & ?).
    exists s'. split_and!; congruence.
Qed.


(** C37: two ways to take a connection down fail an assertion: destroying it
    while it is shutting down and still watched (as the destructor of a server
    does), and destroying it after [startRead] ran on the closed connection. *)
Theorem connection_teardown_hazards fd wc hw l s :
  reached fd wc hw l s →
  (state_ s = kDisconnecting → isNoneEvent (channel_ s) = false → connectDestroyed s = Err AssertFailed)
  ∧ (state_ s = kDisconnected → connectDestroyed (startReadInLoop s) = Err AssertFailed).
Proof.
  intros Hr%reached_inv. split; intros E.
  - intros Hn. unfold connectDestroyed, connected, channel_remove.
    rewrite bool_decide_eq_false_2 by (by rewrite E). by rewrite Hn.
  - unfold startReadInLoop, isReading. rewrite (c_none s Hr) by (by right). change (has 0 kReadEvent) with false.
    rewrite orb_true_r. unfold connectDestroyed, connected, channel_remove. simpl.
    rewrite bool_decide_eq_false_2 by (by rewrite E). unfold isNoneEvent. simpl.
    by rewrite (c_none s Hr) by (by right).
Qed.

(** ** Witnesses *)

Module Witness.

Definition get (d : Conn) (r : res Conn) : Conn := match r with Ok s => s | Err _ => d end.
Definition blank : Conn :=
  mkConn kConnecting true (newChannel 5) (mkBuffer [] 0 0) (mkBuffer [] 0 0) 0 false false [] 0 false [] [] [] [] [].
(** A connection that sends two bytes, of which the kernel takes one, and shuts down. *)
Definition hello : bytes := ["h"; "i"]%char.
Definition s0 : Conn := get blank (newTcpConnection 5 true true).
Definition s1 : Conn := get blank (step s0 OpEstablish).
Definition s2 : Conn := get blank (step s1 (OpSend true hello (WOk 1))).
Definition s3 : Conn := get blank (step s2 (OpShutdown true)).
Definition ops : list op := [OpEstablish; OpSend true hello (WOk 1); OpShutdown true].

Lemma s0_new : newTcpConnection 5 true true = Ok s0.
Proof. vm_compute. reflexivity. Qed.

Lemma legal_run_cons s o s' l : legal s o → step s o = Ok s' → legal_run s' l → legal_run s (o :: l).
Proof. intros Ho E Hl. split; [done|]. intros s'' E'. rewrite E in E'. by injection E' as <-. Qed.

Lemma conn_ops_legal : legal_run s0 ops.
Proof.
  apply (legal_run_cons _ _ s1); [vm_compute; reflexivity..|].
  apply (legal_run_cons _ _ s2); [|vm_compute; reflexivity|].
  { intros _. split; [split; [|vm_compute; reflexivity]|]; [split|]; vm_compute; discriminate. }
  apply (legal_run_cons _ _ s3); [exact I|vm_compute; reflexivity|exact I].
Qed.

Lemma ops_run : run s0 ops = Ok s3.
Proof. vm_compute. reflexivity. Qed.

Lemma s3_reached : reached 5 true true ops s3.
Proof. exists s0. split; [apply s0_new|]. split; [apply conn_ops_legal|apply ops_run]. Qed.

End Witness.



Lemma connection_teardown_hazards_witness :
  reached 5 true true Witness.ops Witness.s3 ∧ connectDestroyed Witness.s3 = Err AssertFailed.
Proof.
  split; [apply Witness.s3_reached|].
  destruct (connection_teardown_hazards 5 true true Witness.ops Witness.s3 Witness.s3_reached) as [H _].
  apply H; vm_compute; reflexivity.
Defined.
