(* ===== verification/ConnLife.v ===== *)
(** * What an operation of a connection can change

    Every operation of [TcpConnection] other than the two of its owner either
    keeps the stage of the connection or closes it, calling [closeCallback_] once.
    The server and the client rely on this. *)

From S2P Require Import Prelude Endian Buffer Channel TcpConnection.
Local Open Scope Z_scope.

Definition is_close (e : event) : bool := match e with EvClose => true | _ => false end.
(** How often [closeCallback_] has been called. *)
Definition closes (s : Conn) : nat := length (filter (λ e, is_close e = true) (log s)).

Definition kept (s s' : Conn) : Prop :=
  open s' = open s ∧ (state_ s' = kDisconnected ↔ state_ s = kDisconnected) ∧ closes s' = closes s
  ∧ (addedToLoop_ (channel_ s) = true → addedToLoop_ (channel_ s') = true).
Definition closed (s s' : Conn) : Prop :=
  open s = true ∧ state_ s' = kDisconnected ∧ closes s' = S (closes s) ∧ addedToLoop_ (channel_ s') = true.
Definition evolves (s s' : Conn) : Prop := kept s s' ∨ closed s s'.

Lemma kept_refl s : kept s s.
Proof. by split_and!. Qed.
Lemma kept_trans s1 s2 s3 : kept s1 s2 → kept s2 s3 → kept s1 s3.
Proof.
  intros (A1 & A2 & A3 & A4) (B1 & B2 & B3 & B4). split_and!; [congruence|by rewrite B2|congruence|auto].
Qed.
Lemma evolves_trans s1 s2 s3 : evolves s1 s2 → evolves s2 s3 → evolves s1 s3.
Proof.
  intros [A|A] [B|B].
  - left. by eapply kept_trans.
  - right. destruct A as (A1 & A2 & A3 & A4), B as (B1 & B2 & B3 & B4). split_and!; congruence.
  - right. destruct A as (A1 & A2 & A3 & A4), B as (B1 & B2 & B3 & B4). split_and!; [done|by apply B2|congruence|auto].
  - destruct A as (_ & A & _), B as (B & _). apply open_cases in B. rewrite A in B. by destruct B.
Qed.

Lemma closes_note e s : closes (note e s) = (closes s + if is_close e then 1 else 0)%nat.
Proof.
  unfold closes. simpl. rewrite filter_app, length_app. f_equal. by destruct e.
Qed.

Lemma kept_note e s : is_close e = false → kept s (note e s).
Proof. intros He. split_and!; try done. by rewrite closes_note, He, Nat.add_0_r. Qed.

Lemma kept_disconnecting s : open s = true → kept s (set_state kDisconnecting s).
Proof.
  intros Ho. split_and!; try done. simpl. split; [done|]. intros E. apply open_cases in Ho. rewrite E in Ho.
  by destruct Ho.
Qed.

Lemma kept_send_direct w d s a b c s' : send_direct w d s = (a, b, c, s') → kept s s'.
Proof.
  unfold send_direct. destruct (_ && _); [|by intros [= <- <- <- <-]; apply kept_refl].
  destruct w; [|by intros [= <- <- <- <-]; apply kept_refl].
  intros [= <- <- <- <-]. by destruct (_ && _).
Qed.

Lemma kept_send_rest d n r s s' : send_rest d n r s = Ok s' → kept s s'.
Proof.
  unfold send_rest. intros H. apply bind_ok_inv in H as (b & _ & H). injection H as <-.
  set (s1 := if (_ && _)%bool then queue _ s else s).
  assert (H1 : kept s s1) by (subst s1; by destruct (_ && _)).
  eapply kept_trans; [exact H1|]. by destruct (negb _).
Qed.

Lemma kept_sendInLoop w d s s' : sendInLoop w d s = Ok s' → kept s s'.
Proof.
  unfold sendInLoop. case_bool_decide as Hd; [by intros [= <-]; apply kept_refl|].
  destruct (send_direct w d s) as [[[n r] f] s1] eqn:E. apply kept_send_direct in E.
  intros H. apply bind_ok_inv in H as (_ & _ & H). destruct (_ && _); [|by injection H as <-].
  eapply kept_trans; [done|]. by eapply kept_send_rest.
Qed.

Lemma kept_shutdownInLoop s : kept s (shutdownInLoop s).
Proof. unfold shutdownInLoop. by destruct (negb _). Qed.

Lemma connected_open s : connected s = true → open s = true.
Proof. intros H%bool_decide_eq_true. apply open_cases. by left. Qed.

Lemma kept_shutdown b s : kept s (shutdown b s).
Proof.
  unfold shutdown. destruct (connected s) eqn:E; [|apply kept_refl].
  eapply kept_trans; [by apply kept_disconnecting, connected_open|].
  destruct b; [apply kept_shutdownInLoop|done].
Qed.

Lemma kept_forceClose s : kept s (forceClose s).
Proof.
  unfold forceClose. destruct (open s) eqn:E; [|apply kept_refl].
  eapply kept_trans; [by apply kept_disconnecting|done].
Qed.

Lemma closed_handleClose s s' : handleClose s = Ok s' → closed s s'.
Proof.
  unfold handleClose. intros H. apply bind_ok_inv in H as (u & Ho & H). injection H as <-.
  split_and!; try done; [by destruct (open s)|]. rewrite closes_note, closes_note. simpl. unfold closes. simpl. lia.
Qed.

Lemma kept_handleWrite w s s' : handleWrite w s = Ok s' → kept s s'.
Proof.
  unfold handleWrite. destruct (isWriting _); [|by intros [= <-]; apply kept_refl].
  intros H. apply bind_ok_inv in H as (d & _ & H). destruct w as [n|]; [|injection H as <-; apply kept_refl].
  destruct (0 <? n); [|injection H as <-; apply kept_refl].
  apply bind_ok_inv in H as (b & _ & H). destruct (_ =? 0); [|by injection H as <-]. injection H as <-.
  set (s1 := update_with disableWriting _). set (s2 := if hasWriteComplete s1 then queue FWriteComplete s1 else s1).
  assert (H2 : kept s s2) by (subst s2; by destruct (hasWriteComplete s1)).
  eapply kept_trans; [exact H2|]. case_bool_decide; [apply kept_shutdownInLoop|apply kept_refl].
Qed.

Lemma evolves_handleRead readv s s' : handleRead readv s = Ok s' → evolves s s'.
Proof.
  unfold handleRead. intros H. apply bind_ok_inv in H as ([[n e] b] & _ & H).
  set (s1 := set_input _ _ _ s) in H. assert (H1 : kept s s1) by done.
  destruct (0 <? n).
  { injection H as <-. left. eapply kept_trans; [exact H1|by apply kept_note]. }
  destruct (n =? 0).
  - eapply evolves_trans; [left; exact H1|right; by apply closed_handleClose].
  - injection H as <-. left. eapply kept_trans; [exact H1|by apply kept_note].
Qed.

Lemma evolves_callbacks readv w l s s' : callbacks_run readv w s l = Ok s' → evolves s s'.
Proof.
  revert s. induction l as [|k l IH]; intros s H; simpl in H.
  { injection H as <-. left. apply kept_refl. }
  apply bind_ok_inv in H as (s1 & E & H). eapply evolves_trans; [|by apply IH].
  destruct k; simpl in E.
  - right. by apply closed_handleClose.
  - injection E as <-. left. by apply kept_note.
  - by eapply evolves_handleRead.
  - left. by eapply kept_handleWrite.
Qed.

Lemma kept_stopReadInLoop s : kept s (stopReadInLoop s).
Proof. unfold stopReadInLoop. by destruct (_ || _). Qed.
Lemma kept_startReadInLoop s : kept s (startReadInLoop s).
Proof. unfold startReadInLoop. by destruct (_ || _). Qed.

Lemma evolves_functor w s s' : run_functor w s = Ok s' → evolves s s'.
Proof.
  unfold run_functor. destruct (pending s) as [|f l]; [intros [= <-]; left; apply kept_refl|].
  set (s1 := set_pending l s). intros H. eapply (evolves_trans s s1); [by left|]. clearbody s1. destruct f.
  - left. by eapply kept_sendInLoop.
  - injection H as <-. left. apply kept_shutdownInLoop.
  - unfold forceCloseInLoop in H. destruct (open s1); [right; by apply closed_handleClose|].
    injection H as <-. left. apply kept_refl.
  - injection H as <-. left. apply kept_startReadInLoop.
  - injection H as <-. left. apply kept_stopReadInLoop.
  - injection H as <-. left. by apply kept_note.
  - injection H as <-. left. by apply kept_note.
Qed.

(** The operations of the user, the poller and the timers, as opposed to those
    of the server. *)
Definition user_op (o : op) : bool := match o with OpEstablish | OpDestroy => false | _ => true end.

Lemma step_evolves s o s' : user_op o = true → step s o = Ok s' → evolves s s'.
Proof.
  intros Hu H. destruct o; simpl in *; try done.
  - left. unfold send in H. destruct (connected s); [|injection H as <-; apply kept_refl].
    destruct inLoopThread; [by eapply kept_sendInLoop|by injection H as <-].
  - injection H as <-. left. apply kept_shutdown.
  - injection H as <-. left. apply kept_forceClose.
  - injection H as <-. left. unfold forceCloseWithDelay. destruct (open s) eqn:E; [|apply kept_refl].
    eapply kept_trans; [by apply kept_disconnecting|done].
  - injection H as <-. left. destruct (delayed s); [apply kept_refl|].
    eapply kept_trans; [|apply kept_forceClose]. done.
  - injection H as <-. left. destruct inLoopThread; [apply kept_startReadInLoop|done].
  - injection H as <-. left. destruct inLoopThread; [apply kept_stopReadInLoop|done].
  - eapply evolves_trans; [|by eapply evolves_callbacks]. by left.
  - by eapply evolves_functor.
  - left. unfold consume in H. apply bind_ok_inv in H as ([d b] & _ & H). by injection H as <-.
Qed.

