(* ===== verification/InetAddress.v ===== *)
(** * Socket addresses (fishnet/net/inet_address.h, inet_address.cc, sockets_ops.cc, socket.cc)

    [InetAddress] is a union of [sockaddr_in] and [sockaddr_in6]: the model keeps
    the 28 bytes of it, so that reading one member after writing the other gives
    what it gives in memory. The IPv4 conversions of [inet_pton] and [inet_ntop]
    are defined here; the IPv6 ones are the operations of a class with the
    properties POSIX documents. *)

From S2P Require Import Prelude Endian Printf.
Local Open Scope Z_scope.

(** ** Memory of a socket address *)

Definition get (off n : nat) (m : bytes) : bytes := take n (drop off m).
Definition put (off : nat) (d m : bytes) : bytes := take off m ++ d ++ drop (off + length d) m.
Definition zeros (n : nat) : bytes := replicate n Ascii.zero.

Definition sizeof_in : nat := 16.
Definition sizeof_in6 : nat := 28.
Definition AF_INET : Z := 2.
Definition AF_INET6 : Z := 10.
Definition INET_ADDRSTRLEN : Z := 16.
Definition INET6_ADDRSTRLEN : Z := 46.

(** The address members in memory order: [sin_addr] and [sin6_addr]. *)
Definition sin_addr (m : bytes) : bytes := get 4 4 m.
Definition sin6_addr (m : bytes) : bytes := get 8 16 m.

(** ** Text conversions of the C library *)

Fixpoint split_on (c : ascii) (s : bytes) : list bytes :=
  match s with
  | [] => [[]]
  | x :: s =>
      if bool_decide (x = c) then [] :: split_on c s
      else match split_on c s with
           | w :: l => (x :: w) :: l
           | [] => [[x]]
           end
  end.

(** One number of a dotted quad: one to three digits, no leading zero, below 256. *)
Definition octet (w : bytes) : option ascii :=
  match w with
  | [] => None
  | c :: t =>
      if bool_decide (c = "0"%char ∧ t ≠ []) then None else
      n ← read_digits 0 w;
      if n <=? 255 then Some (Zbyte n) else None
  end.

(** [inet_pton(AF_INET, ...)] and [inet_ntop(AF_INET, ...)] *)
Definition pton4 (s : bytes) : option bytes :=
  match split_on "."%char s with
  | [a; b; c; d] =>
      a ← octet a; b ← octet b; c ← octet c; d ← octet d; Some [a; b; c; d]
  | _ => None
  end.
Definition dot (s t : bytes) : bytes := s ++ "."%char :: t.
Definition ntop4 (m : bytes) : bytes :=
  match m with
  | [a; b; c; d] =>
      dot (dec_nonneg (byteZ a)) (dot (dec_nonneg (byteZ b)) (dot (dec_nonneg (byteZ c)) (dec_nonneg (byteZ d))))
  | _ => []
  end.

(** [inet_pton(AF_INET6, ...)] and [inet_ntop(AF_INET6, ...)] *)
Class Inet6 := {
  pton6 : bytes → option bytes;
  ntop6 : bytes → bytes;
  pton6_length s a : pton6 s = Some a → length a = 16%nat;
  ntop6_length a : zlen (ntop6 a) < INET6_ADDRSTRLEN;
  pton6_ntop6 a : length a = 16%nat → pton6 (ntop6 a) = Some a }.

(** ** Operations *)

Section inet.
Context `{Host} `{Inet6}.

Definition family (m : bytes) : Z := host_value (get 0 2 m).
Definition portNetEndian (m : bytes) : Z := host_value (get 2 2 m).
Definition set_family (f : Z) (m : bytes) : bytes := put 0 (host_bytes 2 f) m.
Definition set_port (p : Z) (m : bytes) : bytes := put 2 (host_bytes 2 p) m.

Definition kInaddrAny : Z := 0.
Definition kInaddrLoopback : Z := 0x7f000001.
Definition in6addr_any : bytes := zeros 16.
Definition in6addr_loopback : bytes := zeros 15 ++ [Zbyte 1].

(** The constructor from a port; [m0] is the uninitialised memory of the object. *)
Definition newInetAddress_port (m0 : bytes) (portArg : Z) (loopbackOnly ipv6 : bool) : bytes :=
  if ipv6 then
    let m := put 0 (zeros sizeof_in6) m0 in
    let m := set_family AF_INET6 m in
    let m := put 8 (if loopbackOnly then in6addr_loopback else in6addr_any) m in
    set_port (hostToNetwork16 portArg) m
  else
    let m := put 0 (zeros sizeof_in) m0 in
    let m := set_family AF_INET m in
    let m := put 4 (host_bytes 4 (hostToNetwork32 (if loopbackOnly then kInaddrLoopback else kInaddrAny))) m in
    set_port (hostToNetwork16 portArg) m.

(** The two overloads of [fromIpPort]; a text that does not parse is only logged. *)
Definition fromIpPort4 (ip : bytes) (port : Z) (m : bytes) : bytes :=
  let m := set_family AF_INET m in
  let m := set_port (hostToNetwork16 port) m in
  match pton4 ip with Some a => put 4 a m | None => m end.
Definition fromIpPort6 (ip : bytes) (port : Z) (m : bytes) : bytes :=
  let m := set_family AF_INET6 m in
  let m := set_port (hostToNetwork16 port) m in
  match pton6 ip with Some a => put 8 a m | None => m end.

(** The constructor from an address text; [ip.c_str()] is a C string. *)
Definition newInetAddress (m0 ip : bytes) (portArg : Z) (ipv6 : bool) : bytes :=
  if ipv6 || bool_decide (":"%char ∈ ip)
  then fromIpPort6 ip portArg (put 0 (zeros sizeof_in6) m0)
  else fromIpPort4 ip portArg (put 0 (zeros sizeof_in) m0).

(** What [inet_ntop] leaves in a buffer of [size] bytes that held the empty
    string: the text, or nothing when it does not fit. *)
Definition ntop_into (size : Z) (t : bytes) : bytes := if zlen t <? size then t else [].

Definition sockets_toIp (size : Z) (m : bytes) : res bytes :=
  if family m =? AF_INET then
    assertb (INET_ADDRSTRLEN <=? size);;
    Ok (ntop_into size (ntop4 (get 2 4 m)))
  else if family m =? AF_INET6 then
    assertb (INET6_ADDRSTRLEN <=? size);;
    Ok (ntop_into size (ntop6 (sin6_addr m)))
  else Ok [].

Definition sockets_toIpPort (size : Z) (m : bytes) : res bytes :=
  let port := networkToHost16 (portNetEndian m) in
  if family m =? AF_INET6 then
    ip ← sockets_toIp (size - 1) m;
    let buf := "["%char :: ip in
    assertb (zlen buf <? size);;
    Ok (buf ++ snprintf (Z.to_nat (size - zlen buf)) (str "]:" ++ dec port))
  else
    buf ← sockets_toIp size m;
    assertb (zlen buf <? size);;
    Ok (buf ++ snprintf (Z.to_nat (size - zlen buf)) (str ":" ++ dec port)).

Definition toIp (m : bytes) : res bytes := sockets_toIp 64 m.
Definition toIpPort (m : bytes) : res bytes := sockets_toIpPort 64 m.
Definition port (m : bytes) : Z := networkToHost16 (portNetEndian m).
Definition ipv4NetEndian (m : bytes) : res Z :=
  assertb (family m =? AF_INET);; Ok (host_value (sin_addr m)).
Definition setScopeId (scope_id : Z) (m : bytes) : bytes :=
  if family m =? AF_INET6 then put 24 (host_bytes 4 scope_id) m else m.

(** [resolve]: [ret] and [he] are what [gethostbyname_r] gives, the entry as its
    address type and the first address. *)
Definition resolve (ret : Z) (he : option (Z * bytes)) (m : bytes) : res (bool * bytes) :=
  match he with
  | Some (h_addrtype, h_addr) =>
      if ret =? 0 then
        assertb ((h_addrtype =? AF_INET) && (zlen h_addr =? 4));;
        Ok (true, put 4 h_addr m)
      else Ok (false, m)
  | None => Ok (false, m)
  end.

(** [isSelfConnect] on the addresses of [getsockname] and [getpeername]. *)
Definition isSelfConnect (localaddr peeraddr : bytes) : bool :=
  if family localaddr =? AF_INET then
    (portNetEndian localaddr =? portNetEndian peeraddr)
    && (host_value (sin_addr localaddr) =? host_value (sin_addr peeraddr))
  else if family localaddr =? AF_INET6 then
    (portNetEndian localaddr =? portNetEndian peeraddr)
    && bool_decide (sin6_addr localaddr = sin6_addr peeraddr)
  else false.

End inet.

(** ** Lemmas on the memory *)

Lemma length_put off d m : (off + length d <= length m)%nat → length (put off d m) = length m.
Proof. intros. unfold put. rewrite !length_app, length_take, length_drop. lia. Qed.

Lemma get_put_same off n d m : length d = n → (off + n <= length m)%nat → get off n (put off d m) = d.
Proof.
  intros <- ?. unfold get, put. rewrite drop_app_ge by (rewrite length_take; lia).
  rewrite length_take, Nat.min_l by lia. by rewrite Nat.sub_diag, drop_0, take_app_length.
Qed.

(** A field is unchanged by a write that does not touch it. *)
Lemma get_put_other off n off' d m : (off' + length d <= length m)%nat →
  (off + n <= off' ∨ off' + length d <= off)%nat → get off n (put off' d m) = get off n m.
Proof.
  intros Hl Hd. apply list_eq. intros i. unfold get, put. destruct (decide (i < n)%nat).
  - rewrite !lookup_take_lt, !lookup_drop by done. destruct Hd.
    + rewrite lookup_app_l by (rewrite length_take; lia). by rewrite lookup_take_lt by lia.
    + rewrite lookup_app_r by (rewrite length_take; lia). rewrite length_take, Nat.min_l by lia.
      rewrite lookup_app_r by lia. rewrite lookup_drop. f_equal. lia.
  - by rewrite !lookup_take_ge by lia.
Qed.

(** A field inside a written block. *)
Lemma get_put_inside off n off' d m : (off' + length d <= length m)%nat →
  (off' <= off ∧ off + n <= off' + length d)%nat → get off n (put off' d m) = get (off - off') n d.
Proof.
  intros Hl Hd. apply list_eq. intros i. unfold get, put. destruct (decide (i < n)%nat).
  - rewrite !lookup_take_lt, !lookup_drop by done.
    rewrite lookup_app_r by (rewrite length_take; lia). rewrite length_take, Nat.min_l by lia.
    rewrite lookup_app_l by lia. f_equal. lia.
  - by rewrite !lookup_take_ge by lia.
Qed.

Lemma get_zeros off n k : (off + n <= k)%nat → get off n (zeros k) = zeros n.
Proof. intros. unfold get, zeros. rewrite drop_replicate, take_replicate. f_equal. lia. Qed.

Lemma length_zeros n : length (zeros n) = n.
Proof. apply length_replicate. Qed.

Lemma get_split off n k m : get off (n + k) m = get off n m ++ get (off + n) k m.
Proof. unfold get. by rewrite <-(drop_drop m n off), take_take_drop. Qed.

(** ** Dotted quads *)

Lemma octet_dec a : octet (dec_nonneg (byteZ a)) = Some a.
Proof. destruct a as [[] [] [] [] [] [] [] []]; vm_compute; reflexivity. Qed.

Lemma digits_avoid c n : digit_value c = None → c ∉ dec_nonneg n.
Proof.
  intros Hc Hin. pose proof (dec_nonneg_isdigit n) as Hd. rewrite Forall_forall in Hd.
  destruct (Hd c Hin). congruence.
Qed.

Lemma split_on_none c s : c ∉ s → split_on c s = [s].
Proof.
  induction s as [|x s IH]; intros Hn; [done|]. apply not_elem_of_cons in Hn as [Hx Hs]. simpl.
  rewrite bool_decide_eq_false_2 by congruence. by rewrite IH.
Qed.
Lemma split_on_dot s t : "."%char ∉ s → split_on "."%char (dot s t) = s :: split_on "."%char t.
Proof.
  unfold dot. induction s as [|x s IH]; intros Hn; [done|]. apply not_elem_of_cons in Hn as [Hx Hs].
  simpl. rewrite bool_decide_eq_false_2 by congruence. by rewrite IH.
Qed.

Lemma pton4_ntop4 a b c d : pton4 (ntop4 [a; b; c; d]) = Some [a; b; c; d].
Proof.
  unfold pton4, ntop4. rewrite !split_on_dot, split_on_none by (by apply digits_avoid).
  by rewrite !octet_dec.
Qed.

Lemma length_dec_byte a : zlen (dec_nonneg (byteZ a)) <= 3.
Proof. destruct a as [[] [] [] [] [] [] [] []]; vm_compute; discriminate. Qed.

Lemma ntop4_length m : zlen (ntop4 m) < INET_ADDRSTRLEN.
Proof.
  unfold INET_ADDRSTRLEN. destruct m as [|a [|b [|c [|d [|]]]]]; try (by vm_compute).
  unfold ntop4, dot. pose proof (length_dec_byte a). pose proof (length_dec_byte b).
  pose proof (length_dec_byte c). pose proof (length_dec_byte d). zlen_lia.
Qed.

Lemma ntop4_no_colon m : ":"%char ∉ ntop4 m.
Proof.
  assert (Hd : ∀ s t, ":"%char ∉ s → ":"%char ∉ t → ":"%char ∉ dot s t).
  { intros s t Hs Ht. unfold dot. rewrite elem_of_app, elem_of_cons. naive_solver. }
  destruct m as [|a [|b [|c [|d [|]]]]]; try (apply not_elem_of_nil).
  unfold ntop4. repeat apply Hd; by apply digits_avoid.
Qed.

(** ** Properties *)

Section inet_properties.
Context `{Host} `{Inet6}.
Implicit Types m : bytes.

(** What the accessors see of a memory. *)
Record is_addr (m : bytes) (f p : Z) : Prop := {
  addr_len : length m = sizeof_in6;
  addr_family : family m = f;
  addr_port : get 2 2 m = be_bytes 2 p }.

Lemma family_value f : 0 <= f < 2 ^ 16 → host_value (host_bytes 2 f) = f.
Proof.
  intros Hf. unfold host_value, host_bytes. destruct host_big; [rewrite be_value_bytes|rewrite le_value_bytes];
  by rewrite wrapu_small by (simpl; lia).
Qed.

Lemma port_bytes p : host_bytes 2 (hostToNetwork16 p) = be_bytes 2 p.
Proof.
  unfold hostToNetwork16. rewrite host_bytes_htobe. unfold be_bytes. f_equal.
  rewrite <-(le_bytes_wrapu 2 (u32 p)), <-(le_bytes_wrapu 2 p). f_equal.
  unfold wrapu. change (2 ^ (8 * Z.of_nat 2)) with 65536. dlia.
Qed.

Lemma port_of m f p : is_addr m f p → 0 <= p < 65536 → port m = p.
Proof.
  intros [? ? Hp] ?. unfold port, portNetEndian, networkToHost16. rewrite Hp.
  rewrite (wrapu_small 16).
  - change 2%nat with (length (be_bytes 2 p)) at 1. rewrite htobe_host_value, be_value_bytes.
    by rewrite wrapu_small by (simpl; lia).
  - pose proof (host_value_range (be_bytes 2 p)). by rewrite zlen_be_bytes in *.
Qed.

(** Setting the family and the port of a memory. *)
Lemma is_addr_set m f p : length m = sizeof_in6 → 0 <= f < 2 ^ 16 →
  is_addr (set_port (hostToNetwork16 p) (set_family f m)) f p.
Proof.
  intros Hl Hf. unfold set_port, set_family. unfold sizeof_in6 in *. rewrite port_bytes.
  assert (Hm : length (put 0 (host_bytes 2 f) m) = 28%nat)
    by (rewrite length_put; rewrite ?length_host_bytes; lia).
  assert (H2 := length_be_bytes 2 p). assert (H2' := length_host_bytes 2 f).
  split.
  - unfold sizeof_in6. rewrite length_put; lia.
  - unfold family. rewrite get_put_other by lia. rewrite get_put_same by lia.
    by apply family_value.
  - by rewrite get_put_same by lia.
Qed.

Lemma is_addr_put m f p off d : is_addr m f p → (4 <= off)%nat → (off + length d <= 28)%nat →
  is_addr (put off d m) f p.
Proof.
  intros [Hl Hf Hp] ? ?. unfold sizeof_in6 in *. split.
  - unfold sizeof_in6. rewrite length_put; lia.
  - unfold family. rewrite get_put_other by lia. done.
  - rewrite get_put_other by lia. done.
Qed.

Lemma get_header m f p off n : length m = sizeof_in6 → (4 <= off)%nat →
  get off n (set_port p (set_family f m)) = get off n m.
Proof.
  intros Hl Ho. unfold set_port, set_family, sizeof_in6 in *.
  assert (H1 := length_host_bytes 2 p). assert (H2 := length_host_bytes 2 f).
  rewrite get_put_other; [|rewrite length_put; lia|lia]. apply get_put_other; lia.
Qed.

Lemma length_block k m : length m = sizeof_in6 → (k <= sizeof_in6)%nat → length (put 0 (zeros k) m) = sizeof_in6.
Proof. intros Hl ?. rewrite length_put; [done|]. rewrite length_zeros. lia. Qed.

Lemma get_block k off n m : length m = sizeof_in6 → (off + n <= k)%nat → (k <= sizeof_in6)%nat →
  get off n (put 0 (zeros k) m) = zeros n.
Proof.
  intros. rewrite get_put_inside by (rewrite length_zeros; lia).
  rewrite Nat.sub_0_r. by apply get_zeros.
Qed.

Lemma pton4_length s a : pton4 s = Some a → length a = 4%nat.
Proof.
  unfold pton4. destruct (split_on _ s) as [|x [|y [|z [|w [|]]]]]; try done.
  destruct (octet x), (octet y), (octet z), (octet w); try done. simpl. by intros [= <-].
Qed.

Lemma newInetAddress_v4 m0 ip p : length m0 = sizeof_in6 → ":"%char ∉ ip →
  let m := newInetAddress m0 ip p false in
  is_addr m AF_INET p ∧ sin_addr m = default (zeros 4) (pton4 ip).
Proof.
  intros Hl Hc. unfold newInetAddress, fromIpPort4. rewrite bool_decide_eq_false_2 by done. cbn [orb].
  assert (Hb : length (put 0 (zeros sizeof_in) m0) = sizeof_in6)
    by (apply length_block; unfold sizeof_in, sizeof_in6 in *; lia).
  pose proof (is_addr_set _ AF_INET p Hb ltac:(by vm_compute)) as Ha. pose proof Ha as [Hla _ _].
  unfold sizeof_in6 in *. unfold sin_addr. destruct (pton4 ip) as [a|] eqn:Ea; simpl.
  - pose proof (pton4_length ip a Ea). split; [apply is_addr_put; [done|lia|lia]|].
    apply get_put_same; lia.
  - split; [done|]. rewrite get_header by (done || lia).
    apply get_block; unfold sizeof_in, sizeof_in6; lia.
Qed.

Lemma newInetAddress_v6 m0 ip p v6 : length m0 = sizeof_in6 → v6 || bool_decide (":"%char ∈ ip) = true →
  let m := newInetAddress m0 ip p v6 in
  is_addr m AF_INET6 p ∧ sin6_addr m = default (zeros 16) (pton6 ip).
Proof.
  intros Hl Hc. unfold newInetAddress, fromIpPort6. rewrite Hc.
  assert (Hb : length (put 0 (zeros sizeof_in6) m0) = sizeof_in6) by (apply length_block; lia).
  pose proof (is_addr_set _ AF_INET6 p Hb ltac:(by vm_compute)) as Ha. pose proof Ha as [Hla _ _].
  unfold sin6_addr. destruct (pton6 ip) as [a|] eqn:Ea; simpl.
  - pose proof (pton6_length ip a Ea). unfold sizeof_in6 in *.
    split; [apply is_addr_put; [done|lia|lia]|]. apply get_put_same; lia.
  - split; [done|]. rewrite get_header by (done || lia).
    apply get_block; unfold sizeof_in6 in *; lia.
Qed.

(** The printed port always fits. *)
Lemma length_port q : 0 <= q < 65536 → zlen (dec q) <= 5.
Proof.
  intros Hq. unfold dec. rewrite (proj2 (Z.ltb_ge q 0)) by lia.
  pose proof (length_dec_nonneg_le 5 q ltac:(lia) ltac:(simpl; lia)). unfold zlen. lia.
Qed.

Lemma port_range m : 0 <= port m < 65536.
Proof. unfold port, networkToHost16. apply (htobe_range 2). Qed.

Lemma snprintf_fits size s : zlen s < size → snprintf (Z.to_nat size) s = s.
Proof. intros. unfold snprintf. apply take_ge. unfold zlen in *. lia. Qed.

Lemma ntop_into_fits size t : zlen t < size → ntop_into size t = t.
Proof. intros. unfold ntop_into. by rewrite (proj2 (Z.ltb_lt _ _)). Qed.

Lemma toIp_v4 m : family m = AF_INET →
  toIp m = Ok (ntop4 (get 2 4 m)) ∧ toIpPort m = Ok (ntop4 (get 2 4 m) ++ ":"%char :: dec (port m)).
Proof.
  intros Hf. pose proof (ntop4_length (get 2 4 m)) as Hn. unfold INET_ADDRSTRLEN in Hn.
  assert (Ht : sockets_toIp 64 m = Ok (ntop4 (get 2 4 m))).
  { unfold sockets_toIp. rewrite Hf. simpl. by rewrite ntop_into_fits by lia. }
  split; [done|]. unfold toIpPort, sockets_toIpPort. rewrite Hf. simpl. rewrite Ht. simpl.
  rewrite (proj2 (Z.ltb_lt _ 64)) by lia. simpl. fold (port m).
  pose proof (length_port (port m) (port_range m)).
  by rewrite snprintf_fits by (rewrite zlen_cons; lia).
Qed.

Lemma toIp_v6 m : family m = AF_INET6 →
  toIp m = Ok (ntop6 (sin6_addr m))
  ∧ toIpPort m = Ok ("["%char :: ntop6 (sin6_addr m) ++ str "]:" ++ dec (port m)).
Proof.
  intros Hf. pose proof (ntop6_length (sin6_addr m)) as Hn. unfold INET6_ADDRSTRLEN in Hn.
  unfold toIp, toIpPort, sockets_toIpPort, sockets_toIp. rewrite Hf. simpl.
  rewrite !ntop_into_fits by lia. split; [done|].
  rewrite (proj2 (Z.ltb_lt _ 64)) by (rewrite zlen_cons; lia). simpl. fold (port m).
  pose proof (length_port (port m) (port_range m)).
  by rewrite snprintf_fits by (rewrite !zlen_cons; lia).
Qed.
End inet_properties.

(** An address built from a text and a port, in whatever memory, has the
    family the text or the flag asks for, gives the port back, and holds the
    address the text denotes, or zero when the text is not an address. *)
Theorem inetaddress_fields `{Host} `{Inet6} m0 ip p v6 :
  length m0 = sizeof_in6 → 0 <= p < 65536 →
  let m := newInetAddress m0 ip p v6 in
  port m = p ∧
  if v6 || bool_decide (":"%char ∈ ip)
  then family m = AF_INET6 ∧ sin6_addr m = default (zeros 16) (pton6 ip)
  else family m = AF_INET ∧ sin_addr m = default (zeros 4) (pton4 ip).
Proof.
  intros Hl Hp m. destruct (v6 || bool_decide (":"%char ∈ ip)) eqn:E.
  - destruct (newInetAddress_v6 m0 ip p v6 Hl E) as [Ha Hs]. split; [by eapply port_of|].
    split; [apply Ha|done].
  - apply orb_false_iff in E as [-> E%bool_decide_eq_false].
    destruct (newInetAddress_v4 m0 ip p Hl E) as [Ha Hs]. split; [by eapply port_of|].
    split; [apply Ha|done].
Qed.

(** C38: an IPv6 address prints as its text in brackets and its port, within the
    64-byte buffer, and reading the text and port back gives the same address. *)
Theorem ipv6_text_roundtrip `{Host} `{Inet6} m m0 :
  length m = sizeof_in6 → family m = AF_INET6 → length m0 = sizeof_in6 →
  ∃ ip, toIp m = Ok ip ∧ toIpPort m = Ok ("["%char :: ip ++ str "]:" ++ dec (port m))
    ∧ port (newInetAddress m0 ip (port m) true) = port m
    ∧ sin6_addr (newInetAddress m0 ip (port m) true) = sin6_addr m.
Proof.
  intros Hl Hf Hl0. destruct (toIp_v6 m Hf) as [E1 E2]. exists (ntop6 (sin6_addr m)). split_and!; try done.
  - destruct (newInetAddress_v6 m0 (ntop6 (sin6_addr m)) (port m) true Hl0 eq_refl) as [Ha _].
    eapply port_of; [done|apply port_range].
  - destruct (newInetAddress_v6 m0 (ntop6 (sin6_addr m)) (port m) true Hl0 eq_refl) as [_ ->].
    rewrite pton6_ntop6; [done|]. unfold sin6_addr, get, sizeof_in6 in *. rewrite length_take, length_drop. lia.
Qed.

(** [toIp] and [toIpPort] print an IPv4 address from the wrong place: for
    a.b.c.d and port p they print the two bytes of p, then a and b; the text is
    right only when that happens to be the address. *)
Theorem ipv4_text_wrong `{Host} `{Inet6} m0 a b c d p :
  length m0 = sizeof_in6 → 0 <= p < 65536 →
  let m := newInetAddress m0 (ntop4 [a; b; c; d]) p false in
  let shown := ntop4 [Zbyte (p / 256); Zbyte p; a; b] in
  sin_addr m = [a; b; c; d] ∧ toIp m = Ok shown ∧ toIpPort m = Ok (shown ++ ":"%char :: dec p)
  ∧ (toIp m = Ok (ntop4 [a; b; c; d]) ↔ a = Zbyte (p / 256) ∧ b = Zbyte p ∧ c = a ∧ d = b).
Proof.
  intros Hl Hp m shown.
  destruct (newInetAddress_v4 m0 (ntop4 [a; b; c; d]) p Hl (ntop4_no_colon _)) as [Ha Hs].
  fold m in Ha, Hs. rewrite pton4_ntop4 in Hs. simpl in Hs.
  assert (Hg : get 2 4 m = [Zbyte (p / 256); Zbyte p; a; b]).
  { change 4%nat with (2 + 2)%nat. rewrite get_split, (addr_port _ _ _ Ha).
    assert (E : get 4 2 m = take 2 (sin_addr m)) by (unfold sin_addr, get; by rewrite take_take).
    change (2 + 2)%nat with 4%nat; rewrite E, Hs. done. }
  destruct (toIp_v4 m (addr_family _ _ _ Ha)) as [E1 E2]. rewrite Hg in E1, E2.
  rewrite (port_of m _ _ Ha Hp) in E2. split_and!; try done. rewrite E1. split.
  - intros E. assert (Ep : pton4 shown = pton4 (ntop4 [a; b; c; d])) by (unfold shown; congruence).
    unfold shown in Ep. rewrite !pton4_ntop4 in Ep. by simplify_eq.
  - intros (-> & -> & -> & ->). done.
Qed.

(** ** Witnesses *)

(** A concrete text form of IPv6 addresses: eight groups of four digits. *)
Module Groups.

Definition hexd (n : Z) : ascii := if n <? 10 then digit n else Zbyte (87 + n).
Definition hexv (c : ascii) : option Z :=
  let v := byteZ c in
  if (48 <=? v) && (v <=? 57) then Some (v - 48)
  else if (97 <=? v) && (v <=? 102) then Some (v - 87) else None.
Fixpoint print (a : bytes) : bytes :=
  match a with
  | [] => []
  | x :: a => hexd (byteZ x / 16) :: hexd (byteZ x mod 16)
              :: (if Nat.even (length a) && negb (bool_decide (a = [])) then [":"%char] else []) ++ print a
  end.
Fixpoint read (s : bytes) : option bytes :=
  match s with
  | [] => Some []
  | h :: s =>
      if bool_decide (h = ":"%char) then read s else
      match s with
      | l :: s => h ← hexv h; l ← hexv l; a ← read s; Some (Zbyte (16 * h + l) :: a)
      | [] => None
      end
  end.
Definition ntop (a : bytes) : bytes := if bool_decide (length a = 16%nat) then print a else [].
Definition pton (s : bytes) : option bytes :=
  a ← read s; if bool_decide (length a = 16%nat) then Some a else None.

Lemma read_byte x s : read (hexd (byteZ x / 16) :: hexd (byteZ x mod 16) :: s) = cons x <$> read s.
Proof.
  destruct x as [[] [] [] [] [] [] [] []]; vm_compute hexd; cbn [read];
    rewrite bool_decide_eq_false_2 by done; simpl; by destruct (read s).
Qed.

Lemma read_print a : read (print a) = Some a.
Proof.
  induction a as [|x a IH]; [done|]. cbn [print]. rewrite read_byte.
  destruct (_ && _); [|cbn [app]; by rewrite IH]. cbn [app read]. rewrite bool_decide_eq_true_2 by done. by rewrite IH.
Qed.

Lemma ntop_length a : zlen (ntop a) < INET6_ADDRSTRLEN.
Proof.
  unfold ntop, INET6_ADDRSTRLEN. case_bool_decide as Hl; [|done].
  do 16 (destruct a as [|? a]; [discriminate Hl|]). destruct a; [|discriminate Hl].
  cbn [print length Nat.even app]. repeat rewrite bool_decide_eq_false_2 by done. cbn [negb andb app].
  rewrite bool_decide_eq_true_2 by done. reflexivity.
Qed.

#[local] Instance groups : Inet6.
Proof.
  refine {| pton6 := pton; ntop6 := ntop |}.
  - unfold pton. intros s a. destruct (read s); [|done]. simpl. case_bool_decide; [by intros [= <-]|done].
  - apply ntop_length.
  - intros a Ha. unfold pton, ntop. rewrite bool_decide_eq_true_2 by done. rewrite read_print. simpl.
    by rewrite bool_decide_eq_true_2 by done.
Defined.

(** A little-endian machine. *)
#[local] Instance x86 : Host := false.

End Groups.

Lemma inetaddress_fields_witness :
  @port Groups.x86 (@newInetAddress Groups.x86 Groups.groups (zeros 28) (str "10.0.0.7") 8080 false) = 8080.
Proof.
  destruct (@inetaddress_fields Groups.x86 Groups.groups (zeros 28) (str "10.0.0.7") 8080 false) as [E _];
    [reflexivity|lia|exact E].
Defined.

Lemma ipv6_text_roundtrip_witness :
  let m := @newInetAddress_port Groups.x86 (zeros 28) 8080 true true in
  ∃ ip, @toIp Groups.x86 Groups.groups m = Ok ip.
Proof.
  intros m.
  destruct (@ipv6_text_roundtrip Groups.x86 Groups.groups m (zeros 28)) as (ip & E & _);
    [reflexivity|reflexivity|reflexivity|by exists ip].
Defined.

Lemma ipv4_text_wrong_witness :
  @toIp Groups.x86 Groups.groups
    (@newInetAddress Groups.x86 Groups.groups (zeros 28) (ntop4 (Zbyte <$> [127; 0; 0; 1])) 8080 false)
  = Ok (str "31.144.127.0").
Proof.
  destruct (@ipv4_text_wrong Groups.x86 Groups.groups (zeros 28) (Zbyte 127) (Zbyte 0) (Zbyte 0) (Zbyte 1) 8080)
    as (_ & E & _); [reflexivity|lia|exact E].
Defined.
