(* ===== verification/Connector.v ===== *)
(** * Connector (fishnet/net/connector.h, connector.cc)

    The client side's connection attempts: a non-blocking connect, the wait for
    the socket to become writable, and the retries with their growing delays. *)

From S2P Require Import Prelude Endian Channel InetAddress.
Local Open Scope Z_scope.

(** ** State *)

Inductive States : Set := kDisconnected | kConnecting | kConnected.

#[global] Instance States_eq_dec : EqDecision States.
Proof. solve_decision. Defined.

(** What the connector queues in its loop. *)
Inductive functor : Set := FStartInLoop | FStopInLoop | FResetChannel.

#[global] Instance functor_eq_dec : EqDecision functor.
Proof. solve_decision. Defined.

(** What happens to the sockets: created, closed, or passed to
    [newConnectionCallback_]. *)
Inductive event : Set := EvSocket (fd : Z) | EvClose (fd : Z) | EvNewConnection (fd : Z).

(** [pending] is the connector's part of the loop's queue, [timers] the delays
    of its outstanding timers, all bound to [startInLoop], [armed] the delays of
    the timers set since the back-off was last reset, and [log] the history of
    its sockets. *)
Record Connector := mkConnector {
  connect_ : bool;
  state_ : States;
  channel_ : option Channel;
  retryDelaysMs_ : Z;
  pending : list functor;
  timers : list Z;
  armed : list Z;
  log : list event }.

Definition set_connect (b : bool) (s : Connector) : Connector :=
  mkConnector b (state_ s) (channel_ s) (retryDelaysMs_ s) (pending s) (timers s) (armed s) (log s).
Definition setState (st : States) (s : Connector) : Connector :=
  mkConnector (connect_ s) st (channel_ s) (retryDelaysMs_ s) (pending s) (timers s) (armed s) (log s).
Definition set_channel (c : option Channel) (s : Connector) : Connector :=
  mkConnector (connect_ s) (state_ s) c (retryDelaysMs_ s) (pending s) (timers s) (armed s) (log s).
Definition set_delay (d : Z) (a : list Z) (s : Connector) : Connector :=
  mkConnector (connect_ s) (state_ s) (channel_ s) d (pending s) (timers s) a (log s).
Definition set_pending (l : list functor) (s : Connector) : Connector :=
  mkConnector (connect_ s) (state_ s) (channel_ s) (retryDelaysMs_ s) l (timers s) (armed s) (log s).
Definition set_timers (l : list Z) (s : Connector) : Connector :=
  mkConnector (connect_ s) (state_ s) (channel_ s) (retryDelaysMs_ s) (pending s) l (armed s) (log s).
Definition note (e : event) (s : Connector) : Connector :=
  mkConnector (connect_ s) (state_ s) (channel_ s) (retryDelaysMs_ s) (pending s) (timers s) (armed s) (log s ++ [e]).
(** [loop_->queueInLoop] *)
Definition queue (f : functor) (s : Connector) : Connector := set_pending (pending s ++ [f]) s.

Definition kMaxRetryDelayMs : Z := 30 * 1000.
Definition kInitRetryDelayMs : Z := 500.

Definition newConnector : Connector := mkConnector false kDisconnected None kInitRetryDelayMs [] [] [] [].
(** The destructor's assertion. *)
Definition destroy (s : Connector) : res unit := assertb (bool_decide (channel_ s = None)).

(** ** Operations *)

(** What the system calls give during one operation: the descriptor of
    [socket(2)], the [errno] of [connect(2)] (0 for success), the pending error of
    the socket and its two addresses. *)
Record env := mkEnv { sockfd : Z; conn_errno : Z; so_error : Z; localaddr : bytes; peeraddr : bytes }.

Definition EPERM : Z := 1.
Definition EINTR : Z := 4.
Definition EBADF : Z := 9.
Definition EAGAIN : Z := 11.
Definition EACCES : Z := 13.
Definition EFAULT : Z := 14.
Definition ENOTSOCK : Z := 88.
Definition EAFNOSUPPORT : Z := 97.
Definition EADDRINUSE : Z := 98.
Definition ENETUNREACH : Z := 101.
Definition EISCONN : Z := 106.
Definition ECONNREFUSED : Z := 111.
Definition EALREADY : Z := 114.
Definition EINPROGRESS : Z := 115.

(** [createNonblockingOrDie] *)
Definition createNonblockingOrDie (fd : Z) (s : Connector) : res Connector :=
  guard_or Fatal (0 <=? fd);; Ok (note (EvSocket fd) s).
Definition close (fd : Z) (s : Connector) : Connector := note (EvClose fd) s.

Definition retry (fd : Z) (s : Connector) : res Connector :=
  let s := setState kDisconnected (close fd s) in
  if connect_ s then
    let d := retryDelaysMs_ s in
    let s := set_timers (timers s ++ [d]) s in
    twice ← i32 (d * 2);
    Ok (set_delay (Z.min twice kMaxRetryDelayMs) (armed s ++ [d]) s)
  else Ok s.

Definition connecting (fd : Z) (s : Connector) : res Connector :=
  let s := setState kConnecting s in
  assertb (bool_decide (channel_ s = None));;
  let c := setCallback ErrorCb (setCallback WriteCb (newChannel fd)) in
  Ok (set_channel (Some (setAdded true (enableWriting c))) s).

Definition mem (e : Z) (l : list Z) : bool := bool_decide (e ∈ l).

Definition connect (e : env) (s : Connector) : res Connector :=
  s ← createNonblockingOrDie (sockfd e) s;
  let savedErrno := conn_errno e in
  if mem savedErrno [0; EINPROGRESS; EINTR; EISCONN] then connecting (sockfd e) s
  else if mem savedErrno [EAGAIN; EADDRINUSE; ECONNREFUSED; ENETUNREACH] then retry (sockfd e) s
  else Ok (close (sockfd e) s).

Definition startInLoop (e : env) (s : Connector) : res Connector :=
  assertb (bool_decide (state_ s = kDisconnected));;
  if connect_ s then connect e s else Ok s.

Definition start (inLoopThread : bool) (e : env) (s : Connector) : res Connector :=
  let s := set_connect true s in
  if inLoopThread then startInLoop e s else Ok (queue FStartInLoop s).

Definition restart (e : env) (s : Connector) : res Connector :=
  let s := setState kDisconnected s in
  let s := set_delay kInitRetryDelayMs [] s in
  startInLoop e (set_connect true s).

(** Gives the descriptor; a null [channel_] is an access outside any object. *)
Definition removeAndResetChannel (s : Connector) : res (Z * Connector) :=
  match channel_ s with
  | None => Err OutOfBounds
  | Some c =>
      let c := setAdded true (disableAll c) in
      assertb (isNoneEvent c);;
      Ok (fd_ c, queue FResetChannel (set_channel (Some (setAdded false c)) s))
  end.
Definition resetChannel (s : Connector) : Connector := set_channel None s.

Definition stop (s : Connector) : Connector := queue FStopInLoop (set_connect false s).
Definition stopInLoop (s : Connector) : res Connector :=
  if bool_decide (state_ s = kConnecting) then
    let s := setState kDisconnected s in
    '(fd, s) ← removeAndResetChannel s;
    retry fd s
  else Ok s.

Section connector.
Context `{Host}.

Definition handleWrite (e : env) (s : Connector) : res Connector :=
  if bool_decide (state_ s = kConnecting) then
    '(fd, s) ← removeAndResetChannel s;
    if negb (so_error e =? 0) then retry fd s
    else if isSelfConnect (localaddr e) (peeraddr e) then retry fd s
    else
      let s := setState kConnected s in
      if connect_ s then Ok (note (EvNewConnection fd) s) else Ok (close fd s)
  else assertb (bool_decide (state_ s = kDisconnected));; Ok s.

Definition handleError (e : env) (s : Connector) : res Connector :=
  if bool_decide (state_ s = kConnecting) then
    '(fd, s) ← removeAndResetChannel s;
    retry fd s
  else Ok s.

(** One pass of [Channel::handleEvent]: the callbacks [connecting] set. *)
Definition callback_run (e : env) (s : Connector) (k : callback) : res Connector :=
  match k with
  | WriteCb => handleWrite e s
  | ErrorCb => handleError e s
  | _ => Ok s
  end.
Fixpoint callbacks_run (e : env) (s : Connector) (l : list callback) : res Connector :=
  match l with
  | [] => Ok s
  | k :: l => s ← callback_run e s k; callbacks_run e s l
  end.
Definition handle_event (r : Z) (e : env) (s : Connector) : res Connector :=
  match channel_ s with
  | Some c => let c := setRevents r c in callbacks_run e (set_channel (Some c) s) (handleEvent c true)
  | None => Err OutOfBounds
  end.

(** The loop runs the first functor of its queue. *)
Definition run_functor (e : env) (s : Connector) : res Connector :=
  match pending s with
  | [] => Ok s
  | f :: l =>
      let s := set_pending l s in
      match f with
      | FStartInLoop => startInLoop e s
      | FStopInLoop => stopInLoop s
      | FResetChannel => Ok (resetChannel s)
      end
  end.
(** The timer at position [i] fires. *)
Definition run_timer (i : nat) (e : env) (s : Connector) : res Connector :=
  startInLoop e (set_timers (delete i (timers s)) s).

Inductive op : Type :=
| OpStart (inLoopThread : bool) (e : env)
| OpRestart (e : env)
| OpStop
| OpEvent (revents : Z) (e : env)
| OpFunctor (e : env)
| OpTimer (i : nat) (e : env).

Definition step (s : Connector) (o : op) : res Connector :=
  match o with
  | OpStart b e => start b e s
  | OpRestart e => restart e s
  | OpStop => Ok (stop s)
  | OpEvent r e => handle_event r e s
  | OpFunctor e => run_functor e s
  | OpTimer i e => run_timer i e s
  end.
Fixpoint run (s : Connector) (l : list op) : res Connector :=
  match l with
  | [] => Ok s
  | o :: l => s ← step s o; run s l
  end.

End connector.

(** ** Specification *)

(** The delay before the [k]-th retry. *)
Definition backoff (k : nat) : Z := Z.min (kInitRetryDelayMs * 2 ^ Z.of_nat k) kMaxRetryDelayMs.

(** The socket a history leaves open; [None] when it creates a second one, or
    closes or passes on one that is not open. *)
Definition socket_step (cur : option (option Z)) (e : event) : option (option Z) :=
  match cur, e with
  | Some None, EvSocket fd => Some (Some fd)
  | Some (Some fd), EvClose fd' | Some (Some fd), EvNewConnection fd' =>
      if bool_decide (fd = fd') then Some None else None
  | _, _ => None
  end.
Definition sockets (l : list event) : option (option Z) := foldl socket_step (Some None) l.

(** The descriptor the poller watches for the connector. *)
Definition watched (s : Connector) : option Z :=
  match channel_ s with
  | Some c => if addedToLoop_ c then Some (fd_ c) else None
  | None => None
  end.

Definition count (f : functor) (s : Connector) : nat := length (filter (.= f) (pending s)).
Definition busy (s : Connector) : nat := if bool_decide (state_ s = kDisconnected) then 0 else 1.
(** Whether a removed channel awaits its reset. *)
Definition stale (s : Connector) : nat :=
  match channel_ s with Some c => if addedToLoop_ c then 0 else 1 | None => 0 end.

Definition delays_ok (s : Connector) : Prop :=
  armed s = backoff <$> seq 0 (length (armed s)) ∧ retryDelaysMs_ s = backoff (length (armed s)).

Record inv (s : Connector) : Prop := {
  i_watch : watched s ≠ None ↔ state_ s = kConnecting;
  i_reset : count FResetChannel s = stale s;
  i_one : (busy s + length (timers s) + count FStartInLoop s <= 1)%nat;
  i_start : count FStartInLoop s ≠ 0%nat → channel_ s = None;
  i_delay : delays_ok s;
  i_sock : sockets (log s) = Some (watched s) }.

(** In the middle of an operation that holds the unwatched socket [fd]. *)
Record holding (fd : Z) (s : Connector) : Prop := {
  h_watch : watched s = None;
  h_reset : count FResetChannel s = stale s;
  h_timers : timers s = [];
  h_start : count FStartInLoop s = 0%nat;
  h_delay : delays_ok s;
  h_sock : sockets (log s) = Some (Some fd) }.

(** ** Lemmas *)

Lemma sockets_snoc l e : sockets (l ++ [e]) = socket_step (sockets l) e.
Proof. unfold sockets. by rewrite foldl_app. Qed.

Lemma count_queue f g s : count f (queue g s) = (count f s + if bool_decide (g = f) then 1 else 0)%nat.
Proof.
  unfold count. simpl. rewrite filter_app, length_app. f_equal. rewrite filter_cons, filter_nil.
  case_decide; [by rewrite bool_decide_eq_true_2|by rewrite bool_decide_eq_false_2].
Qed.

Lemma count_cons f g l s : pending s = g :: l →
  count f s = (count f (set_pending l s) + if bool_decide (g = f) then 1 else 0)%nat.
Proof.
  intros E. unfold count. rewrite E. simpl. rewrite filter_cons.
  case_decide; [rewrite bool_decide_eq_true_2 by done|rewrite bool_decide_eq_false_2 by done]; simpl; lia.
Qed.

Lemma backoff_bounds k : kInitRetryDelayMs <= backoff k <= kMaxRetryDelayMs.
Proof.
  unfold backoff, kInitRetryDelayMs, kMaxRetryDelayMs.
  assert (1 <= 2 ^ Z.of_nat k) by (apply (Z.pow_le_mono_r 2 0); lia). lia.
Qed.

Lemma backoff_succ k : Z.min (backoff k * 2) kMaxRetryDelayMs = backoff (S k).
Proof.
  unfold backoff, kInitRetryDelayMs, kMaxRetryDelayMs. rewrite Nat2Z.inj_succ, Z.pow_succ_r by lia.
  assert (1 <= 2 ^ Z.of_nat k) by (apply (Z.pow_le_mono_r 2 0); lia). lia.
Qed.

Lemma delays_arm s : delays_ok s →
  let s' := set_delay (backoff (S (length (armed s)))) (armed s ++ [retryDelaysMs_ s]) s in delays_ok s'.
Proof.
  intros [Ha Hd]. split; simpl; rewrite length_app; simpl; rewrite Nat.add_1_r; [|done].
  rewrite seq_S, fmap_app, <-Ha, Hd. done.
Qed.

Lemma stale_le s : (stale s <= 1)%nat.
Proof. unfold stale. destruct (channel_ s) as [c|]; [destruct (addedToLoop_ c)|]; lia. Qed.

(** Leaving the holding state. *)
Lemma close_ok fd s : holding fd s → state_ s ≠ kConnecting → inv (close fd s).
Proof.
  intros [Hw Hr Ht Hs Hd Hk] Hn. assert (Hw' : watched (close fd s) = None) by done.
  assert (Hc : count FStartInLoop (close fd s) = 0%nat) by done. split; try done.
  - rewrite Hc. simpl. rewrite Ht. unfold busy. case_bool_decide; simpl; lia.
  - rewrite Hw'. simpl. rewrite sockets_snoc, Hk. simpl. by rewrite bool_decide_eq_true_2.
Qed.

Lemma hand_ok fd s : holding fd s → state_ s ≠ kConnecting → inv (note (EvNewConnection fd) s).
Proof.
  intros H Hn. pose proof (close_ok fd s H Hn) as []. destruct H as [Hw Hr Ht Hs Hd Hk]. split; try done.
  change (watched (note (EvNewConnection fd) s)) with (watched s). simpl.
  rewrite sockets_snoc, Hk, Hw. simpl. by rewrite bool_decide_eq_true_2.
Qed.

Lemma holding_state fd st s : holding fd s → holding fd (setState st s).
Proof. by intros []. Qed.

Lemma retry_ok fd s : holding fd s → ∃ s', retry fd s = Ok s' ∧ inv s' ∧ state_ s' = kDisconnected.
Proof.
  intros H. assert (Hi : inv (setState kDisconnected (close fd s))).
  { apply (close_ok fd (setState kDisconnected s)); [by apply holding_state|done]. }
  unfold retry. simpl. destruct (connect_ s); [|eauto].
  pose proof Hi as [I1 I2 I3 I4 [I5 I5'] I6]. destruct H as [Hw Hr Ht Hs Hd Hk]. simpl in I5'.
  rewrite I5'. pose proof (backoff_bounds (length (armed s))) as Hb.
  unfold i32. rewrite guard_or_true; [|unfold kInitRetryDelayMs, kMaxRetryDelayMs in Hb; unfold in_i32; bsolve; lia].
  simpl. eexists. split; [reflexivity|]. split; [|done]. rewrite backoff_succ. split; try done.
  - assert (Hc : count FStartInLoop s = 0%nat) by done.
    change (busy _) with 0%nat. unfold count. simpl. fold (count FStartInLoop s). rewrite Ht, Hc. simpl. lia.
  - pose proof (delays_arm s Hd) as Hd'. simpl in Hd'. by rewrite <-I5'.
Qed.

Lemma connecting_ok fd s : holding fd s → channel_ s = None → ∃ s', connecting fd s = Ok s' ∧ inv s'.
Proof.
  intros [Hw Hr Ht Hs Hd Hk] Hc. unfold connecting. simpl. rewrite Hc, bool_decide_eq_true_2 by done. simpl.
  eexists. split; [reflexivity|]. unfold count, stale in *. rewrite Hc in Hr. split; try done.
  - unfold count. simpl. rewrite Ht, Hs. simpl. lia.
Qed.

Lemma create_ok fd s : inv s → state_ s = kDisconnected → timers s = [] → count FStartInLoop s = 0%nat →
  0 <= fd → ∃ s', createNonblockingOrDie fd s = Ok s' ∧ holding fd s' ∧ state_ s' = kDisconnected
    ∧ channel_ s' = channel_ s.
Proof.
  intros [I1 I2 I3 I4 I5 I6] Hst Ht Hc Hf. unfold createNonblockingOrDie.
  rewrite guard_or_true by (by apply Z.leb_le). simpl. eexists. split; [reflexivity|]. split; [|done].
  assert (Hw : watched s = None).
  { destruct (watched s) eqn:E; [|done]. destruct I1 as [I1 _]. rewrite I1 in Hst; done. }
  split; try done. simpl. rewrite sockets_snoc, I6, Hw. done.
Qed.

(** Entering it. *)
Lemma remove_ok s : inv s → state_ s = kConnecting →
  ∃ fd s', removeAndResetChannel s = Ok (fd, s') ∧ holding fd s' ∧ state_ s' = kConnecting.
Proof.
  intros [I1 I2 I3 I4 I5 I6] Hst. apply I1 in Hst as Hw. unfold watched, removeAndResetChannel in *.
  destruct (channel_ s) as [c|] eqn:Ec; [|done]. destruct (addedToLoop_ c) eqn:Ea; [|done].
  simpl. eexists _, _. split; [reflexivity|]. split; [|done].
  unfold busy in I3. rewrite Hst in I3. rewrite bool_decide_eq_false_2 in I3 by done. split; try done.
  - rewrite count_queue. unfold stale in I2. rewrite Ec, Ea in I2.
    change (count FResetChannel (set_channel _ s)) with (count FResetChannel s). by rewrite I2.
  - simpl. apply length_zero_iff_nil. lia.
  - rewrite count_queue. change (count FStartInLoop (set_channel _ s)) with (count FStartInLoop s). simpl. lia.
Qed.

(** ** Operations preserve the invariant *)

(** Nothing is under way and the next attempt may begin. *)
Definition ready (s : Connector) : Prop :=
  state_ s = kDisconnected ∧ timers s = [] ∧ count FStartInLoop s = 0%nat ∧ channel_ s = None.

Lemma connect_ok e s : inv s → ready s → 0 <= sockfd e → ∃ s', connect e s = Ok s' ∧ inv s'.
Proof.
  intros Hi (Hst & Ht & Hc & Hch) Hf. destruct (create_ok (sockfd e) s Hi Hst Ht Hc Hf) as (s1 & E & Hh & Hs1 & Hc1).
  unfold connect. rewrite E. simpl. destruct (mem _ _).
  { apply connecting_ok; [done|congruence]. }
  destruct (mem _ _).
  { destruct (retry_ok _ s1 Hh) as (s' & ? & ? & _). eauto. }
  eexists. split; [reflexivity|]. apply close_ok; [done|congruence].
Qed.

Lemma startInLoop_ok e s : inv s → ready s → 0 <= sockfd e → ∃ s', startInLoop e s = Ok s' ∧ inv s'.
Proof.
  intros Hi Hr Hf. unfold startInLoop. rewrite (proj1 Hr), bool_decide_eq_true_2 by done. simpl.
  destruct (connect_ s); [by apply connect_ok|eauto].
Qed.

Lemma inv_connect b s : inv s → inv (set_connect b s).
Proof. by intros []. Qed.

Lemma connector_start_ok b e s : inv s → ready s → 0 <= sockfd e → ∃ s', start b e s = Ok s' ∧ inv s'.
Proof.
  intros Hi Hr Hf. unfold start. destruct b.
  { apply startInLoop_ok; [by apply inv_connect|done|done]. }
  eexists. split; [reflexivity|]. destruct Hr as (Hst & Ht & Hc & Hch), Hi as [I1 I2 I3 I4 I5 I6].
  split; try done.
  - rewrite count_queue. simpl. change (count FResetChannel (set_connect true s)) with (count FResetChannel s).
    rewrite I2. unfold stale. simpl. lia.
  - rewrite count_queue. simpl. change (count FStartInLoop (set_connect true s)) with (count FStartInLoop s).
    unfold busy. simpl. rewrite Hst, Ht, Hc. simpl. lia.
Qed.

Lemma restart_ok e s : inv s → state_ s = kConnected → channel_ s = None → 0 <= sockfd e →
  ∃ s', restart e s = Ok s' ∧ inv s'.
Proof.
  intros [I1 I2 I3 I4 I5 I6] Hst Hch Hf. unfold restart. apply startInLoop_ok; [|split|done].
  - unfold busy in I3. rewrite Hst in I3. rewrite bool_decide_eq_false_2 in I3 by done. split; try done.
    + change (watched _) with (watched s). simpl. unfold watched. by rewrite Hch.
    + unfold busy. simpl. change (count FStartInLoop _) with (count FStartInLoop s). lia.
  - done.
  - unfold busy in I3. rewrite Hst in I3. rewrite bool_decide_eq_false_2 in I3 by done.
    split_and!; [|change (count FStartInLoop _) with (count FStartInLoop s); lia|done].
    apply length_zero_iff_nil. simpl. lia.
Qed.

Lemma stop_ok s : inv s → inv (stop s).
Proof.
  intros [I1 I2 I3 I4 I5 I6]. unfold stop.
  assert (E : ∀ f, f ≠ FStopInLoop → count f (queue FStopInLoop (set_connect false s)) = count f s).
  { intros f Hf. rewrite count_queue, bool_decide_eq_false_2 by done. apply Nat.add_0_r. }
  split; try done; rewrite ?E by done; done.
Qed.

Lemma stopInLoop_ok s : inv s → ∃ s', stopInLoop s = Ok s' ∧ inv s'.
Proof.
  intros Hi. unfold stopInLoop. case_bool_decide as Hst; [|eauto].
  destruct (remove_ok s Hi Hst) as (fd & s1 & E & Hh & _).
  assert (E' : removeAndResetChannel (setState kDisconnected s) = Ok (fd, setState kDisconnected s1)).
  { revert E. unfold removeAndResetChannel. simpl. destruct (channel_ s); [|done]. simpl. by intros [= <- <-]. }
  rewrite E'. simpl. destruct (retry_ok fd _ (holding_state fd kDisconnected s1 Hh)) as (s' & ? & ? & _). eauto.
Qed.

Section events.
Context `{Host}.

Lemma handleError_ok e s : inv s → ∃ s', handleError e s = Ok s' ∧ inv s'
  ∧ (state_ s ≠ kConnected → state_ s' ≠ kConnected).
Proof.
  intros Hi. unfold handleError. case_bool_decide as Hst; [|eauto].
  destruct (remove_ok s Hi Hst) as (fd & s1 & E & Hh & _). rewrite E. simpl.
  destruct (retry_ok fd s1 Hh) as (s' & ? & ? & E'). exists s'. rewrite E'. by split_and!.
Qed.

Lemma connector_handleWrite_ok e s : inv s → state_ s ≠ kConnected → ∃ s', handleWrite e s = Ok s' ∧ inv s'.
Proof.
  intros Hi Hn. unfold handleWrite. case_bool_decide as Hst.
  2:{ rewrite bool_decide_eq_true_2 by (by destruct (state_ s)). simpl. eauto. }
  destruct (remove_ok s Hi Hst) as (fd & s1 & E & Hh & _). rewrite E. simpl.
  destruct (negb _); [by destruct (retry_ok fd s1 Hh) as (s' & ? & ? & _); eauto|].
  destruct (isSelfConnect _ _); [by destruct (retry_ok fd s1 Hh) as (s' & ? & ? & _); eauto|].
  apply (holding_state fd kConnected) in Hh.
  destruct (connect_ s1); eexists; (split; [reflexivity|]); [by apply hand_ok|by apply close_ok].
Qed.

Lemma callbacks_quiet e l s : inv s → state_ s ≠ kConnected → WriteCb ∉ l →
  ∃ s', callbacks_run e s l = Ok s' ∧ inv s' ∧ state_ s' ≠ kConnected.
Proof.
  revert s. induction l as [|k l IH]; intros s Hi Hn Hl; simpl; [eauto|].
  apply not_elem_of_cons in Hl as [Hk Hl]. destruct k; simpl; try (by apply IH); [|done].
  destruct (handleError_ok e s Hi) as (s1 & E & Hi1 & Hn1). rewrite E. simpl. by apply IH; auto.
Qed.

Lemma connector_callbacks_app e l k s :
  callbacks_run e s (l ++ k) = (s' ← callbacks_run e s l; callbacks_run e s' k).
Proof.
  revert s. induction l as [|x l IH]; intros s; [done|]. simpl. destruct (callback_run e s x); [apply IH|done].
Qed.

Lemma inv_revents r c s : inv s → channel_ s = Some c → inv (set_channel (Some (setRevents r c)) s).
Proof.
  intros [I1 I2 I3 I4 I5 I6] Ec. unfold watched, stale in *. rewrite Ec in *. split; try done.
  intros Hc. specialize (I4 Hc). congruence.
Qed.

Lemma not_in_call k k' c (b : bool) : k ≠ k' → k' ∉ (if b then call k c else []).
Proof. intros Hk. unfold call. destruct b; [case_decide|]; set_solver. Qed.

(** A channel runs its write callback last. *)
Lemma handleEvent_write_last c :
  ∃ l k, handleEvent c true = (l ++ k) ∧ (WriteCb ∉ l) ∧ (k = [] ∨ k = [WriteCb]).
Proof.
  assert (Hk : ∀ b : bool, let k := if b then call WriteCb c else [] in k = [] ∨ k = [WriteCb]).
  { intros b. unfold call. destruct b; [case_decide|]; simpl; auto. }
  assert (E : handleEvent c true = handleEventWithGuard c) by (unfold handleEvent; by destruct (tied_ c)).
  rewrite E. unfold handleEventWithGuard. rewrite 2!app_assoc.
  eexists _, _. split; [reflexivity|]. split; [|apply Hk].
  rewrite !not_elem_of_app. split_and!; by apply not_in_call.
Qed.

Lemma connector_event_ok r e s : inv s → watched s ≠ None → ∃ s', handle_event r e s = Ok s' ∧ inv s'.
Proof.
  intros Hi Hw. pose proof Hw as Hst. apply (i_watch s Hi) in Hst. unfold handle_event, watched in *.
  destruct (channel_ s) as [c|] eqn:Ec; [|done]. pose proof (inv_revents r c s Hi Ec) as Hi'.
  set (s0 := set_channel _ s) in *. assert (Hn : state_ s0 ≠ kConnected) by (subst s0; simpl; congruence).
  destruct (handleEvent_write_last (setRevents r c)) as (l & k & -> & Hl & Hk). rewrite connector_callbacks_app.
  destruct (callbacks_quiet e l s0 Hi' Hn Hl) as (s1 & E & Hi1 & Hn1). rewrite E. simpl.
  destruct Hk as [-> | ->]; simpl; [eauto|].
  destruct (connector_handleWrite_ok e s1 Hi1 Hn1) as (s2 & E2 & ?). rewrite E2. simpl. eauto.
Qed.
End events.

(** ** Runs *)

Section runs.
Context `{Host}.

(** When each operation may come: [start] only when no attempt is under way,
    [restart] (the client's, after its connection closed) only once connected,
    events only while the poller watches the channel, and a retry timer only after
    the functors queued half a second before. [socket(2)] is assumed to succeed. *)
Definition legal (s : Connector) (o : op) : Prop :=
  match o with
  | OpStart _ e => ready s ∧ 0 <= sockfd e
  | OpRestart e => state_ s = kConnected ∧ channel_ s = None ∧ 0 <= sockfd e
  | OpStop => True
  | OpEvent _ _ => watched s ≠ None
  | OpFunctor e => 0 <= sockfd e
  | OpTimer i e => (i < length (timers s))%nat ∧ channel_ s = None ∧ 0 <= sockfd e
  end.
Fixpoint legal_run (s : Connector) (l : list op) : Prop :=
  match l with
  | [] => True
  | o :: l => legal s o ∧ ∀ s', step s o = Ok s' → legal_run s' l
  end.

Lemma connector_functor_ok e s : inv s → 0 <= sockfd e → ∃ s', run_functor e s = Ok s' ∧ inv s'.
Proof.
  intros Hi Hf. unfold run_functor. destruct (pending s) as [|f l] eqn:E; [eauto|].
  pose proof (count_cons FStartInLoop f l s E) as C1. pose proof (count_cons FResetChannel f l s E) as C2.
  pose proof Hi as [I1 I2 I3 I4 I5 I6]. destruct f; simpl in C1, C2.
  - assert (Hc : channel_ s = None) by (apply I4; lia).
    assert (Hst : state_ s = kDisconnected).
    { unfold busy in I3. case_bool_decide; [done|lia]. }
    apply startInLoop_ok; [split; try done|split_and!; try done|done].
    + simpl in *. unfold stale in *. simpl. lia.
    + unfold busy in *. simpl. lia.
    + apply length_zero_iff_nil. simpl. lia.
    + lia.
  - apply stopInLoop_ok. split; try done; simpl in *; unfold busy, stale in *; simpl in *; try lia.
    intros ?. apply I4. lia.
  - eexists. split; [reflexivity|]. pose proof (stale_le s). assert (Hs : stale s = 1%nat) by lia.
    assert (Hw : watched s = None).
    { unfold stale, watched in *. destruct (channel_ s); [|done]. by destruct (addedToLoop_ _). }
    assert (E1 : ∀ f, count f (resetChannel (set_pending l s)) = count f (set_pending l s)) by done.
    split; rewrite ?E1; try done.
    + rewrite Hw in I1. done.
    + unfold stale. simpl. lia.
    + unfold busy in *. simpl in *. lia.
    + simpl. by rewrite I6, Hw.
Qed.

Lemma run_timer_ok i e s : inv s → (i < length (timers s))%nat → channel_ s = None → 0 <= sockfd e →
  ∃ s', run_timer i e s = Ok s' ∧ inv s'.
Proof.
  intros [I1 I2 I3 I4 I5 I6] Hl Hc Hf. unfold run_timer.
  assert (Ht : length (timers s) = 1%nat) by lia. assert (i = 0%nat) as -> by lia.
  destruct (timers s) as [|d [|]] eqn:Et; [done| |done]. simpl in *.
  assert (Hst : state_ s = kDisconnected) by (unfold busy in I3; case_bool_decide; [done|lia]).
  apply startInLoop_ok; [split; try done|split_and!; try done|done].
  - unfold busy in *. simpl. change (count FStartInLoop _) with (count FStartInLoop s). lia.
  - change (count FStartInLoop _) with (count FStartInLoop s). lia.
Qed.

Lemma connector_step_ok s o : inv s → legal s o → ∃ s', step s o = Ok s' ∧ inv s'.
Proof.
  intros Hi Hl. destruct o; simpl in *.
  - apply connector_start_ok; tauto.
  - apply restart_ok; tauto.
  - eexists. split; [reflexivity|]. by apply stop_ok.
  - by apply connector_event_ok.
  - by apply connector_functor_ok.
  - apply run_timer_ok; tauto.
Qed.

Lemma connector_run_ok l s : inv s → legal_run s l → ∃ s', run s l = Ok s' ∧ inv s'.
Proof.
  revert s. induction l as [|o l IH]; intros s Hi Hl; simpl; [eauto|].
  destruct Hl as [Ho Hl]. destruct (connector_step_ok s o Hi Ho) as (s1 & E & H1). rewrite E. simpl.
  by apply IH; [|apply Hl].
Qed.

Lemma connector_inv_new : inv newConnector.
Proof. by split; vm_compute; try (done || lia). Qed.
End runs.

(** ** Properties *)

(** C13: under any legal interleaving of [start], [stop], [restart], socket events,
    queued functors and retry timers no assertion of the connector fails; each
    socket is created while no other is open and is closed or passed to the
    callback exactly once, the one left open being the one the poller watches,
    which exists exactly while the connector is connecting; and at most one attempt
    or retry is outstanding. *)
Theorem connector_safe `{Host} l : legal_run newConnector l → ∃ s, run newConnector l = Ok s
  ∧ sockets (log s) = Some (watched s)
  ∧ (watched s ≠ None ↔ state_ s = kConnecting)
  ∧ (length (timers s) <= 1)%nat
  ∧ (timers s ≠ [] → state_ s = kDisconnected).
Proof.
  intros Hl. destruct (connector_run_ok l newConnector connector_inv_new Hl) as (s & E & [I1 I2 I3 I4 I5 I6]).
  exists s. split_and!; try done; [lia|]. intros Ht. unfold busy in I3. case_bool_decide; [done|].
  destruct (timers s); [done|simpl in I3; lia].
Qed.

(** C36: the delays of the retries since the connector was made or restarted are
    500 ms doubling up to 30 s, in order, whatever else happens; the doubling
    never leaves the range of an [int]. *)
Theorem retry_backoff `{Host} l s : legal_run newConnector l → run newConnector l = Ok s →
  armed s = (λ k : nat, Z.min (500 * 2 ^ Z.of_nat k) 30000) <$> seq 0 (length (armed s))
  ∧ retryDelaysMs_ s = Z.min (500 * 2 ^ Z.of_nat (length (armed s))) 30000
  ∧ 500 <= retryDelaysMs_ s ∧ in_i32 (retryDelaysMs_ s * 2) = true.
Proof.
  intros Hl Hr. destruct (connector_run_ok l newConnector connector_inv_new Hl) as (s' & E & [I1 I2 I3 I4 [I5 I5'] I6]).
  rewrite Hr in E. injection E as <-. pose proof (backoff_bounds (length (armed s))) as Hb.
  unfold kInitRetryDelayMs, kMaxRetryDelayMs in Hb. split_and!; [done|done|lia|].
  unfold in_i32. bsolve; lia.
Qed.

(** [start] is not idempotent: called while an attempt is under way, or after
    the connection was made (also when it has since been closed), it fails an
    assertion; and when a retry is outstanding it is the retry that fails, once
    the new attempt is under way. *)
Theorem start_twice_asserts `{Host} l s e e' :
  legal_run newConnector l → run newConnector l = Ok s →
  (state_ s ≠ kDisconnected → start true e s = Err AssertFailed)
  ∧ (timers s ≠ [] → channel_ s = None → 0 <= sockfd e → conn_errno e = EINPROGRESS →
     ∃ s1, start true e s = Ok s1 ∧ run_timer 0 e' s1 = Err AssertFailed).
Proof.
  intros Hl Hr. destruct (connector_run_ok l newConnector connector_inv_new Hl) as (s' & E & [I1 I2 I3 I4 I5 I6]).
  rewrite Hr in E. injection E as <-. split.
  - intros Hn. unfold start, startInLoop. simpl. by rewrite bool_decide_eq_false_2.
  - intros Ht Hc Hf He. assert (Hst : state_ s = kDisconnected).
    { unfold busy in I3. case_bool_decide; [done|]. destruct (timers s); [done|simpl in I3; lia]. }
    unfold start, startInLoop, connect, createNonblockingOrDie, connecting. simpl.
    rewrite Hst, He. simpl. rewrite guard_or_true by (by apply Z.leb_le). simpl. rewrite Hc.
    eexists. split; [reflexivity|]. done.
Qed.

(** ** Witnesses *)

Module Witness.
#[local] Instance host : Host := false.
Definition pending_env : env := mkEnv 7 EINPROGRESS 0 [] [].
Definition refused_env : env := mkEnv 7 ECONNREFUSED 0 [] [].
Definition get (r : res Connector) : Connector := match r with Ok s => s | Err _ => newConnector end.

Lemma connector_legal_cons s o s' l : legal s o → step s o = Ok s' → legal_run s' l → legal_run s (o :: l).
Proof. intros Ho E Hl. split; [done|]. intros s'' E'. rewrite E in E'. by injection E' as <-. Qed.

(** Connect, become writable, drop the channel. *)
Definition ops : list op := [OpStart true pending_env; OpEvent POLLOUT pending_env; OpFunctor pending_env].
Lemma connector_ops_legal : legal_run newConnector ops.
Proof.
  eapply connector_legal_cons; [split; [done|by vm_compute]|vm_compute; reflexivity|].
  eapply connector_legal_cons; [done|vm_compute; reflexivity|].
  eapply connector_legal_cons; [by vm_compute|vm_compute; reflexivity|done].
Qed.

(** Two refused attempts. *)
Definition refused : list op := [OpStart true refused_env; OpTimer 0 refused_env].
Lemma refused_legal : legal_run newConnector refused.
Proof.
  eapply connector_legal_cons; [split; [done|by vm_compute]|vm_compute; reflexivity|].
  eapply connector_legal_cons; [split_and!; [simpl; lia|done|by vm_compute]|vm_compute; reflexivity|done].
Qed.
End Witness.

Lemma connector_safe_witness :
  ∃ s, @run Witness.host newConnector Witness.ops = Ok s ∧ sockets (log s) = Some (watched s).
Proof.
  destruct (@connector_safe Witness.host Witness.ops Witness.connector_ops_legal) as (s & ? & ? & _). by exists s.
Defined.

Lemma retry_backoff_witness :
  let s := Witness.get (@run Witness.host newConnector Witness.refused) in
  armed s = [500; 1000] ∧ retryDelaysMs_ s = 2000.
Proof.
  intros s. destruct (@retry_backoff Witness.host Witness.refused s Witness.refused_legal) as (E1 & E2 & _).
  - vm_compute. reflexivity.
  - split; [exact E1|exact E2].
Defined.

Lemma start_twice_asserts_witness :
  let s := Witness.get (@run Witness.host newConnector Witness.ops) in
  start true Witness.pending_env s = Err AssertFailed.
Proof.
  intros s.
  destruct (@start_twice_asserts Witness.host Witness.ops s Witness.pending_env Witness.pending_env Witness.connector_ops_legal)
    as [H _].
  - vm_compute. reflexivity.
  - apply H. vm_compute. discriminate.
Defined.
