(* ===== verification/Acceptor.v ===== *)
(** * Acceptor (fishnet/net/acceptor.h, acceptor.cc, and the socket calls it makes)

    The listening socket with its spare descriptor. The process's descriptor
    table and the kernel's queue of incoming connections are part of the state,
    since the code for a full table depends on both. *)

From S2P Require Import Prelude Channel.
Local Open Scope Z_scope.

(** ** The kernel's side *)

(** The open descriptors, below [limit], and the peers waiting to be accepted. *)
Record Kernel := mkKernel { limit : Z; used : list Z; backlog : list Z }.

(** [open], [socket] and [accept] give the lowest free descriptor. *)
Definition alloc (k : Kernel) : option Z := head (filter (.∉ used k) (seqZ 0 (limit k))).
Definition k_open (k : Kernel) : option Z * Kernel :=
  match alloc k with
  | Some fd => (Some fd, mkKernel (limit k) (fd :: used k) (backlog k))
  | None => (None, k)
  end.
(** [close]; closing what is not open only gives [EBADF]. *)
Definition k_close (fd : Z) (k : Kernel) : Kernel :=
  mkKernel (limit k) (filter (λ x, x ≠ fd) (used k)) (backlog k).

Definition EPERM : Z := 1.
Definition EINTR : Z := 4.
Definition EAGAIN : Z := 11.
Definition EMFILE : Z := 24.
Definition EPROTO : Z := 71.
Definition ECONNABORTED : Z := 103.

(** [accept(2)]: a descriptor and its peer, or [errno]; [fault] is an error from
    elsewhere (a connection aborted, a signal, a lack of memory). *)
Definition k_accept (fault : option Z) (k : Kernel) : (Z * Z + Z) * Kernel :=
  match fault with
  | Some e => (inr e, k)
  | None =>
      match alloc k with
      | None => (inr EMFILE, k)
      | Some fd =>
          match backlog k with
          | [] => (inr EAGAIN, k)
          | p :: l => (inl (fd, p), mkKernel (limit k) (fd :: used k) l)
          end
      end
  end.

(** ** Operations *)

(** [sockets::accept]: errors other than the expected ones are fatal. *)
Definition sockets_accept (fault : option Z) (k : Kernel) : res ((Z * Z + Z) * Kernel) :=
  match k_accept fault k with
  | (inl c, k) => Ok (inl c, k)
  | (inr savedErrno, k) =>
      guard_or Fatal (bool_decide (savedErrno ∈ [EAGAIN; ECONNABORTED; EINTR; EPROTO; EPERM; EMFILE]));;
      Ok (inr savedErrno, k)
  end.

(** [handed] are the connections passed to [new_connection_callback_]. *)
Record Acceptor := mkAcceptor {
  accept_channel_ : Channel;
  has_callback : bool;
  listening_ : bool;
  idle_fd_ : Z;
  kernel : Kernel;
  handed : list (Z * Z) }.

(** The constructor; [bound] tells whether [bind] succeeds. *)
Definition newAcceptor (bound : bool) (k : Kernel) : res Acceptor :=
  let '(sock, k) := k_open k in
  match sock with
  | None => Err Fatal
  | Some fd =>
      let '(idle, k) := k_open k in
      assertb (bool_decide (is_Some idle));;
      guard_or Fatal bound;;
      Ok (mkAcceptor (setCallback ReadCb (newChannel fd)) false false (default (-1) idle) k [])
  end.

Definition setNewConnectionCallback (a : Acceptor) : Acceptor :=
  mkAcceptor (accept_channel_ a) true (listening_ a) (idle_fd_ a) (kernel a) (handed a).

(** [ok] tells whether [listen(2)] succeeds. *)
Definition listen (ok : bool) (a : Acceptor) : res Acceptor :=
  guard_or Fatal ok;;
  Ok (mkAcceptor (setAdded true (enableReading (accept_channel_ a))) (has_callback a) true (idle_fd_ a)
        (kernel a) (handed a)).

Definition destroyAcceptor (a : Acceptor) : res Acceptor :=
  let c := setAdded true (disableAll (accept_channel_ a)) in
  assertb (isNoneEvent c);;
  let k := k_close (fd_ c) (k_close (idle_fd_ a) (kernel a)) in
  Ok (mkAcceptor (setAdded false c) (has_callback a) (listening_ a) (idle_fd_ a) k (handed a)).

Definition handleRead (fault : option Z) (a : Acceptor) : res Acceptor :=
  let mk idle k h := mkAcceptor (accept_channel_ a) (has_callback a) (listening_ a) idle k h in
  '(r, k) ← sockets_accept fault (kernel a);
  match r with
  | inl (connfd, peer) =>
      Ok (if has_callback a then mk (idle_fd_ a) k (handed a ++ [(connfd, peer)])
          else mk (idle_fd_ a) (k_close connfd k) (handed a))
  | inr errno =>
      if errno =? EMFILE then
        let k := k_close (idle_fd_ a) k in
        let '(r, k) := k_accept None k in
        let idle := match r with inl (fd, _) => fd | inr _ => -1 end in
        let k := k_close idle k in
        let '(idle, k) := k_open k in
        Ok (mk (default (-1) idle) k (handed a))
      else Ok (mk (idle_fd_ a) k (handed a))
  end.

(** ** Lemmas *)

(** The table holds valid descriptors, each once, the spare one among them. *)
Definition table_ok (k : Kernel) : Prop := NoDup (used k) ∧ Forall (λ x, 0 <= x < limit k) (used k).
Definition acceptor_ok (a : Acceptor) : Prop := table_ok (kernel a) ∧ idle_fd_ a ∈ used (kernel a).

Lemma alloc_some k fd : alloc k = Some fd → (fd ∉ used k) ∧ 0 <= fd < limit k.
Proof.
  unfold alloc. intros H. apply head_Some_elem_of in H.
  rewrite list_elem_of_filter, elem_of_seqZ in H. destruct H. split; [done|lia].
Qed.

Lemma alloc_none k : alloc k = None ↔ ∀ x, 0 <= x < limit k → x ∈ used k.
Proof.
  unfold alloc. rewrite head_None. split.
  - intros H x Hx. destruct (decide (x ∈ used k)); [done|].
    assert (Hin : x ∈ filter (.∉ used k) (seqZ 0 (limit k))).
    { rewrite list_elem_of_filter, elem_of_seqZ. split; [done|lia]. }
    rewrite H in Hin. by apply not_elem_of_nil in Hin.
  - intros H. apply filter_none. apply Forall_forall. intros x Hx%elem_of_seqZ Hn. apply Hn, H. lia.
Qed.

Lemma table_add k fd b : table_ok k → alloc k = Some fd → table_ok (mkKernel (limit k) (fd :: used k) b).
Proof. intros [H1 H2] [Ha ?]%alloc_some. split; simpl; [by constructor|by constructor]. Qed.

Lemma table_close k fd : table_ok k → table_ok (k_close fd k).
Proof. intros [H1 H2]. split; simpl; [by apply NoDup_filter|].
  rewrite Forall_forall in *. intros x [_ Hx]%list_elem_of_filter. auto.
Qed.

Lemma close_fresh k fd b : fd ∉ used k → k_close fd (mkKernel (limit k) (fd :: used k) b) = mkKernel (limit k) (used k) b.
Proof.
  intros Hn. unfold k_close. simpl. rewrite filter_cons_False by naive_solver. f_equal.
  apply filter_all. apply Forall_forall. by intros x Hx ->.
Qed.

(** Freeing one descriptor of a full table makes it the one given out next. *)
Lemma alloc_freed k fd : table_ok k → alloc k = None → fd ∈ used k → alloc (k_close fd k) = Some fd.
Proof.
  intros [Hn Hr] Ha Hf. rewrite alloc_none in Ha. rewrite Forall_forall in Hr.
  destruct (alloc (k_close fd k)) as [x|] eqn:E.
  - apply alloc_some in E as [E1 E2]. simpl in *. f_equal. destruct (decide (x = fd)); [done|].
    destruct E1. apply list_elem_of_filter. split; [done|by apply Ha].
  - exfalso. rewrite alloc_none in E. specialize (E fd (Hr fd Hf)). simpl in E.
    by apply list_elem_of_filter in E as [E _].
Qed.

Lemma close_open_perm k fd : NoDup (used k) → fd ∈ used k → fd :: used (k_close fd k) ≡ₚ used k.
Proof.
  intros Hn Hf. simpl. apply NoDup_Permutation; [|done|].
  - constructor; [|by apply NoDup_filter]. rewrite list_elem_of_filter. naive_solver.
  - intros x. rewrite elem_of_cons, list_elem_of_filter. destruct (decide (x = fd)); naive_solver.
Qed.

(** ** Properties *)

(** What [handleRead] passes on: the first waiting peer with the lowest free
    descriptor, when there are both and a callback is set. *)
Definition passed (a : Acceptor) : list (Z * Z) :=
  match alloc (kernel a), backlog (kernel a) with
  | Some fd, p :: _ => if has_callback a then [(fd, p)] else []
  | _, _ => []
  end.

Lemma handleRead_full a : acceptor_ok a → alloc (kernel a) = None →
  ∃ a', handleRead None a = Ok a' ∧ acceptor_ok a' ∧ backlog (kernel a') = tail (backlog (kernel a))
    ∧ handed a' = handed a ∧ used (kernel a') ≡ₚ used (kernel a).
Proof.
  intros [Ht Hi] Ea. unfold handleRead, sockets_accept, k_accept. rewrite Ea. cbn -[k_close k_open alloc].
  pose proof (alloc_freed _ _ Ht Ea Hi) as Ef. pose proof (table_close _ (idle_fd_ a) Ht) as Hc.
  pose proof (alloc_some _ _ Ef) as [Hf _]. pose proof (close_open_perm _ _ (proj1 Ht) Hi) as Hp.
  set (k1 := k_close (idle_fd_ a) (kernel a)) in *. rewrite guard_or_true by (vm_compute; reflexivity). cbn [mbind res_bind]. rewrite Z.eqb_refl. fold k1. rewrite Ef.
  assert (Hm : k_close (-1) k1 = k1).
  { unfold k_close. destruct k1. simpl in *. f_equal. apply filter_all.
    apply Forall_forall. intros x Hx ->. destruct Hc as [_ Hc]. rewrite Forall_forall in Hc.
    specialize (Hc _ Hx). simpl in Hc. lia. }
  assert (Hb : backlog k1 = backlog (kernel a)) by done.
  clearbody k1. destruct (backlog k1) as [|p l] eqn:Eb; cbn -[k_close k_open alloc].
  - rewrite Hm. unfold k_open. rewrite Ef. eexists. split; [reflexivity|]. split_and!; try done.
    + split; [by apply (table_add k1)|by left].
    + simpl. by rewrite <-Hb, Eb.
  - rewrite close_fresh by done. unfold k_open.
    assert (Ef' : alloc (mkKernel (limit k1) (used k1) l) = Some (idle_fd_ a)) by done. rewrite Ef'.
    eexists. split; [reflexivity|]. split_and!; try done.
    + split; simpl; [by apply (table_add (mkKernel (limit k1) (used k1) l))|]. by left.
    + simpl. by rewrite <-Hb.
Qed.


(** An error of [accept] other than a full table changes nothing, and is
    passed over when it is one of the expected ones; any other ends the program. *)
Theorem acceptor_errors a e : e ≠ EMFILE →
  handleRead (Some e) a =
  if bool_decide (e ∈ [EAGAIN; ECONNABORTED; EINTR; EPROTO; EPERM]) then Ok a else Err Fatal.
Proof.
  intros He. unfold handleRead, sockets_accept. cbn [k_accept].
  rewrite (bool_decide_ext (e ∈ [EAGAIN; ECONNABORTED; EINTR; EPROTO; EPERM; EMFILE])
    (e ∈ [EAGAIN; ECONNABORTED; EINTR; EPROTO; EPERM])) by set_solver.
  case_bool_decide; [|done]. simpl. rewrite (proj2 (Z.eqb_neq _ _)) by done. by destruct a.
Qed.

(** ** Witnesses *)

Definition full_kernel : Kernel := mkKernel 5 [4; 3; 2; 1; 0] [70; 71].
Definition full_acceptor : Acceptor := mkAcceptor (newChannel 3) true true 4 full_kernel [].


Lemma acceptor_errors_witness : handleRead (Some EINTR) full_acceptor = Ok full_acceptor.
Proof. apply (acceptor_errors full_acceptor EINTR). discriminate. Defined.
