(* ===== verification/TcpServer.v ===== *)
(** * TCP server (fishnet/net/tcp_server.h, tcp_server.cc)

    The server's table of connections, over the loops of its thread pool and the
    connections of [TcpConnection]: the composition of the two life cycles. *)

From S2P Require Import Prelude Endian Printf Buffer Channel EventLoopThread TcpConnection ConnLife.

Local Open Scope Z_scope.

(** ** State *)

(** A connection as the server knows it: its name, its loop (0 is the server's
    own) and its state. *)
Record Link := mkLink { cname : bytes; cloop : Z; conn : Conn }.

(** What is queued in the server's loop, and in the loop of a connection. *)
Inductive base_functor : Set := BListen | BRemove (id : nat).
Inductive io_functor : Set := IEstablish (id : nat) | IDestroy (id : nat).

#[global] Instance base_functor_eq_dec : EqDecision base_functor.
Proof. solve_decision. Defined.
#[global] Instance io_functor_eq_dec : EqDecision io_functor.
Proof. solve_decision. Defined.

(** [links] are all connections ever made, a [TcpConnectionPtr] being a position
    in it; [connections_] is the server's table, by name. [ioq] holds the functors
    of all loops, with the loop. *)
Record Server := mkServer {
  ipPort_ : bytes;
  name_ : bytes;
  threadPool_ : EventLoopThreadPool.Pool;
  writeComplete : bool;
  listening : bool;
  started_ : Z;
  nextConnId_ : Z;
  connections_ : gmap bytes nat;
  links : list Link;
  baseq : list base_functor;
  ioq : list (Z * io_functor) }.

Definition set_pool (p : EventLoopThreadPool.Pool) (s : Server) : Server :=
  mkServer (ipPort_ s) (name_ s) p (writeComplete s) (listening s) (started_ s) (nextConnId_ s) (connections_ s)
    (links s) (baseq s) (ioq s).
Definition set_listening (s : Server) : Server :=
  mkServer (ipPort_ s) (name_ s) (threadPool_ s) (writeComplete s) true (started_ s) (nextConnId_ s) (connections_ s)
    (links s) (baseq s) (ioq s).
Definition set_started (z : Z) (s : Server) : Server :=
  mkServer (ipPort_ s) (name_ s) (threadPool_ s) (writeComplete s) (listening s) z (nextConnId_ s) (connections_ s)
    (links s) (baseq s) (ioq s).
Definition set_next (z : Z) (s : Server) : Server :=
  mkServer (ipPort_ s) (name_ s) (threadPool_ s) (writeComplete s) (listening s) (started_ s) z (connections_ s)
    (links s) (baseq s) (ioq s).
Definition set_map (m : gmap bytes nat) (s : Server) : Server :=
  mkServer (ipPort_ s) (name_ s) (threadPool_ s) (writeComplete s) (listening s) (started_ s) (nextConnId_ s) m
    (links s) (baseq s) (ioq s).
Definition set_links (l : list Link) (s : Server) : Server :=
  mkServer (ipPort_ s) (name_ s) (threadPool_ s) (writeComplete s) (listening s) (started_ s) (nextConnId_ s)
    (connections_ s) l (baseq s) (ioq s).
Definition set_baseq (q : list base_functor) (s : Server) : Server :=
  mkServer (ipPort_ s) (name_ s) (threadPool_ s) (writeComplete s) (listening s) (started_ s) (nextConnId_ s)
    (connections_ s) (links s) q (ioq s).
Definition set_ioq (q : list (Z * io_functor)) (s : Server) : Server :=
  mkServer (ipPort_ s) (name_ s) (threadPool_ s) (writeComplete s) (listening s) (started_ s) (nextConnId_ s)
    (connections_ s) (links s) (baseq s) q.
Definition push_base (f : base_functor) (s : Server) : Server := set_baseq (baseq s ++ [f]) s.
Definition push_io (loop : Z) (f : io_functor) (s : Server) : Server := set_ioq (ioq s ++ [(loop, f)]) s.

Definition baseLoop : Z := EventLoopThreadPool.baseLoop_.

(** ** Operations *)

(** The constructor; [ip] is what [listenAddr.toIpPort()] gives and [wc] whether
    the user sets a write-complete callback. *)
Definition newServer (ip nameArg : bytes) (wc : bool) : Server :=
  mkServer ip nameArg (EventLoopThreadPool.newPool nameArg) wc false 0 1 ∅ [] [] [].

Definition setThreadNum (n : Z) (s : Server) : res Server :=
  assertb (0 <=? n);; Ok (set_pool (EventLoopThreadPool.setThreadNum n (threadPool_ s)) s).

(** [Acceptor::listen] as the server sees it. *)
Definition acceptor_listen (s : Server) : Server := set_listening s.

Definition start (inLoopThread cb : bool) (s : Server) : res Server :=
  let old := started_ s in
  let s := set_started (wraps 32 (old + 1)) s in
  if old =? 0 then
    p ← EventLoopThreadPool.start cb (threadPool_ s);
    let s := set_pool p s in
    assertb (negb (listening s));;
    Ok (if inLoopThread then acceptor_listen s else push_base BListen s)
  else Ok s.

(** Runs a member function of connection [id]. *)
Definition with_conn (id : nat) (f : Conn → res Conn) (s : Server) : res Server :=
  match links s !! id with
  | Some l => c ← f (conn l); Ok (set_links (<[id := mkLink (cname l) (cloop l) c]> (links s)) s)
  | None => Err OutOfBounds
  end.

(** The number of the connection, printed into a 64-byte buffer. *)
Definition conn_suffix (ip : bytes) (id : Z) : bytes := snprintf 64 (str "-" ++ ip ++ str "#" ++ dec id).

Definition newConnection (sockfd : Z) (s : Server) : res Server :=
  '(ioLoop, p) ← EventLoopThreadPool.getNextLoop (threadPool_ s);
  let s := set_pool p s in
  let buf := conn_suffix (ipPort_ s) (nextConnId_ s) in
  next ← i32 (nextConnId_ s + 1);
  let s := set_next next s in
  let connName := name_ s ++ buf in
  c ← newTcpConnection sockfd (writeComplete s) false;
  let id := length (links s) in
  let s := set_links (links s ++ [mkLink connName ioLoop c]) s in
  let s := set_map (<[connName := id]> (connections_ s)) s in
  if ioLoop =? baseLoop then with_conn id connectEstablished s else Ok (push_io ioLoop (IEstablish id) s).

Definition removeConnectionInLoop (id : nat) (s : Server) : res Server :=
  match links s !! id with
  | Some l =>
      assertb (bool_decide (is_Some (connections_ s !! cname l)));;
      Ok (push_io (cloop l) (IDestroy id) (set_map (delete (cname l) (connections_ s)) s))
  | None => Err OutOfBounds
  end.

(** Called by the connection, in its loop. *)
Definition removeConnection (id : nat) (s : Server) : res Server :=
  match links s !! id with
  | Some l => if cloop l =? baseLoop then removeConnectionInLoop id s else Ok (push_base (BRemove id) s)
  | None => Err OutOfBounds
  end.

(** An operation of connection [id]; [closeCallback_] is [removeConnection]. *)
Definition conn_op (id : nat) (o : op) (s : Server) : res Server :=
  match links s !! id with
  | Some l =>
      c ← step (conn l) o;
      let s := set_links (<[id := mkLink (cname l) (cloop l) c]> (links s)) s in
      if (closes (conn l) <? closes c)%nat then removeConnection id s else Ok s
  | None => Err OutOfBounds
  end.

(** The destructor: every connection of the table is destroyed in its loop. *)
Definition destroy_one (s : Server) (id : nat) : res Server :=
  match links s !! id with
  | Some l => if cloop l =? baseLoop then with_conn id connectDestroyed s
              else Ok (push_io (cloop l) (IDestroy id) s)
  | None => Err OutOfBounds
  end.
Fixpoint destroy_all (s : Server) (ids : list nat) : res Server :=
  match ids with
  | [] => Ok s
  | id :: ids => s ← destroy_one s id; destroy_all s ids
  end.
Definition destroyServer (s : Server) : res Server := destroy_all s (map_to_list (connections_ s)).*2.

(** One of the functors of the server's loop, or of a connection's loop, runs. *)
Definition run_base (i : nat) (s : Server) : res Server :=
  match baseq s !! i with
  | Some f =>
      let s := set_baseq (delete i (baseq s)) s in
      match f with
      | BListen => Ok (acceptor_listen s)
      | BRemove id => removeConnectionInLoop id s
      end
  | None => Ok s
  end.
Definition run_io (i : nat) (s : Server) : res Server :=
  match ioq s !! i with
  | Some (_, f) =>
      let s := set_ioq (delete i (ioq s)) s in
      match f with
      | IEstablish id => with_conn id connectEstablished s
      | IDestroy id => with_conn id connectDestroyed s
      end
  | None => Ok s
  end.

Inductive sop : Type :=
| SStart (inLoopThread cb : bool)
| SNew (sockfd : Z)
| SConn (id : nat) (o : op)
| SBase (i : nat)
| SIo (i : nat).

Definition sstep (s : Server) (o : sop) : res Server :=
  match o with
  | SStart b cb => start b cb s
  | SNew fd => newConnection fd s
  | SConn id o => conn_op id o s
  | SBase i => run_base i s
  | SIo i => run_io i s
  end.
Fixpoint srun (s : Server) (l : list sop) : res Server :=
  match l with
  | [] => Ok s
  | o :: l => s ← sstep s o; srun s l
  end.

(** ** Invariant *)

Definition n_rem (id : nat) (q : list base_functor) : nat := length (filter (.= BRemove id) q).
Definition n_io (f : io_functor) (q : list (Z * io_functor)) : nat := length (filter (λ x, x.2 = f) q).

(** The stages of a connection: waiting to be established, open, closed and
    waiting to be removed from the table, removed and waiting to be destroyed,
    destroyed. The numbers count the functors queued for it, the boolean tells
    whether the table holds it. *)
Inductive phase (c : Conn) : nat → nat → nat → bool → Prop :=
| PNew : state_ c = kConnecting → phase c 1 0 0 true
| POpen : open c = true → phase c 0 0 0 true
| PClosed : state_ c = kDisconnected → addedToLoop_ (channel_ c) = true → phase c 0 1 0 true
| PRemoved : state_ c = kDisconnected → addedToLoop_ (channel_ c) = true → phase c 0 0 1 false
| PDestroyed : state_ c = kDisconnected → phase c 0 0 0 false.

Definition in_table (id : nat) (l : Link) (s : Server) : bool := bool_decide (connections_ s !! cname l = Some id).
Definition stage (id : nat) (l : Link) (s : Server) : Prop :=
  phase (conn l) (n_io (IEstablish id) (ioq s)) (n_rem id (baseq s)) (n_io (IDestroy id) (ioq s)) (in_table id l s).

(** The name the server gives its [id]-th connection. *)
Definition conn_name (s : Server) (id : nat) : bytes :=
  name_ s ++ str "-" ++ ipPort_ s ++ str "#" ++ dec (Z.of_nat id + 1).

Record sinv (s : Server) : Prop := {
  s_started : 0 <= started_ s;
  s_before : started_ s = 0 →
    listening s = false ∧ (BListen ∉ baseq s) ∧ links s = []
    ∧ ∃ n, 0 <= n < 2 ^ 31 ∧ threadPool_ s = EventLoopThreadPool.setThreadNum n (EventLoopThreadPool.newPool (name_ s));
  s_after : started_ s ≠ 0 → ∃ cb n next, 0 <= n < 2 ^ 31 ∧ (n = 0 ∨ 0 <= next < n)
    ∧ threadPool_ s = EventLoopThreadPool.pool_at (name_ s) cb n next;
  s_ip : zlen (ipPort_ s) <= 51;
  s_next : nextConnId_ s = Z.of_nat (length (links s)) + 1;
  s_names : ∀ id l, links s !! id = Some l → cname l = conn_name s id;
  s_conn : ∀ id l, links s !! id = Some l → inv (conn l);
  s_stage : ∀ id l, links s !! id = Some l → stage id l s;
  s_map : ∀ nm id, connections_ s !! nm = Some id → ∃ l, links s !! id = Some l ∧ cname l = nm;
  s_ids : ∀ id, links s !! id = None →
    n_io (IEstablish id) (ioq s) = 0%nat ∧ n_rem id (baseq s) = 0%nat ∧ n_io (IDestroy id) (ioq s) = 0%nat }.

Lemma n_io_snoc f q x : n_io f (q ++ [x]) = (n_io f q + if bool_decide (x.2 = f) then 1 else 0)%nat.
Proof.
  unfold n_io. rewrite filter_app, length_app. f_equal. rewrite filter_cons, filter_nil.
  case_decide; [by rewrite bool_decide_eq_true_2|by rewrite bool_decide_eq_false_2].
Qed.
Lemma n_rem_snoc id q x : n_rem id (q ++ [x]) = (n_rem id q + if bool_decide (x = BRemove id) then 1 else 0)%nat.
Proof.
  unfold n_rem. rewrite filter_app, length_app. f_equal. rewrite filter_cons, filter_nil.
  case_decide; [by rewrite bool_decide_eq_true_2|by rewrite bool_decide_eq_false_2].
Qed.

Lemma filter_delete {A} (P : A → Prop) `{!∀ x, Decision (P x)} (q : list A) i x : q !! i = Some x →
  length (filter P q) = (length (filter P (delete i q)) + if bool_decide (P x) then 1 else 0)%nat.
Proof.
  intros Hi. rewrite <-(take_drop_middle q i x Hi) at 1. rewrite delete_take_drop, !filter_app, filter_cons, !length_app.
  case_decide; [rewrite bool_decide_eq_true_2 by done|rewrite bool_decide_eq_false_2 by done]; simpl; lia.
Qed.
Lemma n_io_delete f q i x : q !! i = Some x →
  n_io f q = (n_io f (delete i q) + if bool_decide (x.2 = f) then 1 else 0)%nat.
Proof. intros Hi. exact (filter_delete (λ x, x.2 = f) q i x Hi). Qed.
Lemma n_rem_delete id q i x : q !! i = Some x →
  n_rem id q = (n_rem id (delete i q) + if bool_decide (x = BRemove id) then 1 else 0)%nat.
Proof. intros Hi. exact (filter_delete (.= BRemove id) q i x Hi). Qed.

(** Different connections have different names. *)
Lemma conn_name_inj s i j : conn_name s i = conn_name s j → i = j.
Proof.
  unfold conn_name. intros H. do 4 apply app_inv_head in H. apply (f_equal read_dec) in H.
  rewrite !read_dec_dec in H. injection H as H. lia.
Qed.

Lemma conn_suffix_full ip id : zlen ip <= 51 → 0 <= id < 2 ^ 31 →
  conn_suffix ip id = str "-" ++ ip ++ str "#" ++ dec id.
Proof.
  intros Hi Hd. unfold conn_suffix, snprintf. apply take_ge.
  pose proof (EventLoopThreadPool.dec_length_i32 id Hd). rewrite !length_app. unfold zlen in Hi. simpl. lia.
Qed.

(** ** Changing one connection *)

Record frame (id : nat) (l l' : Link) (s s' : Server) : Prop := {
  f_links : links s' = <[id := l']> (links s);
  f_name : cname l' = cname l;
  f_same : ipPort_ s' = ipPort_ s ∧ name_ s' = name_ s ∧ threadPool_ s' = threadPool_ s
    ∧ started_ s' = started_ s ∧ nextConnId_ s' = nextConnId_ s;
  f_io : ∀ j, j ≠ id → n_io (IEstablish j) (ioq s') = n_io (IEstablish j) (ioq s)
    ∧ n_rem j (baseq s') = n_rem j (baseq s) ∧ n_io (IDestroy j) (ioq s') = n_io (IDestroy j) (ioq s);
  f_map : connections_ s' = connections_ s ∨ connections_ s' = delete (cname l) (connections_ s) }.

Lemma frame_inv id l l' s s' : sinv s → links s !! id = Some l → frame id l l' s s' →
  inv (conn l') → stage id l' s' → sinv s'.
Proof.
  intros Hs Hl [F1 F2 (F3 & F4 & F5 & F6 & F7) F8 F9] Hc Hst.
  assert (Hlt : (id < length (links s))%nat) by (by eapply lookup_lt_Some).
  assert (Hlk : ∀ j k, links s' !! j = Some k → (j = id ∧ k = l') ∨ (j ≠ id ∧ links s !! j = Some k)).
  { intros j k Hj. rewrite F1 in Hj. destruct (decide (j = id)) as [->|Hn].
    - left. rewrite list_lookup_insert_eq in Hj by done. by simplify_eq.
    - right. by rewrite list_lookup_insert_ne in Hj by done. }
  assert (Hne : started_ s ≠ 0).
  { intros E. destruct (s_before s Hs E) as (_ & _ & E' & _). rewrite E' in Hl. done. }
  assert (Hmap : ∀ nm, nm ≠ cname l → connections_ s' !! nm = connections_ s !! nm).
  { intros nm Hn. destruct F9 as [-> | ->]; [done|]. by rewrite lookup_delete_ne. }
  split.
  - rewrite F6. apply Hs.
  - rewrite F6. intros E. done.
  - rewrite F5, F4. intros _. by apply (s_after s Hs).
  - rewrite F3. apply Hs.
  - rewrite F7, F1, length_insert. apply Hs.
  - intros j k Hj. unfold conn_name. rewrite F3, F4. destruct (Hlk j k Hj) as [[-> ->]|[_ Hj']].
    + rewrite F2. by apply (s_names s Hs).
    + by apply (s_names s Hs).
  - intros j k Hj. destruct (Hlk j k Hj) as [[-> ->]|[_ Hj']]; [done|]. by eapply s_conn.
  - intros j k Hj. destruct (Hlk j k Hj) as [[-> ->]|[Hn Hj']]; [done|].
    pose proof (s_stage s Hs j k Hj') as Hk. unfold stage, in_table in *. destruct (F8 j Hn) as (-> & -> & ->).
    rewrite Hmap; [done|]. rewrite (s_names s Hs j k Hj'), (s_names s Hs id l Hl). intros E%conn_name_inj. done.
  - intros nm j Hj. assert (Hj' : connections_ s !! nm = Some j).
    { destruct F9 as [E|E]; rewrite E in Hj; [done|]. by apply lookup_delete_Some in Hj as [_ ?]. }
    destruct (s_map s Hs nm j Hj') as (k & Hk & Hn). rewrite F1. destruct (decide (j = id)) as [->|Hd].
    + exists l'. rewrite list_lookup_insert_eq by done. split; [done|]. rewrite F2. congruence.
    + exists k. by rewrite list_lookup_insert_ne.
  - intros j Hj. rewrite F1 in Hj. assert (Hd : j ≠ id).
    { intros ->. rewrite list_lookup_insert_eq in Hj by done. done. }
    rewrite list_lookup_insert_ne in Hj by done. destruct (F8 j Hd) as (-> & -> & ->). by apply (s_ids s Hs).
Qed.

(** ** Operations preserve the invariant *)

Lemma phase_open c e r d t : phase c e r d t → open c = true → e = 0%nat ∧ r = 0%nat ∧ d = 0%nat ∧ t = true.
Proof. intros Hp Ho%open_cases. destruct Hp; try done; exfalso; destruct Ho; congruence. Qed.
Lemma phase_est c e r d t : phase c e r d t → e ≠ 0%nat →
  state_ c = kConnecting ∧ e = 1%nat ∧ r = 0%nat ∧ d = 0%nat ∧ t = true.
Proof. by destruct 1. Qed.
Lemma phase_rem c e r d t : phase c e r d t → r ≠ 0%nat →
  state_ c = kDisconnected ∧ addedToLoop_ (channel_ c) = true ∧ e = 0%nat ∧ r = 1%nat ∧ d = 0%nat ∧ t = true.
Proof. by destruct 1. Qed.
Lemma phase_des c e r d t : phase c e r d t → d ≠ 0%nat →
  state_ c = kDisconnected ∧ addedToLoop_ (channel_ c) = true ∧ e = 0%nat ∧ r = 0%nat ∧ d = 1%nat ∧ t = false.
Proof. by destruct 1. Qed.

Lemma phase_kept c c' e r d t : phase c e r d t → kept c c' → phase c' e r d t.
Proof.
  intros Hp (K1 & K2 & _ & K4). destruct Hp as [E|E|E Ea|E Ea|E].
  - apply PNew. assert (Ho : open c' = false) by (rewrite K1; apply open_idle; by left).
    apply open_idle in Ho as [?|E']; [done|]. apply K2 in E'. congruence.
  - apply POpen. congruence.
  - apply PClosed; [by apply K2|auto].
  - apply PRemoved; [by apply K2|auto].
  - apply PDestroyed. by apply K2.
Qed.

(** The table entry of a connection that is in it. *)
Lemma in_table_lookup id l s : in_table id l s = true → connections_ s !! cname l = Some id.
Proof. apply bool_decide_eq_true. Qed.

Lemma bool_decide_IDestroy id j : j ≠ id → bool_decide (IDestroy id = IDestroy j) = false.
Proof. intros. apply bool_decide_eq_false_2. congruence. Qed.
Lemma bool_decide_BRemove id j : j ≠ id → bool_decide (BRemove id = BRemove j) = false.
Proof. intros. apply bool_decide_eq_false_2. congruence. Qed.

(** [removeConnectionInLoop] on a state in which [id] has left its open stage;
    [s] is the last well-formed state. *)
Lemma remove_inv id l l' s s1 : sinv s → links s !! id = Some l → frame id l l' s s1 →
  connections_ s1 = connections_ s → in_table id l s = true →
  inv (conn l') → state_ (conn l') = kDisconnected → addedToLoop_ (channel_ (conn l')) = true →
  n_io (IEstablish id) (ioq s1) = 0%nat → n_rem id (baseq s1) = 0%nat → n_io (IDestroy id) (ioq s1) = 0%nat →
  ∃ s', removeConnectionInLoop id s1 = Ok s' ∧ sinv s'.
Proof.
  intros Hs Hl HF Hm Ht Hc Hd Ha He Hr Hn. pose proof HF as [F1 F2 F3 F8 F9].
  assert (Hlt : (id < length (links s))%nat) by (by eapply lookup_lt_Some).
  unfold removeConnectionInLoop. rewrite F1, list_lookup_insert_eq by done. simpl.
  rewrite F2, Hm, (in_table_lookup id l s Ht). rewrite bool_decide_eq_true_2 by done. simpl.
  eexists. split; [reflexivity|]. eapply (frame_inv id l l' s); [done|done| |done|].
  - split; try done.
    + intros j Hj. destruct (F8 j Hj) as (E1 & E2 & E3). simpl. rewrite !n_io_snoc. simpl.
      rewrite bool_decide_IDestroy by done. rewrite !Nat.add_0_r. done.
    + right. simpl. done.
  - unfold stage. simpl. rewrite !n_io_snoc. simpl. rewrite bool_decide_eq_true_2 by done.
    rewrite He, Hr, Hn. unfold in_table. simpl. rewrite F2, lookup_delete_eq, bool_decide_eq_false_2 by done.
    by apply PRemoved.
Qed.

Lemma frame_link id l c s : links s !! id = Some l →
  frame id l (mkLink (cname l) (cloop l) c) s (set_links (<[id := mkLink (cname l) (cloop l) c]> (links s)) s).
Proof. intros Hl. split; try done. by left. Qed.

Lemma conn_op_ok id l o s : sinv s → links s !! id = Some l → user_op o = true → legal (conn l) o →
  ∃ s', conn_op id o s = Ok s' ∧ sinv s'.
Proof.
  intros Hs Hl Hu Ho. pose proof (s_stage s Hs id l Hl) as Hst. pose proof (s_conn s Hs id l Hl) as Hc.
  destruct (conn_step_ok (conn l) o Hc Ho) as (c & E & Hc'). pose proof (step_evolves _ _ _ Hu E) as Hev.
  unfold conn_op. rewrite Hl, E. cbn [mbind res_bind]. pose proof (frame_link id l c s Hl) as HF.
  assert (Hlt : (id < length (links s))%nat) by (by eapply lookup_lt_Some).
  set (s1 := set_links _ s) in *. destruct Hev as [Hk|(K1 & K2 & K3 & K4)].
  - destruct Hk as (K1 & K2 & K3 & K4). rewrite K3, Nat.ltb_irrefl. eexists. split; [reflexivity|].
    eapply frame_inv; [done|done|done|done|]. by eapply phase_kept.
  - rewrite K3, (proj2 (Nat.ltb_lt _ _)) by lia. destruct (phase_open _ _ _ _ _ Hst K1) as (E1 & E2 & E3 & E4).
    unfold removeConnection. unfold s1 at 1. simpl. rewrite list_lookup_insert_eq by done. simpl.
    destruct (cloop l =? baseLoop); [by eapply remove_inv|].
    eexists. split; [reflexivity|]. eapply (frame_inv id l (mkLink (cname l) (cloop l) c) s); [done|done| |done|].
    + split; try done; [|by left]. intros j Hj. simpl. rewrite n_rem_snoc.
      by rewrite bool_decide_BRemove, Nat.add_0_r by done.
    + unfold stage. simpl. rewrite n_rem_snoc, bool_decide_eq_true_2 by done. unfold s1. simpl.
      rewrite E1, E2, E3. unfold in_table in *. simpl. rewrite E4. by apply PClosed.
Qed.

Lemma run_base_ok i s : sinv s → ∃ s', run_base i s = Ok s' ∧ sinv s'.
Proof.
  intros Hs. unfold run_base. destruct (baseq s !! i) as [f|] eqn:Ei; [|eauto].
  assert (Hd : ∀ j, n_rem j (baseq s) = (n_rem j (delete i (baseq s)) + if bool_decide (f = BRemove j) then 1 else 0)%nat).
  { intros j. by apply n_rem_delete. }
  destruct f as [|id].
  - eexists. split; [reflexivity|].
    assert (Hn : started_ s ≠ 0).
    { intros E. destruct (s_before s Hs E) as (_ & Hn & _). apply Hn. by eapply list_elem_of_lookup_2. }
    assert (Hd' : ∀ j, n_rem j (delete i (baseq s)) = n_rem j (baseq s)) by (intros j; rewrite Hd; simpl; lia).
    destruct Hs as [S1 S2 S3 S4 S5 S6 S7 S8 S9 S10]. split; try done.
    + intros j k Hj. unfold stage in *. simpl. rewrite Hd'. by apply S8.
    + intros j Hj. simpl. rewrite Hd'. by apply S10.
  - pose proof (Hd id) as Hd1. rewrite bool_decide_eq_true_2 in Hd1 by done.
    destruct (links s !! id) as [l|] eqn:El; [|destruct (s_ids s Hs id El) as (_ & ? & _); lia].
    destruct (phase_rem _ _ _ _ _ (s_stage s Hs id l El)) as (P1 & P2 & P3 & P4 & P5 & P6); [lia|].
    eapply (remove_inv id l l s (set_baseq (delete i (baseq s)) s)); try done; [|by eapply s_conn|simpl; lia].
    split; try done; [by simpl; rewrite list_insert_id| |by left].
    intros j Hj. simpl. split; [done|]. split; [|done]. rewrite Hd, bool_decide_BRemove by done. lia.
Qed.

Lemma with_conn_ok id l f c s s1 : sinv s → links s !! id = Some l → f (conn l) = Ok c → inv c →
  frame id l l s s1 → stage id (mkLink (cname l) (cloop l) c) s1 → ∃ s', with_conn id f s1 = Ok s' ∧ sinv s'.
Proof.
  intros Hs Hl Hf Hc [F1 F2 F3 F8 F9] Hst. unfold with_conn.
  assert (E : links s1 = links s) by (rewrite F1; by apply list_insert_id). rewrite E, Hl, Hf. cbn [mbind res_bind].
  eexists. split; [reflexivity|]. eapply (frame_inv id l (mkLink (cname l) (cloop l) c) s); [done|done| |done|].
  - split; try done.
  - done.
Qed.

Lemma run_io_ok i s : sinv s → ∃ s', run_io i s = Ok s' ∧ sinv s'.
Proof.
  intros Hs. unfold run_io. destruct (ioq s !! i) as [[lp f]|] eqn:Ei; [|eauto].
  assert (Hd : ∀ g, n_io g (ioq s) = (n_io g (delete i (ioq s)) + if bool_decide (f = g) then 1 else 0)%nat).
  { intros g. by apply (n_io_delete g (ioq s) i (lp, f)). }
  assert (HF : ∀ id l, links s !! id = Some l → (f = IEstablish id ∨ f = IDestroy id) →
    frame id l l s (set_ioq (delete i (ioq s)) s)).
  { intros id l Hl Hf. split; try done; [by simpl; rewrite list_insert_id| |by left]. intros j Hj. simpl.
    pose proof (Hd (IEstablish j)) as D1. pose proof (Hd (IDestroy j)) as D2.
    rewrite bool_decide_eq_false_2 in D1 by naive_solver. rewrite bool_decide_eq_false_2 in D2 by naive_solver.
    split_and!; [lia|done|lia]. }
  destruct f as [id|id]; pose proof (Hd (IEstablish id)) as D1; pose proof (Hd (IDestroy id)) as D2.
  - rewrite bool_decide_eq_true_2 in D1 by done. rewrite bool_decide_eq_false_2 in D2 by done.
    destruct (links s !! id) as [l|] eqn:El; [|destruct (s_ids s Hs id El) as (? & _ & ?); lia].
    destruct (phase_est _ _ _ _ _ (s_stage s Hs id l El)) as (P1 & P2 & P3 & P4 & P5); [lia|].
    destruct (connectEstablished_ok (conn l) (s_conn s Hs id l El) P1) as (c & Ec & Hc).
    eapply with_conn_ok; [done|done|done|done|by apply HF; [|left]|].
    unfold stage. simpl. replace (n_io (IEstablish id) (delete i (ioq s))) with 0%nat by lia.
    replace (n_io (IDestroy id) (delete i (ioq s))) with 0%nat by lia. rewrite P3. unfold in_table in *. simpl. rewrite P5.
    apply POpen. unfold connectEstablished in Ec. res_inv. by subst.
  - rewrite bool_decide_eq_false_2 in D1 by done. rewrite bool_decide_eq_true_2 in D2 by done.
    destruct (links s !! id) as [l|] eqn:El; [|destruct (s_ids s Hs id El) as (? & _ & ?); lia].
    destruct (phase_des _ _ _ _ _ (s_stage s Hs id l El)) as (P1 & P2 & P3 & P4 & P5 & P6); [lia|].
    destruct (connectDestroyed_ok (conn l) (s_conn s Hs id l El)) as (c & Ec & Hc & Hs'); [by right|done|].
    eapply with_conn_ok; [done|done|done|done|by apply HF; [|right]|].
    unfold stage. simpl. replace (n_io (IEstablish id) (delete i (ioq s))) with 0%nat by lia.
    replace (n_io (IDestroy id) (delete i (ioq s))) with 0%nat by lia. rewrite P4. unfold in_table in *. simpl. rewrite P6.
    apply PDestroyed. unfold connectDestroyed, channel_remove, connected in Ec. rewrite P1 in Ec. simpl in Ec.
    res_inv. by subst.
Qed.

#[local] Opaque newTcpConnection.
#[local] Arguments connectEstablished : simpl never.
#[local] Arguments conn_suffix : simpl never.

Lemma getNextLoop_ok nm cb n next : 0 <= n < 2 ^ 31 → n = 0 ∨ 0 <= next < n →
  ∃ loop next', EventLoopThreadPool.getNextLoop (EventLoopThreadPool.pool_at nm cb n next)
    = Ok (loop, EventLoopThreadPool.pool_at nm cb n next') ∧ (n = 0 ∨ 0 <= next' < n).
Proof.
  intros Hn [->|Hx]; [by exists 0, next; split; [|left]|].
  eexists _, _. split; [apply EventLoopThreadPool.getNextLoop_pool; lia|]. right. apply Z.mod_pos_bound. lia.
Qed.

(** A new connection, in whatever stage it starts. *)
Lemma append_inv l s s' : sinv s → started_ s' ≠ 0 → 0 <= started_ s' →
  ipPort_ s' = ipPort_ s → name_ s' = name_ s → links s' = links s ++ [l] →
  nextConnId_ s' = nextConnId_ s + 1 → connections_ s' = <[cname l := length (links s)]> (connections_ s) →
  baseq s' = baseq s → (∀ j, j ≠ length (links s) →
    n_io (IEstablish j) (ioq s') = n_io (IEstablish j) (ioq s) ∧ n_io (IDestroy j) (ioq s') = n_io (IDestroy j) (ioq s)) →
  (∃ cb n next, 0 <= n < 2 ^ 31 ∧ (n = 0 ∨ 0 <= next < n)
    ∧ threadPool_ s' = EventLoopThreadPool.pool_at (name_ s') cb n next) →
  cname l = conn_name s (length (links s)) → inv (conn l) → stage (length (links s)) l s' → sinv s'.
Proof.
  intros Hs Hn0 Hst Hip Hnm Hlk Hnx Hm Hb Hio Hp Hc Hi Hsg.
  assert (Hl : ∀ j k, links s' !! j = Some k →
    (j = length (links s) ∧ k = l) ∨ (j ≠ length (links s) ∧ links s !! j = Some k)).
  { intros j k Hj. rewrite Hlk in Hj. apply lookup_snoc_Some in Hj as [[? ?]|[-> ->]]; [right; split; [lia|done]|by left]. }
  assert (Hnames : ∀ j k, links s' !! j = Some k → cname k = conn_name s j).
  { intros j k Hj. destruct (Hl j k Hj) as [[-> ->]|[? Hj']]; [done|]. by apply (s_names s Hs). }
  split; try done.
  - by rewrite Hip; apply Hs.
  - rewrite Hnx, Hlk, length_app, (s_next s Hs). simpl. lia.
  - intros j k Hj. unfold conn_name. rewrite Hip, Hnm. by apply Hnames.
  - intros j k Hj. destruct (Hl j k Hj) as [[-> ->]|[? Hj']]; [done|]. by eapply s_conn.
  - intros j k Hj. destruct (Hl j k Hj) as [[-> ->]|[Hne Hj']]; [done|].
    pose proof (s_stage s Hs j k Hj') as Hk. unfold stage, in_table in *. destruct (Hio j Hne) as [-> ->].
    rewrite Hb, Hm, lookup_insert_ne; [done|]. rewrite Hc, (Hnames j k Hj). intros E%conn_name_inj. done.
  - intros nm j Hj. rewrite Hm in Hj. rewrite Hlk. apply lookup_insert_Some in Hj as [[<- <-]|[_ Hj]].
    + exists l. by rewrite list_lookup_middle.
    + destruct (s_map s Hs nm j Hj) as (k & Hk & ?). exists k. split; [|done]. by apply lookup_app_l_Some.
  - intros j Hj. rewrite Hlk in Hj. apply lookup_ge_None in Hj. rewrite length_app in Hj. simpl in Hj.
    destruct (Hio j ltac:(lia)) as [-> ->]. rewrite Hb. apply (s_ids s Hs), lookup_ge_None. lia.
Qed.

Lemma newConnection_ok fd s : sinv s → started_ s ≠ 0 → Z.of_nat (length (links s)) + 2 < 2 ^ 31 →
  ∃ s', newConnection fd s = Ok s' ∧ sinv s'.
Proof.
  intros Hs Hn Hlt. destruct (s_after s Hs Hn) as (cb & n & next & H1 & H2 & H3).
  destruct (getNextLoop_ok (name_ s) cb n next H1 H2) as (loop & next' & E & H2').
  destruct (inv_newTcpConnection fd (writeComplete s) false) as (c & Ec & Hc & Hcs & _).
  pose proof (s_next s Hs) as Hnx. set (id := length (links s)) in *.
  assert (Hnone : links s !! id = None) by (apply lookup_ge_None; lia).
  destruct (s_ids s Hs id Hnone) as (Z1 & Z2 & Z3).
  unfold newConnection. rewrite H3, E. cbn [mbind res_bind]. simpl. rewrite i32_ok by lia. simpl. rewrite Ec. simpl.
  rewrite conn_suffix_full by (apply Hs || lia).
  set (nm := name_ s ++ _). assert (Hnm : nm = conn_name s id) by (unfold nm, conn_name; by rewrite Hnx).
  clearbody nm. destruct (loop =? baseLoop).
  - unfold with_conn. simpl. fold id. rewrite list_lookup_middle by done. simpl.
    destruct (connectEstablished_ok c Hc Hcs) as (c' & Ec' & Hc'). rewrite Ec'. simpl.
    eexists. split; [reflexivity|]. eapply (append_inv (mkLink nm loop c') s); try done; simpl.
    + apply Hs.
    + rewrite insert_app_r_alt by done. by rewrite Nat.sub_diag.
    + exists cb, n, next'. done.
    + unfold stage, in_table. simpl. fold id. rewrite Z1, Z2, Z3, lookup_insert_eq, bool_decide_eq_true_2 by done.
      apply POpen. unfold connectEstablished in Ec'. res_inv. by subst.
  - eexists. split; [reflexivity|]. eapply (append_inv (mkLink nm loop c) s); try done; simpl.
    + apply Hs.
    + intros j Hj. rewrite !n_io_snoc. simpl. rewrite (bool_decide_eq_false_2 (IEstablish _ = _)) by (fold id; fold id in Hj; intros [= E']; done).
      by rewrite !Nat.add_0_r.
    + exists cb, n, next'. done.
    + unfold stage, in_table. simpl. fold id. rewrite !n_io_snoc. simpl.
      rewrite Z1, Z2, Z3, lookup_insert_eq, !bool_decide_eq_true_2 by done. by apply PNew.
Qed.

Lemma server_start_ok b cb s : sinv s → started_ s + 1 < 2 ^ 31 → ∃ s', start b cb s = Ok s' ∧ sinv s'.
Proof.
  intros Hs Hlt. pose proof (s_started s Hs) as Hge. unfold start.
  rewrite wraps_small by lia. destruct (started_ s =? 0) eqn:E0.
  - apply Z.eqb_eq in E0. destruct (s_before s Hs E0) as (B1 & B2 & B3 & n & B4 & B5). simpl.
    rewrite B5, EventLoopThreadPool.start_pool. simpl. rewrite B1. simpl. eexists. split; [reflexivity|].
    destruct Hs as [S1 S2 S3 S4 S5 S6 S7 S8 S9 S10].
    assert (Hr : ∀ j, n_rem j (baseq s ++ [BListen]) = n_rem j (baseq s)) by (intros j; rewrite n_rem_snoc; simpl; lia).
    assert (Hpool : ∃ cb' n' next, 0 <= n' < 2 ^ 31 ∧ (n' = 0 ∨ 0 <= next < n')
      ∧ EventLoopThreadPool.pool_at (name_ s) cb n 0 = EventLoopThreadPool.pool_at (name_ s) cb' n' next).
    { exists cb, n, 0. split_and!; [lia|lia|lia|done]. }
    destruct b; split; try done; simpl; try lia.
    + intros j k Hj. unfold stage. simpl. rewrite Hr. by apply S8.
    + intros j Hj. rewrite Hr. by apply S10.
  - apply Z.eqb_neq in E0. eexists. split; [reflexivity|]. destruct Hs as [S1 S2 S3 S4 S5 S6 S7 S8 S9 S10].
    split; try done; simpl; [lia|lia|]. intros _. by apply S3.
Qed.

(** ** Runs *)

(** What the server's steps require: it accepts only while listening and before
    its connection numbers run out, and the operations on a connection are legal
    for it. The functors of any loop may run in any order. *)
Definition slegal (s : Server) (o : sop) : Prop :=
  match o with
  | SStart _ _ => started_ s + 1 < 2 ^ 31
  | SNew _ => listening s = true ∧ Z.of_nat (length (links s)) + 2 < 2 ^ 31
  | SConn id o => ∃ l, links s !! id = Some l ∧ user_op o = true ∧ legal (conn l) o
  | SBase _ | SIo _ => True
  end.
Fixpoint slegal_run (s : Server) (l : list sop) : Prop :=
  match l with
  | [] => True
  | o :: l => slegal s o ∧ ∀ s', sstep s o = Ok s' → slegal_run s' l
  end.

Lemma sstep_ok s o : sinv s → slegal s o → ∃ s', sstep s o = Ok s' ∧ sinv s'.
Proof.
  intros Hs Ho. destruct o; simpl in *.
  - by apply server_start_ok.
  - destruct Ho as [Hl Hn]. apply newConnection_ok; [done| |done]. intros E.
    destruct (s_before s Hs E) as (E' & _). congruence.
  - destruct Ho as (l & ? & ? & ?). by eapply conn_op_ok.
  - by apply run_base_ok.
  - by apply run_io_ok.
Qed.

Lemma srun_ok l s : sinv s → slegal_run s l → ∃ s', srun s l = Ok s' ∧ sinv s'.
Proof.
  revert s. induction l as [|o l IH]; intros s Hi Hl; simpl; [eauto|].
  destruct Hl as [Ho Hl]. destruct (sstep_ok s o Hi Ho) as (s1 & E & H1). rewrite E. simpl.
  by apply IH; [|apply Hl].
Qed.

Lemma sinv_new ip nm wc n : zlen ip <= 51 → 0 <= n < 2 ^ 31 →
  ∃ s, setThreadNum n (newServer ip nm wc) = Ok s ∧ sinv s.
Proof.
  intros Hip Hn. unfold setThreadNum. rewrite (proj2 (Z.leb_le 0 n)) by lia. simpl.
  eexists. split; [reflexivity|]. split; try done.
  intros _. split_and!; try done; [apply not_elem_of_nil|]. by exists n.
Qed.

(** ** Properties *)


(** ** Witness *)

Module SWitness.
(** A connection is accepted, established in its loop, closed and removed. *)
Definition ops : list sop :=
  [SStart true false; SNew 7; SIo 0; SConn 0 OpForceClose; SConn 0 (OpFunctor (WOk 0)); SBase 0; SIo 0].
Definition server : Server := newServer (str "0.0.0.0:80") (str "srv") false.
Definition s0 : Server := match setThreadNum 2 server with Ok s => s | Err _ => server end.
Definition after (k : nat) : Server := match srun s0 (take k ops) with Ok s => s | Err _ => server end.

Lemma slegal_run_cons s o s' l : slegal s o → sstep s o = Ok s' → slegal_run s' l → slegal_run s (o :: l).
Proof. intros Ho E Hl. split; [done|]. intros s'' E'. rewrite E in E'. by injection E' as <-. Qed.

Lemma server_ops_legal : slegal_run s0 ops.
Proof.
  apply (slegal_run_cons _ _ (after 1)); [vm_compute; reflexivity|vm_compute; reflexivity|].
  apply (slegal_run_cons _ _ (after 2)); [split; vm_compute; reflexivity|vm_compute; reflexivity|].
  apply (slegal_run_cons _ _ (after 3)); [exact I|vm_compute; reflexivity|].
  apply (slegal_run_cons _ _ (after 4));
    [eexists; split; [vm_compute; reflexivity|split; [reflexivity|exact I]]|vm_compute; reflexivity|].
  apply (slegal_run_cons _ _ (after 5));
    [eexists; split; [vm_compute; reflexivity|split; [reflexivity|exact I]]|vm_compute; reflexivity|].
  apply (slegal_run_cons _ _ (after 6)); [exact I|vm_compute; reflexivity|].
  apply (slegal_run_cons _ _ (after 7)); [exact I|vm_compute; reflexivity|exact I].
Qed.
End SWitness.

