(* ===== verification/TcpClient.v ===== *)
(** * TCP client (fishnet/net/tcp_client.h, tcp_client.cc)

    The client's one connection at a time, over its [Connector] and the
    [TcpConnection]s it makes: reconnection, and destruction while a connection
    or an attempt is under way. *)

From S2P Require Import Prelude Endian Printf Buffer Channel InetAddress Connector TcpConnection ConnLife.
Local Open Scope Z_scope.

(** ** State *)

(** What [closeCallback_] of a connection is bound to: [TcpClient::removeConnection]
    or, once the client is gone, [detail::removeConnection]. *)
Inductive closecb : Set := ToClient | ToLoop.
Record Link := mkLink { cname : bytes; cfd : Z; ccb : closecb; conn : Conn }.

(** What the client and its connections queue in the loop. *)
Inductive cfunctor : Set := CDestroy (id : nat) | CSetClose (id : nat).
#[global] Instance cfunctor_eq_dec : EqDecision cfunctor.
Proof. solve_decision. Defined.

(** [links] are all connections ever made, a [TcpConnectionPtr] being a position
    in it; [dead] tells that the destructor has run. *)
Record Client := mkClient {
  connector_ : Connector.Connector;
  name_ : bytes;
  writeComplete : bool;
  retry_ : bool;
  connect_ : bool;
  nextConnId_ : Z;
  connection_ : option nat;
  links : list Link;
  loopq : list cfunctor;
  dead : bool }.

Definition set_connector (c : Connector.Connector) (s : Client) : Client :=
  mkClient c (name_ s) (writeComplete s) (retry_ s) (connect_ s) (nextConnId_ s) (connection_ s) (links s) (loopq s) (dead s).
Definition set_connect (b : bool) (s : Client) : Client :=
  mkClient (connector_ s) (name_ s) (writeComplete s) (retry_ s) b (nextConnId_ s) (connection_ s) (links s) (loopq s) (dead s).
Definition set_next (n : Z) (s : Client) : Client :=
  mkClient (connector_ s) (name_ s) (writeComplete s) (retry_ s) (connect_ s) n (connection_ s) (links s) (loopq s) (dead s).
Definition set_connection (c : option nat) (s : Client) : Client :=
  mkClient (connector_ s) (name_ s) (writeComplete s) (retry_ s) (connect_ s) (nextConnId_ s) c (links s) (loopq s) (dead s).
Definition set_links (l : list Link) (s : Client) : Client :=
  mkClient (connector_ s) (name_ s) (writeComplete s) (retry_ s) (connect_ s) (nextConnId_ s) (connection_ s) l (loopq s) (dead s).
Definition set_loopq (q : list cfunctor) (s : Client) : Client :=
  mkClient (connector_ s) (name_ s) (writeComplete s) (retry_ s) (connect_ s) (nextConnId_ s) (connection_ s) (links s) q (dead s).
Definition set_dead (s : Client) : Client :=
  mkClient (connector_ s) (name_ s) (writeComplete s) (retry_ s) (connect_ s) (nextConnId_ s) (connection_ s) (links s) (loopq s) true.
Definition push (f : cfunctor) (s : Client) : Client := set_loopq (loopq s ++ [f]) s.

(** ** Operations *)

(** The constructor; [wc] tells whether the user sets a write-complete callback. *)
Definition newClient (nameArg : bytes) (wc : bool) : Client :=
  mkClient Connector.newConnector nameArg wc false true 1 None [] [] false.
Definition enableRetry (s : Client) : Client :=
  mkClient (connector_ s) (name_ s) (writeComplete s) true (connect_ s) (nextConnId_ s) (connection_ s) (links s) (loopq s) (dead s).

Definition connect (inLoopThread : bool) (e : Connector.env) (s : Client) : res Client :=
  let s := set_connect true s in
  c ← Connector.start inLoopThread e (connector_ s);
  Ok (set_connector c s).

(** Runs a member function of connection [id]. *)
Definition with_conn (id : nat) (f : Conn → res Conn) (s : Client) : res Client :=
  match links s !! id with
  | Some l => c ← f (conn l); Ok (set_links (<[id := mkLink (cname l) (cfd l) (ccb l) c]> (links s)) s)
  | None => Err OutOfBounds
  end.

Definition disconnect (inLoopThread : bool) (s : Client) : res Client :=
  let s := set_connect false s in
  match connection_ s with
  | Some id => with_conn id (λ c, Ok (shutdown inLoopThread c)) s
  | None => Ok s
  end.

Definition stop (s : Client) : Client := set_connector (Connector.stop (connector_ s)) (set_connect false s).

(** The name of a connection: the peer's address and a number in 32 bytes. *)
Definition client_suffix (ip : bytes) (id : Z) : bytes := snprintf 32 (str ":" ++ ip ++ str "#" ++ dec id).

(** [ip] is what [peerAddr.toIpPort()] gives. *)
Definition newConnection (sockfd : Z) (ip : bytes) (s : Client) : res Client :=
  let buf := client_suffix ip (nextConnId_ s) in
  next ← i32 (nextConnId_ s + 1);
  let s := set_next next s in
  let connName := name_ s ++ buf in
  c ← newTcpConnection sockfd (writeComplete s) false;
  let id := length (links s) in
  let s := set_links (links s ++ [mkLink connName sockfd ToClient c]) s in
  let s := set_connection (Some id) s in
  with_conn id connectEstablished s.

(** Called by the connection; [e] is what the system gives a new attempt. *)
Definition removeConnection (id : nat) (e : Connector.env) (s : Client) : res Client :=
  assertb (bool_decide (connection_ s = Some id));;
  let s := push (CDestroy id) (set_connection None s) in
  if retry_ s && connect_ s then
    c ← Connector.restart e (connector_ s);
    Ok (set_connector c s)
  else Ok s.

(** [detail::removeConnection] *)
Definition detail_removeConnection (id : nat) (s : Client) : Client := push (CDestroy id) s.

(** The call of [closeCallback_]; bound to a client that is gone, it uses freed memory. *)
Definition closed_by (id : nat) (cb : closecb) (e : Connector.env) (s : Client) : res Client :=
  match cb with
  | ToLoop => Ok (detail_removeConnection id s)
  | ToClient => if dead s then Err OutOfBounds else removeConnection id e s
  end.

(** An operation of connection [id]. *)
Definition conn_op (id : nat) (o : op) (e : Connector.env) (s : Client) : res Client :=
  match links s !! id with
  | Some l =>
      c ← step (conn l) o;
      let s := set_links (<[id := mkLink (cname l) (cfd l) (ccb l) c]> (links s)) s in
      if (closes (conn l) <? closes c)%nat then closed_by id (ccb l) e s else Ok s
  | None => Err OutOfBounds
  end.

(** The sockets a connector has passed to [newConnectionCallback_]. *)
Definition handoffs (l : list Connector.event) : list Z :=
  omap (λ e, match e with Connector.EvNewConnection fd => Some fd | _ => None end) l.

(** A step of the connector in the loop: its callback is [newConnection]. *)
Definition connector_op `{Host} (o : Connector.op) (ip : bytes) (s : Client) : res Client :=
  c ← Connector.step (connector_ s) o;
  match drop (length (handoffs (Connector.log (connector_ s)))) (handoffs (Connector.log c)) with
  | [] => Ok (set_connector c s)
  | fd :: _ => if dead s then Err OutOfBounds else newConnection fd ip (set_connector c s)
  end.

Definition set_cb (id : nat) (cb : closecb) (s : Client) : Client :=
  match links s !! id with
  | Some l => set_links (<[id := mkLink (cname l) (cfd l) cb (conn l)]> (links s)) s
  | None => s
  end.

(** The destructor; [unique] is [connection_.unique()]. *)
Definition destroyClient (inLoopThread unique : bool) (s : Client) : res Client :=
  let s' := set_dead (set_connection None s) in
  match connection_ s with
  | Some id =>
      let s' := if inLoopThread then set_cb id ToLoop s' else push (CSetClose id) s' in
      if unique then with_conn id (λ c, Ok (forceClose c)) s' else Ok s'
  | None => Ok (set_connector (Connector.stop (connector_ s)) s')
  end.

(** The loop runs the first functor of those the client queued. *)
Definition run_loop (s : Client) : res Client :=
  match loopq s with
  | [] => Ok s
  | f :: q =>
      let s := set_loopq q s in
      match f with
      | CDestroy id => with_conn id connectDestroyed s
      | CSetClose id => Ok (set_cb id ToLoop s)
      end
  end.

Inductive cop : Type :=
| CConnect (inLoopThread : bool) (e : Connector.env)
| CDisconnect (inLoopThread : bool)
| CStop
| CEnableRetry
| CConnector (o : Connector.op) (ip : bytes)
| CConn (id : nat) (o : op) (e : Connector.env)
| CLoop
| CDelete (inLoopThread unique : bool).

Section steps.
Context `{Host}.

Definition cstep (s : Client) (o : cop) : res Client :=
  match o with
  | CConnect b e => connect b e s
  | CDisconnect b => disconnect b s
  | CStop => Ok (stop s)
  | CEnableRetry => Ok (enableRetry s)
  | CConnector o ip => connector_op o ip s
  | CConn id o e => conn_op id o e s
  | CLoop => run_loop s
  | CDelete b u => destroyClient b u s
  end.
Fixpoint crun (s : Client) (l : list cop) : res Client :=
  match l with
  | [] => Ok s
  | o :: l => s ← cstep s o; crun s l
  end.

(** ** What a step of the connector can change *)

(** The connector's steps in the loop, as opposed to the client's calls. *)
Definition loop_op (o : Connector.op) : bool :=
  match o with Connector.OpEvent _ _ | Connector.OpFunctor _ | Connector.OpTimer _ _ => true | _ => false end.

Definition quiet (c c' : Connector.Connector) : Prop :=
  Connector.connect_ c' = Connector.connect_ c
  ∧ handoffs (Connector.log c') = handoffs (Connector.log c)
  ∧ (Connector.state_ c = Connector.kConnected → Connector.state_ c' = Connector.kConnected).
Definition handed (fd : Z) (c c' : Connector.Connector) : Prop :=
  Connector.connect_ c' = Connector.connect_ c ∧ Connector.connect_ c = true
  ∧ handoffs (Connector.log c') = handoffs (Connector.log c) ++ [fd]
  ∧ Connector.state_ c' = Connector.kConnected ∧ Connector.state_ c ≠ Connector.kConnected.
Definition moves (c c' : Connector.Connector) : Prop := quiet c c' ∨ ∃ fd, handed fd c c'.

Lemma quiet_refl c : quiet c c.
Proof. by split_and!. Qed.
Lemma quiet_trans c1 c2 c3 : quiet c1 c2 → quiet c2 c3 → quiet c1 c3.
Proof. intros (A1 & A2 & A3) (B1 & B2 & B3). split_and!; [congruence|congruence|auto]. Qed.
Lemma moves_trans c1 c2 c3 : moves c1 c2 → moves c2 c3 → moves c1 c3.
Proof.
  intros [A|(fd & A1 & A2 & A3 & A4 & A5)] [B|(fd' & B1 & B2 & B3 & B4 & B5)].
  - left. by eapply quiet_trans.
  - right. exists fd'. destruct A as (A1 & A2 & A3). split_and!; [congruence|congruence|congruence|done|auto].
  - right. exists fd. destruct B as (B1 & B2 & B3). split_and!; [congruence|done|congruence|auto|done].
  - done.
Qed.

Lemma handoffs_app l k : handoffs (l ++ k) = handoffs l ++ handoffs k.
Proof. apply omap_app. Qed.

(** From a state other than kConnected. *)
Definition calm (c c' : Connector.Connector) : Prop :=
  Connector.connect_ c' = Connector.connect_ c ∧ handoffs (Connector.log c') = handoffs (Connector.log c).
Lemma calm_quiet c c' : calm c c' → Connector.state_ c ≠ Connector.kConnected → quiet c c'.
Proof. intros [A B] Hn. by split_and!. Qed.
Lemma calm_trans c1 c2 c3 : calm c1 c2 → calm c2 c3 → calm c1 c3.
Proof. intros [A1 A2] [B1 B2]. split; congruence. Qed.

Lemma calm_close fd c : calm c (Connector.close fd c).
Proof. split; [done|]. simpl. rewrite handoffs_app. apply app_nil_r. Qed.
Lemma calm_retry fd c c' : Connector.retry fd c = Ok c' → calm c c'.
Proof.
  unfold Connector.retry. intros E. eapply (calm_trans _ (Connector.close fd c)); [apply calm_close|].
  set (c1 := Connector.close fd c) in *. destruct (Connector.connect_ _); [|by injection E as <-].
  apply bind_ok_inv in E as (n & _ & E). by injection E as <-.
Qed.
Lemma calm_connect e c c' : Connector.connect e c = Ok c' → calm c c'.
Proof.
  unfold Connector.connect, Connector.createNonblockingOrDie. intros E. apply bind_ok_inv in E as (c1 & E1 & E).
  apply bind_ok_inv in E1 as (_ & _ & E1). injection E1 as <-. set (c1 := Connector.note _ c) in *.
  assert (H1 : calm c c1) by (split; [done|]; simpl; rewrite handoffs_app; apply app_nil_r).
  eapply calm_trans; [exact H1|]. destruct (Connector.mem _ _).
  - unfold Connector.connecting in E. apply bind_ok_inv in E as (_ & _ & E). by injection E as <-.
  - destruct (Connector.mem _ _); [by eapply calm_retry|]. injection E as <-. apply calm_close.
Qed.
Lemma quiet_startInLoop e c c' : Connector.startInLoop e c = Ok c' → quiet c c'.
Proof.
  unfold Connector.startInLoop. intros E. apply bind_ok_inv in E as (u & Ha & E).
  assert (Hn : Connector.state_ c = Connector.kDisconnected) by (by case_bool_decide).
  apply calm_quiet; [|by rewrite Hn]. destruct (Connector.connect_ c); [by eapply calm_connect|by injection E as <-].
Qed.
Lemma calm_remove c fd c' : Connector.removeAndResetChannel c = Ok (fd, c') →
  calm c c' ∧ Connector.state_ c' = Connector.state_ c.
Proof.
  unfold Connector.removeAndResetChannel. destruct (Connector.channel_ c); [|done]. intros E.
  apply bind_ok_inv in E as (_ & _ & E). by injection E as <- <-.
Qed.
Lemma quiet_stopInLoop c c' : Connector.stopInLoop c = Ok c' → quiet c c'.
Proof.
  unfold Connector.stopInLoop. case_bool_decide as Hs; [|intros [= <-]; apply quiet_refl]. intros E.
  apply bind_ok_inv in E as ([fd c1] & E1 & E). apply calm_quiet; [|by rewrite Hs].
  apply calm_remove in E1 as [E1 _]. apply calm_retry in E. by eapply calm_trans; [|eapply calm_trans].
Qed.
Lemma quiet_handleError e c c' : Connector.handleError e c = Ok c' → quiet c c'.
Proof.
  unfold Connector.handleError. case_bool_decide as Hs; [|intros [= <-]; apply quiet_refl]. intros E.
  apply bind_ok_inv in E as ([fd c1] & E1 & E). apply calm_quiet; [|by rewrite Hs].
  apply calm_remove in E1 as [E1 _]. apply calm_retry in E. by eapply calm_trans.
Qed.
Lemma moves_handleWrite e c c' : Connector.handleWrite e c = Ok c' → moves c c'.
Proof.
  unfold Connector.handleWrite. case_bool_decide as Hs.
  2: { intros E. apply bind_ok_inv in E as (_ & _ & E). injection E as <-. left. apply quiet_refl. }
  intros E. apply bind_ok_inv in E as ([fd c1] & E1 & E). apply calm_remove in E1 as [E1 Hs1].
  assert (Hn : Connector.state_ c ≠ Connector.kConnected) by (by rewrite Hs).
  destruct (negb _); [left; apply calm_quiet; [eapply calm_trans; [done|by eapply calm_retry]|done]|].
  destruct (isSelfConnect _ _); [left; apply calm_quiet; [eapply calm_trans; [done|by eapply calm_retry]|done]|].
  set (c2 := Connector.setState Connector.kConnected c1) in *.
  destruct E1 as [A1 A2]. destruct (Connector.connect_ c2) eqn:Ec; injection E as <-.
  - right. exists fd. split_and!; try done; simpl in *; [congruence|]. rewrite handoffs_app, A2. done.
  - left. apply calm_quiet; [|done]. apply (calm_trans _ c2); [by split|apply calm_close].
Qed.
Lemma moves_callbacks e l c c' : Connector.callbacks_run e c l = Ok c' → moves c c'.
Proof.
  revert c. induction l as [|k l IH]; intros c E; simpl in E; [injection E as <-; left; apply quiet_refl|].
  apply bind_ok_inv in E as (c1 & E1 & E). eapply moves_trans; [|by apply IH].
  destruct k; simpl in E1; try (injection E1 as <-; left; apply quiet_refl).
  - left. by eapply quiet_handleError.
  - by eapply moves_handleWrite.
Qed.

Lemma connector_moves o c c' : loop_op o = true → Connector.step c o = Ok c' → moves c c'.
Proof.
  intros Ho E. destruct o as [| | |r e|e|i e]; try done; simpl in E.
  - unfold Connector.handle_event in E. destruct (Connector.channel_ c) as [ch|]; [|done].
    eapply moves_trans; [|by eapply moves_callbacks]. by left.
  - unfold Connector.run_functor in E. destruct (Connector.pending c) as [|f l]; [injection E as <-; left; apply quiet_refl|].
    set (c1 := Connector.set_pending l c) in *. apply (moves_trans _ c1); [by left|]. left. destruct f.
    + by eapply quiet_startInLoop.
    + by eapply quiet_stopInLoop.
    + by injection E as <-.
  - unfold Connector.run_timer in E. left. apply quiet_startInLoop in E. eapply quiet_trans; [|exact E]. done.
Qed.

Lemma handoffs_start b e c c' : Connector.start b e c = Ok c' → handoffs (Connector.log c') = handoffs (Connector.log c).
Proof.
  unfold Connector.start. destruct b; [|by intros [= <-]]. intros E%quiet_startInLoop. by destruct E as (_ & E & _).
Qed.
Lemma handoffs_restart e c c' : Connector.restart e c = Ok c' → handoffs (Connector.log c') = handoffs (Connector.log c).
Proof. unfold Connector.restart. intros E%quiet_startInLoop. by destruct E as (_ & E & _). Qed.

(** ** Invariant *)

Definition n_des (id : nat) (q : list cfunctor) : nat := length (filter (.= CDestroy id) q).
Definition is_destroy (f : cfunctor) : Prop := match f with CDestroy _ => True | CSetClose _ => False end.

(** A connection is the client's open one (or one the client has left behind), or
    it is closed and waits to be destroyed at most once. *)
Definition stage (id : nat) (l : Link) (s : Client) : Prop :=
  (open (conn l) = true ∧ n_des id (loopq s) = 0%nat
   ∧ (if dead s then ccb l = ToLoop else connection_ s = Some id ∧ ccb l = ToClient))
  ∨ (state_ (conn l) = kDisconnected ∧ connection_ s ≠ Some id
     ∧ (n_des id (loopq s) = 0%nat ∨ n_des id (loopq s) = 1%nat ∧ addedToLoop_ (channel_ (conn l)) = true)).

(** What holds between the connector and the rest. *)
Record linked (s : Client) : Prop := {
  k_ctor : Connector.inv (connector_ s);
  k_fds : cfd <$> links s = handoffs (Connector.log (connector_ s));
  k_up : connection_ s ≠ None → dead s = false ∧ Connector.state_ (connector_ s) = Connector.kConnected;
  k_dead : dead s = true → Connector.connect_ (connector_ s) = false ∨ Connector.state_ (connector_ s) = Connector.kConnected }.

Record cinv (s : Client) : Prop := {
  k_linked : linked s;
  k_next : nextConnId_ s = Z.of_nat (length (links s)) + 1;
  k_conn : ∀ id l, links s !! id = Some l → inv (conn l);
  k_stage : ∀ id l, links s !! id = Some l → stage id l s;
  k_cur : ∀ id, connection_ s = Some id → is_Some (links s !! id);
  k_one : ∀ i j li lj, links s !! i = Some li → links s !! j = Some lj →
    open (conn li) = true → open (conn lj) = true → i = j;
  k_q : Forall is_destroy (loopq s);
  k_ids : ∀ id, links s !! id = None → n_des id (loopq s) = 0%nat }.

Lemma n_des_snoc id q f : n_des id (q ++ [f]) = (n_des id q + if bool_decide (f = CDestroy id) then 1 else 0)%nat.
Proof.
  unfold n_des. rewrite filter_app, length_app. f_equal. rewrite filter_cons, filter_nil.
  case_decide; [by rewrite bool_decide_eq_true_2|by rewrite bool_decide_eq_false_2].
Qed.
Lemma n_des_cons id q f : n_des id (f :: q) = (n_des id q + if bool_decide (f = CDestroy id) then 1 else 0)%nat.
Proof.
  unfold n_des. rewrite filter_cons.
  case_decide; [rewrite bool_decide_eq_true_2 by done|rewrite bool_decide_eq_false_2 by done]; simpl; lia.
Qed.

(** Changing one connection. *)
Lemma upd_inv id l l' s s' : cinv s → links s !! id = Some l →
  links s' = <[id := l']> (links s) → inv (conn l') → (open (conn l') = true → open (conn l) = true) →
  nextConnId_ s' = nextConnId_ s → dead s' = dead s →
  (∀ j, j ≠ id → n_des j (loopq s') = n_des j (loopq s)) → Forall is_destroy (loopq s') →
  (connection_ s' = connection_ s ∨ connection_ s = Some id ∧ connection_ s' = None) →
  stage id l' s' → linked s' → cinv s'.
Proof.
  intros Hs Hl Hlk Hc Hop Hn Hd Hq Hf Hcn Hst Hk.
  assert (Hlt : (id < length (links s))%nat) by (by eapply lookup_lt_Some).
  assert (Hlkk : ∀ j k, links s' !! j = Some k → (j = id ∧ k = l') ∨ (j ≠ id ∧ links s !! j = Some k)).
  { intros j k Hj. rewrite Hlk in Hj. destruct (decide (j = id)) as [->|Hne].
    - left. rewrite list_lookup_insert_eq in Hj by done. by simplify_eq.
    - right. by rewrite list_lookup_insert_ne in Hj by done. }
  assert (Hold : ∀ j k, links s' !! j = Some k → ∃ k0, links s !! j = Some k0 ∧ (open (conn k) = true → open (conn k0) = true)).
  { intros j k Hj. destruct (Hlkk j k Hj) as [[-> ->]|[_ Hj']]; [by exists l|by exists k]. }
  split; [done| | | | | | |].
  - rewrite Hn, Hlk, length_insert. apply Hs.
  - intros j k Hj. destruct (Hlkk j k Hj) as [[-> ->]|[_ Hj']]; [done|by eapply k_conn].
  - intros j k Hj. destruct (Hlkk j k Hj) as [[-> ->]|[Hne Hj']]; [done|].
    pose proof (k_stage s Hs j k Hj') as Hk'. unfold stage in *. rewrite Hd, (Hq j Hne).
    destruct Hk' as [(O1 & O2 & O3)|(O1 & O2 & O3)]; [left|right; split_and!; try done].
    + split_and!; try done. destruct (dead s); [done|]. destruct O3 as [O3 O4]. split; [|done].
      destruct Hcn as [->|[E _]]; [done|]. rewrite E in O3. by injection O3 as ->.
    + destruct Hcn as [->|[_ ->]]; done.
  - intros j Hj. destruct Hcn as [E|[_ E]]; rewrite E in Hj; [|done].
    rewrite Hlk. destruct (decide (j = id)) as [->|Hne].
    + rewrite list_lookup_insert_eq by done. eauto.
    + rewrite list_lookup_insert_ne by done. by apply (k_cur s Hs).
  - intros i j li lj Hi Hj Oi Oj. destruct (Hold i li Hi) as (ki & Hi' & Oi'). destruct (Hold j lj Hj) as (kj & Hj' & Oj').
    by apply (k_one s Hs i j ki kj); auto.
  - done.
  - intros j Hj. assert (Hne : j ≠ id).
    { intros ->. rewrite Hlk, list_lookup_insert_eq in Hj by done. done. }
    rewrite Hlk, list_lookup_insert_ne in Hj by done. rewrite Hq by done. by apply (k_ids s Hs).
Qed.

Lemma stage_kept id l c s : stage id l s → kept (conn l) c → stage id (mkLink (cname l) (cfd l) (ccb l) c) s.
Proof.
  intros [(O1 & O2 & O3)|(O1 & O2 & O3)] (K1 & K2 & _ & K4).
  - left. simpl. split_and!; [congruence|done|done].
  - right. simpl. split_and!; [by apply K2|done|]. destruct O3 as [?|[? ?]]; [by left|right; auto].
Qed.

(** The connector may take steps of its own. *)
Lemma linked_links s ls : linked s → cfd <$> ls = cfd <$> links s → linked (set_links ls s).
Proof. intros [K1 K2 K3 K4] E. split; try done. simpl. congruence. Qed.

Lemma fmap_upd id (l : Link) cn cb c (ls : list Link) : ls !! id = Some l → cfd <$> <[id := mkLink cn (cfd l) cb c]> ls = cfd <$> ls.
Proof. intros Hl. rewrite list_fmap_insert. simpl. apply list_insert_id. by rewrite list_lookup_fmap, Hl. Qed.

(** A member function of one connection that keeps its stage. *)
Lemma with_conn_kept id l f c s : cinv s → links s !! id = Some l → f (conn l) = Ok c → inv c → kept (conn l) c →
  ∃ s', with_conn id f s = Ok s' ∧ cinv s'.
Proof.
  intros Hs Hl Hf Hc Hk. unfold with_conn. rewrite Hl, Hf. cbn [mbind res_bind]. eexists. split; [reflexivity|].
  eapply (upd_inv id l (mkLink (cname l) (cfd l) (ccb l) c) s); try done.
  - simpl. destruct Hk as (K1 & _). congruence.
  - apply Hs.
  - by left.
  - by apply (stage_kept id l c s); [eapply k_stage|].
  - apply linked_links; [apply Hs|by apply fmap_upd].
Qed.

Lemma cinv_set_connect b s : cinv s → cinv (set_connect b s).
Proof. intros [[K1 K2 K3 K4] C2 C3 C4 C5 C6 C7 C8]. split; try done. Qed.
Lemma cinv_connector c s : cinv s → linked (set_connector c s) → cinv (set_connector c s).
Proof. intros [K C2 C3 C4 C5 C6 C7 C8] Hk. by split. Qed.

(** ** Operations preserve the invariant *)

Lemma client_connect_ok b e s : cinv s → dead s = false → Connector.ready (connector_ s) → 0 <= Connector.sockfd e →
  ∃ s', connect b e s = Ok s' ∧ cinv s'.
Proof.
  intros Hs Hd Hr Hf. unfold connect. pose proof (k_linked s Hs) as [K1 K2 K3 K4]. simpl.
  destruct (Connector.connector_start_ok b e (connector_ s) K1 Hr Hf) as (c & E & Hc). rewrite E. simpl.
  eexists. split; [reflexivity|]. apply cinv_connector; [by apply cinv_set_connect|]. split; simpl; try done.
  - by rewrite K2, (handoffs_start _ _ _ _ E).
  - intros Hn. destruct (K3 Hn) as [_ K]. destruct Hr as [Hr _]. congruence.
  - congruence.
Qed.

Lemma client_disconnect_ok b s : cinv s → ∃ s', disconnect b s = Ok s' ∧ cinv s'.
Proof.
  intros Hs. unfold disconnect. simpl. apply (cinv_set_connect false) in Hs.
  destruct (connection_ s) as [id|] eqn:Ec; [|eauto]. destruct (k_cur _ Hs id Ec) as [l Hl].
  eapply (with_conn_kept id l); [done|done|done| |apply kept_shutdown]. apply shutdown_ok. by eapply k_conn.
Qed.

Lemma connector_quiet_linked c s : linked s → quiet (connector_ s) c → Connector.inv c → linked (set_connector c s).
Proof.
  intros [K1 K2 K3 K4] (Q1 & Q2 & Q3) Hc. split; simpl; try done.
  - congruence.
  - intros Hn. destruct (K3 Hn). auto.
  - intros Hd. rewrite Q1. destruct (K4 Hd); auto.
Qed.

Lemma client_stop_ok s : cinv s → cinv (stop s).
Proof.
  intros Hs. unfold stop. apply cinv_connector; [by apply cinv_set_connect|]. destruct (k_linked s Hs) as [K1 K2 K3 K4].
  split; simpl; try done; [by apply Connector.stop_ok|]. intros _. by left.
Qed.

#[local] Opaque newTcpConnection.
#[local] Arguments connectEstablished : simpl never.
#[local] Arguments client_suffix : simpl never.

(** A new connection, when there is none and the connector has just passed on [fd]. *)
Lemma client_new_ok fd ip s c : cinv s → dead s = false → connection_ s = None →
  Z.of_nat (length (links s)) + 2 < 2 ^ 31 → Connector.inv c → handed fd (connector_ s) c →
  ∃ s', newConnection fd ip (set_connector c s) = Ok s' ∧ cinv s'.
Proof.
  intros Hs Hd Hcn Hlt Hc (E1 & E2 & E3 & E4 & E5). unfold newConnection. simpl.
  rewrite (k_next s Hs), i32_ok by lia. cbn [mbind res_bind].
  destruct (inv_newTcpConnection fd (writeComplete s) false) as (c0 & Ec & Hc0 & Hst & _). rewrite Ec. cbn [mbind res_bind].
  destruct (connectEstablished_ok c0 Hc0 Hst) as (c1 & Ee & Hc1). unfold with_conn. simpl.
  rewrite list_lookup_middle by done. simpl. rewrite Ee. simpl. eexists. split; [reflexivity|].
  rewrite insert_app_r_alt by done. rewrite Nat.sub_diag. cbn [list_insert insert].
  set (nl := mkLink _ _ _ _). set (n := length (links s)).
  assert (Hop : open c1 = true) by (unfold connectEstablished in Ee; res_inv; by subst).
  assert (Hcl : ∀ j k, links s !! j = Some k → open (conn k) = false).
  { intros j k Hj. destruct (k_stage s Hs j k Hj) as [(_ & _ & O)|(O & _)].
    - rewrite Hd in O. destruct O as [O _]. congruence.
    - apply open_idle. by right. }
  assert (Hlk : ∀ j k, (links s ++ [nl]) !! j = Some k → (j = n ∧ k = nl) ∨ ((j < n)%nat ∧ links s !! j = Some k)).
  { intros j k Hj. apply lookup_snoc_Some in Hj as [[? ?]|[-> ->]]; [by right|by left]. }
  destruct (k_linked s Hs) as [K1 K2 K3 K4]. split; simpl; [split; simpl; try done| | | | | | |].
  - rewrite fmap_app, K2, E3. done.
  - intros Hdd. congruence.
  - rewrite length_app. simpl. lia.
  - intros j k Hj. destruct (Hlk j k Hj) as [[-> ->]|[_ Hj']]; [done|by eapply k_conn].
  - intros j k Hj. unfold stage. simpl. rewrite Hd. destruct (Hlk j k Hj) as [[-> ->]|[Hjn Hj']].
    + left. split_and!; try done. apply (k_ids s Hs), lookup_ge_None. lia.
    + right. destruct (k_stage s Hs j k Hj') as [(O & _)|(O1 & _ & O3)]; [rewrite (Hcl j k Hj') in O; done|].
      split_and!; try done. intros [= Hx]. fold n in Hx. lia.
  - intros j [= <-]. rewrite list_lookup_middle by done. eauto.
  - intros i j li lj Hi Hj Oi Oj. destruct (Hlk i li Hi) as [[-> _]|[_ Hi']]; [|by rewrite (Hcl i li Hi') in Oi].
    destruct (Hlk j lj Hj) as [[-> _]|[_ Hj']]; [done|by rewrite (Hcl j lj Hj') in Oj].
  - apply Hs.
  - intros j Hj. apply (k_ids s Hs). apply lookup_ge_None in Hj. rewrite length_app in Hj. simpl in Hj.
    apply lookup_ge_None. lia.
Qed.

Lemma connector_op_ok o ip s : cinv s → loop_op o = true → Connector.legal (connector_ s) o →
  Z.of_nat (length (links s)) + 2 < 2 ^ 31 → ∃ s', connector_op o ip s = Ok s' ∧ cinv s'.
Proof.
  intros Hs Ho Hl Hlt. pose proof (k_linked s Hs) as Hk. pose proof Hk as [K1 K2 K3 K4].
  destruct (Connector.connector_step_ok (connector_ s) o K1 Hl) as (c & E & Hc). unfold connector_op. rewrite E.
  cbn [mbind res_bind]. destruct (connector_moves o _ _ Ho E) as [Hq|(fd & Hh)].
  - pose proof Hq as (_ & -> & _). rewrite drop_all. eexists. split; [reflexivity|].
    apply cinv_connector; [done|]. by apply connector_quiet_linked.
  - pose proof Hh as (E1 & E2 & E3 & E4 & E5). rewrite E3, drop_app_length.
    assert (Hd : dead s = false).
    { destruct (dead s) eqn:Ed; [|done]. destruct (K4 eq_refl) as [Hx|Hx]; congruence. }
    rewrite Hd. apply client_new_ok; try done. destruct (connection_ s) eqn:Ecn; [|done].
    destruct K3 as [_ K3]; done.
Qed.

Lemma removeConnection_ok id l c e s : cinv s → links s !! id = Some l → dead s = false → ccb l = ToClient →
  inv c → closed (conn l) c → (connection_ s = Some id → Connector.channel_ (connector_ s) = None) → 0 <= Connector.sockfd e →
  let s1 := set_links (<[id := mkLink (cname l) (cfd l) (ccb l) c]> (links s)) s in
  ∃ s', removeConnection id e s1 = Ok s' ∧ cinv s'.
Proof.
  intros Hs Hl Hd Hcb Hc (C1 & C2 & C3 & C4) Hch Hf s1.
  destruct (k_stage s Hs id l Hl) as [(O1 & O2 & O3)|(O1 & _)].
  2: { apply open_cases in C1. rewrite O1 in C1. by destruct C1. }
  rewrite Hd in O3. destruct O3 as [O3 O4]. unfold removeConnection. unfold s1 at 1. simpl.
  rewrite O3, bool_decide_eq_true_2 by done. cbn [mbind res_bind assertb].
  pose proof (k_linked s Hs) as [K1 K2 K3 K4].
  assert (Hgo : ∀ c', Connector.inv c' → handoffs (Connector.log c') = handoffs (Connector.log (connector_ s)) →
    cinv (set_connector c' (push (CDestroy id) (set_connection None s1)))).
  { intros c' Hc' Hh. eapply (upd_inv id l (mkLink (cname l) (cfd l) (ccb l) c) s); try done; simpl.
    - intros j Hj. rewrite n_des_snoc, bool_decide_eq_false_2 by congruence. lia.
    - apply Forall_app. split; [apply Hs|]. by apply Forall_singleton.
    - by right.
    - right. simpl. split_and!; try done. right. rewrite n_des_snoc, bool_decide_eq_true_2, O2 by done. done.
    - split; simpl; try done; [|congruence]. by rewrite fmap_upd, K2, Hh. }
  unfold s1 at 1 2. simpl. destruct (retry_ s && connect_ s).
  - destruct (Connector.restart_ok e (connector_ s) K1) as (c' & E' & Hc'); [apply K3; congruence|auto|done|].
    rewrite E'. cbn [mbind res_bind]. eexists. split; [reflexivity|]. apply Hgo; [done|by eapply handoffs_restart].
  - eexists. split; [reflexivity|]. exact (Hgo (connector_ s) K1 eq_refl).
Qed.

Lemma client_conn_ok id l o e s : cinv s → links s !! id = Some l → user_op o = true → legal (conn l) o →
  (connection_ s = Some id → Connector.channel_ (connector_ s) = None) → 0 <= Connector.sockfd e →
  ∃ s', conn_op id o e s = Ok s' ∧ cinv s'.
Proof.
  intros Hs Hl Hu Ho Hch Hf. pose proof (k_conn s Hs id l Hl) as Hc. pose proof (k_stage s Hs id l Hl) as Hst.
  destruct (conn_step_ok (conn l) o Hc Ho) as (c & E & Hc'). pose proof (step_evolves _ _ _ Hu E) as Hev.
  unfold conn_op. rewrite Hl, E. cbn [mbind res_bind]. destruct Hev as [Hk|Hcl].
  - destruct (with_conn_kept id l (λ _, Ok c) c s Hs Hl eq_refl Hc' Hk) as (s' & E' & H'). unfold with_conn in E'.
    rewrite Hl in E'. cbn [mbind res_bind] in E'. destruct Hk as (_ & _ & K3 & _). rewrite K3, Nat.ltb_irrefl. eauto.
  - pose proof Hcl as (C1 & C2 & C3 & C4). rewrite C3, (proj2 (Nat.ltb_lt _ _)) by lia. unfold closed_by.
    destruct Hst as [(O1 & O2 & O3)|(O1 & _)]; [|apply open_cases in C1; rewrite O1 in C1; by destruct C1].
    destruct (dead s) eqn:Hd.
    + rewrite O3. eexists. split; [reflexivity|].
      eapply (upd_inv id l (mkLink (cname l) (cfd l) ToLoop c) s); try done; simpl.
      * intros j Hj. rewrite n_des_snoc, bool_decide_eq_false_2 by congruence. lia.
      * apply Forall_app. split; [apply Hs|]. by apply Forall_singleton.
      * by left.
      * right. simpl. split_and!; [done| |].
        -- intros Ex. destruct (k_up _ (k_linked s Hs)) as [Hx _]; congruence.
        -- right. rewrite n_des_snoc, bool_decide_eq_true_2, O2 by done. done.
      * pose proof (k_linked s Hs) as [K1 K2 K3 K4]. split; simpl; try done. by rewrite fmap_upd.
    + destruct O3 as [O3 O4]. rewrite O4. simpl. rewrite Hd.
      pose proof (removeConnection_ok id l c e s Hs Hl Hd O4 Hc' Hcl Hch Hf) as HR. simpl in HR. by rewrite O4 in HR.
Qed.

Lemma run_loop_ok s : cinv s → ∃ s', run_loop s = Ok s' ∧ cinv s'.
Proof.
  intros Hs. unfold run_loop. destruct (loopq s) as [|f q] eqn:Eq; [eauto|].
  pose proof (k_q s Hs) as Hq. rewrite Eq in Hq. apply Forall_cons in Hq as [Hf Hq]. destruct f as [id|]; [|done].
  assert (Hn : ∀ j, n_des j (loopq s) = (n_des j q + if bool_decide (CDestroy id = CDestroy j) then 1 else 0)%nat).
  { intros j. rewrite Eq. apply n_des_cons. }
  pose proof (Hn id) as Hid. rewrite bool_decide_eq_true_2 in Hid by done.
  destruct (links s !! id) as [l|] eqn:Hl; [|rewrite (k_ids s Hs id Hl) in Hid; lia].
  destruct (k_stage s Hs id l Hl) as [(_ & O & _)|(O1 & O2 & [O3|[O3 O4]])]; [lia|lia|].
  destruct (connectDestroyed_ok (conn l) (k_conn s Hs id l Hl)) as (c & Ec & Hc & Hcs); [by right|done|].
  unfold with_conn. simpl. rewrite Hl, Ec. cbn [mbind res_bind]. eexists. split; [reflexivity|].
  eapply (upd_inv id l (mkLink (cname l) (cfd l) (ccb l) c) s); try done; simpl.
  - intros Ho%open_cases. rewrite Hcs in Ho. by destruct Ho.
  - intros j Hj. rewrite Hn, bool_decide_eq_false_2 by congruence. lia.
  - by left.
  - right. simpl. split_and!; try done. left. lia.
  - pose proof (k_linked s Hs) as [K1 K2 K3 K4]. split; simpl; try done. by rewrite fmap_upd.
Qed.

(** The client leaves its connection behind. *)
Lemma abandon_ok id l s : cinv s → dead s = false → connection_ s = Some id → links s !! id = Some l →
  cinv (set_links (<[id := mkLink (cname l) (cfd l) ToLoop (conn l)]> (links s)) (set_dead (set_connection None s))).
Proof.
  intros Hs Hd Hcn Hl. pose proof (k_linked s Hs) as [K1 K2 K3 K4].
  assert (Hlt : (id < length (links s))%nat) by (by eapply lookup_lt_Some).
  assert (Hlk : ∀ j k, <[id := mkLink (cname l) (cfd l) ToLoop (conn l)]> (links s) !! j = Some k →
    (j = id ∧ k = mkLink (cname l) (cfd l) ToLoop (conn l)) ∨ (j ≠ id ∧ links s !! j = Some k)).
  { intros j k Hj. destruct (decide (j = id)) as [->|Hne].
    - left. rewrite list_lookup_insert_eq in Hj by done. by simplify_eq.
    - right. by rewrite list_lookup_insert_ne in Hj by done. }
  assert (Hold : ∀ j k, <[id := mkLink (cname l) (cfd l) ToLoop (conn l)]> (links s) !! j = Some k →
    ∃ k0, links s !! j = Some k0 ∧ conn k0 = conn k).
  { intros j k Hj. destruct (Hlk j k Hj) as [[-> ->]|[_ ?]]; [by exists l|by exists k]. }
  split; simpl; [split; simpl; try done| | | | | | |].
  - by rewrite fmap_upd.
  - intros _. right. apply K3. congruence.
  - rewrite length_insert. apply Hs.
  - intros j k (k0 & Hk0 & <-)%Hold. by eapply k_conn.
  - intros j k Hj. unfold stage. simpl. destruct (Hlk j k Hj) as [[-> ->]|[Hne Hj']]; simpl.
    + destruct (k_stage s Hs id l Hl) as [(O1 & O2 & _)|(_ & O2 & _)]; [by left|done].
    + right. destruct (k_stage s Hs j k Hj') as [(_ & _ & O)|(O1 & O2 & O3)]; [|done].
      rewrite Hd in O. destruct O as [O _]. congruence.
  - done.
  - intros a b la lb (ka & Ha & Ea)%Hold (kb & Hb & Eb)%Hold Oa Ob. apply (k_one s Hs a b ka kb); congruence.
  - apply Hs.
  - intros j Hj. apply (k_ids s Hs). apply lookup_ge_None in Hj. rewrite length_insert in Hj. by apply lookup_ge_None.
Qed.

Lemma destroyClient_ok u s : cinv s → dead s = false → ∃ s', destroyClient true u s = Ok s' ∧ cinv s'.
Proof.
  intros Hs Hd. unfold destroyClient. destruct (connection_ s) as [id|] eqn:Ec.
  - destruct (k_cur s Hs id Ec) as [l Hl]. pose proof (abandon_ok id l s Hs Hd Ec Hl) as Ha.
    unfold set_cb. simpl. rewrite Hl. destruct u; [|eauto].
    eapply (with_conn_kept id (mkLink (cname l) (cfd l) ToLoop (conn l))); [done| |done| |].
    + simpl. apply list_lookup_insert_eq. by eapply lookup_lt_Some.
    + apply forceClose_ok. exact (k_conn s Hs id l Hl).
    + apply kept_forceClose.
  - eexists. split; [reflexivity|]. pose proof (k_linked s Hs) as [K1 K2 K3 K4]. destruct Hs as [_ C2 C3 C4 C5 C6 C7 C8].
    split; simpl; try done; [split; simpl; try done; [by apply Connector.stop_ok|by left]|].
    intros j k Hj. unfold stage. simpl. destruct (C4 j k Hj) as [(_ & _ & O)|(O1 & O2 & O3)]; [|by right].
    rewrite Hd in O. destruct O. congruence.
Qed.

(** ** Runs *)

(** What the steps require: the calls of the user only while the client lives,
    [connect] only when no attempt is under way; the operations on a connection are
    legal for it, and those of the current one come after the functor that drops the
    connector's channel, queued before the connection was made; [socket(2)] succeeds;
    the client is destroyed in the loop's thread. *)
Definition clegal (s : Client) (o : cop) : Prop :=
  match o with
  | CConnect b e => dead s = false ∧ Connector.legal (connector_ s) (Connector.OpStart b e)
  | CDisconnect _ | CStop | CEnableRetry => dead s = false
  | CConnector o _ => loop_op o = true ∧ Connector.legal (connector_ s) o ∧ Z.of_nat (length (links s)) + 2 < 2 ^ 31
  | CConn id o e => ∃ l, links s !! id = Some l ∧ user_op o = true ∧ legal (conn l) o ∧ 0 <= Connector.sockfd e
      ∧ (connection_ s = Some id → Connector.channel_ (connector_ s) = None)
  | CLoop => True
  | CDelete b _ => dead s = false ∧ b = true
  end.
Fixpoint clegal_run (s : Client) (l : list cop) : Prop :=
  match l with
  | [] => True
  | o :: l => clegal s o ∧ ∀ s', cstep s o = Ok s' → clegal_run s' l
  end.

Lemma cstep_ok s o : cinv s → clegal s o → ∃ s', cstep s o = Ok s' ∧ cinv s'.
Proof.
  intros Hs Ho. destruct o as [b e|b| | |o ip|id o e| |b u]; simpl in *.
  - destruct Ho as (? & ? & ?). by apply client_connect_ok.
  - by apply client_disconnect_ok.
  - eexists. split; [reflexivity|]. by apply client_stop_ok.
  - eexists. split; [reflexivity|]. destruct Hs as [[K1 K2 K3 K4] C2 C3 C4 C5 C6 C7 C8]. by split.
  - destruct Ho as (? & ? & ?). by apply connector_op_ok.
  - destruct Ho as (l & ? & ? & ? & ? & ?). by eapply client_conn_ok.
  - by apply run_loop_ok.
  - destruct Ho as [? ->]. by apply destroyClient_ok.
Qed.

Lemma crun_ok l s : cinv s → clegal_run s l → ∃ s', crun s l = Ok s' ∧ cinv s'.
Proof.
  revert s. induction l as [|o l IH]; intros s Hi Hl; simpl; [eauto|].
  destruct Hl as [Ho Hl]. destruct (cstep_ok s o Hi Ho) as (s1 & E & H1). rewrite E. simpl.
  by apply IH; [|apply Hl].
Qed.

Lemma cinv_new nm wc : cinv (newClient nm wc).
Proof. split; try done. split; try done. apply Connector.connector_inv_new. Qed.

End steps.

(** ** Properties *)


(** The name of a client's connection loses its number when the peer's address
    takes 30 characters or more, as IPv6 addresses do. *)
Theorem client_name_truncated ip i j : 30 <= zlen ip → client_suffix ip i = client_suffix ip j.
Proof.
  intros Hl. unfold client_suffix, snprintf. simpl. f_equal. unfold zlen in Hl.
  rewrite !take_app_le by lia. done.
Qed.

(** Destroyed in another thread, the client is used after it is gone when its
    connection closes before the loop has run the functor that rebinds the callback. *)
Theorem delete_off_loop_hazard s id l o c e s' : connection_ s = Some id → links s !! id = Some l → ccb l = ToClient →
  destroyClient false false s = Ok s' → step (conn l) o = Ok c → (closes (conn l) < closes c)%nat →
  conn_op id o e s' = Err OutOfBounds.
Proof.
  intros Hc Hl Hcb Hd Hs Hlt. unfold destroyClient in Hd. rewrite Hc in Hd. injection Hd as <-.
  unfold conn_op. simpl. rewrite Hl, Hs. simpl. rewrite (proj2 (Nat.ltb_lt _ _)) by done. unfold closed_by. by rewrite Hcb.
Qed.

(** ** Witness *)

Module CWitness.
#[local] Instance host : Host := false.
Definition env : Connector.env := Connector.mkEnv 7 Connector.EINPROGRESS 0 [] [].
(** Connect, become writable, drop the connector's channel; the connection is
    closed, the client reconnects and is deleted while the attempt is under way. *)
Definition ops : list cop :=
  [CEnableRetry; CConnect true env; CConnector (Connector.OpEvent POLLOUT env) (str "10.0.0.1:80");
   CConnector (Connector.OpFunctor env) []; CConn 0 OpForceClose env; CConn 0 (OpFunctor (WOk 0)) env; CLoop;
   CDelete true false; CConnector (Connector.OpFunctor env) []].
Definition client : Client := newClient (str "cli") false.
Definition after (k : nat) : Client := match crun client (take k ops) with Ok s => s | Err _ => client end.

Lemma clegal_run_cons s o s' l : clegal s o → cstep s o = Ok s' → clegal_run s' l → clegal_run s (o :: l).
Proof. intros Ho E Hl. split; [done|]. intros s'' E'. rewrite E in E'. by injection E' as <-. Qed.

Lemma client_ops_legal : clegal_run client ops.
Proof.
  apply (clegal_run_cons _ _ (after 1)); [reflexivity|vm_compute; reflexivity|].
  apply (clegal_run_cons _ _ (after 2)); [split; [reflexivity|split; [done|by vm_compute]]|vm_compute; reflexivity|].
  apply (clegal_run_cons _ _ (after 3)); [split; [reflexivity|split; [vm_compute; discriminate|vm_compute; reflexivity]]|vm_compute; reflexivity|].
  apply (clegal_run_cons _ _ (after 4)); [split; [reflexivity|split; [by vm_compute|vm_compute; reflexivity]]|vm_compute; reflexivity|].
  apply (clegal_run_cons _ _ (after 5));
    [eexists; split; [vm_compute; reflexivity|split_and!; [reflexivity|exact I|by vm_compute|reflexivity]]|vm_compute; reflexivity|].
  apply (clegal_run_cons _ _ (after 6));
    [eexists; split; [vm_compute; reflexivity|split_and!; [reflexivity|exact I|by vm_compute|reflexivity]]|vm_compute; reflexivity|].
  apply (clegal_run_cons _ _ (after 7)); [exact I|vm_compute; reflexivity|].
  apply (clegal_run_cons _ _ (after 8)); [split; vm_compute; reflexivity|vm_compute; reflexivity|].
  apply (clegal_run_cons _ _ (after 9)); [split; [reflexivity|split; [by vm_compute|vm_compute; reflexivity]]|vm_compute; reflexivity|exact I].
Qed.
End CWitness.

