(* ===== verification/BlockingQueue.v ===== *)
(** * Blocking queues and the latch (fishnet/base/blocking_queue.h,
    bounded_blocking_queue.h, countdown_latch.cc, condition.h,
    fishnet/hlib/zfish.hpp, memory_blocking_queue.hpp)

    Monitors: a critical section runs in one step, from taking the mutex to
    releasing it or to waiting on a condition. A notification wakes one of the
    threads waiting, a woken thread tests its condition again, and threads may
    also wake for no reason. *)

From S2P Require Import Prelude.
Local Open Scope Z_scope.

(** One step of a concrete run, with the state it reaches evaluated. *)
Ltac run_step t :=
  eapply rtc_l; [t|];
  match goal with |- rtc ?R ?x ?y => let v := eval vm_compute in x in change (rtc R v y) end.

(** ** Threads of a monitor *)

Section threads.
Context {A : Type}.
Implicit Types l : list A.

(** How many threads are at a point that satisfies [P]. *)
Definition cnt (P : A → bool) l : nat := length (filter (λ a, P a = true) l).

Definition bit (b : bool) : nat := if b then 1 else 0.

Lemma cnt_insert P l i a b : l !! i = Some a → (cnt P (<[i := b]> l) + bit (P a) = cnt P l + bit (P b))%nat.
Proof.
  intros Hi. unfold cnt. rewrite insert_take_drop by (by eapply lookup_lt_Some).
  rewrite <-(take_drop_middle l i a Hi) at 3. rewrite !filter_app, !length_app, !filter_cons.
  unfold bit. destruct (P a) eqn:Ea, (P b) eqn:Eb; repeat case_decide; simplify_eq; simpl; lia.
Qed.

Lemma cnt_zero P l : cnt P l = 0%nat ↔ ∀ i a, l !! i = Some a → P a = false.
Proof.
  unfold cnt. rewrite length_zero_iff_nil. split.
  - intros H i a Hi. destruct (P a) eqn:E; [|done].
    assert (Hin : a ∈ filter (λ a, P a = true) l).
    { apply list_elem_of_filter. split; [done|]. by eapply list_elem_of_lookup_2. }
    rewrite H in Hin. by apply not_elem_of_nil in Hin.
  - intros H. apply filter_none, Forall_lookup. intros i a Hi. rewrite (H i a Hi). done.
Qed.

Lemma cnt_app P l k : cnt P (l ++ k) = (cnt P l + cnt P k)%nat.
Proof. unfold cnt. by rewrite filter_app, length_app. Qed.

Lemma omap_cons_option {B} (f : A → option B) a l : omap f (a :: l) = option_list (f a) ++ omap f l.
Proof. simpl. by destruct (f a). Qed.

(** What the threads hold, when one of them changes. *)
Lemma omap_change {B} (f : A → option B) l i a b : l !! i = Some a →
  omap f (<[i := b]> l) ++ option_list (f a) ≡ₚ omap f l ++ option_list (f b).
Proof.
  intros Hi. rewrite insert_take_drop by (by eapply lookup_lt_Some).
  rewrite <-(take_drop_middle l i a Hi) at 3. rewrite !omap_app, !omap_cons_option, <-!app_assoc.
  apply Permutation_app_head. rewrite (Permutation_app_comm (option_list (f b)) _).
  rewrite (app_assoc (option_list (f a))), (Permutation_app_comm (option_list (f a))). done.
Qed.

(** What one change does to a sum. *)
Lemma sum_insert (f : A → nat) l i a b : l !! i = Some a →
  (sum_list (f <$> <[i := b]> l) + f a = sum_list (f <$> l) + f b)%nat.
Proof.
  intros Hi. rewrite insert_take_drop by (by eapply lookup_lt_Some).
  rewrite <-(take_drop_middle l i a Hi) at 3. rewrite !fmap_app, !fmap_cons.
  clear Hi. induction (f <$> firstn i l) as [|x xs IH]; simpl in *; lia.
Qed.

(** [pthread_cond_signal]: one of the threads that wait ([P]) is woken ([wake]),
    if there is one. *)
Inductive notify (P : A → bool) (wake : A → A) : list A → list A → Prop :=
| notify_none l : cnt P l = 0%nat → notify P wake l l
| notify_one l i a : l !! i = Some a → P a = true → notify P wake l (<[i := wake a]> l).
(** [pthread_cond_broadcast] *)
Definition notifyAll (P : A → bool) (wake : A → A) l : list A := (λ a, if P a then wake a else a) <$> l.

Lemma cnt_notifyAll P wake l : (∀ a, P a = true → P (wake a) = false) → cnt P (notifyAll P wake l) = 0%nat.
Proof.
  intros Hw. apply cnt_zero. intros i a. unfold notifyAll. rewrite list_lookup_fmap.
  intros (b & _ & ->)%fmap_Some. destruct (P b) eqn:E; auto.
Qed.
End threads.

(** ** The queues *)

Module Queue.

(** What the two classes share: the sections of [put] and [take], which give
    nothing when the thread has to wait, whether [take] notifies [notFull_], and
    the capacity. The laws are what the other threads rely on. *)
Class QueueImpl := {
  capacity : option nat;
  put_section : Z → list Z → res (option (list Z));
  take_section : list Z → res (option (Z * list Z));
  notifies_full : bool;
  put_law x q : match capacity with Some n => (length q <= n)%nat | None => True end →
    put_section x q =
    Ok (match capacity with
        | Some n => if (n <=? length q)%nat then None else Some (q ++ [x])
        | None => Some (q ++ [x])
        end);
  take_law q : take_section q = Ok (match q with [] => None | x :: q => Some (x, q) end);
  notify_law : capacity ≠ None → notifies_full = true }.

(** [BlockingQueue] *)
Definition bq_put (x : Z) (q : list Z) : res (option (list Z)) := Ok (Some (q ++ [x])).
Definition bq_take (q : list Z) : res (option (Z * list Z)) :=
  if bool_decide (q = []) then Ok None else
  assertb (negb (bool_decide (q = [])));;
  match q with x :: q => Ok (Some (x, q)) | [] => Err OutOfBounds end.

(** [BoundedBlockingQueue], on a circular buffer of [n] places. *)
Definition full (n : nat) (q : list Z) : bool := bool_decide (length q = n).
(** [circular_buffer::push_back] drops the oldest element when the buffer is full. *)
Definition circular_push (n : nat) (x : Z) (q : list Z) : list Z :=
  if full n q then (match n with O => [] | S _ => tail q ++ [x] end) else q ++ [x].
Definition bbq_put (n : nat) (x : Z) (q : list Z) : res (option (list Z)) :=
  if full n q then Ok None else
  assertb (negb (full n q));;
  Ok (Some (circular_push n x q)).
Definition bbq_take (q : list Z) : res (option (Z * list Z)) := bq_take q.

Lemma bq_take_law q : bq_take q = Ok (match q with [] => None | x :: q => Some (x, q) end).
Proof. unfold bq_take. by destruct q. Qed.

#[global] Instance blocking_queue : QueueImpl.
Proof.
  refine {| capacity := None; put_section := bq_put; take_section := bq_take; notifies_full := false |}.
  - done.
  - apply bq_take_law.
  - done.
Defined.

Definition bounded_queue (n : nat) : QueueImpl.
Proof.
  refine {| capacity := Some n; put_section := bbq_put n; take_section := bbq_take; notifies_full := true |}.
  - intros x q Hq. unfold bbq_put, circular_push, full. case_bool_decide as E; simpl.
    + by rewrite (proj2 (Nat.leb_le _ _)) by lia.
    + by rewrite (proj2 (Nat.leb_gt _ _)) by lia.
  - apply bq_take_law.
  - done.
Defined.

(** [zfish::BlockingQueue] of zfish.hpp. *)
Definition zq_enqueue (n : nat) (x : Z) (q : list Z) : res (option (list Z)) :=
  Ok (if (length q <? n)%nat then Some (q ++ [x]) else None).
Definition zq_dequeue (q : list Z) : res (option (Z * list Z)) :=
  if (0 <? length q)%nat then match q with x :: q => Ok (Some (x, q)) | [] => Err OutOfBounds end else Ok None.

Definition zfish_queue (n : nat) : QueueImpl.
Proof.
  refine {| capacity := Some n; put_section := zq_enqueue n; take_section := zq_dequeue; notifies_full := true |}.
  - intros x q Hq. unfold zq_enqueue. destruct (Nat.ltb_spec (length q) n), (Nat.leb_spec n (length q)); (done || lia).
  - intros [|x q]; done.
  - done.
Defined.

(** What a thread is doing: nothing, inside [put] or [take] with its condition to
    be tested, or waiting. *)
Inductive pc : Set := Idle | Put (x : Z) | PutWait (x : Z) | Take | TakeWait.
Definition is_put (p : pc) : bool := match p with Put _ => true | _ => false end.
Definition is_putwait (p : pc) : bool := match p with PutWait _ => true | _ => false end.
Definition is_take (p : pc) : bool := match p with Take => true | _ => false end.
Definition is_takewait (p : pc) : bool := match p with TakeWait => true | _ => false end.
Definition wake (p : pc) : pc := match p with PutWait x => Put x | TakeWait => Take | _ => p end.

(** The queue, the threads, and what has been put and taken. *)
Record St := mkSt { queue_ : list Z; threads : list pc; puts : list Z; takes : list Z }.
Definition newQueue (n : nat) : St := mkSt [] (replicate n Idle) [] [].
Definition at_pc (i : nat) (p : pc) (s : St) : St := mkSt (queue_ s) (<[i := p]> (threads s)) (puts s) (takes s).

Section steps.
Context `{QueueImpl}.

Inductive step (s : St) : St → Prop :=
| call_put i x : threads s !! i = Some Idle → step s (at_pc i (Put x) s)
| call_take i : threads s !! i = Some Idle → step s (at_pc i Take s)
| put_waits i x : threads s !! i = Some (Put x) → put_section x (queue_ s) = Ok None → step s (at_pc i (PutWait x) s)
| put_done i x q T : threads s !! i = Some (Put x) → put_section x (queue_ s) = Ok (Some q) →
    notify is_takewait wake (<[i := Idle]> (threads s)) T → step s (mkSt q T (puts s ++ [x]) (takes s))
| take_waits i : threads s !! i = Some Take → take_section (queue_ s) = Ok None → step s (at_pc i TakeWait s)
| take_done i x q T : threads s !! i = Some Take → take_section (queue_ s) = Ok (Some (x, q)) →
    (if notifies_full then notify is_putwait wake (<[i := Idle]> (threads s)) T else T = <[i := Idle]> (threads s)) →
    step s (mkSt q T (puts s) (takes s ++ [x]))
| spurious i p : threads s !! i = Some p → is_putwait p || is_takewait p = true → step s (at_pc i (wake p) s).

Definition reach (n : nat) : St → Prop := rtc step (newQueue n).

(** The places left, when they are limited. *)
Definition room (s : St) : nat := match capacity with Some n => n - length (queue_ s) | None => 1 end.

Record inv (s : St) : Prop := {
  q_fifo : puts s = takes s ++ queue_ s;
  q_bound : match capacity with Some n => (length (queue_ s) <= n)%nat | None => True end;
  q_take : cnt is_takewait (threads s) = 0%nat ∨ (length (queue_ s) <= cnt is_take (threads s))%nat;
  q_put : cnt is_putwait (threads s) = 0%nat
          ∨ (capacity ≠ None ∧ (room s <= cnt is_put (threads s))%nat) }.

(** What one change of a thread does to the four counts. *)
Lemma counts l i a b : l !! i = Some a →
  let d P := (cnt P (<[i := b]> l) + bit (P a) = cnt P l + bit (P b))%nat in
  d is_put ∧ d is_putwait ∧ d is_take ∧ d is_takewait.
Proof. intros Hi d. split_and!; by apply cnt_insert. Qed.

Lemma notify_take l T : notify is_takewait wake l T →
  cnt is_put T = cnt is_put l ∧ cnt is_putwait T = cnt is_putwait l
  ∧ ((cnt is_takewait l = 0%nat ∧ T = l)
     ∨ (cnt is_takewait T = cnt is_takewait l - 1 ∧ cnt is_take T = cnt is_take l + 1)%nat).
Proof.
  intros [l' E|l' i a Hi Ha]; [by auto|]. destruct a; try done.
  destruct (counts l' i _ Take Hi) as (C1 & C2 & C3 & C4). simpl in *. split_and!; [lia|lia|right; lia].
Qed.
Lemma notify_put l T : notify is_putwait wake l T →
  cnt is_take T = cnt is_take l ∧ cnt is_takewait T = cnt is_takewait l
  ∧ ((cnt is_putwait l = 0%nat ∧ T = l)
     ∨ (cnt is_putwait T = cnt is_putwait l - 1 ∧ cnt is_put T = cnt is_put l + 1)%nat).
Proof.
  intros [l' E|l' i a Hi Ha]; [by auto|]. destruct a; try done.
  destruct (counts l' i _ (Put x) Hi) as (C1 & C2 & C3 & C4). simpl in *. split_and!; [lia|lia|right; lia].
Qed.

Lemma inv_newQueue n : inv (newQueue n).
Proof.
  assert (E : ∀ P, P Idle = false → cnt P (replicate n Idle) = 0%nat).
  { intros P HP. apply cnt_zero. by intros i a [-> _]%lookup_replicate. }
  split; simpl; [done|by destruct capacity; [lia|]|left; by apply E|left; by apply E].
Qed.

Lemma put_full s x : inv s → put_section x (queue_ s) = Ok None → capacity ≠ None ∧ room s = 0%nat.
Proof.
  intros [_ Hb _ _]. rewrite put_law by done. unfold room. destruct capacity as [n|]; [|done].
  destruct (n <=? length (queue_ s))%nat eqn:E; [|done]. apply Nat.leb_le in E. intros _. split; [done|lia].
Qed.

Lemma put_room s x q : inv s → put_section x (queue_ s) = Ok (Some q) →
  q = queue_ s ++ [x] ∧ match capacity with Some n => (length (queue_ s) < n)%nat | None => True end.
Proof.
  intros [_ Hb _ _]. rewrite put_law by done. destruct capacity as [n|].
  - destruct (n <=? length (queue_ s))%nat eqn:E; [done|]. apply Nat.leb_gt in E. by intros [= <-].
  - by intros [= <-].
Qed.

Lemma inv_queue_step s s' : inv s → step s s' → inv s'.
Proof.
  intros Hi Hs. pose proof Hi as [I1 I2 I3 I4]. destruct Hs as [i x Ht|i Ht|i x Ht E|i x q T Ht E Hn|i Ht E|i x q T Ht E Hn|i p Ht Hp].
  - destruct (counts _ i _ (Put x) Ht) as (C1 & C2 & C3 & C4). simpl in *. split; simpl; try done; [lia|].
    change (room (at_pc i (Put x) s)) with (room s). destruct I4 as [?|[? ?]]; [left|right; split; [done|]]; lia.
  - destruct (counts _ i _ Take Ht) as (C1 & C2 & C3 & C4). simpl in *. split; simpl; try done; [lia|].
    change (room (at_pc i Take s)) with (room s). destruct I4 as [?|[? ?]]; [left|right; split; [done|]]; lia.
  - destruct (counts _ i _ (PutWait x) Ht) as (C1 & C2 & C3 & C4). simpl in *. split; simpl; try done; [lia|].
    right. change (room (at_pc i (PutWait x) s)) with (room s). destruct (put_full s x Hi E) as [? ->]. split; [done|lia].
  - destruct (put_room s x q Hi E) as [-> Hr]. destruct (counts _ i _ Idle Ht) as (C1 & C2 & C3 & C4).
    destruct (notify_take _ _ Hn) as (N1 & N2 & N3). simpl in *. split; simpl.
    + by rewrite I1, app_assoc.
    + destruct capacity; [rewrite length_app; simpl; lia|done].
    + rewrite length_app. simpl. destruct N3 as [[N3 ->]|[N3 N4]]; [left; lia|]. destruct I3; [left; lia|right; lia].
    + rewrite N1, N2. destruct I4 as [?|[Hc ?]]; [left; lia|]. right. split; [done|]. unfold room in *. simpl.
      destruct capacity; [|done]. rewrite length_app. simpl. lia.
  - destruct (counts _ i _ TakeWait Ht) as (C1 & C2 & C3 & C4). rewrite take_law in E.
    destruct (queue_ s) as [|y q] eqn:Eq; [|done]. simpl in *. split; simpl; rewrite ?Eq; try done; [right; simpl; lia|].
    change (room (at_pc i TakeWait s)) with (room s). destruct I4 as [?|[? ?]]; [left|right; split; [done|]]; lia.
  - destruct (counts _ i _ Idle Ht) as (C1 & C2 & C3 & C4). rewrite take_law in E.
    destruct (queue_ s) as [|y q'] eqn:Eq; [done|]. injection E as <- <-. simpl in *.
    assert (Hp : cnt is_take T = cnt is_take (<[i:=Idle]> (threads s))
      ∧ cnt is_takewait T = cnt is_takewait (<[i:=Idle]> (threads s))
      ∧ (cnt is_putwait T = 0%nat ∨ (capacity ≠ None ∧ (room s + 1 <= cnt is_put T)%nat))).
    { destruct notifies_full eqn:En.
      - destruct (notify_put _ _ Hn) as (N1 & N2 & N3). split_and!; [done|done|].
        destruct N3 as [[N3 ->]|[N3 N4]]; [left; lia|]. destruct I4 as [?|[? ?]]; [left; lia|].
        right. split; [done|lia].
      - subst T. split_and!; [done|done|]. left. destruct I4 as [?|[Hc _]]; [lia|].
        rewrite notify_law in En by done. done. }
    destruct Hp as (N1 & N2 & N3). split; simpl.
    + by rewrite I1, <-app_assoc.
    + destruct capacity; [lia|done].
    + rewrite N1, N2. destruct I3; [left; lia|right; lia].
    + destruct N3 as [?|[Hc ?]]; [by left|]. right. split; [done|]. unfold room in *. simpl. rewrite Eq in *. simpl in *.
      destruct capacity; [lia|done].
  - destruct p; try done; simpl.
    + destruct (counts _ i _ (Put x) Ht) as (C1 & C2 & C3 & C4). simpl in *. split; simpl; try done; [lia|].
      change (room (at_pc i (Put x) s)) with (room s). destruct I4 as [?|[? ?]]; [left|right; split; [done|]]; lia.
    + destruct (counts _ i _ Take Ht) as (C1 & C2 & C3 & C4). simpl in *. split; simpl; try done; [lia|].
      change (room (at_pc i Take s)) with (room s). destruct I4 as [?|[? ?]]; [left|right; split; [done|]]; lia.
Qed.

Lemma inv_queue_reach n s : reach n s → inv s.
Proof.
  intros Hr. unfold reach in Hr. remember (newQueue n) as s0 eqn:E. assert (H0 : inv s0) by (subst; apply inv_newQueue).
  clear E. induction Hr as [|s1 s2 s3 Hs _ IH]; [done|]. by apply IH, (inv_queue_step s1).
Qed.
End steps.

(** C16: with any number of threads and any schedule, spurious wake-ups included,
    the blocking queues deliver what was put, in order and once, never exceed
    their capacity and fail no assertion; and no wake-up is lost: when no thread
    has its condition left to test, no taker waits while the queue holds something
    and no putter waits while there is room. *)
Theorem blocking_queues_correct n k Q s :
  Q = blocking_queue ∨ Q = bounded_queue k ∨ Q = zfish_queue k → @reach Q n s →
  puts s = takes s ++ queue_ s
  ∧ (∀ c, @capacity Q = Some c → (length (queue_ s) <= c)%nat)
  ∧ (∀ x, is_ok (put_section x (queue_ s)) = true) ∧ is_ok (take_section (queue_ s)) = true
  ∧ ((∀ i p, threads s !! i = Some p → is_put p || is_take p = false) →
     ∀ i p, threads s !! i = Some p →
       (is_takewait p = true → queue_ s = [])
       ∧ (is_putwait p = true → @capacity Q = Some (length (queue_ s)))).
Proof.
  intros _ Hr. pose proof (inv_queue_reach n s Hr) as Hi. pose proof Hi as [I1 I2 I3 I4]. split_and!; [done| | | |].
  - intros c Ec. by rewrite Ec in I2.
  - intros x. by rewrite put_law.
  - by rewrite take_law.
  - intros Hq i p Hp.
    assert (Z1 : cnt is_put (threads s) = 0%nat).
    { apply cnt_zero. intros j a Hj. specialize (Hq j a Hj). by apply orb_false_iff in Hq as [? _]. }
    assert (Z2 : cnt is_take (threads s) = 0%nat).
    { apply cnt_zero. intros j a Hj. specialize (Hq j a Hj). by apply orb_false_iff in Hq as [_ ?]. }
    split; intros Hw.
    + destruct I3 as [E|E]; [|apply length_zero_iff_nil; lia]. rewrite cnt_zero in E. specialize (E i p Hp). congruence.
    + destruct I4 as [E|[Hc E]]; [rewrite cnt_zero in E; specialize (E i p Hp); congruence|].
      unfold room in E. destruct capacity as [c|]; [|done]. f_equal. lia.
Qed.
End Queue.

(** ** The latch *)

Module CountDownLatch.

Inductive pc : Set := Idle | Testing | Sleeping | Returned.
Definition is_sleeping (p : pc) : bool := match p with Sleeping => true | _ => false end.
Definition wake (p : pc) : pc := match p with Sleeping => Testing | _ => p end.

Record Latch := mkLatch { count_ : Z; threads : list pc; downs : Z }.
Definition newLatch (count : Z) (n : nat) : Latch := mkLatch count (replicate n Idle) 0.
Definition at_pc (i : nat) (p : pc) (s : Latch) : Latch := mkLatch (count_ s) (<[i := p]> (threads s)) (downs s).

(** The test of [wait]'s loop. *)
Definition wait_section (count : Z) : pc := if 0 <? count then Sleeping else Returned.
Definition countDown (s : Latch) : res Latch :=
  count ← i32 (count_ s - 1);
  let T := if count =? 0 then notifyAll is_sleeping wake (threads s) else threads s in
  Ok (mkLatch count T (downs s + 1)).
Definition getCount (s : Latch) : Z := count_ s.

Inductive step (s : Latch) : Latch → Prop :=
| call_wait i : threads s !! i = Some Idle → step s (at_pc i Testing s)
| test i : threads s !! i = Some Testing → step s (at_pc i (wait_section (count_ s)) s)
| down i s' : threads s !! i = Some Idle → countDown s = Ok s' → step s s'
| spurious i : threads s !! i = Some Sleeping → step s (at_pc i Testing s).

Record inv (c : Z) (s : Latch) : Prop := {
  l_count : count_ s = c - downs s;
  l_downs : 0 <= downs s;
  l_awake : count_ s <= 0 → cnt is_sleeping (threads s) = 0%nat;
  l_returned : ∀ i, threads s !! i = Some Returned → count_ s <= 0 }.

Lemma lookup_at i j p q (l : list pc) : <[i := p]> l !! j = Some q → (i = j ∧ p = q) ∨ l !! j = Some q.
Proof.
  intros Hl. destruct (decide (i = j)) as [->|]; [|by rewrite list_lookup_insert_ne in Hl by done; right].
  destruct (decide (j < length l)%nat).
  - rewrite list_lookup_insert_eq in Hl by done. left. by simplify_eq.
  - rewrite list_insert_ge in Hl by lia. by right.
Qed.

Lemma inv_latch_step c s s' : inv c s → step s s' → inv c s'.
Proof.
  intros [I1 I2 I3 I4] [i Ht|i Ht|i t Ht E|i Ht].
  - pose proof (cnt_insert is_sleeping _ i _ Testing Ht) as C. simpl in C. split; simpl; try done.
    + intros H. specialize (I3 H). lia.
    + intros j [[_ ?]|H]%lookup_at; [done|by eapply I4].
  - pose proof (cnt_insert is_sleeping _ i _ (wait_section (count_ s)) Ht) as C. unfold wait_section in *.
    destruct (0 <? count_ s) eqn:Ec; simpl in C; split; simpl; try done.
    + apply Z.ltb_lt in Ec. lia.
    + intros j [[_ ?]|H]%lookup_at; [done|by eapply I4].
    + intros H. specialize (I3 H). lia.
    + apply Z.ltb_ge in Ec. intros j [[_ ?]|H]%lookup_at; [lia|by eapply I4].
  - unfold countDown in E. apply bind_ok_inv in E as (n & En & E). injection E as <-.
    unfold i32 in En. res_inv. subst n. split; simpl; [lia|lia| |].
    + intros H. destruct (count_ s - 1 =? 0) eqn:E0; [apply cnt_notifyAll; by intros []|]. apply I3. lia.
    + intros j H. destruct (count_ s - 1 =? 0) eqn:E0; [lia|]. specialize (I4 j H). lia.
  - pose proof (cnt_insert is_sleeping _ i _ Testing Ht) as C. simpl in C. split; simpl; try done.
    + intros H. specialize (I3 H). lia.
    + intros j [[_ ?]|H]%lookup_at; [done|by eapply I4].
Qed.

(** A latch of count [c] lets threads pass exactly when it has been counted down
    [c] times: [wait] returns only then, and once that is so nobody sleeps. *)
Theorem latch_correct c n s : rtc step (newLatch c n) s →
  count_ s = c - downs s
  ∧ (∀ i, threads s !! i = Some Returned → c <= downs s)
  ∧ (c <= downs s → ∀ i, threads s !! i ≠ Some Sleeping).
Proof.
  intros Hr. remember (newLatch c n) as s0 eqn:E. assert (H0 : inv c s0).
  { subst. split; simpl; [lia|lia| |].
    - intros _. apply cnt_zero. by intros i a [-> _]%lookup_replicate.
    - by intros i [? _]%lookup_replicate. }
  clear E. induction Hr as [s|s1 s2 s3 Hs _ IH]; [|by apply IH, (inv_latch_step c s1)].
  destruct H0 as [I1 I2 I3 I4]. split_and!; [done| |].
  - intros i Hi. specialize (I4 i Hi). lia.
  - intros Hc i Hi. assert (Hz : cnt is_sleeping (threads s) = 0%nat) by (apply I3; lia).
    rewrite cnt_zero in Hz. by specialize (Hz i _ Hi).
Qed.
End CountDownLatch.

(** ** The queue bounded by memory *)

Module MemoryQueue.
Section memory.
(** The elements with their [memorySize()], and what a move leaves behind. *)
Context {A : Type} (memorySize : A → Z) (moved : A → A).

Record MQ := mkMQ { queue_ : list A; cur_memory_size_ : Z }.
Definition newMQ : MQ := mkMQ [] 0.

(** The section of [enqueue]: refused, waiting, or done. *)
Inductive outcome : Type := Refused | Waits | Done (s : MQ).
Definition enqueue (max_memory_size_ : Z) (x : A) (s : MQ) : outcome :=
  if max_memory_size_ <? memorySize x then Refused
  else if u64 (cur_memory_size_ s + memorySize x) <=? max_memory_size_
  then Done (mkMQ (queue_ s ++ [x]) (u64 (cur_memory_size_ s + memorySize (moved x))))
  else Waits.
Definition dequeue (s : MQ) : option (A * MQ) :=
  match queue_ s with
  | [] => None
  | x :: q => Some (x, mkMQ q (u64 (cur_memory_size_ s - memorySize x)))
  end.

Definition total (l : list A) : Z := foldr (λ x n, memorySize x + n) 0 l.
Lemma total_app l k : total (l ++ k) = total l + total k.
Proof. induction l; simpl; lia. Qed.

Inductive reach (max : Z) : MQ → Prop :=
| r_new : reach max newMQ
| r_put s x s' : reach max s → enqueue max x s = Done s' → reach max s'
| r_take s x s' : reach max s → dequeue s = Some (x, s') → reach max s'.

(** When a moved-from element still reports its size, the accounting is exact and
    the memory queued is within the limit. *)
Theorem memory_accounting max s : 0 <= max < 2 ^ 63 → (∀ x, 0 <= memorySize x < 2 ^ 63) →
  (∀ x, memorySize (moved x) = memorySize x) → reach max s →
  cur_memory_size_ s = total (queue_ s) ∧ total (queue_ s) <= max.
Proof.
  intros Hm Hs Hk. assert (Hn : ∀ l, 0 <= total l).
  { intros l. induction l as [|x l IH]; simpl; [lia|]. specialize (Hs x). lia. }
  induction 1 as [|s x s' _ [E1 E2] E|s x s' _ [E1 E2] E]; [simpl; lia| |].
  - unfold enqueue in E. destruct (max <? memorySize x) eqn:E3; [done|].
    pose proof (Hn (queue_ s)). specialize (Hs x). rewrite Hk, (wrapu_small 64) in E by lia.
    destruct (Z.leb_spec (cur_memory_size_ s + memorySize x) max); [|done]. injection E as <-. simpl.
    rewrite total_app. simpl. lia.
  - unfold dequeue in E. destruct (queue_ s) as [|y q]; [done|]. injection E as -> <-. simpl in *.
    pose proof (Hn q). specialize (Hs x). rewrite (wrapu_small 64) by lia. lia.
Qed.

(** When a moved-from element reports nothing, as a moved-from container does, the
    size wraps around at the first [dequeue] and a smaller element then waits for ever. *)
Theorem memory_underflow max x y s : 0 < memorySize y < memorySize x → memorySize x <= max < 2 ^ 63 →
  memorySize (moved x) = 0 → enqueue max x newMQ = Done s →
  ∃ s', dequeue s = Some (x, s') ∧ queue_ s' = [] ∧ enqueue max y s' = Waits.
Proof.
  intros Hy Hx Hm E. unfold enqueue in E. cbn [newMQ cur_memory_size_ queue_] in E.
  rewrite (proj2 (Z.ltb_ge _ _)) in E by lia. rewrite (wrapu_small 64 (0 + memorySize x)) in E by lia.
  rewrite (proj2 (Z.leb_le _ _)) in E by lia. injection E as <-.
  rewrite Hm. eexists. split; [reflexivity|]. split; [done|]. unfold enqueue. cbn [cur_memory_size_ queue_]. rewrite (proj2 (Z.ltb_ge _ _)) by lia.
  assert (E : u64 (u64 (u64 (0 + 0) - memorySize x) + memorySize y) = 2 ^ 64 - memorySize x + memorySize y).
  { unfold wrapu. rewrite Zmod_0_l, Zplus_mod_idemp_l. rewrite <-(Z_mod_plus_full _ 1), Z.mod_small; lia. }
  rewrite E. by rewrite (proj2 (Z.leb_gt _ _)) by lia.
Qed.
End memory.
End MemoryQueue.

(** ** Witness *)

Lemma blocking_queues_correct_witness :
  let s := Queue.mkSt [] [Queue.Idle; Queue.TakeWait] [7] [7] in
  @Queue.reach (Queue.bounded_queue 1) 2 s ∧ Queue.puts s = Queue.takes s ++ Queue.queue_ s.
Proof.
  intros s. set (Q := Queue.bounded_queue 1). assert (Hr : @Queue.reach Q 2 s).
  { unfold Queue.reach.
    eapply rtc_l; [apply (@Queue.call_take Q _ 1%nat); reflexivity|].
    eapply rtc_l; [apply (@Queue.take_waits Q _ 1%nat); reflexivity|].
    eapply rtc_l; [apply (@Queue.call_put Q _ 0%nat 7); reflexivity|].
    eapply rtc_l; [eapply (@Queue.put_done Q _ 0%nat 7 [7]); [reflexivity|reflexivity|]|].
    { apply (notify_one _ _ _ 1%nat Queue.TakeWait); reflexivity. }
    eapply rtc_l; [eapply (@Queue.take_done Q _ 1%nat 7 []); [reflexivity|reflexivity|]|].
    { apply notify_none. reflexivity. }
    eapply rtc_l; [apply (@Queue.call_take Q _ 1%nat); reflexivity|].
    eapply rtc_l; [apply (@Queue.take_waits Q _ 1%nat); reflexivity|]. apply rtc_refl. }
  split; [exact Hr|]. apply (Queue.blocking_queues_correct 2 1 Q s (or_intror (or_introl eq_refl)) Hr).
Defined.
