(* ===== verification/ThreadPool.v ===== *)
(** * Thread pool (fishnet/base/thread_pool.h, thread_pool.cc)

    The pool's monitor with its workers, the threads that submit tasks and the
    threads that stop it, under any schedule. *)

From S2P Require Import Prelude Printf BlockingQueue.
Local Open Scope Z_scope.

(** ** State *)

(** A worker: about to call the initialisation callback, about to test [running_], inside [take], waiting there, running a
    task, or returned from [runInThread]. *)
Inductive wpc : Set := WInit | WTop | WTake | WTakeWait | WRun (t : Z) | WExit.
(** A user thread: outside, inside [run], waiting there, or joining in [stop]. *)
Inductive cpc : Set := CIdle | CRun (t : Z) | CRunWait (t : Z) | CJoin.

#[global] Instance wpc_eq_dec : EqDecision wpc.
Proof. solve_decision. Defined.

(** [started], [finished], [accepted] and [dropped] record the tasks handed to a
    worker, done, queued, and refused by [run]; [inits] counts the calls of the
    initialisation callback. *)
Record Pool := mkPool {
  name_ : bytes; hasInit : bool; inits : nat; maxQueueSize_ : nat; running_ : bool; queue_ : list Z;
  threads_ : list bytes; workers : list wpc; clients : list cpc;
  accepted : list Z; started : list Z; finished : list Z; dropped : list Z }.

Definition newPool (nameArg : bytes) (init : bool) (users : nat) : Pool :=
  mkPool nameArg init 0 0 false [] [] [] (replicate users CIdle) [] [] [] [].
Definition setMaxQueueSize (n : nat) (s : Pool) : Pool :=
  mkPool (name_ s) (hasInit s) (inits s) n (running_ s) (queue_ s) (threads_ s) (workers s) (clients s)
    (accepted s) (started s) (finished s) (dropped s).

(** [start]: the threads and their names. *)
Definition start (numThreads : nat) (s : Pool) : res Pool :=
  assertb (bool_decide (threads_ s = []));;
  let names := (λ i : nat, name_ s ++ snprintf 32 (dec (Z.of_nat i + 1))) <$> seq 0 numThreads in
  let n := if (numThreads =? 0)%nat && hasInit s then S (inits s) else inits s in
  Ok (mkPool (name_ s) (hasInit s) n (maxQueueSize_ s) true (queue_ s) names (replicate numThreads WInit)
        (clients s) (accepted s) (started s) (finished s) (dropped s)).

Definition isFull (s : Pool) : bool := (0 <? maxQueueSize_ s)%nat && (maxQueueSize_ s <=? length (queue_ s))%nat.
Definition queueSize (s : Pool) : Z := zlen (queue_ s).

(** ** The sections *)

Definition set_queue (q : list Z) (s : Pool) : Pool :=
  mkPool (name_ s) (hasInit s) (inits s) (maxQueueSize_ s) (running_ s) q (threads_ s) (workers s) (clients s)
    (accepted s) (started s) (finished s) (dropped s).
Definition set_threads (W : list wpc) (C : list cpc) (s : Pool) : Pool :=
  mkPool (name_ s) (hasInit s) (inits s) (maxQueueSize_ s) (running_ s) (queue_ s) (threads_ s) W C
    (accepted s) (started s) (finished s) (dropped s).
Definition at_w (i : nat) (p : wpc) (s : Pool) : Pool := set_threads (<[i := p]> (workers s)) (clients s) s.
Definition at_c (i : nat) (p : cpc) (s : Pool) : Pool := set_threads (workers s) (<[i := p]> (clients s)) s.
Definition add_accepted (t : Z) (s : Pool) : Pool :=
  mkPool (name_ s) (hasInit s) (inits s) (maxQueueSize_ s) (running_ s) (queue_ s) (threads_ s) (workers s) (clients s)
    (accepted s ++ [t]) (started s) (finished s) (dropped s).
Definition add_started (t : Z) (s : Pool) : Pool :=
  mkPool (name_ s) (hasInit s) (inits s) (maxQueueSize_ s) (running_ s) (queue_ s) (threads_ s) (workers s) (clients s)
    (accepted s) (started s ++ [t]) (finished s) (dropped s).
Definition add_finished (t : Z) (s : Pool) : Pool :=
  mkPool (name_ s) (hasInit s) (inits s) (maxQueueSize_ s) (running_ s) (queue_ s) (threads_ s) (workers s) (clients s)
    (accepted s) (started s) (finished s ++ [t]) (dropped s).
Definition add_dropped (t : Z) (s : Pool) : Pool :=
  mkPool (name_ s) (hasInit s) (inits s) (maxQueueSize_ s) (running_ s) (queue_ s) (threads_ s) (workers s) (clients s)
    (accepted s) (started s) (finished s) (dropped s ++ [t]).
Definition call_init (s : Pool) : Pool :=
  mkPool (name_ s) (hasInit s) (if hasInit s then S (inits s) else inits s) (maxQueueSize_ s) (running_ s) (queue_ s)
    (threads_ s) (workers s) (clients s) (accepted s) (started s) (finished s) (dropped s).
Definition set_stopped (s : Pool) : Pool :=
  mkPool (name_ s) (hasInit s) (inits s) (maxQueueSize_ s) false (queue_ s) (threads_ s) (workers s) (clients s)
    (accepted s) (started s) (finished s) (dropped s).

(** What one pass through the section of [run] comes to: the caller runs the task
    itself, waits on [notFull_], is refused, or has queued the task. *)
Inductive run_result : Type := RunHere | RunWait | RunRefused | RunQueued (s : Pool).
Definition run (t : Z) (s : Pool) : res run_result :=
  if bool_decide (threads_ s = []) then Ok RunHere
  else if isFull s && running_ s then Ok RunWait
  else if negb (running_ s) then Ok RunRefused
  else
    assertb (negb (isFull s));;
    Ok (RunQueued (add_accepted t (set_queue (queue_ s ++ [t]) s))).

(** The same for [take]: it waits on [notEmpty_], or gives a task or none and
    tells whether it notifies [notFull_]. *)
Inductive take_result : Type := TakeWaits | TakeGives (task : option Z) (notifies : bool) (s : Pool).
Definition take (s : Pool) : take_result :=
  if bool_decide (queue_ s = []) && running_ s then TakeWaits else
  match queue_ s with
  | t :: q => TakeGives (Some t) (0 <? maxQueueSize_ s)%nat (set_queue q s)
  | [] => TakeGives None false s
  end.

(** The loop of [runInThread]: the test, and what follows [take]. *)
Definition loop_test (s : Pool) : wpc := if running_ s then WTake else WExit.
Definition after_take (task : option Z) : wpc := match task with Some t => WRun t | None => WTop end.

(** [stop] up to its joins. *)
Definition is_takewait (p : wpc) : bool := match p with WTakeWait => true | _ => false end.
Definition is_take (p : wpc) : bool := match p with WTake => true | _ => false end.
Definition is_runwait (p : cpc) : bool := match p with CRunWait _ => true | _ => false end.
Definition is_run (p : cpc) : bool := match p with CRun _ => true | _ => false end.
Definition wake_w (p : wpc) : wpc := match p with WTakeWait => WTake | _ => p end.
Definition wake_c (p : cpc) : cpc := match p with CRunWait t => CRun t | _ => p end.
Definition stop (s : Pool) : Pool :=
  set_threads (notifyAll is_takewait wake_w (workers s)) (notifyAll is_runwait wake_c (clients s)) (set_stopped s).
(** All the joins have returned. *)
Definition joined (s : Pool) : bool := forallb (λ p, bool_decide (p = WExit)) (workers s).

(** ** Schedules *)

(** The steps of the workers. *)
Inductive wstep (s : Pool) : Pool → Prop :=
| w_init i : workers s !! i = Some WInit → wstep s (at_w i WTop (call_init s))
| w_test i : workers s !! i = Some WTop → wstep s (at_w i (loop_test s) s)
| w_wait i : workers s !! i = Some WTake → take s = TakeWaits → wstep s (at_w i WTakeWait s)
| w_take i task b s1 C : workers s !! i = Some WTake → take s = TakeGives task b s1 →
    (if b then notify is_runwait wake_c (clients s) C else C = clients s) →
    wstep s (set_threads (<[i := after_take task]> (workers s)) C
               (match task with Some t => add_started t s1 | None => s1 end))
| w_done i t : workers s !! i = Some (WRun t) → wstep s (at_w i WTop (add_finished t s)).

(** Those of the user's threads, and spurious wake-ups. *)
Inductive cstep (s : Pool) : Pool → Prop :=
| c_call i t : clients s !! i = Some CIdle → cstep s (at_c i (CRun t) s)
| c_here i t : clients s !! i = Some (CRun t) → run t s = Ok RunHere →
    cstep s (at_c i CIdle (add_finished t (add_started t (add_accepted t s))))
| c_wait i t : clients s !! i = Some (CRun t) → run t s = Ok RunWait → cstep s (at_c i (CRunWait t) s)
| c_refused i t : clients s !! i = Some (CRun t) → run t s = Ok RunRefused → cstep s (at_c i CIdle (add_dropped t s))
| c_queued i t s1 W : clients s !! i = Some (CRun t) → run t s = Ok (RunQueued s1) →
    notify is_takewait wake_w (workers s) W → cstep s (set_threads W (<[i := CIdle]> (clients s)) s1)
| c_stop i : clients s !! i = Some CIdle → cstep s (stop (at_c i CJoin s))
| c_joined i : clients s !! i = Some CJoin → joined s = true → cstep s (at_c i CIdle s)
| c_wake_w i : workers s !! i = Some WTakeWait → cstep s (at_w i WTake s)
| c_wake_c i t : clients s !! i = Some (CRunWait t) → cstep s (at_c i (CRun t) s).

Definition step (s s' : Pool) : Prop := wstep s s' ∨ cstep s s'.

(** ** Invariant *)

Definition task_of (p : wpc) : option Z := match p with WRun t => Some t | _ => None end.
(** The tasks being run. *)
Definition in_progress (s : Pool) : list Z := omap task_of (workers s).
Definition is_exit (p : wpc) : bool := match p with WExit => true | _ => false end.

Record inv (s : Pool) : Prop := {
  t_accepted : accepted s = started s ++ queue_ s;
  t_bound : (0 < maxQueueSize_ s)%nat → (length (queue_ s) <= maxQueueSize_ s)%nat;
  t_progress : started s ≡ₚ finished s ++ in_progress s;
  t_threads : length (threads_ s) = length (workers s);
  t_none : threads_ s = [] → queue_ s = [] ∧ cnt is_runwait (clients s) = 0%nat;
  t_exit : running_ s = true → cnt is_exit (workers s) = 0%nat;
  t_take : cnt is_takewait (workers s) = 0%nat
           ∨ (running_ s = true ∧ (length (queue_ s) <= cnt is_take (workers s))%nat);
  t_room : cnt is_runwait (clients s) = 0%nat
           ∨ (running_ s = true ∧ (0 < maxQueueSize_ s)%nat
              ∧ (maxQueueSize_ s - length (queue_ s) <= cnt is_run (clients s))%nat) }.

Lemma omap_cons_list (a : wpc) l : omap task_of (a :: l) = option_list (task_of a) ++ omap task_of l.
Proof. simpl. by destruct (task_of a). Qed.

Lemma omap_insert (l : list wpc) i a b : l !! i = Some a →
  omap task_of (<[i := b]> l) ++ option_list (task_of a) ≡ₚ omap task_of l ++ option_list (task_of b).
Proof. apply omap_change. Qed.

(** What one change of a worker, or of a user's thread, does to the counts. *)
Lemma wcounts l i a b : l !! i = Some a →
  let d P := (cnt P (<[i := b]> l) + bit (P a) = cnt P l + bit (P b))%nat in d is_take ∧ d is_takewait ∧ d is_exit.
Proof. intros Hi d. split_and!; by apply cnt_insert. Qed.
Lemma ccounts l i a b : l !! i = Some a →
  let d P := (cnt P (<[i := b]> l) + bit (P a) = cnt P l + bit (P b))%nat in d is_run ∧ d is_runwait.
Proof. intros Hi d. split_and!; by apply cnt_insert. Qed.

Lemma notify_w l T : notify is_takewait wake_w l T →
  cnt is_exit T = cnt is_exit l ∧ omap task_of T ≡ₚ omap task_of l ∧ length T = length l
  ∧ ((cnt is_takewait l = 0%nat ∧ T = l)
     ∨ (cnt is_takewait T = cnt is_takewait l - 1 ∧ cnt is_take T = cnt is_take l + 1)%nat).
Proof.
  intros [l' E|l' i a Hi Ha]; [by auto 6|]. destruct a; try done.
  destruct (wcounts l' i _ WTake Hi) as (C1 & C2 & C3). pose proof (omap_insert l' i _ WTake Hi) as P. simpl in *.
  rewrite !app_nil_r in P. rewrite length_insert. split_and!; [lia|done|done|right; lia].
Qed.
Lemma notify_c l T : notify is_runwait wake_c l T →
  (cnt is_runwait l = 0%nat ∧ T = l)
  ∨ (cnt is_runwait T = cnt is_runwait l - 1 ∧ cnt is_run T = cnt is_run l + 1)%nat.
Proof.
  intros [l' E|l' i a Hi Ha]; [by auto|]. destruct a; try done.
  destruct (ccounts l' i _ (CRun t) Hi) as (C1 & C2). simpl in *. right. lia.
Qed.

(** A worker moves between points where it holds no task and does not wait. *)
Lemma inv_worker i a b s : inv s → workers s !! i = Some a → task_of a = task_of b →
  is_takewait b = false → is_take a = false → (is_exit b = true → running_ s = false) → inv (at_w i b s).
Proof.
  intros [I1 I2 I3 I4 I5 I6 I7 I8] Ht Hab Hb Ha Hx. destruct (wcounts _ i _ b Ht) as (C1 & C2 & C3).
  rewrite Hb in C2. rewrite Ha in C1. simpl in *. split; simpl; try done.
  - rewrite I3. apply Permutation_app_head. unfold in_progress. simpl.
    pose proof (omap_insert _ i _ b Ht) as P. rewrite Hab in P. by apply Permutation_app_inv_r in P.
  - by rewrite length_insert.
  - intros Hr. specialize (I6 Hr). destruct (is_exit b) eqn:E; [specialize (Hx eq_refl); congruence|]. simpl in C3. lia.
  - destruct I7 as [?|[? ?]]; [left; lia|right; split; [done|lia]].
Qed.

Lemma in_progress_change i a b s : workers s !! i = Some a →
  omap task_of (<[i := b]> (workers s)) ++ option_list (task_of a) ≡ₚ in_progress s ++ option_list (task_of b).
Proof. apply omap_insert. Qed.

Lemma inv_wstep s s' : inv s → wstep s s' → inv s'.
Proof.
  intros Hi Hs. pose proof Hi as [I1 I2 I3 I4 I5 I6 I7 I8].
  destruct Hs as [i Ht|i Ht|i Ht E|i task b s1 C Ht E Hn|i t Ht].
  - apply (inv_worker i WInit); try done.
  - apply (inv_worker i WTop); unfold loop_test; try done; by destruct (running_ s).
  - destruct (wcounts _ i _ WTakeWait Ht) as (C1 & C2 & C3). simpl in *.
    unfold take in E. destruct (bool_decide (queue_ s = [])) eqn:Eq; [|by destruct (queue_ s)].
    destruct (running_ s) eqn:Er; [|by destruct (queue_ s)]. apply bool_decide_eq_true in Eq.
    split; simpl; try done.
    + rewrite I3. apply Permutation_app_head. pose proof (in_progress_change i _ WTakeWait s Ht) as P.
      simpl in P. by rewrite !app_nil_r in P.
    + by rewrite length_insert.
    + intros _. specialize (I6 eq_refl). lia.
    + right. rewrite Eq. split; [done|simpl; lia].
    + by rewrite Er.
  - destruct (wcounts _ i _ (after_take task) Ht) as (C1 & C2 & C3).
    pose proof (in_progress_change i _ (after_take task) s Ht) as P. simpl in P. rewrite app_nil_r in P.
    unfold take in E. destruct (queue_ s) as [|t q] eqn:Eq.
    + rewrite bool_decide_eq_true_2 in E by done. destruct (running_ s) eqn:Er; [done|]. injection E as <- <- <-.
      subst C. simpl in *. rewrite app_nil_r in P. split; simpl; rewrite ?Eq; try done.
      * unfold in_progress. simpl. by rewrite P.
      * by rewrite length_insert.
      * congruence.
      * left. destruct I7 as [?|[? _]]; [lia|done].
      * left. by destruct I8 as [?|[? _]].
    + rewrite bool_decide_eq_false_2 in E by done. injection E as <- <- <-. simpl in *.
      assert (Hc : (cnt is_runwait C = 0 ∨ (running_ s = true ∧ 0 < maxQueueSize_ s
         ∧ maxQueueSize_ s - length q <= cnt is_run C))%nat).
      { destruct (0 <? maxQueueSize_ s)%nat eqn:Em.
        - apply Nat.ltb_lt in Em. specialize (I2 Em). destruct (notify_c _ _ Hn) as [[N ->]|[N1 N2]]; [by left|].
          destruct I8 as [?|(? & ? & ?)]; [left; lia|right; split_and!; [done|done|lia]].
        - apply Nat.ltb_ge in Em. subst C. left. destruct I8 as [?|(_ & ? & _)]; [done|lia]. }
      split; simpl.
      * by rewrite I1, <-app_assoc.
      * intros Hm. specialize (I2 Hm). lia.
      * unfold in_progress. simpl. rewrite P, I3, <-app_assoc. done.
      * by rewrite length_insert.
      * intros Hn0. destruct (I5 Hn0). congruence.
      * intros Hr. specialize (I6 Hr). lia.
      * destruct I7 as [?|[? ?]]; [left; lia|right; split; [done|lia]].
      * exact Hc.
  - destruct (wcounts _ i _ WTop Ht) as (C1 & C2 & C3). simpl in *. split; simpl; try done.
    + pose proof (in_progress_change i _ WTop s Ht) as P. simpl in P. rewrite app_nil_r in P.
      unfold in_progress at 1. simpl. rewrite I3, <-P, <-app_assoc. by rewrite (Permutation_app_comm [t]).
    + by rewrite length_insert.
    + intros Hr. specialize (I6 Hr). lia.
    + destruct I7 as [?|[? ?]]; [left; lia|right; split; [done|lia]].
Qed.

Lemma inv_client i a b s : inv s → clients s !! i = Some a → is_runwait b = false → is_run a = false →
  inv (at_c i b s).
Proof.
  intros [I1 I2 I3 I4 I5 I6 I7 I8] Ht Hb Ha. destruct (ccounts _ i _ b Ht) as (C1 & C2).
  rewrite Hb in C2. rewrite Ha in C1. simpl in *. split; simpl; try done.
  { intros H. destruct (I5 H). split; [done|lia]. }
  destruct I8 as [?|(? & ? & ?)]; [left; lia|right; split_and!; [done|done|lia]].
Qed.

Lemma omap_notifyAll l : omap task_of (notifyAll is_takewait wake_w l) = omap task_of l.
Proof.
  induction l as [|p l IH]; [done|]. unfold notifyAll in *. rewrite fmap_cons, !omap_cons_list, IH. by destruct p.
Qed.

Lemma inv_stop s : inv s → inv (stop s).
Proof.
  intros [I1 I2 I3 I4 I5 I6 I7 I8]. split; simpl; try done.
  - unfold in_progress. simpl. by rewrite omap_notifyAll.
  - unfold notifyAll. by rewrite length_fmap.
  - intros H. destruct (I5 H). split; [done|]. apply cnt_notifyAll. by intros [].
  - left. apply cnt_notifyAll. by intros [].
  - left. apply cnt_notifyAll. by intros [].
Qed.

(** [run] inside a well-formed pool: the assertion holds. *)
Lemma run_cases t s : inv s →
  (threads_ s = [] ∧ run t s = Ok RunHere)
  ∨ (threads_ s ≠ [] ∧ running_ s = true ∧ (0 < maxQueueSize_ s <= length (queue_ s))%nat ∧ run t s = Ok RunWait)
  ∨ (threads_ s ≠ [] ∧ running_ s = false ∧ run t s = Ok RunRefused)
  ∨ (threads_ s ≠ [] ∧ running_ s = true ∧ ((0 < maxQueueSize_ s)%nat → (length (queue_ s) < maxQueueSize_ s)%nat)
     ∧ run t s = Ok (RunQueued (add_accepted t (set_queue (queue_ s ++ [t]) s)))).
Proof.
  intros Hi. unfold run. case_bool_decide as Hn; [by left|right].
  destruct (isFull s) eqn:Ef, (running_ s) eqn:Er; simpl; auto 6.
  - left. apply andb_prop in Ef as [E1%Nat.ltb_lt E2%Nat.leb_le]. auto.
  - right; right. split_and!; try done. intros Hm. unfold isFull in Ef. rewrite (proj2 (Nat.ltb_lt _ _) Hm) in Ef.
    by apply Nat.leb_gt in Ef.
Qed.

Lemma inv_queued i t s W : inv s → clients s !! i = Some (CRun t) → threads_ s ≠ [] → running_ s = true →
  ((0 < maxQueueSize_ s)%nat → (length (queue_ s) < maxQueueSize_ s)%nat) →
  notify is_takewait wake_w (workers s) W →
  inv (set_threads W (<[i := CIdle]> (clients s)) (add_accepted t (set_queue (queue_ s ++ [t]) s))).
Proof.
  intros [I1 I2 I3 I4 I5 I6 I7 I8] Ht Hn Hr Hm HW. destruct (ccounts _ i _ CIdle Ht) as (C1 & C2).
  destruct (notify_w _ _ HW) as (N1 & N2 & N3 & N4). simpl in *. split; simpl; try done.
  - by rewrite I1, app_assoc.
  - intros H. rewrite length_app. simpl. specialize (Hm H). lia.
  - unfold in_progress. simpl. by rewrite N2.
  - congruence.
  - intros _. rewrite N1. by apply I6.
  - rewrite length_app. simpl. destruct N4 as [[N4 ->]|[N4 N5]]; [by left|].
    destruct I7 as [?|[_ ?]]; [left; lia|right; split; [done|lia]].
  - rewrite length_app. simpl. destruct I8 as [?|(? & ? & ?)]; [left; lia|right; split_and!; [done|done|lia]].
Qed.

Lemma inv_cstep s s' : inv s → cstep s s' → inv s'.
Proof.
  intros Hi Hs. destruct Hs as [i t Ht|i t Ht E|i t Ht E|i t Ht E|i t s1 W Ht E HW|i Ht|i Ht _|i Ht|i t Ht].
  - by apply (inv_client i CIdle).
  - destruct (run_cases t s Hi) as [[Hn _]|[(_ & _ & _ & E')|[(_ & _ & E')|(_ & _ & _ & E')]]]; try congruence.
    pose proof Hi as [I1 I2 I3 I4 I5 I6 I7 I8]. destruct (ccounts _ i _ CIdle Ht) as (C1 & C2). simpl in *.
    destruct (I5 Hn) as [I5' I5'']. assert (Hw : workers s = []).
    { rewrite Hn in I4. simpl in I4. apply length_zero_iff_nil. lia. }
    split; simpl; try done.
    + by rewrite I1, I5', !app_nil_r.
    + unfold in_progress in *. simpl. rewrite Hw in *. simpl in *. rewrite app_nil_r in *. by rewrite I3.
    + intros _. split; [done|lia].
    + left. lia.
  - destruct (run_cases t s Hi) as [[_ E']|[(Hn & Hr & Hf & _)|[(_ & _ & E')|(_ & _ & _ & E')]]]; try congruence.
    pose proof Hi as [I1 I2 I3 I4 I5 I6 I7 I8]. destruct (ccounts _ i _ (CRunWait t) Ht) as (C1 & C2). simpl in *.
    split; simpl; try done. right. split_and!; [done|lia|lia].
  - pose proof Hi as [I1 I2 I3 I4 I5 I6 I7 I8]. destruct (ccounts _ i _ CIdle Ht) as (C1 & C2). simpl in *.
    destruct (run_cases t s Hi) as [[_ E']|[(_ & _ & _ & E')|[(_ & Hr & _)|(_ & _ & _ & E')]]]; try congruence.
    split; simpl; try done; [intros H; destruct (I5 H); split; [done|lia]|].
    destruct I8 as [?|(? & ? & ?)]; [left; lia|congruence].
  - destruct (run_cases t s Hi) as [[_ E']|[(_ & _ & _ & E')|[(_ & _ & E')|(Hn & Hr & Hm & E')]]]; try congruence.
    rewrite E in E'. injection E' as ->. by apply inv_queued.
  - apply inv_stop. by apply (inv_client i CIdle).
  - by apply (inv_client i CJoin).
  - pose proof Hi as [I1 I2 I3 I4 I5 I6 I7 I8]. destruct (wcounts _ i _ WTake Ht) as (C1 & C2 & C3). simpl in *.
    split; simpl; try done.
    + pose proof (in_progress_change i _ WTake s Ht) as P. simpl in P. rewrite !app_nil_r in P.
      unfold in_progress. simpl. by rewrite P.
    + by rewrite length_insert.
    + intros Hr. specialize (I6 Hr). lia.
    + destruct I7 as [?|[? ?]]; [left; lia|right; split; [done|lia]].
  - pose proof Hi as [I1 I2 I3 I4 I5 I6 I7 I8]. destruct (ccounts _ i _ (CRun t) Ht) as (C1 & C2). simpl in *.
    split; simpl; try done; [intros H; destruct (I5 H); split; [done|lia]|].
    destruct I8 as [?|(? & ? & ?)]; [left; lia|right; split_and!; [done|done|lia]].
Qed.

Lemma pool_inv_step s s' : inv s → step s s' → inv s'.
Proof. intros Hi [H|H]; [by eapply inv_wstep|by eapply inv_cstep]. Qed.

Lemma pool_inv_start nm ini m n users s0 : start n (setMaxQueueSize m (newPool nm ini users)) = Ok s0 → inv s0.
Proof.
  unfold start. simpl. intros [= <-].
  assert (Hw : ∀ P, P WInit = false → cnt P (replicate n WInit) = 0%nat).
  { intros P HP. apply cnt_zero. by intros i a [-> _]%lookup_replicate. }
  assert (Hc : cnt is_runwait (replicate users CIdle) = 0%nat).
  { apply cnt_zero. by intros i a [-> _]%lookup_replicate. }
  split; simpl; auto; [lia| |].
  - unfold in_progress. simpl. clear. induction n; [done|simpl; by rewrite <-IHn].
  - by rewrite length_fmap, length_seq, length_replicate.
Qed.

Definition reach (nm : bytes) (ini : bool) (m n users : nat) (s : Pool) : Prop :=
  ∃ s0, start n (setMaxQueueSize m (newPool nm ini users)) = Ok s0 ∧ rtc step s0 s.

Lemma pool_inv_reach nm ini m n users s : reach nm ini m n users s → inv s.
Proof.
  intros (s0 & E & Hr). apply pool_inv_start in E. induction Hr as [|s1 s2 s3 Hs _ IH]; [done|].
  by apply IH, (pool_inv_step s1).
Qed.

(** ** Stopping *)

Definition rank (p : wpc) : nat :=
  match p with WExit => 0 | WTop => 1 | WInit => 2 | WRun _ => 2 | WTake => 3 | WTakeWait => 4 end.
Definition ranks (s : Pool) : nat := sum_list (rank <$> workers s).

Lemma ranks_insert (l : list wpc) i a b : l !! i = Some a →
  (sum_list (rank <$> <[i := b]> l) + rank a = sum_list (rank <$> l) + rank b)%nat.
Proof. apply sum_insert. Qed.

Lemma wstep_stopped s s' : running_ s = false → wstep s s' → running_ s' = false ∧ (ranks s' < ranks s)%nat.
Proof.
  intros Hr Hs. unfold ranks. destruct Hs as [i Ht|i Ht|i Ht E|i task b s1 C Ht E Hn|i t Ht].
  - pose proof (ranks_insert _ i _ WTop Ht). simpl in *. split; [done|lia].
  - pose proof (ranks_insert _ i _ (loop_test s) Ht) as R. unfold loop_test in *. rewrite Hr in *. simpl in *. split; [done|lia].
  - unfold take in E. rewrite Hr, andb_false_r in E. by destruct (queue_ s).
  - pose proof (ranks_insert _ i _ (after_take task) Ht) as R. unfold take in E. rewrite Hr, andb_false_r in E.
    destruct (queue_ s); injection E as <- <- <-; simpl in *; (split; [done|lia]).
  - pose proof (ranks_insert _ i _ WTop Ht). simpl in *. split; [done|lia].
Qed.

Lemma wstep_progress s : inv s → running_ s = false → joined s = false → ∃ s', wstep s s'.
Proof.
  intros [I1 I2 I3 I4 I5 I6 I7 I8] Hr Hj.
  assert (Hex : ∃ i p, workers s !! i = Some p ∧ p ≠ WExit).
  { unfold joined in Hj. destruct (decide (Forall (λ p, p = WExit) (workers s))) as [Hf|Hf].
    - exfalso. apply Bool.not_true_iff_false in Hj. apply Hj.
      apply forallb_forall. intros p Hp. apply bool_decide_eq_true_2. rewrite Forall_forall in Hf. apply Hf.
      by apply list_elem_of_In.
    - apply not_Forall_Exists in Hf; [|apply _]. apply Exists_exists in Hf as (p & Hp & Hn).
      apply list_elem_of_lookup_1 in Hp as [i Hi]. eauto. }
  destruct Hex as (i & p & Hi & Hp). destruct p as [| | | |t|].
  - eexists. by eapply w_init.
  - eexists. by eapply w_test.
  - destruct (take s) as [|task b s1] eqn:E.
    + eexists. by eapply w_wait.
    + destruct b.
      * destruct (decide (cnt is_runwait (clients s) = 0%nat)) as [H0|H0].
        -- eexists. eapply w_take; [done|done|]. by apply notify_none.
        -- destruct I8 as [?|[? _]]; [done|congruence].
      * eexists. by eapply w_take.
  - destruct I7 as [H0|[? _]]; [|congruence]. rewrite cnt_zero in H0. by specialize (H0 i _ Hi).
  - eexists. by eapply w_done.
  - done.
Qed.

Lemma ranks_bound s : (ranks s <= 4 * length (workers s))%nat.
Proof.
  unfold ranks. induction (workers s) as [|p l IH]; [simpl; lia|]. rewrite fmap_cons, length_cons.
  change (sum_list (rank p :: (rank <$> l))) with (rank p + sum_list (rank <$> l))%nat. destruct p; cbn [rank]; lia.
Qed.

Lemma stop_terminates k s : inv s → running_ s = false → (ranks s <= k)%nat →
  ∃ s', rtc wstep s s' ∧ joined s' = true.
Proof.
  revert s. induction k as [|k IH]; intros s Hi Hr Hk; destruct (joined s) eqn:Hj; try (by exists s; split; [apply rtc_refl|]).
  - destruct (wstep_progress s Hi Hr Hj) as (s' & Hs). destruct (wstep_stopped s s' Hr Hs). lia.
  - destruct (wstep_progress s Hi Hr Hj) as (s' & Hs). destruct (wstep_stopped s s' Hr Hs) as [Hr' Hlt].
    destruct (IH s' (inv_wstep s s' Hi Hs) Hr') as (s2 & ? & ?); [lia|]. exists s2. split; [by eapply rtc_l|done].
Qed.

Lemma stop_bound k s s' : running_ s = false → nsteps wstep k s s' → (k + ranks s' <= ranks s)%nat.
Proof.
  intros Hr Hn. induction Hn as [|k s1 s2 s3 Hs _ IH]; [lia|].
  destruct (wstep_stopped s1 s2 Hr Hs) as [Hr' Hlt]. specialize (IH Hr'). lia.
Qed.

(** ** Properties *)

(** C15: a started pool, with any number of workers and users and any schedule:
    the tasks are handed to the workers in the order they were queued, each once,
    and each is either done or being run; the queue stays within its limit and the
    assertion of [run] holds; and no wake-up is lost: when every worker sleeps or
    has left and no call of [run] has its condition left to test, nothing is
    queued and nobody waits to queue. *)
Theorem threadpool_correct nm ini m n users s : reach nm ini m n users s →
  accepted s = started s ++ queue_ s
  ∧ started s ≡ₚ finished s ++ in_progress s
  ∧ ((0 < maxQueueSize_ s)%nat → (length (queue_ s) <= maxQueueSize_ s)%nat)
  ∧ (∀ t, is_ok (run t s) = true)
  ∧ (running_ s = true →
     (∀ i p, workers s !! i = Some p → p = WTakeWait ∨ p = WExit) →
     (∀ i p, clients s !! i = Some p → is_run p = false) →
     queue_ s = [] ∧ ∀ i p, clients s !! i = Some p → is_runwait p = false).
Proof.
  intros Hr%pool_inv_reach. pose proof Hr as [I1 I2 I3 I4 I5 I6 I7 I8]. split_and!; [done|done|done| |].
  - intros t. destruct (run_cases t s Hr) as [[_ E]|[(_ & _ & _ & E)|[(_ & _ & E)|(_ & _ & _ & E)]]]; by rewrite E.
  - intros Hrun Hw Hc.
    assert (Z1 : cnt is_take (workers s) = 0%nat).
    { apply cnt_zero. intros i p Hp. by destruct (Hw i p Hp) as [-> | ->]. }
    assert (Z2 : cnt is_run (clients s) = 0%nat) by (by apply cnt_zero).
    assert (Hq : queue_ s = []).
    { destruct I7 as [E|[_ E]]; [|apply length_zero_iff_nil; lia].
      destruct (workers s) as [|p W] eqn:EW.
      - apply I5. apply length_zero_iff_nil. by rewrite I4.
      - specialize (I6 Hrun). rewrite cnt_zero in E, I6. specialize (E 0%nat p eq_refl). specialize (I6 0%nat p eq_refl).
        by destruct (Hw 0%nat p eq_refl) as [-> | ->]. }
    split; [done|]. apply cnt_zero. destruct I8 as [E|(_ & ? & E)]; [done|]. rewrite Hq in E. simpl in E. lia.
Qed.

(** C24: [stop] terminates: once [running_] is false the workers take at most four
    steps each, whatever the schedule, none of them is ever blocked, and they end
    with every join returned. (Tasks still queued then are never run.) *)
Theorem threadpool_stops nm ini m n users s : reach nm ini m n users s → running_ s = false →
  (∃ s', rtc wstep s s' ∧ joined s' = true)
  ∧ (joined s = false → ∃ s', wstep s s')
  ∧ ∀ k s', nsteps wstep k s s' → (k <= 4 * length (workers s))%nat ∧ running_ s' = false.
Proof.
  intros Hi%pool_inv_reach Hr. split_and!; [by eapply stop_terminates|by apply wstep_progress|].
  intros k s' Hn. split; [pose proof (stop_bound k s s' Hr Hn); pose proof (ranks_bound s); lia|].
  clear Hi. induction Hn as [|k s1 s2 s3 Hs _ IH]; [done|]. by apply IH, (wstep_stopped s1 s2).
Qed.

(** ** Witnesses *)

Definition sample_pool : Pool :=
  match start 1 (setMaxQueueSize 2 (newPool (str "pool") false 1)) with Ok s => s | Err _ => newPool [] false 0 end.

Lemma pool_sample_reach : ∃ s, reach (str "pool") false 2 1 1 s ∧ running_ s = false.
Proof.
  exists (stop (at_c 0 CJoin sample_pool)). split; [|reflexivity].
  exists sample_pool. split; [reflexivity|]. eapply rtc_l; [right; apply (c_stop _ 0%nat); reflexivity|]. apply rtc_refl.
Qed.

Lemma threadpool_correct_witness :
  reach (str "pool") false 2 1 1 sample_pool ∧ accepted sample_pool = started sample_pool ++ queue_ sample_pool.
Proof.
  assert (Hr : reach (str "pool") false 2 1 1 sample_pool).
  { exists sample_pool. split; [reflexivity|apply rtc_refl]. }
  split; [exact Hr|]. destruct (threadpool_correct _ _ _ _ _ _ Hr) as [E _]. exact E.
Defined.

Lemma threadpool_stops_witness :
  ∃ s, running_ s = false ∧ ∃ s', rtc wstep s s' ∧ joined s' = true.
Proof.
  destruct pool_sample_reach as (s & Hr & Hf). exists s. split; [exact Hf|].
  destruct (threadpool_stops _ _ _ _ _ _ Hr Hf) as [E _]. exact E.
Defined.
