(* ===== verification/AsyncLogging.v ===== *)
(** * Asynchronous logging (fishnet/base/async_logging.h, async_logging.cc)

    The double buffering between the threads that log and the one that writes:
    the shared buffers under the mutex, the writer's local ones, and the output
    it hands to the log file. *)

From S2P Require Import Prelude Printf Double LogStream.
Local Open Scope Z_scope.

(** ** State *)

(** Where the writer is: at the test of its loop with its two spare buffers, before
    the lock, in [waitForSeconds], writing what it collected (with what is left of the
    spare ones), or returned. *)
Inductive wpc : Type :=
| Top (newBuffer1 newBuffer2 : FixedBuffer)
| Entering (newBuffer1 newBuffer2 : FixedBuffer)
| Waiting (newBuffer1 newBuffer2 : FixedBuffer)
| Writing (buffersToWrite : list FixedBuffer) (newBuffer1 newBuffer2 : option FixedBuffer)
| Done.

(** [file] is what [output.append] was called with, in order; [appended] the text
    of the lines logged so far that fit a buffer, and [batches] the contents of
    the batches written, with the time each was written. *)
Record Log := mkLog {
  running_ : bool;
  currentBuffer_ : FixedBuffer;
  nextBuffer_ : option FixedBuffer;
  buffers_ : list FixedBuffer;
  writer : wpc;
  file : list bytes;
  appended : bytes;
  batches : list (bytes * list bytes) }.

Section async.
(** The size of a buffer ([kLargerBuffer]). *)
Context (SIZE : Z).

Definition newBuffer : FixedBuffer := newFixedBuffer SIZE [].

(** ** Operations *)

(** The constructor and [start]. What the writer does before its loop (the latch
    that [start] waits for, its two buffers) touches nothing that is shared. *)
Definition newLog : Log :=
  mkLog true newBuffer (Some newBuffer) [] (Top newBuffer newBuffer) [] [] [].

Definition append (logline : bytes) (s : Log) : res Log :=
  let ghost := appended s ++ (if zlen logline <? SIZE then logline else []) in
  if zlen logline <? fb_avail (currentBuffer_ s) then
    b ← fb_append (currentBuffer_ s) logline;
    Ok (mkLog (running_ s) b (nextBuffer_ s) (buffers_ s) (writer s) (file s) ghost (batches s))
  else
    let bs := buffers_ s ++ [currentBuffer_ s] in
    let fresh := match nextBuffer_ s with Some b => b | None => newBuffer end in
    b ← fb_append fresh logline;
    Ok (mkLog (running_ s) b None bs (writer s) (file s) ghost (batches s)).

Definition stop (s : Log) : Log :=
  mkLog false (currentBuffer_ s) (nextBuffer_ s) (buffers_ s) (writer s) (file s) (appended s) (batches s).

Definition at_writer (p : wpc) (s : Log) : Log :=
  mkLog (running_ s) (currentBuffer_ s) (nextBuffer_ s) (buffers_ s) p (file s) (appended s) (batches s).

(** The assertions at the head of the loop; [buffersToWrite] is empty there. *)
Definition loop_asserts (b1 b2 : FixedBuffer) : res unit :=
  assertb (fb_length b1 =? 0);; assertb (fb_length b2 =? 0).

(** The rest of the critical section, after the wait: the swap. *)
Definition collect (b1 b2 : FixedBuffer) (s : Log) : Log :=
  let bs := buffers_ s ++ [currentBuffer_ s] in
  let '(next, spare) := match nextBuffer_ s with Some b => (Some b, Some b2) | None => (Some b2, None) end in
  mkLog (running_ s) b1 next [] (Writing bs None spare) (file s) (appended s) (batches s).

(** The line written in place of dropped buffers; [now] is the printed time. *)
Definition notice (now : bytes) (size : Z) : bytes :=
  snprintf 256 (str "Dropped log messages at " ++ now ++ str ", " ++ dec (size - 2) ++ str " larger buffers" ++ [Zbyte 10]).

(** What is written of a batch of buffers. *)
Definition kept (bs : list FixedBuffer) : list FixedBuffer := if 25 <? zlen bs then take 2 bs else bs.

Fixpoint write_all (bs : list FixedBuffer) : res (list bytes) :=
  match bs with
  | [] => Ok []
  | b :: bs => d ← mem_read 0 (fb_length b) (data_ b); l ← write_all bs; Ok (d :: l)
  end.

(** [if (!newBuffer) { newBuffer = move(buffersToWrite.back()); ... reset }] *)
Definition recycle (nb : option FixedBuffer) (bs : list FixedBuffer) : res (FixedBuffer * list FixedBuffer) :=
  match nb with
  | Some b => Ok (b, bs)
  | None =>
      assertb (negb (bool_decide (bs = [])));;
      match last bs with
      | Some b => Ok (fb_reset b, removelast bs)
      | None => Err OutOfBounds
      end
  end.

Definition write (now : bytes) (bs : list FixedBuffer) (n1 n2 : option FixedBuffer) (s : Log) : res Log :=
  assertb (negb (bool_decide (bs = [])));;
  let note := if 25 <? zlen bs then [notice now (zlen bs)] else [] in
  let ks := kept bs in
  l ← write_all ks;
  all ← write_all bs;
  let ks := take 2 ks in
  '(b1, ks) ← recycle n1 ks;
  '(b2, ks) ← recycle n2 ks;
  Ok (mkLog (running_ s) (currentBuffer_ s) (nextBuffer_ s) (buffers_ s) (Top b1 b2)
        (file s ++ note ++ l) (appended s) (batches s ++ [(now, all)])).

(** ** Schedules *)

(** Any thread logs or stops; the writer tests its loop, locks and then waits or
    collects at once, wakes (notified, timed out or for no reason), writes, and
    leaves. *)
Inductive step (s : Log) : Log → Prop :=
| s_append l s' : append l s = Ok s' → step s s'
| s_stop : step s (stop s)
| s_test b1 b2 : writer s = Top b1 b2 → running_ s = true → loop_asserts b1 b2 = Ok () →
    step s (at_writer (Entering b1 b2) s)
| s_wait b1 b2 : writer s = Entering b1 b2 → buffers_ s = [] → step s (at_writer (Waiting b1 b2) s)
| s_collect b1 b2 : writer s = Entering b1 b2 → buffers_ s ≠ [] → step s (collect b1 b2 s)
| s_wake b1 b2 : writer s = Waiting b1 b2 → step s (collect b1 b2 s)
| s_write now bs n1 n2 s' : writer s = Writing bs n1 n2 → write now bs n1 n2 s = Ok s' → step s s'
| s_leave b1 b2 : writer s = Top b1 b2 → running_ s = false → step s (at_writer Done s).

(** ** Invariant *)

Definition good (b : FixedBuffer) : Prop := fb_ok b ∧ zlen (data_ b) = SIZE.
Definition empty (b : FixedBuffer) : Prop := good b ∧ cur_ b = 0.
Definition text (bs : list FixedBuffer) : bytes := concat (fb_content <$> bs).

Definition writer_ok (p : wpc) : Prop :=
  match p with
  | Top b1 b2 | Entering b1 b2 | Waiting b1 b2 => empty b1 ∧ empty b2
  | Writing bs n1 n2 =>
      Forall good bs ∧ bs ≠ [] ∧ n1 = None
      ∧ match n2 with Some b => empty b | None => (2 <= length bs)%nat end
  | Done => True
  end.
Definition inflight (p : wpc) : bytes := match p with Writing bs _ _ => text bs | _ => [] end.

(** What the writer puts in the file for a batch with the contents [cs]. *)
Definition output (batch : bytes * list bytes) : list bytes :=
  if 25 <? zlen batch.2 then notice batch.1 (zlen batch.2) :: take 2 batch.2 else batch.2.

Record inv (s : Log) : Prop := {
  a_current : good (currentBuffer_ s);
  a_buffers : Forall good (buffers_ s);
  a_next : match nextBuffer_ s with Some b => empty b | None => buffers_ s ≠ [] end;
  a_writer : writer_ok (writer s);
  a_text : appended s = concat (concat (batches s).*2) ++ inflight (writer s) ++ text (buffers_ s)
             ++ fb_content (currentBuffer_ s);
  a_file : file s = concat (output <$> batches s) }.

Lemma text_app bs cs : text (bs ++ cs) = text bs ++ text cs.
Proof. unfold text. by rewrite fmap_app, concat_app. Qed.
Lemma text_one b : text [b] = fb_content b.
Proof. unfold text. simpl. apply app_nil_r. Qed.

Lemma empty_content b : empty b → fb_content b = [].
Proof. intros [_ E]. unfold fb_content. by rewrite E. Qed.

Lemma empty_reset b : good b → empty (fb_reset b).
Proof. intros [H1 H2]. split; [|done]. split; [|done]. unfold fb_ok in *. simpl. lia. Qed.

Hypothesis SIZE_pos : 0 <= SIZE.

Lemma empty_new : empty newBuffer.
Proof using SIZE_pos.
  unfold empty, good, fb_ok, newBuffer, newFixedBuffer, zlen. simpl. rewrite length_take, length_replicate.
  split_and!; lia.
Qed.

Lemma inv_newLog : inv newLog.
Proof using SIZE_pos.
  pose proof empty_new as He. split; simpl; try done. apply He.
Qed.

(** Adding a line to a buffer. *)
Lemma append_good b l : good b → ∃ q, fb_append b l = Ok q ∧ good q
  ∧ fb_content q = fb_content b ++ (if zlen l <? fb_avail b then l else []).
Proof.
  intros [Hb Hs]. destruct (fb_append_grows b l Hb) as (q & E & Hq & Hz & Hc). exists q.
  split; [done|]. split; [|done]. split; [done|congruence].
Qed.

Lemma async_append_ok l s : inv s → ∃ s', append l s = Ok s' ∧ inv s'.
Proof using SIZE_pos.
  intros [I1 I2 I3 I4 I5 I6]. unfold append.
  assert (Ha : fb_avail (currentBuffer_ s) <= SIZE).
  { destruct I1 as [Hb Hs]. unfold fb_avail, fb_ok in *. lia. }
  destruct (zlen l <? fb_avail (currentBuffer_ s)) eqn:El.
  - destruct (append_good (currentBuffer_ s) l I1) as (q & E & Hq & Hc). rewrite E. simpl. rewrite El in Hc.
    eexists. split; [reflexivity|]. split; simpl; try done.
    rewrite (proj2 (Z.ltb_lt _ _)) by lia. by rewrite I5, Hc, !app_assoc.
  - set (fresh := match nextBuffer_ s with Some b => b | None => newBuffer end).
    assert (Hf : empty fresh) by (subst fresh; destruct (nextBuffer_ s); [done|apply empty_new]).
    destruct (append_good fresh l (proj1 Hf)) as (q & E & Hq & Hc). rewrite E. simpl.
    eexists. split; [reflexivity|]. rewrite (empty_content fresh Hf), app_nil_l in Hc.
    assert (Hv : fb_avail fresh = SIZE) by (destruct Hf as [[_ Hz] H0]; unfold fb_avail; lia). rewrite Hv in Hc.
    split; simpl; try done.
    + apply Forall_app. split; [done|by apply Forall_singleton].
    + by intros [_ ?]%app_eq_nil.
    + by rewrite I5, Hc, text_app, text_one, <-!app_assoc.
Qed.

Lemma collect_inv b1 b2 s : inv s → writer s = Entering b1 b2 ∨ writer s = Waiting b1 b2 → inv (collect b1 b2 s).
Proof.
  intros [I1 I2 I3 I4 I5 I6] Hw.
  assert (H12 : empty b1 ∧ empty b2 ∧ inflight (writer s) = []).
  { destruct Hw as [E|E]; rewrite E in *; simpl in I4; destruct I4; by split_and!. }
  destruct H12 as (H1 & H2 & Hin). unfold collect. rewrite Hin in I5. simpl in I5.
  assert (Hg : Forall good (buffers_ s ++ [currentBuffer_ s])).
  { apply Forall_app. split; [done|by apply Forall_singleton]. }
  assert (Hn : buffers_ s ++ [currentBuffer_ s] ≠ []) by (by intros [_ ?]%app_eq_nil).
  assert (Ht : appended s = concat (concat (batches s).*2) ++ text (buffers_ s ++ [currentBuffer_ s]) ++ text []
                            ++ fb_content b1).
  { rewrite I5, text_app, text_one, (empty_content b1 H1). by rewrite !app_nil_r. }
  destruct (nextBuffer_ s) as [b|]; split; simpl; try done; try apply H1; try (by apply Forall_nil); split_and!; try done.
  rewrite length_app. simpl. destruct (buffers_ s); [done|simpl; lia].
Qed.

Lemma write_all_ok bs : Forall good bs → write_all bs = Ok (fb_content <$> bs).
Proof.
  induction 1 as [|b bs [Hb Hs] _ IH]; [done|]. simpl.
  pose proof (fb_toString_content b Hb) as E. unfold fb_toString in E. unfold fb_length. rewrite E. simpl. by rewrite IH.
Qed.

Lemma last_split {A} (l : list A) : l ≠ [] → ∃ k x, l = k ++ [x] ∧ last l = Some x ∧ removelast l = k.
Proof.
  intros Hl. destruct (exists_last Hl) as (k & x & ->). exists k, x. split; [done|].
  rewrite last_snoc. split; [done|]. apply removelast_last.
Qed.

Lemma recycle_none bs : Forall good bs → bs ≠ [] →
  ∃ b k, recycle None bs = Ok (b, k) ∧ empty b ∧ Forall good k ∧ S (length k) = length bs.
Proof.
  intros Hg Hn. unfold recycle. rewrite bool_decide_eq_false_2 by done. simpl.
  destruct (last_split bs Hn) as (k & x & -> & -> & ->). apply Forall_app in Hg as [Hk Hx]. rewrite Forall_singleton in Hx.
  exists (fb_reset x), k. split; [done|]. split.
  { by apply empty_reset. }
  split; [done|]. rewrite length_app. simpl. lia.
Qed.

Lemma async_write_ok now bs n1 n2 s : inv s → writer s = Writing bs n1 n2 →
  ∃ s', write now bs n1 n2 s = Ok s' ∧ inv s'.
Proof.
  intros [I1 I2 I3 I4 I5 I6] Hw. rewrite Hw in I4, I5. simpl in I4, I5. destruct I4 as (Hg & Hn & -> & Hn2).
  assert (Hk : Forall good (kept bs) ∧ length (take 2 (kept bs)) = Nat.min 2 (length bs)
               ∧ (fb_content <$> kept bs) = (if 25 <? zlen bs then take 2 (fb_content <$> bs) else fb_content <$> bs)).
  { unfold kept. destruct (25 <? zlen bs) eqn:E.
    - split_and!; [by apply Forall_take| |by rewrite fmap_take].
      rewrite length_take, length_take. lia.
    - split_and!; [done|by rewrite length_take|done]. }
  destruct Hk as (Hk1 & Hk2 & Hk3). unfold write. rewrite assertb_true by (by rewrite bool_decide_eq_false_2).
  rewrite (write_all_ok _ Hk1), (write_all_ok _ Hg). cbn [mbind res_bind].
  assert (Hl : (1 <= length bs)%nat) by (destruct bs; [done|simpl; lia]).
  assert (H2 : Forall good (take 2 (kept bs))) by (by apply Forall_take).
  destruct (recycle_none (take 2 (kept bs)) H2) as (b1 & k1 & E1 & Hb1 & Hg1 & Hl1).
  { intros E. rewrite E in Hk2. cbn [length] in Hk2. lia. }
  rewrite E1. cbn [mbind res_bind].
  assert (Hr : ∃ b2 k2, recycle n2 k1 = Ok (b2, k2) ∧ empty b2).
  { destruct n2 as [b|]; [by exists b, k1|]. destruct (recycle_none k1 Hg1) as (b2 & k2 & E2 & ? & _).
    - intros ->. rewrite Hk2 in Hl1. cbn [length] in Hl1. lia.
    - by exists b2, k2. }
  destruct Hr as (b2 & k2 & E2 & Hb2). rewrite E2. cbn [mbind res_bind]. eexists. split; [reflexivity|]. split; simpl; try done.
  - rewrite I5, fmap_app, concat_app, concat_app. simpl. unfold text at 1. by rewrite !app_nil_r, <-!app_assoc.
  - rewrite I6, fmap_app, concat_app, Hk3. simpl. rewrite app_nil_r. f_equal. unfold output. simpl.
    assert (E : zlen (fb_content <$> bs) = zlen bs) by (unfold zlen; by rewrite length_fmap). rewrite E.
    by destruct (25 <? zlen bs).
Qed.

Lemma inv_log_step s s' : inv s → step s s' → inv s'.
Proof using SIZE_pos.
  intros Hi Hs. pose proof Hi as [I1 I2 I3 I4 I5 I6].
  destruct Hs as [l s' E| |b1 b2 Hw _ _|b1 b2 Hw _|b1 b2 Hw _|b1 b2 Hw|now bs n1 n2 s' Hw E|b1 b2 Hw _].
  - destruct (async_append_ok l s Hi) as (s2 & E2 & H2). congruence.
  - by split.
  - split; simpl; try done; [by rewrite Hw in I4|]. rewrite I5, Hw. done.
  - split; simpl; try done; [by rewrite Hw in I4|]. rewrite I5, Hw. done.
  - by apply collect_inv; [|left].
  - by apply collect_inv; [|right].
  - destruct (async_write_ok now bs n1 n2 s Hi Hw) as (s2 & E2 & H2). congruence.
  - split; simpl; try done. rewrite I5, Hw. done.
Qed.

Lemma inv_log_reach s : rtc step newLog s → inv s.
Proof using SIZE_pos.
  intros Hr. remember newLog as s0 eqn:E. assert (H0 : inv s0) by (subst; apply inv_newLog). clear E.
  induction Hr as [|s1 s2 s3 Hs _ IH]; [done|]. by apply IH, (inv_log_step s1).
Qed.

(** The writer's assertions at the head of its loop. *)
Lemma loop_asserts_ok b1 b2 : empty b1 → empty b2 → loop_asserts b1 b2 = Ok ().
Proof. intros [_ E1] [_ E2]. unfold loop_asserts, fb_length. by rewrite E1, E2. Qed.

(** ** Stopping *)

(** The writer's own steps left once [running_] is false. *)
Definition steps_left (p : wpc) : nat :=
  match p with Done => 0 | Top _ _ => 1 | Writing _ _ _ => 2 | Waiting _ _ => 3 | Entering _ _ => 4 end.

Lemma write_shape now bs n1 n2 s s' : write now bs n1 n2 s = Ok s' →
  ∃ b1 b2, writer s' = Top b1 b2 ∧ running_ s' = running_ s.
Proof.
  unfold write. intros E. apply bind_ok_inv in E as (? & _ & E). apply bind_ok_inv in E as (? & _ & E).
  apply bind_ok_inv in E as (? & _ & E). apply bind_ok_inv in E as ([b1 k1] & _ & E).
  apply bind_ok_inv in E as ([b2 k2] & _ & E). injection E as <-. by exists b1, b2.
Qed.

Lemma writer_leaves s : inv s → running_ s = false → writer s ≠ Done →
  ∃ s', step s s' ∧ running_ s' = false ∧ (steps_left (writer s') < steps_left (writer s))%nat.
Proof.
  intros Hi Hr Hd. destruct (writer s) as [b1 b2|b1 b2|b1 b2|bs n1 n2|] eqn:Hw; [| | | |done].
  - exists (at_writer Done s). split; [by apply (s_leave s b1 b2)|simpl; split; [done|lia]].
  - destruct (decide (buffers_ s = [])) as [Hb|Hb].
    + exists (at_writer (Waiting b1 b2) s). split; [by apply s_wait|simpl; split; [done|lia]].
    + exists (collect b1 b2 s). split; [by apply s_collect|].
      unfold collect. destruct (nextBuffer_ s); simpl; split; try done; lia.
  - exists (collect b1 b2 s). split; [by apply s_wake|]. unfold collect. destruct (nextBuffer_ s); simpl; split; try done; lia.
  - destruct (async_write_ok [] bs n1 n2 s Hi Hw) as (s' & E & _). exists s'. split; [by apply (s_write s [] bs n1 n2)|].
    destruct (write_shape _ _ _ _ _ _ E) as (b1 & b2 & -> & ->). simpl. split; [done|lia].
Qed.

Lemma inv_leaves n s : inv s → running_ s = false → (steps_left (writer s) <= n)%nat →
  ∃ s', rtc step s s' ∧ writer s' = Done.
Proof using SIZE_pos.
  revert s. induction n as [|n IH]; intros s Hi Hr Hn.
  - exists s. split; [done|]. by destruct (writer s); simpl in Hn; try lia.
  - destruct (decide (steps_left (writer s) = 0)%nat) as [E|E].
    { exists s. split; [done|]. by destruct (writer s). }
    destruct (writer_leaves s Hi Hr) as (s1 & Hs & Hr1 & Hl); [by intros Ed; rewrite Ed in E|].
    destruct (IH s1) as (s' & Hs' & Hd); [by apply (inv_log_step s)|done|lia|].
    exists s'. split; [by eapply rtc_l|done].
Qed.

End async.

(** ** Correctness *)

(** C17: in every schedule of the threads that log and the writer, for buffers of
    any size, the writer's assertions and those of [append] hold; no line that
    fits a buffer is lost, doubled or reordered on its way to the file: what was logged is, in
    order, the contents of the batches written, then of the one being written, of
    the full buffers and of the current one; the file has each batch in order,
    whole unless it has more than 25 buffers, when it has a notice and the first
    two; and after [stop] the writer returns. *)
Theorem async_logging_exact SIZE s : 0 <= SIZE → rtc (step SIZE) (newLog SIZE) s →
  appended s = concat (concat (batches s).*2) ++ inflight (writer s) ++ text (buffers_ s)
                 ++ fb_content (currentBuffer_ s)
  ∧ file s = concat (output <$> batches s)
  ∧ (∀ l, ∃ s', append SIZE l s = Ok s')
  ∧ (∀ now bs n1 n2, writer s = Writing bs n1 n2 → ∃ s', write now bs n1 n2 s = Ok s')
  ∧ (∀ b1 b2, writer s = Top b1 b2 → loop_asserts b1 b2 = Ok ())
  ∧ (running_ s = false → ∃ s', rtc (step SIZE) s s' ∧ writer s' = Done).
Proof.
  intros Hz Hr. pose proof (inv_log_reach SIZE Hz s Hr) as Hi. pose proof Hi as [I1 I2 I3 I4 I5 I6].
  split_and!; [done|done| | | |].
  - intros l. destruct (async_append_ok SIZE Hz l s Hi) as (s' & E & _). by exists s'.
  - intros now bs n1 n2 Hw. destruct (async_write_ok SIZE now bs n1 n2 s Hi Hw) as (s' & E & _). by exists s'.
  - intros b1 b2 Hw. rewrite Hw in I4. destruct I4. by apply (loop_asserts_ok SIZE).
  - intros Hs. by apply (inv_leaves SIZE Hz (steps_left (writer s))).
Qed.

(** A run: two lines of which the second needs the other buffer, then the writer
    collects, writes and finds itself stopped. *)
Definition after (m : res Log) : Log := match m with Ok s => s | Err _ => newLog 0 end.
Definition run1 : Log := after (append 4 (str "abc") (newLog 4)).
Definition run2 : Log := after (append 4 (str "de") run1).
Definition run3 : Log := at_writer (Entering (newBuffer 4) (newBuffer 4)) run2.
Definition run4 : Log := collect (newBuffer 4) (newBuffer 4) run3.
Definition run5 : Log := after (append 4 (str "f") run4).
Definition run6 : Log := match writer run5 with Writing bs n1 n2 => after (write [] bs n1 n2 run5) | _ => run5 end.
Definition run7 : Log := stop run6.

Lemma run7_reach : rtc (step 4) (newLog 4) run7.
Proof.
  eapply rtc_l; [apply (s_append 4 _ (str "abc") run1); vm_compute; reflexivity|].
  eapply rtc_l; [apply (s_append 4 _ (str "de") run2); vm_compute; reflexivity|].
  eapply rtc_l; [apply (s_test 4 run2 (newBuffer 4) (newBuffer 4)); vm_compute; reflexivity|].
  eapply rtc_l; [apply (s_collect 4 run3); [reflexivity|vm_compute; discriminate]|].
  eapply rtc_l; [apply (s_append 4 _ (str "f") run5); vm_compute; reflexivity|].
  eapply rtc_l; [eapply (s_write 4 run5 [] _ _ _ run6); vm_compute; reflexivity|].
  apply rtc_once, s_stop.
Qed.

Lemma async_logging_exact_witness :
  appended run7 = str "abcdef" ∧ file run7 = [str "abc"; str "de"] ∧ fb_content (currentBuffer_ run7) = str "f"
  ∧ file run7 = concat (output <$> batches run7) ∧ ∃ s', rtc (step 4) run7 s' ∧ writer s' = Done.
Proof.
  destruct (async_logging_exact 4 run7 ltac:(lia) run7_reach) as (_ & Hf & _ & _ & _ & Hd).
  split; [vm_compute; reflexivity|]. split; [vm_compute; reflexivity|]. split; [vm_compute; reflexivity|].
  split; [exact Hf|]. apply Hd. vm_compute. reflexivity.
Defined.

(** The writer leaves as soon as it sees [running_] false: a line logged while it
    was writing, before [stop] was called, never reaches the file, although
    [stop] has joined the writer. *)
Theorem stop_loses_lines : ∃ s, rtc (step 4) (newLog 4) s ∧ writer s = Done
  ∧ appended s = str "abcdef" ∧ concat (file s) = str "abcde".
Proof.
  exists (at_writer Done run7). split; [|split; [done|split; vm_compute; reflexivity]].
  eapply rtc_r; [exact run7_reach|]. eapply (s_leave 4 run7); vm_compute; reflexivity.
Qed.
