(* ===== verification/FileUtil.v ===== *)
(** * Small files and log files (fishnet/base/file_util.h, file_util.cc)

    [AppendFile], whose [append] calls [fwrite_unlocked] until the whole line is
    taken, and [ReadSmallFile], which reads at most a given number of bytes. The
    results of the system calls are parameters. *)

From S2P Require Import Prelude.
Local Open Scope Z_scope.

Module AppendFile.

(** [stream] is what the stream has taken since it was opened, [calls] the number
    of [fwrite_unlocked] calls of the program so far, and [complaints] of messages
    to [stderr]. *)
Record AppendFile := mkAppendFile { stream : bytes; calls : nat; writtenBytes_ : Z; complaints : nat }.

(** The constructor, after [k] calls of [fwrite_unlocked]. *)
Definition newAppendFile (k : nat) : AppendFile := mkAppendFile [] k 0 0.
Definition writtenBytes (f : AppendFile) : Z := writtenBytes_ f.

Section append.
(** How many of [n] bytes the [k]-th call takes, and whether [ferror] is set after it. *)
Context (fwrite : nat → Z → Z) (ferror : nat → bool).

Definition write (logline : bytes) (f : AppendFile) : Z * AppendFile :=
  let x := fwrite (calls f) (zlen logline) in
  (x, mkAppendFile (stream f ++ take (Z.to_nat x) logline) (S (calls f)) (writtenBytes_ f) (complaints f)).

Definition complain (f : AppendFile) : AppendFile :=
  mkAppendFile (stream f) (calls f) (writtenBytes_ f) (S (complaints f)).

(** The loop with [n] bytes taken; [None] when the fuel is spent. *)
Fixpoint append_loop (fuel : nat) (logline : bytes) (n : Z) (f : AppendFile) : option AppendFile :=
  let remain := u64 (zlen logline - n) in
  if 0 <? remain then
    match fuel with
    | O => None
    | S fuel =>
        let '(x, f) := write (slice n remain logline) f in
        if x =? 0 then Some (if ferror (calls f) then complain f else f)
        else append_loop fuel logline (u64 (n + x)) f
    end
  else Some f.

Definition append (logline : bytes) (f : AppendFile) : option AppendFile :=
  let '(n, f) := write logline f in
  f ← append_loop (length logline) logline n f;
  Some (mkAppendFile (stream f) (calls f) (s64 (writtenBytes_ f + zlen logline)) (complaints f)).

(** What [fwrite(3)] returns. *)
Hypothesis fwrite_range : ∀ k n, 0 <= n → 0 <= fwrite k n <= n.

Lemma append_loop_ok fuel l n f :
  zlen l < 2 ^ 63 → 0 <= n <= zlen l → zlen l - n <= Z.of_nat fuel →
  ∃ f' k, append_loop fuel l n f = Some f' ∧ n <= k <= zlen l
    ∧ stream f' = stream f ++ slice n (k - n) l ∧ writtenBytes_ f' = writtenBytes_ f
    ∧ (k < zlen l → ∃ j, fwrite j (zlen l - k) = 0).
Proof using fwrite_range.
  intros Hl. revert n f. induction fuel as [|fuel IH]; intros n f Hn Hf; cbn [append_loop];
    rewrite (wrapu_small 64) by lia.
  - rewrite (proj2 (Z.ltb_ge _ _)) by lia. exists f, n. split_and!; try lia; try done.
    rewrite Z.sub_diag. unfold slice. simpl. by rewrite app_nil_r.
  - destruct (Z.ltb_spec 0 (zlen l - n)) as [Hr|Hr].
    2: { exists f, n. split_and!; try lia; try done. rewrite Z.sub_diag. unfold slice. simpl. by rewrite app_nil_r. }
    unfold write. rewrite zlen_slice by lia. set (x := fwrite (calls f) (zlen l - n)).
    assert (Hx : 0 <= x <= zlen l - n) by (apply fwrite_range; lia). cbv zeta iota beta.
    destruct (Z.eqb_spec x 0) as [E|E].
    + eexists _, n. split; [reflexivity|]. split; [lia|].
      assert (E0 : slice n (n - n) l = []) by (unfold slice; by rewrite Z.sub_diag).
      rewrite E0, app_nil_r. destruct (ferror _); simpl; rewrite E; simpl; rewrite app_nil_r; split_and!; try done;
        intros _; by exists (calls f).
    + rewrite (wrapu_small 64) by lia.
      destruct (IH (n + x) (mkAppendFile (stream f ++ take (Z.to_nat x) (slice n (zlen l - n) l)) (S (calls f))
        (writtenBytes_ f) (complaints f))) as (f' & k & E1 & Hk & E2 & E3 & Hz); [lia|lia|].
      exists f', k. split; [done|]. split; [lia|]. split; [|by split].
      rewrite E2. simpl. rewrite <-app_assoc. f_equal. unfold slice. rewrite take_take.
      replace (k - n) with (x + (k - (n + x))) by lia. rewrite !Z2Nat.inj_add by lia.
      rewrite <-drop_drop. rewrite (Nat.min_l (Z.to_nat x)) by lia.
      by rewrite <-(take_take_drop (drop (Z.to_nat n) l) (Z.to_nat x)).
Qed.

Lemma append_spec l f : zlen l < 2 ^ 63 →
  ∃ f' k, append l f = Some f' ∧ 0 <= k <= zlen l ∧ stream f' = stream f ++ take (Z.to_nat k) l
    ∧ writtenBytes_ f' = s64 (writtenBytes_ f + zlen l) ∧ (k < zlen l → ∃ j, fwrite j (zlen l - k) = 0).
Proof using fwrite_range.
  intros Hl. unfold append, write. set (x := fwrite (calls f) (zlen l)).
  assert (Hx : 0 <= x <= zlen l) by (apply fwrite_range; zlen_lia). cbv zeta iota beta.
  destruct (append_loop_ok (length l) l x
    (mkAppendFile (stream f ++ take (Z.to_nat x) l) (S (calls f)) (writtenBytes_ f) (complaints f)))
    as (f' & k & E1 & Hk & E2 & E3 & Hz); [done|lia|unfold zlen in *; lia|].
  rewrite E1. simpl. eexists _, k. split; [reflexivity|]. split; [lia|]. simpl. split; [|split; [by rewrite E3|done]].
  rewrite E2. simpl. rewrite <-app_assoc. f_equal. unfold slice.
  replace k with (x + (k - x)) at 2 by lia. rewrite Z2Nat.inj_add by lia. by rewrite take_take_drop.
Qed.

(** A stream that always takes something takes the whole line. *)
Lemma append_whole l f : zlen l < 2 ^ 63 → (∀ k n, 0 < n → fwrite k n ≠ 0) →
  ∃ f', append l f = Some f' ∧ stream f' = stream f ++ l ∧ writtenBytes_ f' = s64 (writtenBytes_ f + zlen l).
Proof using fwrite_range.
  intros Hl Hp. destruct (append_spec l f Hl) as (f' & k & E & Hk & Es & Ew & Hz). exists f'.
  split; [done|]. split; [|done]. rewrite Es. f_equal. destruct (decide (k < zlen l)) as [Hlt|Hge].
  - destruct (Hz Hlt) as [j Ej]. exfalso. apply (Hp j (zlen l - k)); [lia|done].
  - apply take_ge. unfold zlen in *. lia.
Qed.

End append.

End AppendFile.

Module ReadSmallFile.

Definition kBufferSize : Z := 64 * 1024.
Definition EISDIR : Z := 21.

(** The result of [fstat]. *)
Record stat := mkStat { st_reg : bool; st_dir : bool; st_size : Z; st_mtime : Z; st_ctime : Z }.

(** An open file of contents [disk], read up to [pos], with [calls] reads done; or
    the error of [open]. [buf_] is the buffer of the object. *)
Record ReadSmallFile := mkReadSmallFile {
  fd_ : Z; err_ : Z; buf_ : bytes; disk : bytes; pos : Z; calls : nat }.

(** The constructor, [open] giving [fd] and the [errno] [e]. *)
Definition newReadSmallFile (fd e : Z) (d : bytes) : ReadSmallFile :=
  mkReadSmallFile fd (if fd <? 0 then e else 0) (replicate (Z.to_nat kBufferSize) Ascii.zero) d 0 0.

(** What the pointer arguments point to afterwards. *)
Record outs := mkOuts { fileSize : option Z; modifyTime : option Z; createTime : option Z }.

Section read.
(** The [k]-th [read] with a request for [n] bytes at a point with [left] bytes to
    the end of the file, and the [errno] it sets. *)
Context (read : nat → Z → Z → Z) (errno : nat → Z).

(** The loop of [readToString]; [None] when the fuel is spent. *)
Fixpoint read_loop (fuel : nat) (maxSize : Z) (content : bytes) (err : Z) (f : ReadSmallFile) :
    option (Z * bytes * ReadSmallFile) :=
  if zlen content <? u64 maxSize then
    match fuel with
    | O => None
    | S fuel =>
        let toRead := Z.min (u64 maxSize - zlen content) kBufferSize in
        let n := read (calls f) toRead (zlen (disk f) - pos f) in
        let chunk := slice (pos f) n (disk f) in
        let f' := mkReadSmallFile (fd_ f) (err_ f) (chunk ++ drop (Z.to_nat n) (buf_ f)) (disk f) (pos f + Z.max 0 n)
                    (S (calls f)) in
        if 0 <? n then read_loop fuel maxSize (content ++ chunk) err f'
        else Some (if n <? 0 then errno (calls f) else err, content, f')
    end
  else Some (err, content, f).

(** [want] says which of the pointer arguments are not null; [fstat] is the
    result of the call, or its [errno]. *)
Definition readToString (maxSize : Z) (content : bytes) (want : bool * bool * bool) (fstat : stat + Z)
    (f : ReadSmallFile) : res (option (Z * bytes * outs * ReadSmallFile)) :=
  let '(wsize, wm, wc) := want in
  if 0 <=? fd_ f then
    '(err, o) ←
      (if (wsize : bool) then
         match fstat with
         | inl st =>
             guard_or LengthError (negb (st_reg st) || (0 <=? s32 (Z.min maxSize (st_size st))));;
             Ok (if st_reg st then err_ f else if st_dir st then EISDIR else err_ f,
                 mkOuts (if st_reg st then Some (st_size st) else None)
                   (if (wm : bool) then Some (st_mtime st) else None)
                   (if (wc : bool) then Some (st_ctime st) else None))
         | inr e => Ok (e, mkOuts None None None)
         end
       else Ok (err_ f, mkOuts None None None));
    Ok ('(err, content, f) ← read_loop (S (length (disk f))) maxSize [] err f; Some (err, content, o, f))
  else Ok (Some (err_ f, content, mkOuts None None None, f)).

(** [n] is the result of [pread]. *)
Definition readToBuffer (n e : Z) (f : ReadSmallFile) : res (Z * option Z * ReadSmallFile) :=
  if 0 <=? fd_ f then
    if 0 <=? n then
      b ← mem_write 0 (slice 0 n (disk f)) (buf_ f);
      b ← mem_write n [Ascii.zero] b;
      Ok (err_ f, Some (s32 n), mkReadSmallFile (fd_ f) (err_ f) b (disk f) (pos f) (calls f))
    else Ok (e, None, f)
  else Ok (err_ f, None, f).

(** What [read(2)] does with a regular file: it gives at least a byte and at most
    what was asked for or is left, nothing at the end, or fails. *)
Hypothesis read_range : ∀ k n left, 0 < n → 0 <= left →
  read k n left <= Z.min n left ∧ (read k n left = 0 → left = 0).

Lemma read_loop_ok fuel m c e f :
  0 <= pos f <= zlen (disk f) → c = take (Z.to_nat (pos f)) (disk f) → zlen (disk f) - pos f < Z.of_nat fuel →
  ∃ e' c' f' k, read_loop fuel m c e f = Some (e', c', f') ∧ c' = take (Z.to_nat k) (disk f)
    ∧ pos f <= k <= Z.max (pos f) (u64 m)
    ∧ (e' = e ∧ Z.min (zlen (disk f)) (u64 m) <= k
       ∨ ∃ j n left, e' = errno j ∧ read j n left < 0).
Proof using read_range.
  revert c f. induction fuel as [|fuel IH]; intros c f Hp -> Hf; [lia|]. cbn [read_loop].
  assert (Hc : zlen (take (Z.to_nat (pos f)) (disk f)) = pos f).
  { unfold zlen in *. rewrite length_take. lia. }
  rewrite Hc. destruct (Z.ltb_spec (pos f) (u64 m)) as [Hm|Hm].
  2: { eexists _, _, _, (pos f). split; [reflexivity|]. split_and!; (lia || done). }
  set (toRead := Z.min _ _). set (n := read _ _ _).
  assert (Ht : 0 < toRead <= u64 m - pos f) by (unfold toRead, kBufferSize; lia).
  destruct (read_range (calls f) toRead (zlen (disk f) - pos f)) as [Hn H0]; [lia|lia|]. fold n in Hn, H0.
  destruct (Z.ltb_spec 0 n) as [Hpos|Hneg].
  - set (f1 := mkReadSmallFile _ _ _ _ _ _).
    destruct (IH (take (Z.to_nat (pos f)) (disk f) ++ slice (pos f) n (disk f)) f1)
      as (e' & c' & f' & k & E & Ec & Hk & He); simpl; [lia| |lia|].
    { unfold slice. rewrite take_take_drop. f_equal. lia. }
    exists e', c', f', k. simpl in *. split_and!; try lia; done.
  - eexists _, _, _, (pos f). split; [reflexivity|]. split_and!; try lia; try done.
    destruct (Z.ltb_spec n 0) as [Hlt|Hge]; [right; by exists (calls f), toRead, (zlen (disk f) - pos f)|].
    left. split; [done|]. lia.
Qed.

(** Reading a file that was opened, from its start: the content is the file's
    first [maxSize] bytes, or a prefix of them and the error of the [read] that failed. *)
Lemma readToString_exact m content want st e f :
  0 <= fd_ f → pos f = 0 → err_ f = 0 → 0 <= m < 2 ^ 31 → inl st = e → 0 <= st_size st →
  ∃ err c o f', readToString m content want e f = Ok (Some (err, c, o, f')) ∧ c `prefix_of` take (Z.to_nat m) (disk f)
    ∧ (fileSize o = if want.1.1 && st_reg st then Some (st_size st) else None)
    ∧ (c = take (Z.to_nat m) (disk f) ∧ err = (if want.1.1 && negb (st_reg st) && st_dir st then EISDIR else 0)
       ∨ ∃ j n left, err = errno j ∧ read j n left < 0).
Proof using read_range.
  intros Hfd Hp He Hm <- Hs. destruct want as [[ws wm] wc]. unfold readToString. rewrite (proj2 (Z.leb_le _ _)) by lia.
  set (err0 := if ws && negb (st_reg st) && st_dir st then EISDIR else 0).
  set (pre := if ws then _ else _).
  assert (Hpre : ∃ o err, pre = Ok (err, o) ∧ err = err0 ∧ fileSize o = (if ws && st_reg st then Some (st_size st) else None)).
  { subst pre err0. rewrite He. destruct ws; [|by eexists _, _]. rewrite guard_or_true.
    - eexists _, _. split; [reflexivity|]. by destruct (st_reg st), (st_dir st).
    - rewrite wraps_small by lia. destruct (st_reg st); [|done]. simpl. apply Z.leb_le. lia. }
  destruct Hpre as (o & ? & -> & -> & Ho). cbn [mbind res_bind].
  destruct (read_loop_ok (S (length (disk f))) m [] err0 f) as (e' & c' & f' & k & E & Ec & Hk & Hr);
    [rewrite Hp; zlen_lia|by rewrite Hp|unfold zlen; lia|].
  rewrite E. rewrite (wrapu_small 64) in * by lia. exists e', c', o, f'. split; [done|]. split.
  - subst c'. exists (drop (Z.to_nat k) (take (Z.to_nat m) (disk f))).
    rewrite <-(take_drop (Z.to_nat k) (take (Z.to_nat m) (disk f))) at 1. by rewrite take_take, Nat.min_l by lia.
  - split; [done|]. destruct Hr as [[-> Hk2]|Hr]; [left|by right]. split; [|done]. subst c'.
    destruct (decide (zlen (disk f) <= m)) as [Hl|Hl]; unfold zlen in *.
    + by rewrite !take_ge by lia.
    + by replace k with m by lia.
Qed.

Lemma readToBuffer_exact n e f : 0 <= fd_ f → zlen (buf_ f) = kBufferSize →
  n <= Z.min (kBufferSize - 1) (zlen (disk f)) →
  ∃ err sz f', readToBuffer n e f = Ok (err, sz, f')
    ∧ (0 <= n → err = err_ f ∧ sz = Some n ∧ take (S (Z.to_nat n)) (buf_ f') = take (Z.to_nat n) (disk f) ++ [Ascii.zero])
    ∧ (n < 0 → err = e ∧ sz = None).
Proof.
  intros Hfd Hb Hn. unfold readToBuffer. rewrite (proj2 (Z.leb_le _ _)) by lia.
  destruct (Z.leb_spec 0 n) as [H0|H0].
  2: { eexists _, _, _. split; [reflexivity|]. split; [lia|done]. }
  unfold kBufferSize in *. set (d := slice 0 n (disk f)).
  assert (Hd : zlen d = n) by (apply zlen_slice; lia).
  rewrite <-(take_drop (Z.to_nat n) (buf_ f)).
  assert (Ht : zlen (take (Z.to_nat n) (buf_ f)) = n) by (unfold zlen in *; rewrite length_take; lia).
  pose proof (mem_write_app3 [] (take (Z.to_nat n) (buf_ f)) (drop (Z.to_nat n) (buf_ f)) d 0 eq_refl ltac:(lia)) as E1.
  cbn [app] in E1. rewrite E1. cbn [mbind res_bind].
  destruct (drop (Z.to_nat n) (buf_ f)) as [|x q] eqn:Eq.
  { apply (f_equal length) in Eq. rewrite length_drop in Eq. unfold zlen in Hb. simpl in Eq. lia. }
  change (x :: q) with ([x] ++ q).
  rewrite (mem_write_app3 d [x] q [Ascii.zero] n) by done. cbn [mbind res_bind].
  eexists _, _, _. split; [reflexivity|]. split; [|lia]. intros _. rewrite wraps_small by lia. split_and!; try done. simpl.
  assert (Hl : length d = Z.to_nat n) by (unfold zlen in Hd; lia).
  rewrite <-Nat.add_1_r, <-Hl, take_app_add. simpl. f_equal. by rewrite Hl.
Qed.

End read.

End ReadSmallFile.
