(* ===== verification/LogFile.v ===== *)
(** * Rolling log files (fishnet/base/log_file.h, log_file.cc)

    The sequence of files a [LogFile] writes: a new one when the current one is
    larger than [rollSize_] or a new day has begun, named after the time it was
    opened. *)

From S2P Require Import Prelude Printf Date Ctime FileUtil.
Import FileUtil.AppendFile.
Local Open Scope Z_scope.

(** ** State *)

(** [file_] is the current file with its name, [closed] are the earlier ones in
    order, and [durable] the bytes of the current one that were flushed. *)
Record LogFile := mkLogFile {
  basename_ : bytes;
  rollSize_ : Z;
  flushInterval_ : Z;
  checkEveryN_ : Z;
  count_ : Z;
  startOfPeriod_ : Z;
  lastRoll_ : Z;
  lastFlush_ : Z;
  file_ : option (bytes * AppendFile);
  closed : list (bytes * AppendFile);
  durable : Z }.

Definition kRollPerSeconds_ : Z := 60 * 60 * 24.
(** [now / kRollPerSeconds_ * kRollPerSeconds_] *)
Definition period (now : Z) : Z := Z.quot now kRollPerSeconds_ * kRollPerSeconds_.

Definition set_count (n : Z) (s : LogFile) : LogFile :=
  mkLogFile (basename_ s) (rollSize_ s) (flushInterval_ s) (checkEveryN_ s) n (startOfPeriod_ s) (lastRoll_ s)
    (lastFlush_ s) (file_ s) (closed s) (durable s).
Definition set_file (f : bytes * AppendFile) (s : LogFile) : LogFile :=
  mkLogFile (basename_ s) (rollSize_ s) (flushInterval_ s) (checkEveryN_ s) (count_ s) (startOfPeriod_ s) (lastRoll_ s)
    (lastFlush_ s) (Some f) (closed s) (durable s).
Definition set_flushed (t : Z) (n : Z) (s : LogFile) : LogFile :=
  mkLogFile (basename_ s) (rollSize_ s) (flushInterval_ s) (checkEveryN_ s) (count_ s) (startOfPeriod_ s) (lastRoll_ s)
    t (file_ s) (closed s) n.

(** ** Operations *)

(** [strftime] with the format .%Y%m%d-%H%M%S. of [getLogFileName]; at most 24
    characters, [timebuf] has 32. *)
Definition strftime_name (u : tm) : bytes :=
  str "." ++ dec (tm_year u + 1900) ++ fmt_0d 2 (tm_mon u + 1) ++ fmt_0d 2 (tm_mday u) ++ str "-"
  ++ fmt_0d 2 (tm_hour u) ++ fmt_0d 2 (tm_min u) ++ fmt_0d 2 (tm_sec u) ++ str ".".

Section logfile.
(** The stream's results, and what [process_info] gives. *)
Context (fwrite : nat → Z → Z) (ferror : nat → bool) (hostname : bytes) (pid : Z).

(** [now] is the result of [time(2)]; past the years [gmtime_r] can represent, [tm]
    is read uninitialised. *)
Definition getLogFileName (basename : bytes) (now : Z) : res bytes :=
  match gmtime_r now with
  | Some u => Ok (basename ++ strftime_name u ++ hostname ++ snprintf 32 (str "." ++ dec pid) ++ str ".log")
  | None => Err OutOfBounds
  end.

Definition next_call (s : LogFile) : nat := match file_ s with Some f => calls f.2 | None => 0%nat end.

Definition rollFile (now : Z) (s : LogFile) : res (bool * LogFile) :=
  filename ← getLogFileName (basename_ s) now;
  if lastRoll_ s <? now then
    Ok (true, mkLogFile (basename_ s) (rollSize_ s) (flushInterval_ s) (checkEveryN_ s) (count_ s) (period now) now now
                (Some (filename, newAppendFile (next_call s))) (closed s ++ option_list (file_ s)) 0)
  else Ok (false, s).

Definition newLogFile (basename : bytes) (rollSize flushInterval checkEveryN now : Z) : res LogFile :=
  assertb (bool_decide ("/"%char ∉ basename));;
  '(_, s) ← rollFile now (mkLogFile basename rollSize flushInterval checkEveryN 0 0 0 0 None [] 0);
  Ok s.

(** The clock at the check of the period, and in [getLogFileName]. *)
Record clock := mkClock { t_check : Z; t_roll : Z }.

(** [file_->append]; a null [file_] is an access outside any object. *)
Definition file_append (logline : bytes) (s : LogFile) : res (AppendFile * LogFile) :=
  match file_ s with
  | Some (name, f) =>
      match AppendFile.append fwrite ferror logline f with
      | Some f => Ok (f, set_file (name, f) s)
      | None => Err Fatal
      end
  | None => Err OutOfBounds
  end.
Definition file_flush (t : Z) (s : LogFile) : res LogFile :=
  match file_ s with Some (_, f) => Ok (set_flushed t (zlen (stream f)) s) | None => Err OutOfBounds end.

Definition appendUnlocked (c : clock) (logline : bytes) (s : LogFile) : res LogFile :=
  '(f, s) ← file_append logline s;
  if rollSize_ s <? writtenBytes f then '(_, s) ← rollFile (t_roll c) s; Ok s
  else
    n ← i32 (count_ s + 1);
    let s := set_count n s in
    if checkEveryN_ s <=? count_ s then
      let s := set_count 0 s in
      let now := t_check c in
      if negb (period now =? startOfPeriod_ s) then '(_, s) ← rollFile (t_roll c) s; Ok s
      else
        d ← i64 (now - lastFlush_ s);
        if flushInterval_ s <? d then file_flush now s else Ok s
    else Ok s.

(** With the mutex held, if there is one. *)
Definition append (c : clock) (logline : bytes) (s : LogFile) : res LogFile := appendUnlocked c logline s.
Definition flush (s : LogFile) : res LogFile := file_flush (lastFlush_ s) s.

Inductive op : Type := OpAppend (logline : bytes) (c : clock) | OpFlush | OpRoll (now : Z).
Definition apply (s : LogFile) (o : op) : res LogFile :=
  match o with
  | OpAppend l c => append c l s
  | OpFlush => flush s
  | OpRoll t => '(_, s) ← rollFile t s; Ok s
  end.
Fixpoint run (s : LogFile) (l : list op) : res LogFile :=
  match l with [] => Ok s | o :: l => s ← apply s o; run s l end.

(** ** Names *)

Lemma fmt_2_inj a b : 0 <= a < 100 → 0 <= b < 100 → fmt_0d 2 a = fmt_0d 2 b → a = b.
Proof.
  intros Ha Hb E. destruct (fmt_0d_spec 2 a) as [_ Ra]; [lia|simpl; lia|].
  destruct (fmt_0d_spec 2 b) as [_ Rb]; [lia|simpl; lia|]. rewrite E in Ra. congruence.
Qed.
Lemma length_fmt_2 a : 0 <= a < 100 → length (fmt_0d 2 a) = 2%nat.
Proof. intros. apply fmt_0d_spec; [lia|simpl; lia]. Qed.

Lemma gmtime_date t u : gmtime_r t = Some u → 0 <= tm_mon u < 12 ∧ 1 <= tm_mday u <= 31.
Proof.
  unfold gmtime_r. pose proof (civil_days_date (t / 86400)) as H. cbv zeta in H.
  destruct (civil_date (t / 86400)) as [y m d]. simpl in *. destruct (in_i32 _); [|done]. intros [= <-]. simpl. lia.
Qed.

(** The text has a variable part, the year, and then fields of fixed width. *)
Lemma strftime_name_inj t1 t2 u1 u2 : gmtime_r t1 = Some u1 → gmtime_r t2 = Some u2 →
  strftime_name u1 = strftime_name u2 → t1 = t2.
Proof.
  intros H1 H2 E. destruct (gmtime_fields _ _ H1) as (S1 & M1 & O1 & _). destruct (gmtime_fields _ _ H2) as (S2 & M2 & O2 & _).
  destruct (gmtime_date _ _ H1) as [N1 D1]. destruct (gmtime_date _ _ H2) as [N2 D2].
  unfold strftime_name in E. apply app_inv_head in E.
  assert (L : ∀ u, 0 <= tm_sec u < 60 → 0 <= tm_min u < 60 → 0 <= tm_hour u < 24 → 0 <= tm_mon u < 12 → 1 <= tm_mday u <= 31 →
    length (fmt_0d 2 (tm_mon u + 1) ++ fmt_0d 2 (tm_mday u) ++ str "-"
      ++ fmt_0d 2 (tm_hour u) ++ fmt_0d 2 (tm_min u) ++ fmt_0d 2 (tm_sec u) ++ str ".") = 12%nat).
  { intros u ?????. rewrite !length_app, !length_fmt_2 by lia. done. }
  apply app_inj_2 in E as [Ey E]; [|by rewrite !L].
  apply (f_equal read_dec) in Ey. rewrite !read_dec_dec in Ey. injection Ey as Ey.
  apply app_inj_1 in E as [En E]; [|by rewrite !length_fmt_2 by lia]. apply fmt_2_inj in En; [|lia..].
  apply app_inj_1 in E as [Ed E]; [|by rewrite !length_fmt_2 by lia]. apply fmt_2_inj in Ed; [|lia..].
  apply app_inv_head in E.
  apply app_inj_1 in E as [Eo E]; [|by rewrite !length_fmt_2 by lia]. apply fmt_2_inj in Eo; [|lia..].
  apply app_inj_1 in E as [Em E]; [|by rewrite !length_fmt_2 by lia]. apply fmt_2_inj in Em; [|lia..].
  apply app_inv_tail, fmt_2_inj in E; [|lia..].
  rewrite <-(timegm_gmtime _ _ H1), <-(timegm_gmtime _ _ H2). unfold timegm.
  replace (tm_year u2) with (tm_year u1) by lia. replace (tm_mon u2) with (tm_mon u1) by lia. congruence.
Qed.

Lemma Ok_inj {A} (a b : A) : Ok a = Ok b → a = b.
Proof. congruence. Qed.

(** Two files opened in different seconds have different names. *)
Lemma getLogFileName_inj b t1 t2 n : getLogFileName b t1 = Ok n → getLogFileName b t2 = Ok n → t1 = t2.
Proof.
  unfold getLogFileName. destruct (gmtime_r t1) as [u1|] eqn:H1, (gmtime_r t2) as [u2|] eqn:H2; try done.
  intros <- E%Ok_inj. symmetry in E. apply app_inv_head, app_inv_tail in E. by eapply strftime_name_inj.
Qed.

Lemma getLogFileName_ok b t : - 2 ^ 50 <= t <= 2 ^ 50 → ∃ n, getLogFileName b t = Ok n.
Proof. intros Ht. unfold getLogFileName. destruct (gmtime_some t Ht) as [u ->]. eauto. Qed.

(** ** Invariant *)

Definition sane (t : Z) : Prop := - 2 ^ 50 <= t <= 2 ^ 50.
Definition clock_ok (c : clock) : Prop := sane (t_check c) ∧ sane (t_roll c).
Definition exact (nf : bytes * AppendFile) : Prop := writtenBytes_ nf.2 = zlen (stream nf.2).
Definition named (b : bytes) (t : Z) (nf : bytes * AppendFile) : Prop := getLogFileName b t = Ok nf.1.
Definition content (s : LogFile) : bytes := concat ((λ nf, stream nf.2) <$> closed s ++ option_list (file_ s)).

(** [ts] are the times of the rolls before the last. *)
Record inv (b text : bytes) (ts : list Z) (s : LogFile) : Prop := {
  l_base : basename_ s = b;
  l_file : ∃ nf, file_ s = Some nf ∧ named b (lastRoll_ s) nf ∧ exact nf ∧ 0 <= durable s <= zlen (stream nf.2);
  l_closed : Forall2 (named b) ts (closed s);
  l_exact : Forall exact (closed s);
  l_sorted : StronglySorted Z.lt (ts ++ [lastRoll_ s]);
  l_content : content s = text;
  l_count : 0 <= count_ s < Z.max 1 (checkEveryN_ s);
  l_check : checkEveryN_ s < 2 ^ 31;
  l_period : startOfPeriod_ s = period (lastRoll_ s);
  l_times : sane (lastRoll_ s) ∧ sane (lastFlush_ s) }.

Lemma sorted_snoc l x y : StronglySorted Z.lt (l ++ [x]) → x < y → StronglySorted Z.lt ((l ++ [x]) ++ [y]).
Proof.
  intros Hs Hxy. induction l as [|a l IH]; simpl in *.
  - repeat constructor. done.
  - inversion Hs as [|? ? H1 H2]; subst. constructor; [by apply IH|]. apply Forall_app. split; [done|].
    apply Forall_singleton. apply Forall_app in H2 as [_ H2]. rewrite Forall_singleton in H2. lia.
Qed.

Lemma rollFile_ok b text ts t s : inv b text ts s → sane t →
  ∃ r s' ts', rollFile t s = Ok (r, s') ∧ inv b text ts' s' ∧ r = (lastRoll_ s <? t)
    ∧ count_ s' = count_ s
    ∧ (lastRoll_ s < t → ∃ n k, file_ s' = Some (n, newAppendFile k))
    ∧ (t <= lastRoll_ s → s' = s).
Proof.
  intros [I1 (nf & I2 & I3 & I4 & I5) I6 I7 I8 I9 I10 I11 I12 [I13 I14]] Ht. unfold rollFile.
  destruct (getLogFileName_ok (basename_ s) t Ht) as [n En]. rewrite En. cbn [mbind res_bind].
  destruct (Z.ltb_spec (lastRoll_ s) t) as [Hl|Hl].
  - eexists _, _, (ts ++ [lastRoll_ s]). split; [reflexivity|].
    split; [split; simpl; try done|split_and!; [done|done|eauto|lia]].
    + eexists. split_and!; try done; simpl. by rewrite <-I1.
    + rewrite I2. simpl. apply Forall2_app; [done|]. by constructor.
    + rewrite I2. simpl. apply Forall_app. split; [done|]. by apply Forall_singleton.
    + by apply sorted_snoc.
    + rewrite <-I9. unfold content. simpl. rewrite I2. simpl. rewrite !fmap_app, !concat_app. simpl. by rewrite !app_nil_r.
  - eexists _, s, ts. split; [reflexivity|]. split; [|split_and!; [done|done|lia|done]].
    split; try done. by eexists.
Qed.

Hypothesis fwrite_range : ∀ k n, 0 <= n → 0 <= fwrite k n <= n.
Hypothesis fwrite_progress : ∀ k n, 0 < n → fwrite k n ≠ 0.

Lemma file_append_ok b text ts l s : inv b text ts s → zlen (text ++ l) < 2 ^ 63 →
  ∃ n f' s', file_append l s = Ok (f', s') ∧ s' = set_file (n, f') s ∧ inv b (text ++ l) ts s'
    ∧ writtenBytes_ f' = zlen (stream f').
Proof using fwrite_range fwrite_progress.
  intros [I1 ([n f] & I2 & I3 & I4 & I5) I6 I7 I8 I9 I10 I11 I12 I13] Hl. unfold file_append. rewrite I2.
  unfold exact in I4. cbn [fst snd] in *.
  assert (Hs : zlen (stream f) + zlen l < 2 ^ 63).
  { rewrite <-I9 in Hl. unfold content in Hl. rewrite I2 in Hl. cbn [option_list] in Hl.
    rewrite fmap_app, concat_app in Hl. simpl in Hl. rewrite app_nil_r, !zlen_app in Hl.
    pose proof (zlen_nonneg (concat ((λ nf : bytes * AppendFile, stream nf.2) <$> closed s))). lia. }
  pose proof (zlen_nonneg (stream f)). pose proof (zlen_nonneg l).
  destruct (append_whole fwrite ferror fwrite_range l f) as (f' & E & Es & Ew); [lia|done|]. rewrite E.
  rewrite wraps_small, I4, <-zlen_app, <-Es in Ew by lia.
  eexists n, f', _. split; [reflexivity|]. split; [done|]. split; [|done]. split; simpl; try done.
  - eexists. split_and!; try done; cbn [snd]; [lia|]. rewrite Es, zlen_app. lia.
  - rewrite <-I9. unfold content. simpl. rewrite I2. simpl. rewrite !fmap_app, !concat_app. simpl.
    rewrite Es, !app_nil_r. by rewrite app_assoc.
Qed.

Lemma inv_count b text ts n s : inv b text ts s → 0 <= n < Z.max 1 (checkEveryN_ s) → inv b text ts (set_count n s).
Proof. intros [? ? ? ? ? ? ? ? ? ?] Hn. by split. Qed.

Lemma file_flush_ok b text ts t s : inv b text ts s → sane t →
  ∃ s', file_flush t s = Ok s' ∧ inv b text ts s' ∧ file_ s' = file_ s.
Proof.
  intros [I1 ([n f] & I2 & I3 & I4 & I5) I6 I7 I8 I9 I10 I11 I12 [I13 I14]] Ht. unfold file_flush. rewrite I2.
  eexists. split; [reflexivity|]. split; [|done]. split; simpl; try done.
  - exists (n, f). split_and!; try done; cbn [snd]; zlen_lia.
Qed.

(** One line: all of it goes to the current file, which is replaced when it has
    grown too large unless it is less than a second old. *)
Lemma logfile_append_ok b text ts l c s : inv b text ts s → zlen (text ++ l) < 2 ^ 63 → clock_ok c →
  ∃ s' ts', append c l s = Ok s' ∧ inv b (text ++ l) ts' s'
    ∧ ((∃ nf, file_ s' = Some nf ∧ writtenBytes_ nf.2 <= Z.max 0 (rollSize_ s)) ∨ t_roll c <= lastRoll_ s).
Proof using fwrite_range fwrite_progress.
  intros Hi Hl [Hc Hr]. destruct (file_append_ok b text ts l s Hi Hl) as (n & f & s1 & E & E1 & Hi1 & Hw).
  unfold append, appendUnlocked. rewrite E. cbn [mbind res_bind]. unfold writtenBytes.
  assert (Hroll : ∀ s2, inv b (text ++ l) ts s2 → lastRoll_ s2 = lastRoll_ s →
    ∃ s' ts', ('(_, s') ← rollFile (t_roll c) s2; Ok s') = Ok s' ∧ inv b (text ++ l) ts' s'
    ∧ ((∃ nf, file_ s' = Some nf ∧ writtenBytes_ nf.2 <= Z.max 0 (rollSize_ s)) ∨ t_roll c <= lastRoll_ s)).
  { intros s2 H2 Hlr. destruct (rollFile_ok b (text ++ l) ts (t_roll c) s2 H2 Hr) as (r & s' & ts' & Er & H' & _ & _ & Hn & _).
    exists s', ts'. rewrite Er. split; [done|]. split; [done|]. destruct (decide (t_roll c <= lastRoll_ s)); [by right|left].
    destruct Hn as (m & k & ->); [lia|]. eexists. split; [done|]. simpl. lia. }
  destruct (Z.ltb_spec (rollSize_ s1) (writtenBytes_ f)) as [Hbig|Hsmall].
  { apply Hroll; [done|by rewrite E1]. }
  assert (Hfile : ∃ nf, file_ s1 = Some nf ∧ writtenBytes_ nf.2 <= Z.max 0 (rollSize_ s)).
  { rewrite E1 in *. eexists. split; [reflexivity|]. simpl in *. lia. }
  pose proof (l_count _ _ _ _ Hi1) as Hcnt. pose proof (l_check _ _ _ _ Hi1) as Hck.
  rewrite i32_ok by lia. cbn [mbind res_bind]. cbn [checkEveryN_ count_ set_count].
  destruct (Z.leb_spec (checkEveryN_ s1) (count_ s1 + 1)) as [Hce|Hce].
  2: { eexists _, ts. split; [reflexivity|]. split; [apply inv_count; [done|lia]|]. left. exact Hfile. }
  set (s3 := set_count 0 (set_count (count_ s1 + 1) s1)).
  assert (Hi3 : inv b (text ++ l) ts s3).
  { pose proof (inv_count _ _ _ 0 _ Hi1 ltac:(lia)) as [? ? ? ? ? ? ? ? ? ?]. by split. }
  destruct (negb _); [apply Hroll; [done|by subst s3; simpl; rewrite E1]|].
  pose proof (l_times _ _ _ _ Hi3) as [_ Hlf]. unfold sane in *. rewrite i64_ok by lia. cbn [mbind res_bind].
  destruct (_ <? _).
  - destruct (file_flush_ok _ _ _ (t_check c) s3 Hi3 Hc) as (s' & Ef & H' & Hfe). exists s', ts.
    split; [done|]. split; [done|]. left. rewrite Hfe. exact Hfile.
  - exists s3, ts. split; [done|]. split; [done|]. left. exact Hfile.
Qed.

Definition op_ok (o : op) : Prop :=
  match o with OpAppend _ c => clock_ok c | OpFlush => True | OpRoll t => sane t end.
Definition op_text (o : op) : bytes := match o with OpAppend l _ => l | _ => [] end.
Definition text_of (l : list op) : bytes := concat (op_text <$> l).

Lemma logfile_run_ok b text ts l s : inv b text ts s → Forall op_ok l → zlen (text ++ text_of l) < 2 ^ 63 →
  ∃ s' ts', run s l = Ok s' ∧ inv b (text ++ text_of l) ts' s'.
Proof using fwrite_range fwrite_progress.
  intros Hi Hl. revert text ts s Hi. induction Hl as [|o l Ho _ IH]; intros text ts s Hi Hz.
  - exists s, ts. unfold text_of. simpl. by rewrite app_nil_r.
  - cbn [run]. unfold text_of in Hz |- *. rewrite fmap_cons in *. cbn [concat] in *.
    rewrite !app_assoc in Hz |- *.
    assert (Hstep : ∃ s' ts', apply s o = Ok s' ∧ inv b (text ++ op_text o) ts' s').
    { destruct o as [line c| |t]; simpl.
      - rewrite zlen_app in Hz. cbn [op_text] in Hz. pose proof (zlen_nonneg (concat (op_text <$> l))).
        destruct (logfile_append_ok b text ts line c s Hi) as (s' & ts' & E & H' & _); [lia|done|]. by exists s', ts'.
      - destruct (file_flush_ok b text ts (lastFlush_ s) s Hi) as (s' & E & H' & _); [apply (l_times _ _ _ _ Hi)|].
        exists s', ts. by rewrite app_nil_r.
      - destruct (rollFile_ok b text ts t s Hi Ho) as (r & s' & ts' & E & H' & _). rewrite E. simpl. exists s', ts'. by rewrite app_nil_r. }
    destruct Hstep as (s1 & ts1 & -> & H1). cbn [mbind res_bind]. by apply (IH _ ts1).
Qed.

Lemma newLogFile_ok b roll flushI every t : "/"%char ∉ b → 0 < t → sane t → every < 2 ^ 31 →
  ∃ s, newLogFile b roll flushI every t = Ok s ∧ inv b [] [] s.
Proof.
  intros Hb Ht Hs He. unfold newLogFile. rewrite assertb_true by (by apply bool_decide_eq_true_2). cbn [mbind res_bind].
  unfold rollFile. destruct (getLogFileName_ok b t Hs) as [n En]. cbn [basename_ lastRoll_]. rewrite En. cbn [mbind res_bind].
  rewrite (proj2 (Z.ltb_lt 0 t)) by lia. cbn [mbind res_bind]. eexists. split; [reflexivity|]. split; simpl; try done.
  - eexists. by split_and!.
  - repeat constructor.
  - lia.
Qed.

(** Files opened at different times have different names. *)
Lemma inv_names b text ts s : inv b text ts s → NoDup ((closed s ++ option_list (file_ s)).*1).
Proof.
  intros [I1 (nf & I2 & I3 & _) I6 _ I8 _ _ _ _ _]. rewrite I2. simpl.
  assert (Hf : Forall2 (named b) (ts ++ [lastRoll_ s]) (closed s ++ [nf])) by (apply Forall2_app; [done|by constructor]).
  revert I8 Hf. generalize (ts ++ [lastRoll_ s]) (closed s ++ [nf]). clear. intros ts l Hs Hf.
  induction Hf as [|t x ts l Hx Hf IH]; simpl; [constructor|]. inversion Hs as [|? ? H1 H2]; subst.
  constructor; [|by apply IH]. intros Hin. apply list_elem_of_fmap in Hin as (y & Ey & Hy).
  apply list_elem_of_lookup in Hy as [i Hi]. destruct (Forall2_lookup_r _ _ _ _ _ Hf Hi) as (t' & Ht' & Hn).
  apply (Forall_lookup_1 _ _ _ _ H2) in Ht'. unfold named in *. rewrite <-Ey in Hn.
  pose proof (getLogFileName_inj b t t' _ Hx Hn). lia.
Qed.

End logfile.

(** ** Correctness *)


(** Three lines with a stream that takes two bytes at a time: the first two fill
    the first file, the third goes to a file opened a minute later. *)
Definition sample_fwrite (k : nat) (n : Z) : Z := Z.min 2 n.
Definition sample_lines : list op :=
  [OpAppend (str "first") (mkClock 1700000000 1700000000); OpAppend (str "second") (mkClock 1700000060 1700000060);
   OpAppend (str "third") (mkClock 1700000061 1700000061)].

