(* ===== verification/Logging.v ===== *)
(** * The logger (fishnet/base/logging.h, logging.cc, current_thread.h, thread.cc)

    One log statement: the LOG_ macros, the line a [Logger] builds on a
    [LogStream] with its per-thread caches of the thread id and of the formatted
    second, and what the destructor does with it. *)

From S2P Require Import Prelude Printf Date Ctime TimeZone Timestamp Double LogStream.
Local Open Scope Z_scope.

(** ** Thread-local data *)

(** The thread-local variables of current_thread.cc and logging.cc. *)
Record TLS := mkTLS {
  t_cachedTid : Z;
  t_tidString : bytes;
  t_tidStringLength : Z;
  t_time : bytes;
  t_lastSecond : Z }.

(** A thread that has not called [tid()] yet: the arrays are zero. *)
Definition newTLS : TLS := mkTLS 0 [] 6 [] 0.

(** [current_thread::tid()], [gettid] being the kernel's answer. *)
Definition cacheTid (gettid : Z) (s : TLS) : TLS :=
  if t_cachedTid s =? 0 then
    let t := fmt_d 5 gettid ++ str " " in
    mkTLS gettid (snprintf 32 t) (zlen t) (t_time s) (t_lastSecond s)
  else s.
Definition tid (gettid : Z) (s : TLS) : TLS := if t_cachedTid s =? 0 then cacheTid gettid s else s.

(** ** Levels and source files *)

Inductive LogLevel : Set := TRACE | DEBUG | INFO | WARN | ERROR | FATAL.
Definition level_num (l : LogLevel) : Z :=
  match l with TRACE => 0 | DEBUG => 1 | INFO => 2 | WARN => 3 | ERROR => 4 | FATAL => 5 end.
Definition LogLevelName (l : LogLevel) : bytes :=
  match l with
  | TRACE => str "TRACE " | DEBUG => str "DEBUG " | INFO => str "INFO  "
  | WARN => str "WARN  " | ERROR => str "ERROR " | FATAL => str "FATAL "
  end.

#[global] Instance LogLevel_eq_dec : EqDecision LogLevel.
Proof. solve_decision. Defined.

Definition initLogLevel (trace debug : bool) : LogLevel := if trace then TRACE else if debug then DEBUG else INFO.

(** What follows the last slash ([strrchr]). *)
Fixpoint after_slash (s : bytes) : option bytes :=
  match s with
  | [] => None
  | c :: s => match after_slash s with
              | Some t => Some t
              | None => if bool_decide (c = "/"%char) then Some s else None
              end
  end.
(** The constructor for an array of [zlen s + 1] characters and the one for a
    C string; the text the piece [data_, size_] covers. *)
Definition SourceFile_array (s : bytes) : bytes := default s (after_slash s).
Definition SourceFile_cstring (s : bytes) : bytes := default (c_str s) (after_slash (c_str s)).

(** ** The line *)

(** The [T] wrapper: its constructor compares the length. *)
Definition T (s : bytes) (len : Z) : res bytes :=
  assertb (zlen (c_str s) =? u32 len);; Ok (take (Z.to_nat len) s).

Section line.
(** [strerror_r], and the zone the log uses. *)
Context (strerror : Z → bytes) (g_logTimeZone : TimeZone).

(** The 17 characters of a second; [tm_time] is read uninitialised when [gmtime_r] fails. *)
Definition date_text (seconds : Z) : res bytes :=
  u ← (if valid g_logTimeZone then toLocalTime g_logTimeZone seconds
       else match gmtime_r seconds with Some u => Ok u | None => Err OutOfBounds end);
  Ok (fmt_d 4 (tm_year u + 1900) ++ fmt_0d 2 (tm_mon u + 1) ++ fmt_0d 2 (tm_mday u) ++ str " "
      ++ fmt_0d 2 (tm_hour u) ++ str ":" ++ fmt_0d 2 (tm_min u) ++ str ":" ++ fmt_0d 2 (tm_sec u)).

Definition formatTime (time_ : Timestamp) (s : TLS) (stream_ : LogStream) : res (TLS * LogStream) :=
  let microSeconds := microSecondsSinceEpoch time_ in
  let seconds := Z.quot microSeconds KMicroSecondsPerSecond in
  let microseconds := s32 (Z.rem microSeconds KMicroSecondsPerSecond) in
  s ← (if negb (seconds =? t_lastSecond s) then
         d ← date_text seconds;
         assertb (zlen d =? 17);;
         Ok (mkTLS (t_cachedTid s) (t_tidString s) (t_tidStringLength s) (snprintf 64 d) seconds)
       else Ok s);
  us ← newFmt (str "." ++ fmt_0d 6 microseconds ++ (if valid g_logTimeZone then str " " else str "Z "));
  let len := if valid g_logTimeZone then 8 else 9 in
  assertb (zlen us =? len);;
  t ← T (t_time s) 17;
  stream_ ← fb_append stream_ t;
  t ← T us len;
  stream_ ← fb_append stream_ t;
  Ok (s, stream_).

(** [Impl::Impl]; [now] is [Timestamp::now()]. *)
Definition newImpl (level : LogLevel) (savedErrno : Z) (now : Timestamp) (s : TLS) : res (TLS * LogStream) :=
  '(s, stream_) ← formatTime now s newLogStream;
  t ← T (t_tidString s) (t_tidStringLength s);
  stream_ ← fb_append stream_ t;
  t ← T (LogLevelName level) 6;
  stream_ ← fb_append stream_ t;
  stream_ ← (if negb (savedErrno =? 0)
             then puts stream_ [CStr (Some (strerror savedErrno)); CStr (Some (str " (errno=")); Int savedErrno; CStr (Some (str ") "))]
             else Ok stream_);
  Ok (s, stream_).

Definition finish (basename_ : bytes) (line_ : Z) (stream_ : LogStream) : res LogStream :=
  stream_ ← puts stream_ [CStr (Some (str " - "))];
  stream_ ← fb_append stream_ basename_;
  puts stream_ [Char ":"%char; Int line_; Char (Zbyte 10)].

(** The LOG_ macros: which constructor each uses. *)
Inductive statement : Type :=
| LOG_TRACE | LOG_DEBUG | LOG_INFO | LOG_WARN | LOG_ERROR | LOG_FATAL | LOG_SYSERR | LOG_SYSFATAL.
Definition st_level (k : statement) : LogLevel :=
  match k with
  | LOG_TRACE => TRACE | LOG_DEBUG => DEBUG | LOG_INFO => INFO | LOG_WARN => WARN
  | LOG_ERROR | LOG_SYSERR => ERROR | LOG_FATAL | LOG_SYSFATAL => FATAL
  end.
(** The guard of the macro. *)
Definition enabled (g_logLevel : LogLevel) (k : statement) : bool :=
  match k with
  | LOG_TRACE | LOG_DEBUG | LOG_INFO => level_num g_logLevel <=? level_num (st_level k)
  | _ => true
  end.

(** [Logger::Logger] in its four forms. *)
Definition newLogger (k : statement) (func : bytes) (errno : Z) (now : Timestamp) (s : TLS) : res (TLS * LogStream) :=
  match k with
  | LOG_TRACE | LOG_DEBUG =>
      '(s, stream_) ← newImpl (st_level k) 0 now s;
      stream_ ← puts stream_ [CStr (Some func); Char " "%char];
      Ok (s, stream_)
  | LOG_SYSERR | LOG_SYSFATAL => newImpl (st_level k) errno now s
  | _ => newImpl (st_level k) 0 now s
  end.

(** [Logger::~Logger]: what is handed to [g_output], and whether it aborts after
    [g_flush]. *)
Definition destroyLogger (k : statement) (file : bytes) (line : Z) (stream_ : LogStream) : res (bytes * bool) :=
  stream_ ← finish file line stream_;
  buf ← fb_toString stream_;
  Ok (buf, bool_decide (st_level k = FATAL)).

(** A statement [LOG_XXX << v1 << v2 ...;]. *)
Record stmt := mkStmt { kind : statement; sfile : bytes; sline : Z; sfunc : bytes; serrno : Z; snow : Timestamp; svals : list item }.
Definition log (g_logLevel : LogLevel) (x : stmt) (s : TLS) : res (TLS * option (bytes * bool)) :=
  if enabled g_logLevel (kind x) then
    '(s, stream_) ← newLogger (kind x) (sfunc x) (serrno x) (snow x) s;
    stream_ ← puts stream_ (svals x);
    out ← destroyLogger (kind x) (SourceFile_array (sfile x)) (sline x) stream_;
    Ok (s, Some out)
  else Ok (s, None).

(** ** Specification *)

(** The pieces of a line, from the statement and the thread alone. *)
Definition stamp_items (now : Timestamp) (d : bytes) : list item :=
  [Str d; Str (str "." ++ fmt_0d 6 (Z.rem (microSecondsSinceEpoch now) KMicroSecondsPerSecond)
               ++ (if valid g_logTimeZone then str " " else str "Z "))].
Definition errno_items (e : Z) : list item :=
  if negb (e =? 0)
  then [CStr (Some (strerror e)); CStr (Some (str " (errno=")); Int e; CStr (Some (str ") "))] else [].
Definition head_items (x : stmt) : list item :=
  match kind x with
  | LOG_TRACE | LOG_DEBUG => [CStr (Some (sfunc x)); Char " "%char]
  | LOG_SYSERR | LOG_SYSFATAL => errno_items (serrno x)
  | _ => []
  end.
Definition line_items (x : stmt) (d : bytes) (t : Z) : list item :=
  stamp_items (snow x) d ++ [Str (fmt_d 5 t ++ str " "); Str (LogLevelName (st_level (kind x)))] ++ head_items x
  ++ svals x ++ [CStr (Some (str " - ")); Str (SourceFile_array (sfile x)); Char ":"%char; Int (sline x); Char (Zbyte 10)].

(** The second of a statement has a date of 17 characters. *)
Definition datable (seconds : Z) (d : bytes) : Prop := date_text seconds = Ok d ∧ zlen d = 17.
Definition second (x : stmt) : Z := Z.quot (microSecondsSinceEpoch (snow x)) KMicroSecondsPerSecond.

(** The caches of a thread that has called [tid()]: the date is that of the last second, if any. *)
Definition cached (t : Z) (s : TLS) : Prop :=
  t_cachedTid s = t ∧ t_tidString s = fmt_d 5 t ++ str " " ∧ t_tidStringLength s = zlen (t_tidString s)
  ∧ (t_lastSecond s ≠ 0 → datable (t_lastSecond s) (t_time s)).

Definition stmt_ok (x : stmt) : Prop :=
  0 < second x ∧ (∃ d, datable (second x) d) ∧ Forall item_ok (svals x)
  ∧ - 2 ^ 31 <= sline x < 2 ^ 31 ∧ - 2 ^ 31 <= serrno x < 2 ^ 31.

(** ** Lemmas *)

Lemma puts_app l k b : puts b (l ++ k) = (q ← puts b l; puts q k).
Proof. revert b. induction l as [|v l IH]; intros b; [done|]. simpl. destruct (put b v); [apply IH|done]. Qed.
Lemma puts_str t b : puts b [Str t] = fb_append b t.
Proof. simpl. by destruct (fb_append b t). Qed.

Definition text_ok (t : bytes) : Prop := Forall (λ c, c ≠ Ascii.zero) t.
Lemma c_str_text t : text_ok t → c_str t = t.
Proof. induction 1 as [|c t Hc _ IH]; [done|]. simpl. rewrite bool_decide_eq_false_2 by done. congruence. Qed.
Lemma text_ok_app t u : text_ok t → text_ok u → text_ok (t ++ u).
Proof. intros. by apply Forall_app. Qed.
Lemma text_replicate n c : c ≠ Ascii.zero → text_ok (replicate n c).
Proof. intros Hc. apply Forall_forall. intros x Hx. apply elem_of_replicate in Hx as [-> _]. done. Qed.
Lemma text_digits n : text_ok (dec_nonneg n).
Proof.
  eapply Forall_impl; [apply dec_nonneg_isdigit|]. intros c [d Hd] ->. vm_compute in Hd. done.
Qed.
Lemma text_dec z : text_ok (dec z).
Proof. unfold dec. destruct (z <? 0); [constructor; [done|]|]; apply text_digits. Qed.
Lemma text_fmt_d k z : text_ok (fmt_d k z).
Proof. apply text_ok_app; [by apply text_replicate|apply text_dec]. Qed.
Lemma text_fmt_0d k z : text_ok (fmt_0d k z).
Proof.
  unfold fmt_0d. destruct (z <? 0); [constructor; [done|]|]; (apply text_ok_app; [by apply text_replicate|apply text_digits]).
Qed.
Lemma text_str_space : text_ok (str " ") ∧ text_ok (str ":") ∧ text_ok (str ".") ∧ text_ok (str "Z ").
Proof. split_and!; repeat constructor; discriminate. Qed.
Lemma date_text_ok t d : date_text t = Ok d → text_ok d.
Proof.
  unfold date_text. intros E. apply bind_ok_inv in E as (u & _ & E). injection E as <-.
  repeat first [apply text_fmt_d | apply text_fmt_0d | done | apply text_ok_app | apply Forall_cons; split; [discriminate|]].
Qed.

(** The wrapper passes a text whose length it is given. *)
Lemma T_ok t len : text_ok t → zlen t = len → len < 2 ^ 32 → T t len = Ok t.
Proof.
  intros Ht <- Hl. unfold T. rewrite c_str_text by done. rewrite (wrapu_small 32) by zlen_lia.
  rewrite Z.eqb_refl. simpl. rewrite to_nat_zlen, take_ge by lia. done.
Qed.

Definition with_second (sec : Z) (d : bytes) (s : TLS) : TLS :=
  mkTLS (t_cachedTid s) (t_tidString s) (t_tidStringLength s) d sec.

(** Whether the cache is used or not, the stamp is that of the second. *)
Lemma formatTime_ok t now s b d : cached t s → 0 < Z.quot (microSecondsSinceEpoch now) KMicroSecondsPerSecond →
  datable (Z.quot (microSecondsSinceEpoch now) KMicroSecondsPerSecond) d →
  formatTime now s b = (q ← puts b (stamp_items now d);
    Ok (with_second (Z.quot (microSecondsSinceEpoch now) KMicroSecondsPerSecond) d s, q)).
Proof using All.
  intros (C1 & C2 & C3 & C4) Hp [Hd Hl]. unfold formatTime. set (sec := Z.quot _ _) in *.
  set (us := Z.rem (microSecondsSinceEpoch now) KMicroSecondsPerSecond).
  assert (Hus : 0 <= us < 1000000).
  { unfold us, sec, KMicroSecondsPerSecond in *. split; [|dlia].
    destruct (Z.le_gt_cases 0 (microSecondsSinceEpoch now)); dlia. }
  assert (E1 : (if negb (sec =? t_lastSecond s) then
         d ← date_text sec; assertb (zlen d =? 17);;
         Ok (mkTLS (t_cachedTid s) (t_tidString s) (t_tidStringLength s) (snprintf 64 d) sec)
       else Ok s) = Ok (with_second sec d s)).
  { destruct (Z.eqb_spec sec (t_lastSecond s)) as [E|E]; simpl.
    - f_equal. destruct C4 as [E' _]; [lia|]. rewrite <-E, Hd in E'. injection E' as E'. unfold with_second. rewrite E', E.
      by destruct s.
    - rewrite Hd. simpl. rewrite Hl. simpl. f_equal. unfold with_second, snprintf. rewrite take_ge; [done|].
      unfold zlen in Hl. lia. }
  rewrite E1. cbn [mbind res_bind]. rewrite wraps_small by lia.
  destruct (fmt_0d_spec 6 us) as [L6 _]; [lia|simpl; lia|].
  set (z := if valid g_logTimeZone then str " " else str "Z "). set (u := str "." ++ fmt_0d 6 us ++ z).
  assert (Hz : zlen u = if valid g_logTimeZone then 8 else 9).
  { unfold u, zlen. rewrite !length_app, L6. unfold z. by destruct (valid g_logTimeZone). }
  assert (Hu : text_ok u).
  { destruct text_str_space as (H1 & H2 & H3 & H4). apply text_ok_app; [done|]. apply text_ok_app; [apply text_fmt_0d|].
    unfold z. by destruct (valid g_logTimeZone). }
  unfold newFmt. rewrite assertb_true by (rewrite Hz; destruct (valid g_logTimeZone); reflexivity). cbn [mbind res_bind].
  assert (Hs : snprintf 32 u = u).
  { unfold snprintf. apply take_ge. unfold zlen in Hz. destruct (valid g_logTimeZone); lia. }
  rewrite Hs, Hz, Z.eqb_refl. cbn [mbind res_bind assertb]. change (t_time (with_second sec d s)) with d.
  rewrite (T_ok d 17) by (eauto using date_text_ok || lia). cbn [mbind res_bind].
  rewrite (T_ok u _) by (done || destruct (valid g_logTimeZone); lia).
  unfold stamp_items. fold us z u. cbn [puts put]. destruct (fb_append b d); [|done]. cbn [mbind res_bind].
  by destruct (fb_append a u).
Qed.

Lemma newImpl_ok t level e now s d : cached t s → 0 < Z.quot (microSecondsSinceEpoch now) KMicroSecondsPerSecond →
  datable (Z.quot (microSecondsSinceEpoch now) KMicroSecondsPerSecond) d → zlen (t_tidString s) < 2 ^ 32 →
  newImpl level e now s = (q ← puts newLogStream (stamp_items now d
      ++ [Str (fmt_d 5 t ++ str " "); Str (LogLevelName level)] ++ errno_items e);
    Ok (with_second (Z.quot (microSecondsSinceEpoch now) KMicroSecondsPerSecond) d s, q)).
Proof.
  intros Hc Hp Hd Ht. unfold newImpl. rewrite (formatTime_ok t now s newLogStream d Hc Hp Hd).
  pose proof Hc as (C1 & C2 & C3 & C4). rewrite puts_app. destruct (puts newLogStream (stamp_items now d)) as [b|]; [|done].
  cbn [mbind res_bind]. cbn [with_second t_tidString t_tidStringLength].
  rewrite (T_ok (t_tidString s)); [|rewrite C2; destruct text_str_space; apply text_ok_app; [apply text_fmt_d|done]|done|lia].
  cbn [mbind res_bind].
  rewrite (T_ok (LogLevelName level)); [|by destruct level; repeat constructor|by destruct level|lia].
  rewrite puts_app, C2. cbn [puts put app]. destruct (fb_append b _) as [b1|]; [|done]. cbn [mbind res_bind].
  destruct (fb_append b1 _) as [b2|]; [|done]. cbn [mbind res_bind]. unfold errno_items. by destruct (negb (e =? 0)).
Qed.

Lemma log_ok t lvl x s : cached t s → stmt_ok x → zlen (t_tidString s) < 2 ^ 32 →
  ∃ s' d, datable (second x) d ∧ cached t s' ∧ t_tidString s' = t_tidString s
  ∧ log lvl x s = Ok (if enabled lvl (kind x)
      then (s', Some (puts_spec kSmallBuffer [] (line_items x d t), bool_decide (st_level (kind x) = FATAL)))
      else (s, None)).
Proof.
  intros Hc (Hp & [d Hd] & Hv & Hl & He) Ht. exists (with_second (second x) d s), d.
  split; [done|]. split.
  { destruct Hc as (C1 & C2 & C3 & _). split_and!; try done. }
  split; [done|]. unfold log. destruct (enabled lvl (kind x)); [|done].
  assert (E : newLogger (kind x) (sfunc x) (serrno x) (snow x) s =
    (q ← puts newLogStream (stamp_items (snow x) d ++ [Str (fmt_d 5 t ++ str " "); Str (LogLevelName (st_level (kind x)))]
        ++ head_items x); Ok (with_second (second x) d s, q))).
  { assert (Hn : ∀ lv, newImpl lv 0 (snow x) s = (q ← puts newLogStream (stamp_items (snow x) d
        ++ [Str (fmt_d 5 t ++ str " "); Str (LogLevelName lv)]); Ok (with_second (second x) d s, q))).
    { intros lv. by rewrite (newImpl_ok t _ _ _ s d Hc Hp Hd Ht). }
    assert (Hf : ∀ lv, ('(s, stream_) ← newImpl lv 0 (snow x) s; stream_ ← puts stream_ [CStr (Some (sfunc x)); Char " "%char];
        Ok (s, stream_)) = (q ← puts newLogStream (stamp_items (snow x) d
        ++ [Str (fmt_d 5 t ++ str " "); Str (LogLevelName lv)] ++ [CStr (Some (sfunc x)); Char " "%char]);
        Ok (with_second (second x) d s, q))).
    { intros lv. rewrite Hn, app_assoc, (puts_app _ [CStr (Some (sfunc x)); Char " "%char]).
      by destruct (puts newLogStream _) as [b|]. }
    unfold newLogger, head_items. destruct (kind x); cbn [st_level]; rewrite ?app_nil_r; try apply Hn; try apply Hf;
      by rewrite (newImpl_ok t _ _ _ s d Hc Hp Hd Ht). }
  rewrite E. destruct (puts_refines newLogStream (line_items x d t)) as (q & Hq & Hok & Hcap & Ht').
  { vm_compute. split; discriminate. }
  { unfold line_items. repeat apply Forall_app_2; try done.
    - repeat constructor.
    - repeat constructor.
    - unfold head_items, errno_items. destruct (kind x), (negb (serrno x =? 0)); repeat constructor; lia.
    - repeat constructor; lia. }
  set (l1 := stamp_items (snow x) d ++ _ ++ head_items x).
  set (l2 := [CStr (Some (str " - ")); Str (SourceFile_array (sfile x)); Char ":"%char; Int (sline x); Char (Zbyte 10)]).
  assert (Hl2 : line_items x d t = l1 ++ svals x ++ l2) by (unfold line_items, l1; by rewrite <-!app_assoc).
  rewrite Hl2, !puts_app in Hq. destruct (puts newLogStream l1) as [b1|]; [|done]. cbn [mbind res_bind] in Hq |- *.
  rewrite puts_app in Hq. destruct (puts b1 (svals x)) as [b2|]; [|done]. cbn [mbind res_bind] in Hq |- *.
  unfold destroyLogger.
  assert (Hfin : finish (SourceFile_array (sfile x)) (sline x) b2 = Ok q).
  { rewrite <-Hq. unfold finish, l2. simpl. destruct (fb_append b2 _); [|done]. simpl. done. }
  rewrite Hfin. cbn [mbind res_bind]. rewrite fb_toString_content, Ht' by done. done.
Qed.

(** The statements of a thread, up to one that aborts: the lines handed to
    [g_output], and whether the process was aborted. *)
Fixpoint logs (lvl : LogLevel) (xs : list stmt) (s : TLS) : res (list bytes * bool) :=
  match xs with
  | [] => Ok ([], false)
  | x :: xs =>
      '(s, o) ← log lvl x s;
      match o with
      | None => logs lvl xs s
      | Some (l, true) => Ok ([l], true)
      | Some (l, false) => '(ls, a) ← logs lvl xs s; Ok (l :: ls, a)
      end
  end.

Definition line_of (t : Z) (x : stmt) (l : bytes) : Prop :=
  ∃ d, datable (second x) d ∧ l = puts_spec kSmallBuffer [] (line_items x d t)
  ∧ (zlen (concat (item_text <$> line_items x d t)) + kMaxNumericSize <= kSmallBuffer →
     l = concat (item_text <$> line_items x d t)).
Definition fatal (x : stmt) : bool := bool_decide (st_level (kind x) = FATAL).
(** The statements that are executed: the enabled ones up to the first fatal one. *)
Fixpoint executed (lvl : LogLevel) (xs : list stmt) : list stmt :=
  match xs with
  | [] => []
  | x :: xs => if enabled lvl (kind x) then x :: (if fatal x then [] else executed lvl xs) else executed lvl xs
  end.

(** Pieces that all fit are all kept. *)
Lemma puts_spec_all cap acc vs : zlen acc + zlen (concat (item_text <$> vs)) + kMaxNumericSize <= cap →
  puts_spec cap acc vs = acc ++ concat (item_text <$> vs).
Proof.
  revert acc. induction vs as [|v vs IH]; intros acc Hc; simpl; [by rewrite app_nil_r|].
  rewrite fmap_cons in Hc. cbn [concat] in Hc. rewrite zlen_app in Hc. pose proof (zlen_nonneg (item_text v)). pose proof (zlen_nonneg (concat (item_text <$> vs))).
  unfold kMaxNumericSize in *.
  assert (E : (if item_numeric v then 32 <=? cap - zlen acc else zlen (item_text v) <? cap - zlen acc) = true).
  { destruct (item_numeric v); bsolve; lia. }
  rewrite E, IH by (rewrite zlen_app; lia). by rewrite app_assoc.
Qed.

Lemma logs_ok t lvl xs s : cached t s → zlen (t_tidString s) < 2 ^ 32 → Forall stmt_ok xs →
  ∃ ls, logs lvl xs s = Ok (ls, existsb fatal (executed lvl xs)) ∧ Forall2 (line_of t) (executed lvl xs) ls.
Proof.
  intros Hc Ht Hx. revert s Hc Ht. induction Hx as [|x xs Hok _ IH]; intros s Hc Ht; [by exists []|].
  destruct (log_ok t lvl x s Hc Hok Ht) as (s' & d & Hd & Hc' & Et & E). cbn [logs executed]. rewrite E.
  destruct (enabled lvl (kind x)) eqn:En; cbn [mbind res_bind]; [|by apply IH].
  set (l := puts_spec _ _ _).
  assert (Hl : line_of t x l).
  { exists d. split; [done|]. split; [done|]. intros Hz. unfold l. rewrite puts_spec_all; [done|]. by rewrite zlen_nil. }
  fold (fatal x). destruct (fatal x) eqn:Ef; simpl; rewrite Ef; simpl.
  - exists [l]. split; [done|]. by constructor.
  - destruct (IH s' Hc') as (ls & E' & H'); [by rewrite Et|]. rewrite E'. exists (l :: ls). split; [done|]. by constructor.
Qed.

End line.

(** In UTC the seconds of the years 1970 to 9999 have dates of 17 characters. *)
Lemma gmtime_year t u : 0 <= t < 253402300800 → gmtime_r t = Some u → 70 <= tm_year u <= 8099.
Proof.
  intros Ht. unfold gmtime_r. pose proof (civil_days_date (t / 86400)) as H. cbv zeta in H.
  destruct (civil_date (t / 86400)) as [y m d]. simpl in *. destruct (in_i32 _); [|done]. intros [= <-]. simpl.
  destruct H as (E & Hm & Hd). assert (Hday : 0 <= t / 86400 <= 2932896) by dlia.
  unfold civil_days, march_days, march_year, march_month in E. simpl in E.
  set (k := (14 - m) / 12) in *. assert (Hk : k = 0 ∧ 3 <= m ∨ k = 1 ∧ m <= 2) by (unfold k; dlia). clearbody k.
  destruct Hk as [[-> Hm'] | [-> Hm']]; dlia.
Qed.

Lemma datable_utc t : 0 <= t < 253402300800 → ∃ d, datable None t d.
Proof.
  intros Ht. destruct (gmtime_some t) as [u Hu]; [lia|]. pose proof (gmtime_year t u Ht Hu) as Hy.
  destruct (gmtime_fields t u Hu) as (H1 & H2 & H3 & _).
  assert (Hd : 0 <= tm_mon u < 12 ∧ 1 <= tm_mday u <= 31).
  { revert Hu. unfold gmtime_r. pose proof (civil_days_date (t / 86400)) as H. cbv zeta in H.
    destruct (civil_date (t / 86400)) as [y m d]. simpl in *. destruct (in_i32 _); [|done]. intros [= <-]. simpl. lia. }
  unfold datable, date_text. simpl. rewrite Hu. cbn [mbind res_bind]. eexists. split; [reflexivity|].
  assert (L2 : ∀ z, 0 <= z < 100 → length (fmt_0d 2 z) = 2%nat) by (intros z Hz; apply fmt_0d_spec; [lia|simpl; lia]).
  assert (L4 : length (fmt_d 4 (tm_year u + 1900)) = 4%nat).
  { unfold fmt_d, dec. rewrite (proj2 (Z.ltb_ge _ _)) by lia.
    assert (E4 : length (dec_nonneg (tm_year u + 1900)) = 4%nat).
    { rewrite !dec_nonneg_step, dec_nonneg_small by dlia. rewrite !length_app. done. }
    by rewrite length_app, E4. }
  unfold zlen. repeat (rewrite length_app || rewrite length_cons). rewrite L4, !L2 by lia. done.
Qed.

(** ** Properties *)

(** C19: the log statements of a thread that has called [tid()], in any order, with
    a fixed level and zone, at times whose date has 17 characters and after the
    first second of the epoch: no assertion fails, exactly the enabled statements
    are output, up to a fatal one, which aborts; and each line depends only on its
    statement, not on what the thread has cached: time, thread id, level, the
    error if any, the values, the file and the line, whole when they are within
    3968 characters and otherwise without the pieces that do not fit. *)
Theorem logger_lines strerror z gettid lvl xs : 0 < gettid < 2 ^ 31 → Forall (stmt_ok z) xs →
  ∃ ls, logs strerror z lvl xs (tid gettid newTLS) = Ok (ls, existsb fatal (executed lvl xs))
  ∧ Forall2 (line_of strerror z gettid) (executed lvl xs) ls.
Proof.
  intros Ht Hx. assert (Hl : (length (fmt_d 5 gettid) <= 20)%nat).
  { unfold fmt_d. rewrite length_app, length_replicate. pose proof (length_dec gettid). lia. }
  assert (Hc : cached z gettid (tid gettid newTLS)).
  { assert (Es : snprintf 32 (fmt_d 5 gettid ++ str " ") = fmt_d 5 gettid ++ str " ").
    { unfold snprintf. apply take_ge. rewrite length_app. simpl. lia. }
    unfold tid, cacheTid. cbn [t_cachedTid newTLS]. rewrite Z.eqb_refl, Es. by split_and!. }
  apply logs_ok; [done| |done]. destruct Hc as (_ & -> & _). unfold zlen. rewrite length_app. simpl. lia.
Qed.

Definition sample_stmt : stmt :=
  mkStmt LOG_INFO (str "net/poller.cc") 42 [] 0 (mkTimestamp 1700000000123456) [CStr (Some (str "fd = ")); Int 7].
(** The line that comes out for it. *)
Definition sample_text : bytes := str "20231114 22:13:20.123456Z  1234 INFO  fd = 7 - poller.cc:42" ++ [Zbyte 10].

Lemma logger_lines_witness :
  ∃ ls, logs (λ _, []) None INFO [sample_stmt; sample_stmt] (tid 1234 newTLS) = Ok (ls, false)
  ∧ Forall2 (line_of (λ _, []) None 1234) [sample_stmt; sample_stmt] ls ∧ ls = [sample_text; sample_text].
Proof.
  assert (Hs : stmt_ok None sample_stmt).
  { split; [vm_compute; reflexivity|]. split; [apply datable_utc; split; vm_compute; congruence|].
    split; [repeat constructor; vm_compute; congruence|]. split; split; vm_compute; congruence. }
  destruct (logger_lines (λ _, []) None 1234 INFO [sample_stmt; sample_stmt]) as (ls & E & H).
  - lia.
  - constructor; [exact Hs|]. constructor; [exact Hs|]. constructor.
  - exists ls. split; [exact E|]. split; [exact H|].
    assert (E' : logs (λ _, []) None INFO [sample_stmt; sample_stmt] (tid 1234 newTLS) = Ok ([sample_text; sample_text], false))
      by (vm_compute; reflexivity).
    rewrite E' in E. injection E as <-. reflexivity.
Defined.

(** In a thread that never called [tid()] every enabled statement fails the
    assertion on the length of the thread id: the call of [tid()] in [Impl::Impl] is
    commented out, so only threads started by [Thread] (and the main one) may log. *)
Theorem foreign_thread_asserts strerror z lvl x d : 0 < second x → datable z (second x) d → enabled lvl (kind x) = true →
  log strerror z lvl x newTLS = Err AssertFailed.
Proof.
  intros Hp Hd He. unfold log. rewrite He.
  assert (E : ∀ lv e, newImpl strerror z lv e (snow x) newTLS = Err AssertFailed).
  { intros lv e. unfold newImpl. assert (Hr : ∃ s q, formatTime z (snow x) newTLS newLogStream = Ok (s, q)
      ∧ t_tidString s = [] ∧ t_tidStringLength s = 6).
    { pose proof (formatTime_ok strerror z 0 (snow x) (mkTLS 0 (fmt_d 5 0 ++ str " ") 6 [] 0) newLogStream d) as F.
      assert (Hc : cached z 0 (mkTLS 0 (fmt_d 5 0 ++ str " ") 6 [] 0)) by (split_and!; done).
      specialize (F Hc Hp Hd).
      destruct (puts_refines newLogStream (stamp_items z (snow x) d)) as (q & Hq & _); [vm_compute; split; discriminate|by repeat constructor|].
      rewrite Hq in F. cbn [mbind res_bind] in F.
      exists (with_second (second x) d newTLS), q. split; [|done].
      revert F. unfold formatTime. simpl. destruct (negb _); [|].
      - destruct (date_text z _); [|done]. simpl. destruct (assertb _); [|done]. simpl. destruct (newFmt _); [|done]. simpl.
        destruct (assertb _); [|done]. simpl. destruct (T _ 17); [|done]. simpl. destruct (fb_append _ _); [|done]. simpl.
        destruct (T _ _); [|done]. simpl. destruct (fb_append _ _); [|done]. simpl. intros [= -> ->]. done.
      - destruct (newFmt _); [|done]. simpl. destruct (assertb _); [|done]. simpl. done. }
    destruct Hr as (s & q & -> & E1 & E2). cbn [mbind res_bind]. by rewrite E1, E2. }
  unfold newLogger. destruct (kind x); rewrite E; done.
Qed.
