(* ===== verification/CachePool.v ===== *)
(** * Growing thread pools (fishnet/utils/thread_pool.h, fishnet/hlib/thread_pool.h,
    fishnet/hlib/wzq_thread_pool.h, and the pool of fishnet/hlib/zfish.hpp)

    The four header-only pools share one worker loop: wait for a task or for the
    shutdown, take a task, run it. They differ in what makes a configuration valid,
    in whether they add threads when all are busy, and in whether the shutdown
    flag is set under the mutex. One model with these differences as an interface. *)

From S2P Require Import Prelude BlockingQueue.
Local Open Scope Z_scope.

(** ** Variants *)

Record PoolConfig := mkPoolConfig { core_thread_num : Z; max_thread_num : Z; max_task_num : Z; timeout : Z }.

(** [joins]: shutting down joins the workers. [grows]: [Run] adds cache threads.
    [locked]: the flag is set, and [Run] tests it, under the mutex. [pops]: there is
    [PopNoRunTasks]. *)
Class Variant := { valid_config : PoolConfig → bool; joins : bool; grows : bool; locked : bool; pops : bool }.

(** utils/thread_pool.h and hlib/thread_pool.h *)
Definition IsAvaliableConfig (c : PoolConfig) : bool :=
  (0 <? core_thread_num c) && (0 <? max_task_num c) && (core_thread_num c <? max_task_num c) && (0 <=? timeout c).
(** wzq_thread_pool.h *)
Definition IsValidConfig (c : PoolConfig) : bool :=
  negb ((core_thread_num c <? 1) || (max_thread_num c <? core_thread_num c) || (timeout c <? 1)).

Definition utils_pool : Variant := {| valid_config := IsAvaliableConfig; joins := false; grows := true; locked := false; pops := false |}.
Definition hlib_pool : Variant := {| valid_config := IsAvaliableConfig; joins := true; grows := true; locked := false; pops := true |}.
Definition wzq_pool : Variant := {| valid_config := IsValidConfig; joins := false; grows := true; locked := false; pops := false |}.
Definition zfish_pool : Variant := {| valid_config := λ _, true; joins := true; grows := false; locked := true; pops := false |}.

(** The constructor of hlib/thread_pool.h with four numbers. *)
Definition config_of (core max tasks time : Z) : PoolConfig := mkPoolConfig core (if max =? -1 then core else max) tasks time.

(** ** State *)

Inductive ThreadState : Set := kInit | kWaiting | kRunning | kStop.
Inductive ThreadFlag : Set := kInitFlag | kCore | kCache.
#[global] Instance ThreadState_eq_dec : EqDecision ThreadState.
Proof. solve_decision. Defined.
#[global] Instance ThreadFlag_eq_dec : EqDecision ThreadFlag.
Proof. solve_decision. Defined.

(** Where a worker is: before the lock, holding it after its condition was false,
    blocked on the condition variable, woken, woken by the timeout, running a
    task, or returned. *)
Inductive wpc : Set := WTop | WBlock | WSleep | WWake | WTimeout | WRun (t : Z) | WExit.
Record Worker := mkWorker { flag : ThreadFlag; wstate : ThreadState; at_ : wpc }.

(** A user: outside; in [Run] between the two reads of its test, before and after
    creating a thread, before its lock, before its notification; in [Shutdown]
    before its notification, and joining. *)
Inductive cpc : Set := CIdle | CChk (t : Z) | CAdd (t : Z) | CList (t : Z) | CPush (t : Z) | CNotify | CNotAll | CJoin.

(** [listed] is the length of the list of threads. [accepted] records the tasks
    queued, [started] those taken off the queue, [finished] those done, [refused]
    those [Run] refused and [popped] those [PopNoRunTasks] returned. *)
Record Pool := mkPool {
  config_ : PoolConfig;
  is_available_ : bool; is_shutdown_ : bool; is_shutdown_now_ : bool;
  waiting_thread_num_ : Z; total_task_num_ : Z; next_thread_id_ : Z;
  tasks_ : list Z; workers : list Worker; listed : nat; callers : list cpc;
  accepted : list Z; started : list Z; finished : list Z; refused : list Z; popped : list Z }.

Definition set_workers (W : list Worker) (s : Pool) : Pool :=
  mkPool (config_ s) (is_available_ s) (is_shutdown_ s) (is_shutdown_now_ s) (waiting_thread_num_ s) (total_task_num_ s)
    (next_thread_id_ s) (tasks_ s) W (listed s) (callers s) (accepted s) (started s) (finished s) (refused s) (popped s).
Definition set_callers (C : list cpc) (s : Pool) : Pool :=
  mkPool (config_ s) (is_available_ s) (is_shutdown_ s) (is_shutdown_now_ s) (waiting_thread_num_ s) (total_task_num_ s)
    (next_thread_id_ s) (tasks_ s) (workers s) (listed s) C (accepted s) (started s) (finished s) (refused s) (popped s).
Definition set_waiting (n : Z) (s : Pool) : Pool :=
  mkPool (config_ s) (is_available_ s) (is_shutdown_ s) (is_shutdown_now_ s) n (total_task_num_ s)
    (next_thread_id_ s) (tasks_ s) (workers s) (listed s) (callers s) (accepted s) (started s) (finished s) (refused s) (popped s).
Definition set_flags (a d n : bool) (s : Pool) : Pool :=
  mkPool (config_ s) a d n (waiting_thread_num_ s) (total_task_num_ s)
    (next_thread_id_ s) (tasks_ s) (workers s) (listed s) (callers s) (accepted s) (started s) (finished s) (refused s) (popped s).
Definition set_listed (n : nat) (s : Pool) : Pool :=
  mkPool (config_ s) (is_available_ s) (is_shutdown_ s) (is_shutdown_now_ s) (waiting_thread_num_ s) (total_task_num_ s)
    (next_thread_id_ s) (tasks_ s) (workers s) n (callers s) (accepted s) (started s) (finished s) (refused s) (popped s).
Definition set_next (n : Z) (s : Pool) : Pool :=
  mkPool (config_ s) (is_available_ s) (is_shutdown_ s) (is_shutdown_now_ s) (waiting_thread_num_ s) (total_task_num_ s)
    n (tasks_ s) (workers s) (listed s) (callers s) (accepted s) (started s) (finished s) (refused s) (popped s).
Definition push_task (t : Z) (s : Pool) : Pool :=
  mkPool (config_ s) (is_available_ s) (is_shutdown_ s) (is_shutdown_now_ s) (waiting_thread_num_ s) (total_task_num_ s + 1)
    (next_thread_id_ s) (tasks_ s ++ [t]) (workers s) (listed s) (callers s) (accepted s ++ [t]) (started s) (finished s) (refused s) (popped s).
Definition pop_task (t : Z) (q : list Z) (s : Pool) : Pool :=
  mkPool (config_ s) (is_available_ s) (is_shutdown_ s) (is_shutdown_now_ s) (waiting_thread_num_ s) (total_task_num_ s)
    (next_thread_id_ s) q (workers s) (listed s) (callers s) (accepted s) (started s ++ [t]) (finished s) (refused s) (popped s).
Definition add_finished (t : Z) (s : Pool) : Pool :=
  mkPool (config_ s) (is_available_ s) (is_shutdown_ s) (is_shutdown_now_ s) (waiting_thread_num_ s) (total_task_num_ s)
    (next_thread_id_ s) (tasks_ s) (workers s) (listed s) (callers s) (accepted s) (started s) (finished s ++ [t]) (refused s) (popped s).
Definition add_refused (t : Z) (s : Pool) : Pool :=
  mkPool (config_ s) (is_available_ s) (is_shutdown_ s) (is_shutdown_now_ s) (waiting_thread_num_ s) (total_task_num_ s)
    (next_thread_id_ s) (tasks_ s) (workers s) (listed s) (callers s) (accepted s) (started s) (finished s) (refused s ++ [t]) (popped s).
Definition at_w (i : nat) (w : Worker) (s : Pool) : Pool := set_workers (<[i := w]> (workers s)) s.
Definition at_c (i : nat) (p : cpc) (s : Pool) : Pool := set_callers (<[i := p]> (callers s)) s.

(** ** Operations *)

Section operations.
Context `{Variant}.

(** The constructor for [users] threads that use the pool. *)
Definition newPool (c : PoolConfig) (users : nat) : Pool :=
  mkPool c (valid_config c) false false 0 0 0 [] [] 0 (replicate users CIdle) [] [] [] [] [].

Definition IsAvailable (s : Pool) : bool := is_available_ s.

(** The new thread of [AddThread], and its entry in the list. *)
Definition AddThread (f : ThreadFlag) (s : Pool) : Pool :=
  set_next (next_thread_id_ s + 1) (set_workers (workers s ++ [mkWorker f kInit WTop]) s).
Definition list_thread (s : Pool) : Pool := set_listed (S (listed s)) s.

Fixpoint add_core (n : nat) (s : Pool) : Pool :=
  match n with O => s | S n => add_core n (list_thread (AddThread kCore s)) end.
Definition Start (s : Pool) : bool * Pool :=
  if negb (IsAvailable s) then (false, s) else (true, add_core (Z.to_nat (core_thread_num (config_ s))) s).

(** [Run]: the first test, with [t] the task. *)
Definition run_check (i : nat) (t : Z) (s : Pool) : Pool :=
  if locked then at_c i (CPush t) s
  else if negb (IsAvailable s) || is_shutdown_ s || is_shutdown_now_ s then at_c i CIdle (add_refused t s)
  else if grows && (waiting_thread_num_ s =? 0) then at_c i (CChk t) s else at_c i (CPush t) s.
(** The second read of the test that adds a thread. *)
Definition run_total (i : nat) (t : Z) (s : Pool) : Pool :=
  if Z.of_nat (listed s) <? max_thread_num (config_ s) then at_c i (CAdd t) s else at_c i (CPush t) s.
(** The section that queues the task. *)
Definition run_push (i : nat) (t : Z) (s : Pool) : Pool :=
  if locked && is_shutdown_ s then at_c i CIdle (add_refused t s) else at_c i CNotify (push_task t s).

(** [Shutdown(is_now)] up to its notification. *)
Definition Shutdown (i : nat) (is_now : bool) (s : Pool) : Pool :=
  if (locked && is_shutdown_ s) || (negb locked && negb (IsAvailable s))
  then at_c i (if joins && negb locked then CJoin else CIdle) s
  else at_c i CNotAll (if is_now then set_flags (is_available_ s) (is_shutdown_ s) true s
                       else set_flags (is_available_ s) true (is_shutdown_now_ s) s).

(** [PopNoRunTasks] *)
Definition PopNoRunTasks (s : Pool) : Pool :=
  mkPool (config_ s) (is_available_ s) (is_shutdown_ s) (is_shutdown_now_ s) (waiting_thread_num_ s) (total_task_num_ s)
    (next_thread_id_ s) [] (workers s) (listed s) (callers s) (accepted s) (started s ++ tasks_ s) (finished s) (refused s)
    (popped s ++ tasks_ s).

(** ** The worker *)

Definition wakeup_pred (s : Pool) (w : Worker) : bool :=
  is_shutdown_ s || is_shutdown_now_ s || negb (bool_decide (tasks_ s = [])) || bool_decide (wstate w = kStop).

(** What follows the wait, with the lock: leave, or take a task. *)
Definition after_wait (is_timeout : bool) (i : nat) (w : Worker) (s : Pool) : res Pool :=
  let s := set_waiting (waiting_thread_num_ s - 1) s in
  let w := if is_timeout then mkWorker (flag w) kStop (at_ w) else w in
  let exit := Ok (at_w i (mkWorker (flag w) (wstate w) WExit) s) in
  if bool_decide (wstate w = kStop) then exit
  else if is_shutdown_ s && bool_decide (tasks_ s = []) then exit
  else if is_shutdown_now_ s then exit
  else match tasks_ s with
       | t :: q => Ok (at_w i (mkWorker (flag w) kRunning (WRun t)) (pop_task t q s))
       | [] => Err OutOfBounds
       end.

(** The wait proper: the condition is tested, and false the thread is about to block. *)
Definition test_wait (i : nat) (w : Worker) (s : Pool) : res Pool :=
  if wakeup_pred s w then after_wait false i w s else Ok (at_w i (mkWorker (flag w) (wstate w) WBlock) s).

(** The body of the loop from its lock. *)
Definition enter (i : nat) (w : Worker) (s : Pool) : res Pool :=
  if bool_decide (wstate w = kStop) then Ok (at_w i (mkWorker (flag w) kStop WExit) s)
  else test_wait i (mkWorker (flag w) kWaiting (at_ w)) (set_waiting (waiting_thread_num_ s + 1) s).

(** [wait_for] returning at its timeout. *)
Definition timed_out (i : nat) (w : Worker) (s : Pool) : res Pool := after_wait (negb (wakeup_pred s w)) i w s.

(** ** Schedules *)

Definition is_block (w : Worker) : bool := match at_ w with WBlock => true | _ => false end.
Definition is_sleep (w : Worker) : bool := match at_ w with WSleep => true | _ => false end.
Definition is_wake (w : Worker) : bool := match at_ w with WWake => true | _ => false end.
Definition is_waiting (w : Worker) : bool := match at_ w with WBlock | WSleep | WWake | WTimeout => true | _ => false end.
Definition wake (w : Worker) : Worker := mkWorker (flag w) (wstate w) WWake.
(** Nobody holds the mutex: every other section runs in one step. *)
Definition mutex_free (s : Pool) : Prop := cnt is_block (workers s) = 0%nat.
Definition exited (w : Worker) : bool := match at_ w with WExit => true | _ => false end.

Inductive wstep (s : Pool) : Pool → Prop :=
| w_enter i w s' : workers s !! i = Some w → at_ w = WTop → mutex_free s → enter i w s = Ok s' → wstep s s'
| w_block i w : workers s !! i = Some w → at_ w = WBlock → wstep s (at_w i (mkWorker (flag w) (wstate w) WSleep) s)
| w_retest i w s' : workers s !! i = Some w → at_ w = WWake → mutex_free s → test_wait i w s = Ok s' → wstep s s'
| w_late i w s' : workers s !! i = Some w → at_ w = WTimeout → mutex_free s → timed_out i w s = Ok s' → wstep s s'
| w_done i w t : workers s !! i = Some w → at_ w = WRun t →
    wstep s (add_finished t (at_w i (mkWorker (flag w) (wstate w) WTop) s)).

(** The users (the lock around the list of threads, which not all variants take,
    is left out), and what the clock and spurious wake-ups do. *)
Inductive cstep (s : Pool) : Pool → Prop :=
| c_run i t : callers s !! i = Some CIdle → cstep s (run_check i t s)
| c_total i t : callers s !! i = Some (CChk t) → cstep s (run_total i t s)
| c_add i t : callers s !! i = Some (CAdd t) → cstep s (at_c i (CList t) (AddThread kCache s))
| c_list i t : callers s !! i = Some (CList t) → cstep s (at_c i (CPush t) (list_thread s))
| c_push i t : callers s !! i = Some (CPush t) → mutex_free s → cstep s (run_push i t s)
| c_notify i W : callers s !! i = Some CNotify → notify is_sleep wake (workers s) W →
    cstep s (at_c i CIdle (set_workers W s))
| c_shut i b : callers s !! i = Some CIdle → (locked = true → mutex_free s ∧ b = false) → cstep s (Shutdown i b s)
| c_notall i : callers s !! i = Some CNotAll →
    cstep s (at_c i (if joins then CJoin else CIdle)
               (set_flags false (is_shutdown_ s) (is_shutdown_now_ s) (set_workers (notifyAll is_sleep wake (workers s)) s)))
| c_pop i : callers s !! i = Some CIdle → pops = true → mutex_free s → cstep s (PopNoRunTasks s)
| c_joined i : callers s !! i = Some CJoin → (listed s <= cnt exited (workers s))%nat → cstep s (at_c i CIdle s).

Inductive tstep (s : Pool) : Pool → Prop :=
| t_timeout i w : workers s !! i = Some w → at_ w = WSleep → flag w ≠ kCore →
    tstep s (at_w i (mkWorker (flag w) (wstate w) WTimeout) s)
| t_spurious i w : workers s !! i = Some w → at_ w = WSleep → tstep s (at_w i (wake w) s).

Definition pstep (s s' : Pool) : Prop := wstep s s' ∨ cstep s s' ∨ tstep s s'.

(** The states of a pool that was started. *)
Definition reach (c : PoolConfig) (users : nat) (s : Pool) : Prop :=
  valid_config c = true ∧ rtc pstep (Start (newPool c users)).2 s.

End operations.

(** ** Invariant *)

Definition task_of (w : Worker) : option Z := match at_ w with WRun t => Some t | _ => None end.
Definition is_notify (p : cpc) : bool := match p with CNotify => true | _ => false end.
Definition is_add (p : cpc) : bool := match p with CAdd _ => true | _ => false end.
Definition is_list (p : cpc) : bool := match p with CList _ => true | _ => false end.

(** The largest number of threads: each user may pass the test before the others
    have added theirs. *)
Definition bound (c : PoolConfig) (users : nat) : Z := Z.max (core_thread_num c) (max_thread_num c - 1 + Z.of_nat users).

Definition worker_ok (s : Pool) (w : Worker) : Prop :=
  (wstate w = kStop → at_ w = WExit)
  ∧ (flag w = kCore → at_ w = WExit → is_shutdown_ s = true ∨ is_shutdown_now_ s = true)
  ∧ (at_ w = WTimeout → flag w ≠ kCore).

Record inv (c : PoolConfig) (users : nat) (s : Pool) : Prop := {
  g_fifo : accepted s = started s ++ tasks_ s;
  g_perm : started s ≡ₚ finished s ++ popped s ++ omap task_of (workers s);
  g_wait : waiting_thread_num_ s = Z.of_nat (cnt is_waiting (workers s));
  g_block : cnt is_block (workers s) ≠ 0%nat → tasks_ s = [];
  g_wake : is_shutdown_now_ s = false →
    cnt is_sleep (workers s) = 0%nat
    ∨ (length (tasks_ s) <= cnt is_wake (workers s) + cnt is_notify (callers s))%nat;
  g_worker : Forall (worker_ok s) (workers s);
  g_core : ∃ w, workers s !! 0%nat = Some w ∧ flag w = kCore;
  g_list : length (workers s) = (listed s + cnt is_list (callers s))%nat;
  g_bound : Z.of_nat (length (workers s) + cnt is_add (callers s)) <= bound c users;
  g_users : length (callers s) = users;
  g_config : config_ s = c }.

(** What one change of a worker, or of a user, does to the counts. *)
Lemma pool_wcounts l i a b : l !! i = Some a →
  let d P := (cnt P (<[i := b]> l) + bit (P a) = cnt P l + bit (P b))%nat in
  d is_block ∧ d is_sleep ∧ d is_wake ∧ d is_waiting.
Proof. intros Hi d. split_and!; by apply cnt_insert. Qed.
Lemma pool_ccounts l i a b : l !! i = Some a →
  let d P := (cnt P (<[i := b]> l) + bit (P a) = cnt P l + bit (P b))%nat in d is_notify ∧ d is_add ∧ d is_list.
Proof. intros Hi d. split_and!; by apply cnt_insert. Qed.

Lemma bit_le b : (bit b <= 1)%nat.
Proof. destruct b; simpl; lia. Qed.

(** One worker moves; the rest may change with it as the premises say. *)
Lemma worker_inv c u i a b s s' : inv c u s → workers s !! i = Some a → workers s' = <[i := b]> (workers s) →
  callers s' = callers s → listed s' = listed s → config_ s' = config_ s → flag b = flag a →
  is_shutdown_ s' = is_shutdown_ s → is_shutdown_now_ s' = is_shutdown_now_ s →
  accepted s' = started s' ++ tasks_ s' →
  started s' ++ option_list (task_of a) ≡ₚ (finished s' ++ popped s' ++ omap task_of (workers s)) ++ option_list (task_of b) →
  waiting_thread_num_ s' = waiting_thread_num_ s + Z.of_nat (bit (is_waiting b)) - Z.of_nat (bit (is_waiting a)) →
  (is_block b = true → tasks_ s' = []) → (tasks_ s = [] → tasks_ s' = []) →
  (is_shutdown_now_ s = false → (is_sleep b = true → tasks_ s' = [])
     ∧ (tasks_ s' = [] ∨ (length (tasks_ s') + bit (is_wake a) <= length (tasks_ s) + bit (is_wake b))%nat)) →
  worker_ok s b → inv c u s'.
Proof.
  intros [G1 G2 G3 G4 G5 G6 G7 G8 G9 G10 G11] Hi Hw Hc Hl Hcf Hf Hs Hn Ha Hp Hwt Hb Ht Hk Hok.
  destruct (pool_wcounts _ i a b Hi) as (C1 & C2 & C3 & C4). cbv zeta in *.
  pose proof (bit_le (is_waiting a)). pose proof (bit_le (is_block a)). pose proof (bit_le (is_sleep a)).
  split; rewrite ?Hw, ?Hc, ?Hl, ?Hcf, ?length_insert; try done.
  - apply (Permutation_app_inv_r (option_list (task_of a))). rewrite Hp, <-!app_assoc.
    do 2 apply Permutation_app_head. symmetry. by apply omap_change.
  - rewrite Hwt, G3. lia.
  - intros Hne. destruct (is_block b) eqn:Eb; [auto|]. simpl in C1. apply Ht, G4. lia.
  - rewrite Hn. intros Hnow. destruct (Hk Hnow) as [Hsl Hln]. destruct (is_sleep b) eqn:Eb.
    { right. rewrite Hsl by done. simpl. lia. }
    simpl in C2. destruct (G5 Hnow) as [Hz|Hz]; [left; lia|].
    destruct Hln as [-> | Hln]; right; simpl; lia.
  - assert (Hcomp : Forall (worker_ok s') (workers s)).
    { eapply Forall_impl; [exact G6|]. intros w. unfold worker_ok. by rewrite Hs, Hn. }
    apply Forall_insert; [done|]. unfold worker_ok in *. by rewrite Hs, Hn.
  - destruct G7 as (w0 & Hw0 & Hf0). destruct i as [|i].
    + exists b. rewrite list_lookup_insert_eq by (by eapply lookup_lt_Some). split; [done|]. rewrite Hf. congruence.
    + exists w0. by rewrite list_lookup_insert_ne.
Qed.

(** One user moves. *)
Lemma caller_set c u i p q s : inv c u s → callers s !! i = Some p → is_add q = is_add p → is_list q = is_list p →
  (is_shutdown_now_ s = false → cnt is_sleep (workers s) = 0%nat
     ∨ (length (tasks_ s) <= cnt is_wake (workers s) + cnt is_notify (<[i := q]> (callers s)))%nat) →
  inv c u (at_c i q s).
Proof.
  intros [G1 G2 G3 G4 G5 G6 G7 G8 G9 G10 G11] Hi Ha Hl Hk.
  destruct (pool_ccounts _ i p q Hi) as (C1 & C2 & C3). cbv zeta in *. rewrite Ha in C2. rewrite Hl in C3.
  split; simpl; rewrite ?length_insert; try done; [lia|].
  by replace (cnt is_add (<[i:=q]> (callers s))) with (cnt is_add (callers s)) by lia.
Qed.

(** Between points that owe no notification. *)
Lemma caller_inv c u i p q s : inv c u s → callers s !! i = Some p → (is_notify p = true → is_notify q = true) →
  is_add q = is_add p → is_list q = is_list p → inv c u (at_c i q s).
Proof.
  intros Hi Hp Hn Ha Hl. eapply caller_set; eauto. intros Hnow.
  destruct (pool_ccounts _ i p q Hp) as (C1 & _). cbv zeta in *.
  destruct (g_wake _ _ _ Hi Hnow) as [?|Hz]; [by left|right].
  destruct (is_notify p); [rewrite Hn in C1 by done|]; simpl in *; lia.
Qed.

Lemma after_wait_inv c u to i a w s : inv c u s → workers s !! i = Some a → flag w = flag a → wstate w ≠ kStop →
  at_ a = WTop ∨ at_ a = WWake ∨ at_ a = WTimeout → (to = true → at_ a = WTimeout) →
  wakeup_pred s w = negb to →
  let s1 := set_waiting (waiting_thread_num_ s + (if is_waiting a then 0 else 1)) s in
  ∃ s', after_wait to i w s1 = Ok s' ∧ inv c u s'.
Proof.
  intros Hi Ha Hf Hw Hat Hto Hp s1.
  assert (Hta : task_of a = None ∧ is_block a = false ∧ is_sleep a = false).
  { unfold task_of, is_block, is_sleep. by destruct Hat as [-> | [-> | ->]]. }
  destruct Hta as (Hta & Hba & Hsa). pose proof Hi as [G1 G2 G3 G4 G5 G6 G7 G8 G9 G10 G11].
  pose proof (Forall_lookup_1 _ _ _ _ G6 Ha) as (O1 & O2 & O3).
  assert (Hexit : ∀ st, (flag a = kCore → is_shutdown_ s = true ∨ is_shutdown_now_ s = true) →
    (is_shutdown_now_ s = false → tasks_ s = []) →
    inv c u (at_w i (mkWorker (flag w) st WExit) (set_waiting (waiting_thread_num_ s1 - 1) s1))).
  { intros st Hcore He. eapply (worker_inv c u i a (mkWorker (flag w) st WExit) s); try done; simpl.
    - rewrite Hta. simpl. by rewrite !app_nil_r.
    - destruct (is_waiting a); simpl; lia.
    - intros Hnow. split; [done|]. left. auto.
    - split_and!; simpl; try done. intros Hcw _. rewrite Hf in Hcw. auto. }
  unfold after_wait. cbn [flag wstate]. destruct to; simpl in Hp.
  - cbn [wstate flag]. rewrite bool_decide_eq_true_2 by done. eexists. split; [reflexivity|]. apply Hexit.
    + intros Hcr. by destruct (O3 (Hto eq_refl)).
    + intros _. unfold wakeup_pred in Hp. destruct (bool_decide (tasks_ s = [])) eqn:E; [by apply bool_decide_eq_true in E|].
      by rewrite orb_true_r in Hp.
  - rewrite bool_decide_eq_false_2 by done. cbn [set_waiting is_shutdown_ is_shutdown_now_ tasks_ s1].
    destruct (is_shutdown_ s && bool_decide (tasks_ s = [])) eqn:E1.
    { apply andb_true_iff in E1 as [E1 E2]. apply bool_decide_eq_true in E2. eexists. split; [reflexivity|].
      apply Hexit; auto. }
    destruct (is_shutdown_now_ s) eqn:E2.
    { eexists. split; [reflexivity|]. apply Hexit; auto. }
    destruct (tasks_ s) as [|t q] eqn:Et.
    { exfalso. unfold wakeup_pred in Hp. rewrite E2, Et in Hp. rewrite (bool_decide_eq_true_2 ([] = [])) in Hp by done.
      rewrite (bool_decide_eq_false_2 (wstate w = kStop)) in Hp by done. simpl in Hp.
      rewrite (bool_decide_eq_true_2 ([] = [])), andb_true_r in E1 by done. rewrite E1 in Hp. done. }
    eexists. split; [reflexivity|]. eapply (worker_inv c u i a (mkWorker (flag w) kRunning (WRun t)) s); try done; simpl.
    + by rewrite G1, <-app_assoc.
    + rewrite Hta. simpl. rewrite app_nil_r, G2. done.
    + destruct (is_waiting a); simpl; lia.
    + by rewrite Et.
    + intros _. split; [done|]. right. rewrite Et. simpl. pose proof (bit_le (is_wake a)). lia.
Qed.

(** ** Preservation *)

(** A change that a predicate, or a partial function, does not see. *)
Lemma cnt_fmap {A} (P : A → bool) (f : A → A) l : (∀ a, P (f a) = P a) → cnt P (f <$> l) = cnt P l.
Proof.
  intros Hf. induction l as [|a l IH]; [done|]. unfold cnt in *. rewrite fmap_cons, !filter_cons, Hf.
  destruct (decide (P a = true)); simpl; lia.
Qed.
Lemma omap_unseen {A B} (g : A → option B) (f : A → A) (l : list A) : (∀ a, g (f a) = g a) → omap g (f <$> l) = omap g l.
Proof. intros Hf. induction l as [|a l IH]; [done|]. rewrite fmap_cons, !omap_cons_option, Hf, IH. done. Qed.
Lemma omap_replicate_None {A B} (g : A → option B) n a : g a = None → omap g (replicate n a) = [].
Proof. intros Hg. induction n as [|n IH]; [done|]. cbn [replicate]. by rewrite omap_cons_option, Hg, IH. Qed.

Section preservation.
Context `{Variant}.

Lemma set_waiting_id s : set_waiting (waiting_thread_num_ s + 0) s = s.
Proof. destruct s. unfold set_waiting. simpl. f_equal. lia. Qed.

Lemma test_wait_inv c u i a w s : inv c u s → workers s !! i = Some a → flag w = flag a → wstate w ≠ kStop →
  at_ a = WTop ∨ at_ a = WWake →
  let s1 := set_waiting (waiting_thread_num_ s + (if is_waiting a then 0 else 1)) s in
  ∃ s', test_wait i w s1 = Ok s' ∧ inv c u s'.
Proof.
  intros Hi Ha Hf Hw Hat s1. unfold test_wait. change (wakeup_pred s1 w) with (wakeup_pred s w).
  destruct (wakeup_pred s w) eqn:E.
  { eapply after_wait_inv; try done. naive_solver. }
  eexists. split; [reflexivity|].
  assert (Ht : tasks_ s = []).
  { unfold wakeup_pred in E. destruct (bool_decide (tasks_ s = [])) eqn:E'; [by apply bool_decide_eq_true in E'|].
    by rewrite orb_true_r in E. }
  assert (Hta : task_of a = None) by (unfold task_of; by destruct Hat as [-> | ->]).
  eapply (worker_inv c u i a (mkWorker (flag w) (wstate w) WBlock) s); try done; simpl.
  - apply Hi.
  - rewrite Hta, app_nil_r. simpl. rewrite app_nil_r. apply Hi.
  - destruct (is_waiting a); simpl; lia.
  - intros _. by split; [|left].
Qed.

Lemma enter_inv c u i w s : inv c u s → workers s !! i = Some w → at_ w = WTop → ∃ s', enter i w s = Ok s' ∧ inv c u s'.
Proof.
  intros Hi Hw Ht. pose proof (Forall_lookup_1 _ _ _ _ (g_worker _ _ _ Hi) Hw) as (O1 & _).
  unfold enter. rewrite bool_decide_eq_false_2 by (intros E; specialize (O1 E); congruence).
  pose proof (test_wait_inv c u i w (mkWorker (flag w) kWaiting (at_ w)) s Hi Hw) as L.
  unfold is_waiting in L. rewrite Ht in L. rewrite Ht. apply L; auto.
Qed.

Lemma retest_inv c u i w s : inv c u s → workers s !! i = Some w → at_ w = WWake →
  ∃ s', test_wait i w s = Ok s' ∧ inv c u s'.
Proof.
  intros Hi Hw Ht. pose proof (Forall_lookup_1 _ _ _ _ (g_worker _ _ _ Hi) Hw) as (O1 & _).
  pose proof (test_wait_inv c u i w w s Hi Hw eq_refl) as L. unfold is_waiting in L. rewrite Ht in L.
  cbv zeta in L. rewrite set_waiting_id in L. apply L; [|auto]. intros E. specialize (O1 E). congruence.
Qed.

Lemma timed_out_inv c u i w s : inv c u s → workers s !! i = Some w → at_ w = WTimeout →
  ∃ s', timed_out i w s = Ok s' ∧ inv c u s'.
Proof.
  intros Hi Hw Ht. pose proof (Forall_lookup_1 _ _ _ _ (g_worker _ _ _ Hi) Hw) as (O1 & _).
  pose proof (after_wait_inv c u (negb (wakeup_pred s w)) i w w s Hi Hw eq_refl) as L. unfold is_waiting in L. rewrite Ht in L.
  cbv zeta in L. rewrite set_waiting_id in L. apply L; auto using eq_sym, negb_involutive.
  intros E. specialize (O1 E). congruence.
Qed.

Lemma wstep_inv c u s s' : inv c u s → wstep s s' → inv c u s'.
Proof.
  intros Hi Hs. destruct Hs as [i w s' Hw Ht _ He|i w Hw Ht|i w s' Hw Ht _ He|i w s' Hw Ht _ He|i w t Hw Ht].
  - destruct (enter_inv _ _ _ _ _ Hi Hw Ht) as (? & ? & ?). congruence.
  - pose proof (Forall_lookup_1 _ _ _ _ (g_worker _ _ _ Hi) Hw) as (O1 & O2 & O3).
    assert (Hta : task_of w = None) by (unfold task_of; by rewrite Ht).
    assert (Hb : tasks_ s = []).
    { apply (g_block _ _ _ Hi). rewrite cnt_zero. intros Z. specialize (Z i w Hw). unfold is_block in Z. by rewrite Ht in Z. }
    eapply (worker_inv c u i w (mkWorker (flag w) (wstate w) WSleep) s); try done; simpl.
    + apply Hi.
    + rewrite Hta, app_nil_r. simpl. rewrite app_nil_r. apply Hi.
    + unfold is_waiting. rewrite Ht. simpl. lia.
    + intros _. by split; [|left].
    + split_and!; simpl; try done. intros E. specialize (O1 E). congruence.
  - destruct (retest_inv _ _ _ _ _ Hi Hw Ht) as (? & ? & ?). congruence.
  - destruct (timed_out_inv _ _ _ _ _ Hi Hw Ht) as (? & ? & ?). congruence.
  - pose proof (Forall_lookup_1 _ _ _ _ (g_worker _ _ _ Hi) Hw) as (O1 & O2 & O3).
    eapply (worker_inv c u i w (mkWorker (flag w) (wstate w) WTop) s); try done; simpl.
    + apply Hi.
    + unfold task_of at 1. rewrite Ht. simpl. rewrite app_nil_r, (g_perm _ _ _ Hi), <-!app_assoc.
      apply Permutation_app_head. rewrite (app_assoc (popped s)). apply Permutation_app_comm.
    + unfold is_waiting. rewrite Ht. simpl. lia.
    + intros _. split; [done|]. right. unfold is_wake. rewrite Ht. simpl. lia.
    + split_and!; simpl; try done. intros E. specialize (O1 E). congruence.
Qed.

Lemma tstep_inv c u s s' : inv c u s → tstep s s' → inv c u s'.
Proof.
  intros Hi Hs.
  assert (Hgen : ∀ i w p, workers s !! i = Some w → at_ w = WSleep → p = WWake ∨ (p = WTimeout ∧ flag w ≠ kCore) →
    inv c u (at_w i (mkWorker (flag w) (wstate w) p) s)).
  { intros i w p Hw Ht Hp. pose proof (Forall_lookup_1 _ _ _ _ (g_worker _ _ _ Hi) Hw) as (O1 & O2 & O3).
    assert (Hta : task_of w = None) by (unfold task_of; by rewrite Ht).
    assert (Hpa : task_of (mkWorker (flag w) (wstate w) p) = None) by (by destruct Hp as [->|[-> _]]).
    eapply (worker_inv c u i w (mkWorker (flag w) (wstate w) p) s); try done; simpl.
    - apply Hi.
    - rewrite Hta, Hpa, !app_nil_r. apply Hi.
    - unfold is_waiting. rewrite Ht. destruct Hp as [->|[-> _]]; simpl; lia.
    - by destruct Hp as [->|[-> _]].
    - intros _. split; [by destruct Hp as [->|[-> _]]|]. right. unfold is_wake. rewrite Ht. simpl.
      destruct Hp as [->|[-> _]]; simpl; lia.
    - split_and!; simpl; try naive_solver congruence. }
  destruct Hs; [|unfold wake]; eapply Hgen; eauto.
Qed.

(** ** Preservation by the users *)

Lemma refused_inv c u t s : inv c u s → inv c u (add_refused t s).
Proof. by intros []. Qed.

(** Setting a shutdown flag, or ending the availability. *)
Lemma flags_inv c u a d n s : inv c u s → (is_shutdown_ s = true → d = true) → (is_shutdown_now_ s = true → n = true) →
  inv c u (set_flags a d n s).
Proof.
  intros [G1 G2 G3 G4 G5 G6 G7 G8 G9 G10 G11] Hd Hn. split; simpl; try done.
  - intros ->. apply G5. destruct (is_shutdown_now_ s); [by specialize (Hn eq_refl)|done].
  - eapply Forall_impl; [exact G6|]. intros w (O1 & O2 & O3). split_and!; simpl; try done.
    intros Hc He. destruct (O2 Hc He); auto.
Qed.

(** A user that is adding a thread and one whose thread is not listed are among the users. *)
Lemma adding_le (l : list cpc) : (cnt is_add l + cnt is_list l <= length l)%nat.
Proof.
  induction l as [|p l IH]; [done|]. unfold cnt in *. rewrite !filter_cons, length_cons.
  destruct p; simpl; lia.
Qed.

Lemma total_inv c u i t s : inv c u s → callers s !! i = Some (CChk t) → inv c u (run_total i t s).
Proof.
  intros Hi Hp. unfold run_total. destruct (Z.of_nat (listed s) <? max_thread_num (config_ s)) eqn:E;
    [|by eapply caller_inv].
  destruct Hi as [G1 G2 G3 G4 G5 G6 G7 G8 G9 G10 G11].
  destruct (pool_ccounts _ i _ (CAdd t) Hp) as (C1 & C2 & C3). cbv zeta in *. simpl in C1, C2, C3.
  pose proof (adding_le (<[i := CAdd t]> (callers s))) as L. rewrite length_insert in L.
  split; simpl; rewrite ?length_insert; try done.
  - intros Hnow. destruct (G5 Hnow); [by left|right; lia].
  - lia.
  - unfold bound. rewrite G11 in E. lia.
Qed.

Lemma add_inv c u i t s : inv c u s → callers s !! i = Some (CAdd t) → inv c u (at_c i (CList t) (AddThread kCache s)).
Proof.
  intros [G1 G2 G3 G4 G5 G6 G7 G8 G9 G10 G11] Hp.
  destruct (pool_ccounts _ i _ (CList t) Hp) as (C1 & C2 & C3). cbv zeta in *. simpl in C1, C2, C3.
  split; simpl; rewrite ?cnt_app, ?length_insert, ?length_app; cbn [cnt length]; rewrite ?Nat.add_0_r; try done.
  - rewrite omap_app. simpl. by rewrite app_nil_r.
  - intros Hnow. destruct (G5 Hnow); [by left|right]. cbn. lia.
  - apply Forall_app. split; [done|]. by repeat constructor.
  - destruct G7 as (w & Hw & Hf). exists w. split; [|done]. by apply lookup_app_l_Some.
  - lia.
  - lia.
Qed.

Lemma list_inv c u i t s : inv c u s → callers s !! i = Some (CList t) → inv c u (at_c i (CPush t) (list_thread s)).
Proof.
  intros [G1 G2 G3 G4 G5 G6 G7 G8 G9 G10 G11] Hp.
  destruct (pool_ccounts _ i _ (CPush t) Hp) as (C1 & C2 & C3). cbv zeta in *. simpl in C1, C2, C3.
  split; simpl; rewrite ?length_insert; try done.
  - intros Hnow. destruct (G5 Hnow); [by left|right; lia].
  - lia.
  - by replace (cnt is_add (<[i:=CPush t]> (callers s))) with (cnt is_add (callers s)) by lia.
Qed.

Lemma push_inv c u i t s : inv c u s → callers s !! i = Some (CPush t) → mutex_free s → inv c u (run_push i t s).
Proof.
  intros Hi Hp Hm. unfold run_push. destruct (locked && is_shutdown_ s).
  { eapply (caller_inv c u i (CPush t)); try done. by apply refused_inv. }
  destruct Hi as [G1 G2 G3 G4 G5 G6 G7 G8 G9 G10 G11].
  destruct (pool_ccounts _ i _ CNotify Hp) as (C1 & C2 & C3). cbv zeta in *. simpl in C1, C2, C3.
  split; simpl; rewrite ?length_insert; try done.
  - by rewrite G1, app_assoc.
  - intros Hnow. destruct (G5 Hnow); [by left|right]. rewrite length_app. cbn [length]. lia.
  - lia.
  - by replace (cnt is_add (<[i:=CNotify]> (callers s))) with (cnt is_add (callers s)) by lia.
Qed.

Lemma notify_inv c u i W s : inv c u s → callers s !! i = Some CNotify → notify is_sleep wake (workers s) W →
  inv c u (at_c i CIdle (set_workers W s)).
Proof.
  intros Hi Hp Hn. destruct (pool_ccounts _ i _ CIdle Hp) as (C1 & _). cbv zeta in *. simpl in C1.
  remember (workers s) as l eqn:El. destruct Hn as [l Hz|l j w Hw Hsl]; subst l.
  - replace (set_workers (workers s) s) with s by (by destruct s). eapply caller_set; eauto.
  - assert (Hat : at_ w = WSleep) by (unfold is_sleep in Hsl; by destruct (at_ w)).
    assert (Hi' : inv c u (at_w j (wake w) s)) by (eapply tstep_inv; [done|by constructor]).
    destruct (pool_wcounts _ j w (wake w) Hw) as (_ & _ & C & _). cbv zeta in C. unfold is_wake at 2 in C. rewrite Hat in C.
    simpl in C. change (set_workers (<[j := wake w]> (workers s)) s) with (at_w j (wake w) s).
    eapply caller_set; [done|exact Hp|done..|]. intros Hnow. right. simpl in *.
    destruct (g_wake _ _ _ Hi Hnow) as [Z|Z]; [|lia].
    rewrite cnt_zero in Z. specialize (Z j w Hw). congruence.
Qed.

Lemma wake_all_inv c u s : inv c u s → inv c u (set_workers (notifyAll is_sleep wake (workers s)) s).
Proof.
  intros [G1 G2 G3 G4 G5 G6 G7 G8 G9 G10 G11].
  assert (Hc : ∀ P : Worker → bool, (∀ f st, P (mkWorker f st WWake) = P (mkWorker f st WSleep)) →
    cnt P (notifyAll is_sleep wake (workers s)) = cnt P (workers s)).
  { intros P HP. apply cnt_fmap. intros [f st []]; try done; apply HP. }
  split; simpl; rewrite ?Hc by done; try done.
  - unfold notifyAll. rewrite omap_unseen; [done|]. by intros [f st []].
  - intros _. left. apply cnt_notifyAll. done.
  - apply Forall_fmap. eapply Forall_impl; [exact G6|]. intros [f st []] (O1 & O2 & O3); split_and!; simpl in *; try done;
      intros E; by specialize (O1 E).
  - destruct G7 as (w & Hw & Hf). unfold notifyAll. rewrite list_lookup_fmap, Hw. simpl. eexists. split; [done|].
    by destruct (is_sleep w).
  - unfold notifyAll. by rewrite length_fmap.
  - unfold notifyAll. by rewrite length_fmap.
Qed.

Lemma pop_inv c u s : inv c u s → inv c u (PopNoRunTasks s).
Proof.
  intros [G1 G2 G3 G4 G5 G6 G7 G8 G9 G10 G11]. split; simpl; try done.
  - by rewrite app_nil_r.
  - rewrite G2, <-!app_assoc. do 2 apply Permutation_app_head. apply Permutation_app_comm.
  - intros _. right. lia.
Qed.

Lemma cstep_inv c u s s' : inv c u s → cstep s s' → inv c u s'.
Proof.
  intros Hi Hs. destruct Hs as [i t Hp|i t Hp|i t Hp|i t Hp|i t Hp Hm|i W Hp Hn|i b Hp Hl|i Hp|i Hp Hps Hm|i Hp Hj].
  - unfold run_check. repeat case_match; eapply (caller_inv c u i CIdle); try done; by apply refused_inv.
  - by apply total_inv.
  - by apply add_inv.
  - by apply list_inv.
  - by apply push_inv.
  - by apply notify_inv.
  - unfold Shutdown. repeat case_match; eapply (caller_inv c u i CIdle); try done; by apply flags_inv.
  - assert (Hj : is_add (if joins then CJoin else CIdle) = false ∧ is_list (if joins then CJoin else CIdle) = false)
      by (by destruct joins).
    destruct Hj. eapply (caller_inv c u i CNotAll); try done. apply flags_inv; try done. by apply wake_all_inv.
  - by apply pop_inv.
  - by eapply (caller_inv c u i CJoin).
Qed.

Lemma pstep_inv c u s s' : inv c u s → pstep s s' → inv c u s'.
Proof. intros Hi [Hs|[Hs|Hs]]; eauto using wstep_inv, cstep_inv, tstep_inv. Qed.

(** ** The pool as started *)

Lemma add_core_spec n s : add_core n s =
  set_listed (listed s + n) (set_next (next_thread_id_ s + Z.of_nat n) (set_workers (workers s ++ replicate n (mkWorker kCore kInit WTop)) s)).
Proof.
  revert s. induction n as [|n IH]; intros s; cbn [add_core].
  - destruct s. unfold set_listed, set_next, set_workers. simpl. rewrite app_nil_r. f_equal; lia.
  - rewrite IH. destruct s. unfold set_listed, set_next, set_workers, list_thread, AddThread. simpl.
    rewrite <-app_assoc. simpl. f_equal; lia.
Qed.

Lemma start_inv c u : valid_config c = true → 0 < core_thread_num c → inv c u (Start (newPool c u)).2.
Proof.
  intros Hv Hc. unfold Start, IsAvailable. cbn [newPool is_available_]. rewrite Hv. cbn [negb snd]. rewrite add_core_spec.
  assert (E : ∀ P : Worker → bool, P (mkWorker kCore kInit WTop) = false →
    cnt P (replicate (Z.to_nat (core_thread_num c)) (mkWorker kCore kInit WTop)) = 0%nat).
  { intros P HP. apply cnt_zero. by intros i a [-> _]%lookup_replicate. }
  assert (E' : ∀ P : cpc → bool, P CIdle = false → cnt P (replicate u CIdle) = 0%nat).
  { intros P HP. apply cnt_zero. by intros i a [-> _]%lookup_replicate. }
  split; simpl; rewrite ?E, ?E', ?length_replicate by done; try done; try lia.
  - by rewrite omap_replicate_None.
  - apply Forall_replicate. by repeat split.
  - exists (mkWorker kCore kInit WTop). split; [|done]. apply lookup_replicate. split; [done|lia].
  - unfold bound. lia.
Qed.

Lemma reach_inv c u s : 0 < core_thread_num c → reach c u s → inv c u s.
Proof.
  intros Hc [Hv Hr]. pose proof (start_inv c u Hv Hc) as Hi. induction Hr as [|x y z Hxy _ IH]; [done|]. by eapply IH, pstep_inv.
Qed.

End preservation.

(** ** Closing the pool of zfish.hpp

    Its flag is set under the mutex, so that no worker can miss it. *)

Module Close.
#[local] Existing Instance zfish_pool.

Definition is_notall (p : cpc) : bool := match p with CNotAll => true | _ => false end.
Definition grown (p : cpc) : bool := match p with CChk _ | CAdd _ | CList _ => true | _ => false end.

Record cinv (s : Pool) : Prop := {
  l_now : is_shutdown_now_ s = false;
  l_pop : popped s = [];
  l_core : Forall (λ w, flag w = kCore ∧ (at_ w = WExit → is_shutdown_ s = true ∧ tasks_ s = [])) (workers s);
  l_user : Forall (λ p, grown p = false) (callers s);
  l_block : is_shutdown_ s = true → cnt is_block (workers s) = 0%nat;
  l_sleep : is_shutdown_ s = true → cnt is_notall (callers s) = 0%nat → cnt is_sleep (workers s) = 0%nat }.

Lemma worker_cinv i b s s' : cinv s → workers s' = <[i := b]> (workers s) → callers s' = callers s →
  is_shutdown_ s' = is_shutdown_ s → is_shutdown_now_ s' = is_shutdown_now_ s → popped s' = popped s →
  (i < length (workers s))%nat → flag b = kCore → (at_ b = WExit → is_shutdown_ s = true ∧ tasks_ s' = []) →
  (tasks_ s = [] → tasks_ s' = []) → (is_shutdown_ s = true → is_block b = false ∧ is_sleep b = false) → cinv s'.
Proof.
  intros [L1 L2 L3 L4 L5 L6] Hw Hc Hs Hn Hp Hi Hf He Ht Hb. destruct (lookup_lt_is_Some_2 _ _ Hi) as [a Ha].
  destruct (pool_wcounts _ i a b Ha) as (C1 & C2 & _). cbv zeta in *.
  split; rewrite ?Hw, ?Hc, ?Hs, ?Hn, ?Hp; try done.
  - apply Forall_insert; [|done]. eapply Forall_impl; [exact L3|]. intros w [? Hx]. split; [done|]. intros E.
    destruct (Hx E); auto.
  - intros E. destruct (Hb E) as [E1 _]. rewrite E1 in C1. simpl in C1. specialize (L5 E). lia.
  - intros E En. destruct (Hb E) as [_ E2]. rewrite E2 in C2. simpl in C2. specialize (L6 E En). lia.
Qed.

(** What a worker that found its condition does. *)
Lemma after_wait_shape to i w s s' : after_wait to i w s = Ok s' →
  (∃ st, s' = at_w i (mkWorker (flag w) st WExit) (set_waiting (waiting_thread_num_ s - 1) s)
     ∧ (to = true ∨ wstate w = kStop ∨ (is_shutdown_ s = true ∧ tasks_ s = []) ∨ is_shutdown_now_ s = true))
  ∨ ∃ t q, tasks_ s = t :: q
     ∧ s' = at_w i (mkWorker (flag w) kRunning (WRun t)) (pop_task t q (set_waiting (waiting_thread_num_ s - 1) s)).
Proof.
  unfold after_wait. cbn [set_waiting is_shutdown_ is_shutdown_now_ tasks_]. intros Hs.
  destruct (bool_decide _) eqn:E1 in Hs.
  { left. apply bool_decide_eq_true in E1. injection Hs as <-. destruct to; cbn [flag wstate] in *; eauto 6. }
  destruct (is_shutdown_ s && bool_decide (tasks_ s = [])) eqn:E2.
  { left. apply andb_true_iff in E2 as [E2 E3%bool_decide_eq_true]. injection Hs as <-. destruct to; cbn [flag]; eauto 10. }
  destruct (is_shutdown_now_ s) eqn:E3.
  { left. injection Hs as <-. destruct to; cbn [flag]; eauto 10. }
  destruct (tasks_ s) as [|t q]; [done|]. right. injection Hs as <-. exists t, q. by destruct to.
Qed.

Lemma test_wait_shape i w s s' : test_wait i w s = Ok s' →
  after_wait false i w s = Ok s'
  ∨ (is_shutdown_ s = false ∧ s' = at_w i (mkWorker (flag w) (wstate w) WBlock) s).
Proof.
  unfold test_wait. destruct (wakeup_pred s w) eqn:E; intros Hs; [by left|right]. injection Hs as <-.
  unfold wakeup_pred in E. by destruct (is_shutdown_ s).
Qed.

Lemma test_cinv i w s s' : cinv s → (i < length (workers s))%nat → flag w = kCore → wstate w ≠ kStop →
  test_wait i w s = Ok s' → cinv s'.
Proof.
  intros Hi Hl Hf Hw [Hs|[Hsh ->]]%test_wait_shape.
  - pose proof (l_now _ Hi) as L. apply after_wait_shape in Hs as [(st & -> & Hs)|(t & q & Ht & ->)].
    + eapply (worker_cinv i (mkWorker (flag w) st WExit) s); try done. intros _. simpl. naive_solver congruence.
    + eapply (worker_cinv i (mkWorker (flag w) kRunning (WRun t)) s); try done. by rewrite Ht.
  - eapply (worker_cinv i (mkWorker (flag w) (wstate w) WBlock) s); try done. by rewrite Hsh.
Qed.

Lemma waiting_cinv n s : cinv s → cinv (set_waiting n s).
Proof. by intros []. Qed.

Lemma wstep_cinv c u s s' : inv c u s → cinv s → wstep s s' → cinv s'.
Proof.
  intros Hi Hc Hs.
  assert (Hw : ∀ i w, workers s !! i = Some w → flag w = kCore ∧ (i < length (workers s))%nat ∧ worker_ok s w).
  { intros i w Hw. split_and!.
    - by apply (Forall_lookup_1 _ _ _ _ (l_core _ Hc) Hw).
    - by eapply lookup_lt_Some.
    - by apply (Forall_lookup_1 _ _ _ _ (g_worker _ _ _ Hi) Hw). }
  destruct Hs as [i w s' Ha Ht Hm He|i w Ha Ht|i w s' Ha Ht Hm He|i w s' Ha Ht Hm He|i w t Ha Ht];
    destruct (Hw i w Ha) as (Hf & Hl & O1 & _ & O3).
  - unfold enter in He. rewrite bool_decide_eq_false_2 in He by (intros E; specialize (O1 E); congruence).
    eapply (test_cinv i (mkWorker (flag w) kWaiting (at_ w))); [by apply waiting_cinv|done..|exact He].
  - eapply (worker_cinv i (mkWorker (flag w) (wstate w) WSleep) s); try done. intros Hsh. exfalso.
    pose proof (l_block _ Hc Hsh) as Z. rewrite cnt_zero in Z. specialize (Z i w Ha). unfold is_block in Z. by rewrite Ht in Z.
  - eapply (test_cinv i w s); try done. intros E. specialize (O1 E). congruence.
  - by destruct (O3 Ht).
  - by eapply (worker_cinv i (mkWorker (flag w) (wstate w) WTop) s).
Qed.

Lemma wake_cinv i w s : cinv s → workers s !! i = Some w → cinv (at_w i (wake w) s).
Proof.
  intros Hc Hw. eapply (worker_cinv i (wake w) s); try done; [by eapply lookup_lt_Some|].
  by apply (Forall_lookup_1 _ _ _ _ (l_core _ Hc) Hw).
Qed.

Lemma tstep_cinv s s' : cinv s → tstep s s' → cinv s'.
Proof.
  intros Hc Hs. destruct Hs as [i w Hw Ht Hf|i w Hw Ht]; [|by apply wake_cinv].
  destruct (Forall_lookup_1 _ _ _ _ (l_core _ Hc) Hw) as [Hf' _]. congruence.
Qed.

(** A user moves to a point [q] of the pool. *)
Lemma caller_cinv i p q s : cinv s → callers s !! i = Some p → grown q = false →
  (is_notall p = true → is_notall q = true) → cinv (at_c i q s).
Proof.
  intros [L1 L2 L3 L4 L5 L6] Hp Hg Hn. pose proof (cnt_insert is_notall _ i p q Hp) as C.
  split; simpl; try done; [by apply Forall_insert|]. intros Hsh Hz. apply L6; [done|].
  destruct (is_notall p) eqn:E; [rewrite Hn in C by done|]; simpl in C; lia.
Qed.

Lemma close_cinv i s : cinv s → callers s !! i = Some CIdle → mutex_free s → cinv (Shutdown i false s).
Proof.
  intros Hc Hp Hm. unfold Shutdown. cbn [locked zfish_pool andb negb orb]. rewrite orb_false_r.
  destruct (is_shutdown_ s) eqn:E; [by eapply caller_cinv|]. destruct Hc as [L1 L2 L3 L4 L5 L6].
  split; simpl; try done; [|by apply Forall_insert|].
  - eapply Forall_impl; [exact L3|]. intros w [? Hx]. split; [done|]. intros E'. destruct (Hx E'). congruence.
  - pose proof (cnt_insert is_notall _ i _ CNotAll Hp) as C. simpl in C. lia.
Qed.

Lemma cstep_cinv s s' : cinv s → cstep s s' → cinv s'.
Proof.
  intros Hc Hs.
  assert (Hg : ∀ i p, callers s !! i = Some p → grown p = false).
  { intros i p Hp. by apply (Forall_lookup_1 _ _ _ _ (l_user _ Hc) Hp). }
  destruct Hs as [i t Hp|i t Hp|i t Hp|i t Hp|i t Hp Hm|i W Hp Hn|i b Hp Hl|i Hp|i Hp Hps Hm|i Hp Hj];
    try (by specialize (Hg _ _ Hp)).
  - by eapply caller_cinv.
  - unfold run_push. destruct (locked && is_shutdown_ s) eqn:E; simpl in E.
    + eapply (caller_cinv i (CPush t)); try done. by destruct Hc.
    + eapply (caller_cinv i (CPush t)); try done. destruct Hc as [L1 L2 L3 L4 L5 L6]. split; simpl; try done.
      eapply Forall_impl; [exact L3|]. intros w [? Hx]. split; [done|]. intros E'. destruct (Hx E'). congruence.
  - eapply (caller_cinv i CNotify); try done. remember (workers s) as l eqn:El. destruct Hn as [l Hz|l j w Hw Hsl]; subst l.
    + by destruct s, Hc.
    + by apply wake_cinv.
  - destruct (Hl eq_refl) as [Hm ->]. by apply close_cinv.
  - destruct Hc as [L1 L2 L3 L4 L5 L6]. split; simpl; try done.
    + apply Forall_fmap. eapply Forall_impl; [exact L3|]. intros [f st []] [? ?]; by split.
    + by apply Forall_insert.
    + intros Hsh. unfold notifyAll. rewrite cnt_fmap; [by apply L5|]. by intros [f st []].
    + intros _ _. by apply cnt_notifyAll.
  - by eapply caller_cinv.
Qed.

Lemma reach_cinv c u s : 0 < core_thread_num c → reach c u s → cinv s.
Proof.
  intros Hc [Hv Hr]. pose proof (start_inv c u Hv Hc) as Hi. assert (Hs : cinv (Start (newPool c u)).2).
  { unfold Start. cbn [IsAvailable newPool is_available_ valid_config zfish_pool negb snd]. rewrite add_core_spec. split; simpl; try done.
    - by apply Forall_replicate.
    - by apply Forall_replicate. }
  induction Hr as [|x y z Hxy _ IH]; [done|]. apply IH; [by eapply pstep_inv|].
  destruct Hxy as [?|[?|?]]; [by eapply wstep_cinv|by eapply cstep_cinv|by eapply tstep_cinv].
Qed.

(** *** Progress and termination *)

Definition rank (w : Worker) : nat := match at_ w with WExit | WSleep => 0 | WRun _ => 2 | _ => 1 end.
Definition work (s : Pool) : nat := 2 * length (tasks_ s) + sum_list (rank <$> workers s).

(** After the close a worker's step that leaves or takes a task. *)
Lemma after_wait_work to i a w s s' : workers s !! i = Some a → rank a = 1%nat → after_wait to i w s = Ok s' →
  is_shutdown_ s' = is_shutdown_ s ∧ callers s' = callers s ∧ accepted s' = accepted s ∧ (work s' < work s)%nat.
Proof.
  intros Ha Hr Hs. unfold work. apply after_wait_shape in Hs as [(st & -> & _)|(t & q & Ht & ->)].
  - pose proof (sum_insert rank _ i a (mkWorker (flag w) st WExit) Ha) as S. rewrite Hr in S. cbn in *. split_and!; try done. lia.
  - pose proof (sum_insert rank _ i a (mkWorker (flag w) kRunning (WRun t)) Ha) as S. rewrite Hr in S.
    rewrite Ht. cbn in *. split_and!; try done. lia.
Qed.

Lemma wstep_work s s' : is_shutdown_ s = true → wstep s s' →
  is_shutdown_ s' = true ∧ callers s' = callers s ∧ accepted s' = accepted s ∧ (work s' < work s)%nat.
Proof.
  intros Hsh Hs. destruct Hs as [i w s' Ha Ht Hm He|i w Ha Ht|i w s' Ha Ht Hm He|i w s' Ha Ht Hm He|i w t Ha Ht];
    assert (Hr : rank w = match at_ w with WExit | WSleep => 0 | WRun _ => 2 | _ => 1 end%nat) by done; rewrite Ht in Hr.
  - unfold enter in He. destruct (bool_decide (wstate w = kStop)).
    { injection He as <-. pose proof (sum_insert rank _ i w (mkWorker (flag w) kStop WExit) Ha) as S. rewrite Hr in S.
      unfold work. cbn in *. split_and!; try done. lia. }
    apply test_wait_shape in He as [He|[? _]]; [|cbn in *; congruence].
    eapply (after_wait_work false i w) in He; [|done|done]. cbn in He. unfold work in *. cbn in He. by rewrite Hsh in He.
  - pose proof (sum_insert rank _ i w (mkWorker (flag w) (wstate w) WSleep) Ha) as S. rewrite Hr in S.
    unfold work. cbn in *. split_and!; try done. lia.
  - apply test_wait_shape in He as [He|[? _]]; [|congruence].
    eapply (after_wait_work false i w) in He; [|done|done]. by rewrite Hsh in He.
  - eapply (after_wait_work _ i w) in He; [|done|done]. by rewrite Hsh in He.
  - pose proof (sum_insert rank _ i w (mkWorker (flag w) (wstate w) WTop) Ha) as S. rewrite Hr in S.
    unfold work. cbn in *. split_and!; try done. lia.
Qed.

(** A worker that has not left can move. *)
Lemma close_progress c u s : inv c u s → cinv s → is_shutdown_ s = true → cnt is_notall (callers s) = 0%nat →
  forallb exited (workers s) = false → ∃ s', wstep s s'.
Proof.
  intros Hi Hc Hsh Hn Hf. pose proof (l_block _ Hc Hsh) as Hm. pose proof (l_sleep _ Hc Hsh Hn) as Hz. rewrite cnt_zero in Hz.
  assert (Hex : ∃ i w, workers s !! i = Some w ∧ at_ w ≠ WExit).
  { apply Bool.not_true_iff_false in Hf. destruct (decide (Forall (λ w, exited w = true) (workers s))) as [Ha|Ha].
    - exfalso. apply Hf, forallb_forall. intros w Hw. rewrite Forall_forall in Ha. apply Ha. by apply list_elem_of_In.
    - apply not_Forall_Exists in Ha; [|apply _]. apply Exists_exists in Ha as (w & Hw & He).
      apply list_elem_of_lookup_1 in Hw as [i Hw]. exists i, w. split; [done|]. intros E. apply He. unfold exited. by rewrite E. }
  destruct Hex as (i & w & Hw & He). destruct (at_ w) eqn:Ea.
  - destruct (enter_inv _ _ _ _ _ Hi Hw Ea) as (s' & E & _). eexists. by eapply w_enter.
  - eexists. by eapply w_block.
  - specialize (Hz i w Hw). unfold is_sleep in Hz. by rewrite Ea in Hz.
  - destruct (retest_inv _ _ _ _ _ Hi Hw Ea) as (s' & E & _). eexists. by eapply w_retest.
  - destruct (timed_out_inv _ _ _ _ _ Hi Hw Ea) as (s' & E & _). eexists. by eapply w_late.
  - eexists. by eapply w_done.
  - done.
Qed.

(** With every worker gone nothing is left. *)
Lemma all_done c u s : inv c u s → cinv s → forallb exited (workers s) = true → tasks_ s = [] ∧ finished s ≡ₚ accepted s.
Proof.
  intros Hi Hc Hx. assert (Hall : ∀ i w, workers s !! i = Some w → at_ w = WExit).
  { intros i w Hw. rewrite forallb_forall in Hx. specialize (Hx w). unfold exited in Hx.
    assert (Hin : In w (workers s)) by (by eapply list_elem_of_In, list_elem_of_lookup_2). specialize (Hx Hin).
    by destruct (at_ w). }
  assert (Ht : tasks_ s = []).
  { destruct (g_core _ _ _ Hi) as (w & Hw & _). by apply (Forall_lookup_1 _ _ _ _ (l_core _ Hc) Hw), (Hall 0%nat). }
  split; [done|]. rewrite (g_fifo _ _ _ Hi), Ht, app_nil_r, (g_perm _ _ _ Hi), (l_pop _ Hc). simpl.
  replace (omap task_of (workers s)) with (@nil Z); [by rewrite app_nil_r|].
  symmetry. clear -Hall. induction (workers s) as [|w l IH]; [done|]. rewrite omap_cons_option, IH.
  - unfold task_of. by rewrite (Hall 0%nat w eq_refl).
  - intros i. apply (Hall (S i)).
Qed.

Lemma close_terminates n c u s : inv c u s → cinv s → is_shutdown_ s = true → cnt is_notall (callers s) = 0%nat →
  (work s <= n)%nat → ∃ s', rtc wstep s s' ∧ forallb exited (workers s') = true ∧ inv c u s' ∧ cinv s' ∧ accepted s' = accepted s.
Proof.
  revert s. induction n as [|n IH]; intros s Hi Hc Hsh Hn Hw; destruct (forallb exited (workers s)) eqn:He;
    try (by exists s; split_and!; [apply rtc_refl|..]);
    destruct (close_progress c u s Hi Hc Hsh Hn He) as (s1 & Hs); destruct (wstep_work s s1 Hsh Hs) as (H1 & H2 & H3 & H4).
  - lia.
  - destruct (IH s1) as (s2 & R & X & I2 & C2 & A); [by eapply wstep_inv|by eapply wstep_cinv|done|by rewrite H2|lia|].
    exists s2. split_and!; [by eapply rtc_l|done|done|done|congruence].
Qed.

End Close.

(** ** Properties *)


(** A user queues task 7 on the pool of hlib/thread_pool.h, adding a cache thread;
    the cache thread sleeps until its timeout after the core thread took the task. *)
Definition sample_config : PoolConfig := config_of 1 2 3 0.
Lemma cachepool_sample_reach : ∃ s, @reach hlib_pool sample_config 1 s ∧ accepted s = [7] ∧ length (workers s) = 2%nat
  ∧ finished s = [7] ∧ callers s = [CIdle] ∧ (exited <$> workers s) = [false; true].
Proof.
  eexists. split; [split; [reflexivity|]|].
  - run_step ltac:(right; left; apply (@c_run hlib_pool _ 0%nat 7); reflexivity).
    run_step ltac:(right; left; apply (@c_total hlib_pool _ 0%nat 7); reflexivity).
    run_step ltac:(right; left; apply (@c_add hlib_pool _ 0%nat 7); reflexivity).
    run_step ltac:(right; left; apply (@c_list hlib_pool _ 0%nat 7); reflexivity).
    run_step ltac:(right; left; apply (@c_push hlib_pool _ 0%nat 7); reflexivity).
    run_step ltac:(left; eapply (@w_enter _ 0%nat); reflexivity).
    run_step ltac:(left; eapply (@w_enter _ 1%nat); reflexivity).
    run_step ltac:(left; eapply (@w_block _ 1%nat); reflexivity).
    run_step ltac:(right; right; eapply (@t_timeout _ 1%nat); done).
    run_step ltac:(right; left; eapply (@c_notify hlib_pool _ 0%nat); [reflexivity|apply notify_none; reflexivity]).
    run_step ltac:(left; eapply (@w_late _ 1%nat); reflexivity).
    run_step ltac:(left; eapply (@w_done _ 0%nat); reflexivity). apply rtc_refl.
  - vm_compute. split_and!; reflexivity.
Qed.


(** C21: once [close] of zfish.hpp's pool has notified its workers, its [join]s
    return: as long as a worker has not left one can move, the workers can make
    only as many steps as there is work, and when all have left every task that
    was queued has been done. *)
Theorem zfish_close_drains c users s : 0 < core_thread_num c → @reach zfish_pool c users s →
  is_shutdown_ s = true → cnt Close.is_notall (callers s) = 0%nat →
  (∃ s', rtc wstep s s' ∧ forallb exited (workers s') = true ∧ tasks_ s' = [] ∧ finished s' ≡ₚ accepted s)
  ∧ (forallb exited (workers s) = false → ∃ s', wstep s s')
  ∧ (∀ k s', nsteps wstep k s s' → (k <= Close.work s)%nat).
Proof.
  intros Hc Hr Hsh Hn. pose proof (@reach_inv zfish_pool _ _ _ Hc Hr) as Hi. pose proof (Close.reach_cinv _ _ _ Hc Hr) as Hv.
  split_and!.
  - destruct (Close.close_terminates (Close.work s) c users s Hi Hv Hsh Hn (le_n _)) as (s' & R & X & I & C & A).
    exists s'. destruct (Close.all_done _ _ _ I C X) as [? P]. split_and!; try done. by rewrite <-A.
  - by apply (Close.close_progress c users).
  - intros k s' Hk. clear -Hsh Hk. enough (k + Close.work s' <= Close.work s)%nat by lia.
    induction Hk as [|k s1 s2 s3 Hs _ IH]; [lia|]. destruct (Close.wstep_work s1 s2 Hsh Hs) as (H1 & _ & _ & H4).
    specialize (IH H1). lia.
Qed.

Lemma zfish_close_drains_witness : ∃ s s', @reach zfish_pool sample_config 1 s ∧ accepted s = [7] ∧ finished s = []
  ∧ rtc wstep s s' ∧ finished s' ≡ₚ [7].
Proof.
  assert (Hs : ∃ s, @reach zfish_pool sample_config 1 s ∧ accepted s = [7] ∧ finished s = [] ∧ is_shutdown_ s = true
    ∧ cnt Close.is_notall (callers s) = 0%nat).
  { eexists. split; [split; [reflexivity|]|].
    - run_step ltac:(right; left; apply (@c_run zfish_pool _ 0%nat 7); reflexivity).
      run_step ltac:(right; left; apply (@c_push zfish_pool _ 0%nat 7); reflexivity).
      run_step ltac:(right; left; eapply (@c_notify zfish_pool _ 0%nat); [reflexivity|apply notify_none; reflexivity]).
      run_step ltac:(right; left; apply (@c_shut zfish_pool _ 0%nat false); [reflexivity|by intros _]).
      run_step ltac:(right; left; apply (@c_notall zfish_pool _ 0%nat); reflexivity). apply rtc_refl.
    - vm_compute. split_and!; reflexivity. }
  destruct Hs as (s & Hr & Ha & Hf & Hsh & Hn).
  destruct (zfish_close_drains sample_config 1 s ltac:(reflexivity) Hr Hsh Hn) as ((s' & R & _ & _ & P) & _).
  exists s, s'. rewrite Ha in P. split; [exact Hr|]. split; [exact Ha|]. split; [exact Hf|]. split; [exact R|exact P].
Defined.

(** [Shutdown] of hlib/thread_pool.h stores its flag without the mutex, so a
    worker that has tested its condition and is about to block misses both the
    flag and the notification: the user then waits in [join] for a worker that
    sleeps, and nothing but a spurious wake-up moves either. *)
Theorem shutdown_can_hang : ∃ s, @reach hlib_pool (config_of 1 1 2 0) 1 s
  ∧ is_shutdown_ s = true ∧ is_available_ s = false ∧ tasks_ s = [] ∧ callers s = [CJoin]
  ∧ (at_ <$> workers s) = [WSleep] ∧ (∀ s', ¬ wstep s s') ∧ (∀ s', ¬ @cstep hlib_pool s s').
Proof.
  eexists. split; [split; [reflexivity|]|].
  - run_step ltac:(left; eapply (@w_enter _ 0%nat); reflexivity).
    run_step ltac:(right; left; apply (@c_shut hlib_pool _ 0%nat false); [reflexivity|done]).
    run_step ltac:(right; left; apply (@c_notall hlib_pool _ 0%nat); reflexivity).
    run_step ltac:(left; eapply (@w_block _ 0%nat); reflexivity). apply rtc_refl.
  - split_and!; try reflexivity.
    + intros s' Hs. destruct Hs as [[|[]] w ? Hw Ht|[|[]] w Hw Ht|[|[]] w ? Hw Ht|[|[]] w ? Hw Ht|[|[]] w t Hw Ht];
        vm_compute in Hw; try discriminate Hw; injection Hw as <-; discriminate Ht.
    + intros s' Hs. destruct Hs as [[|[]] t Hp|[|[]] t Hp|[|[]] t Hp|[|[]] t Hp|[|[]] t Hp|[|[]] W Hp|[|[]] b Hp|[|[]] Hp|[|[]] Hp|[|[]] Hp Hj];
        vm_compute in Hp; try discriminate Hp. vm_compute in Hj. lia.
Qed.
