(* ===== verification/PoolResize.v ===== *)
(** * Resizing the pool of fishnet/hlib/wzq_thread_pool.h

    [Reset] and [Resize], the two operations that only this pool has, on the state
    of [CachePool]. The list [worker_threads_], of which the other operations need
    the length alone, is here the list of the positions of its threads: [Resize]
    erases entries of it while the threads they stand for still run. The two
    halves of a shrinking [Resize], the marks and the notification, are separate
    steps, because the code takes no lock around them. *)

From S2P Require Import Prelude BlockingQueue CachePool.
Local Open Scope Z_scope.

Definition Reset (c : PoolConfig) (s : Pool) : bool * Pool :=
  if negb (IsValidConfig c) then (false, s)
  else if negb (core_thread_num (config_ s) =? core_thread_num c) then (false, s)
  else (true, mkPool c (is_available_ s) (is_shutdown_ s) (is_shutdown_now_ s) (waiting_thread_num_ s) (total_task_num_ s)
    (next_thread_id_ s) (tasks_ s) (workers s) (listed s) (callers s) (accepted s) (started s) (finished s) (refused s) (popped s)).

(** The test of the loop of [Resize]. *)
Definition idle_cache (w : Worker) : bool := bool_decide (flag w = kCache) && bool_decide (wstate w = kWaiting).
Definition stop (w : Worker) : Worker := mkWorker (flag w) kStop (at_ w).

(** The loop: the entries that stay, and the threads with their marks. *)
Fixpoint stop_waiting (diff : nat) (L : list nat) (W : list Worker) : list nat * list Worker :=
  match diff, L with
  | O, _ | _, [] => (L, W)
  | S d, i :: L' =>
      match W !! i with
      | Some w => if idle_cache w then stop_waiting d L' (<[i := stop w]> W)
                  else let '(R, W') := stop_waiting diff L' W in (i :: R, W')
      | None => let '(R, W') := stop_waiting diff L' W in (i :: R, W')
      end
  end.

(** [Resize] when it adds threads, and the two halves of [Resize] when it does not. *)
Definition resize_grow (thread_num : Z) (L : list nat) (s : Pool) : list nat * Pool :=
  let k := Z.to_nat (thread_num - Z.of_nat (length L)) in (L ++ seq (length (workers s)) k, add_core k s).
Definition resize_mark (thread_num : Z) (L : list nat) (s : Pool) : list nat * Pool :=
  let '(R, W) := stop_waiting (Z.to_nat (Z.of_nat (length L) - thread_num)) L (workers s) in
  (R, set_listed (length R) (set_workers W s)).
Definition resize_wake (s : Pool) : Pool := set_workers (notifyAll is_sleep wake (workers s)) s.

Definition Resize (thread_num : Z) (L : list nat) (s : Pool) : list nat * Pool :=
  if thread_num <? core_thread_num (config_ s) then (L, s)
  else if Z.of_nat (length L) <? thread_num then resize_grow thread_num L s
  else let '(R, s') := resize_mark thread_num L s in (R, resize_wake s').

(** ** The loop *)

(** The entries of the list are threads, each at most once. *)
Definition listing (L : list nat) (s : Pool) : Prop :=
  NoDup L ∧ Forall (λ i, (i < length (workers s))%nat) L ∧ listed s = length L.

(** How many entries the loop could stop. *)
Definition stoppable (W : list Worker) (L : list nat) : nat := cnt idle_cache (omap (λ i, W !! i) L).

(** A mark on a thread that is not in the rest of the list is not seen there. *)
Lemma stoppable_insert W L i w : i ∉ L → stoppable (<[i := w]> W) L = stoppable W L.
Proof.
  intros Hi. unfold stoppable. f_equal. induction L as [|j L IH]; [done|].
  apply not_elem_of_cons in Hi as [? ?]. rewrite !omap_cons_option, IH, list_lookup_insert_ne by done. done.
Qed.

Lemma stoppable_cons W L i w : W !! i = Some w → stoppable W (i :: L) = (bit (idle_cache w) + stoppable W L)%nat.
Proof.
  intros Hi. unfold stoppable. rewrite omap_cons_option, Hi, cnt_app. f_equal. unfold cnt. cbn. by destruct (idle_cache w).
Qed.

Lemma stop_waiting_threads d L W R W' : stop_waiting d L W = (R, W') → length W' = length W
  ∧ R `sublist_of` L ∧ (∀ i, i ∉ L → W' !! i = W !! i).
Proof.
  revert d W R W'. induction L as [|i L IH]; intros [|d] W R W' E; cbn [stop_waiting] in E; simplify_eq; try done.
  destruct (W !! i) as [w|] eqn:Ei; [destruct (idle_cache w)|].
  - destruct (IH _ _ _ _ E) as (H1 & H2 & H3). rewrite length_insert in H1. split_and!; [done|by constructor|].
    intros j [? ?]%not_elem_of_cons. by rewrite H3, list_lookup_insert_ne.
  - destruct (stop_waiting (S d) L W) as [R0 W0] eqn:E0. simplify_eq. destruct (IH _ _ _ _ E0) as (H1 & H2 & H3).
    split_and!; [done|by constructor|]. intros j [? ?]%not_elem_of_cons. auto.
  - destruct (stop_waiting (S d) L W) as [R0 W0] eqn:E0. simplify_eq. destruct (IH _ _ _ _ E0) as (H1 & H2 & H3).
    split_and!; [done|by constructor|]. intros j [? ?]%not_elem_of_cons. auto.
Qed.

Lemma stop_waiting_exact d L W R W' : NoDup L → Forall (λ i, (i < length W)%nat) L → stop_waiting d L W = (R, W') →
  (length R + Nat.min d (stoppable W L) = length L)%nat
  ∧ ∀ i w, W !! i = Some w → W' !! i = Some (if bool_decide (i ∈ L ∧ i ∉ R) then stop w else w)
       ∧ (i ∈ L → i ∉ R → idle_cache w = true).
Proof.
  revert d W R W'. induction L as [|i L IH]; intros d W R W' Hd Hl E.
  { assert (E' : ([] : list nat, W) = (R, W')) by (by destruct d). simplify_eq. split.
    - unfold stoppable. cbn. lia.
    - intros i w Hw. split; [|set_solver]. rewrite bool_decide_eq_false_2 by set_solver. done. }
  apply NoDup_cons in Hd as [Hi Hd]. apply Forall_cons in Hl as [Hlt Hl]. destruct (lookup_lt_is_Some_2 _ _ Hlt) as [w Hw].
  destruct d as [|d]; cbn [stop_waiting] in E.
  { simplify_eq. split; [cbn [length bit]; lia|]. intros j v Hv. split; [|set_solver]. by rewrite bool_decide_eq_false_2 by set_solver. }
  rewrite Hw in E. rewrite (stoppable_cons _ _ _ _ Hw). destruct (idle_cache w) eqn:Ec.
  - destruct (stop_waiting_threads _ _ _ _ _ E) as (_ & Hsub & _).
    assert (HiR : i ∉ R) by (intros H; apply Hi; by eapply elem_of_sublist).
    destruct (IH _ _ _ _ Hd ltac:(by rewrite length_insert) E) as [Hn Hv]. rewrite stoppable_insert in Hn by done.
    split; [cbn [length bit]; lia|]. intros j v Hj. destruct (decide (j = i)) as [->|Hji].
    + simplify_eq. rewrite bool_decide_eq_true_2 by set_solver. split; [|done].
      destruct (Hv i (stop w)) as [E1 _]; [by apply list_lookup_insert_eq|]. by rewrite bool_decide_eq_false_2 in E1 by set_solver.
    + destruct (Hv j v) as [E1 E2]; [by rewrite list_lookup_insert_ne|]. split; [|set_solver].
      rewrite E1. f_equal. by apply (f_equal (λ b : bool, if b then stop v else v)), bool_decide_ext; set_solver.
  - destruct (stop_waiting (S d) L W) as [R0 W0] eqn:E0. simplify_eq. destruct (IH _ _ _ _ Hd Hl E0) as [Hn Hv].
    split; [cbn [length bit]; lia|]. intros j v Hj. destruct (Hv j v Hj) as [E1 E2]. split; [|set_solver].
    destruct (decide (j = i)) as [->|Hji].
    + rewrite bool_decide_eq_false_2 by set_solver. rewrite bool_decide_eq_false_2 in E1 by set_solver. done.
    + rewrite E1. f_equal. by apply (f_equal (λ b : bool, if b then stop v else v)), bool_decide_ext; set_solver.
Qed.

(** ** What becomes of a marked thread *)

(** However it waits, a thread that finds its mark leaves, with the counter of the
    waiting threads down by one and no task taken. *)
Lemma stopped_leaves to i w s : wstate w = kStop →
  after_wait to i w s = Ok (at_w i (mkWorker (flag w) kStop WExit) (set_waiting (waiting_thread_num_ s - 1) s)).
Proof. intros Hw. unfold after_wait. destruct to; cbn [wstate flag]; [|rewrite Hw]; by rewrite bool_decide_eq_true_2. Qed.

Lemma stopped_wakes s w : wstate w = kStop → wakeup_pred s w = true.
Proof. intros Hw. unfold wakeup_pred. rewrite Hw, (bool_decide_eq_true_2 (kStop = kStop)) by done. by rewrite !orb_true_r. Qed.

Lemma wakes_lookup W i : notifyAll is_sleep wake W !! i = (λ w, if is_sleep w then wake w else w) <$> W !! i.
Proof. apply list_lookup_fmap. Qed.

Lemma listing_grow k L s : listing L s → listing (L ++ seq (length (workers s)) k) (add_core k s).
Proof.
  intros (Hd & Hl & Hn). rewrite add_core_spec. split_and!; simpl.
  - apply NoDup_app. split_and!; [done| |apply NoDup_seq]. intros i Hi Hs%elem_of_seq.
    pose proof (proj1 (Forall_forall _ _) Hl i Hi). simpl in *. lia.
  - rewrite length_app, length_replicate. apply Forall_app. split.
    + eapply Forall_impl; [exact Hl|]. simpl. lia.
    + apply Forall_forall. intros i Hi%elem_of_seq. lia.
  - rewrite length_app, length_seq. lia.
Qed.

(** ** Properties *)

(** [Resize] does nothing below the number of core threads; above the length of
    the list it adds core threads up to exactly the number asked for; otherwise it
    erases as many entries as asked, or all those of cache threads that wait when
    there are fewer, keeps the others in order, marks exactly the threads it
    erased, none of them core threads, and leaves nobody asleep. The list keeps to
    threads that exist, each once, and its length stays the one [Run] compares. *)
Theorem resize_exact n L s : listing L s → let '(R, s') := Resize n L s in
  listing R s'
  ∧ (n < core_thread_num (config_ s) → R = L ∧ s' = s)
  ∧ (core_thread_num (config_ s) <= n → Z.of_nat (length L) < n →
       Z.of_nat (length R) = n ∧ L `prefix_of` R
       ∧ workers s' = workers s ++ replicate (Z.to_nat n - length L) (mkWorker kCore kInit WTop))
  ∧ (core_thread_num (config_ s) <= n <= Z.of_nat (length L) →
       (length R + Nat.min (Z.to_nat (Z.of_nat (length L) - n)) (stoppable (workers s) L) = length L)%nat
       ∧ R `sublist_of` L ∧ length (workers s') = length (workers s) ∧ cnt is_sleep (workers s') = 0%nat
       ∧ ∀ i w, workers s !! i = Some w → ∃ w', workers s' !! i = Some w' ∧ flag w' = flag w
            ∧ (i ∈ L ∧ i ∉ R → flag w = kCache ∧ wstate w = kWaiting ∧ wstate w' = kStop)
            ∧ (¬ (i ∈ L ∧ i ∉ R) → wstate w' = wstate w)).
Proof.
  intros Hl. unfold Resize. destruct (Z.ltb_spec n (core_thread_num (config_ s))).
  { split_and!; [done|done|lia|lia]. }
  destruct (Z.ltb_spec (Z.of_nat (length L)) n).
  { unfold resize_grow. split_and!; [by apply listing_grow|lia| |lia]. intros _ _. rewrite length_app, length_seq.
    split_and!; [lia|by apply prefix_app_r|]. rewrite add_core_spec. simpl. by replace (Z.to_nat n - length L)%nat with (Z.to_nat (n - Z.of_nat (length L))) by lia. }
  unfold resize_mark. destruct (stop_waiting _ L (workers s)) as [R W] eqn:E. destruct Hl as (Hd & Hb & Hn).
  destruct (stop_waiting_threads _ _ _ _ _ E) as (Hlen & Hsub & _).
  destruct (stop_waiting_exact _ _ _ _ _ Hd Hb E) as [Hc Hv].
  assert (Hlw : length (notifyAll is_sleep wake W) = length (workers s)) by (unfold notifyAll; by rewrite length_fmap).
  split_and!; [|lia|lia|intros _; split_and!].
  - split_and!; simpl; [by eapply sublist_NoDup| |done]. rewrite Hlw. apply Forall_forall.
    intros i Hi. by eapply (proj1 (Forall_forall _ _) Hb), elem_of_sublist.
  - done.
  - done.
  - done.
  - by apply cnt_notifyAll.
  - intros i w Hw. destruct (Hv i w Hw) as [Hi Hm]. simpl. rewrite wakes_lookup, Hi. simpl. eexists. split; [reflexivity|].
    destruct (decide (i ∈ L ∧ i ∉ R)) as [Hx|Hx].
    + rewrite bool_decide_eq_true_2 by done. destruct Hx as [Hx1 Hx2]. specialize (Hm Hx1 Hx2). unfold idle_cache in Hm.
      apply andb_true_iff in Hm as [?%bool_decide_eq_true ?%bool_decide_eq_true]. destruct (is_sleep (stop w)); naive_solver.
    + rewrite bool_decide_eq_false_2 by done. destruct (is_sleep w); naive_solver.
Qed.

(** A pool of one core and two cache threads, the first of which left at its
    timeout and the second waits. *)
Definition resize_sample : Pool :=
  set_listed 3 (set_workers [mkWorker kCore kWaiting WSleep; mkWorker kCache kStop WExit; mkWorker kCache kWaiting WSleep]
    (@newPool wzq_pool (mkPoolConfig 1 3 9 1) 1)).

Lemma resize_exact_witness : listing [0; 1; 2]%nat resize_sample
  ∧ (Resize 1 [0; 1; 2]%nat resize_sample).1 = [0; 1]%nat
  ∧ workers (Resize 1 [0; 1; 2]%nat resize_sample).2
    = [mkWorker kCore kWaiting WWake; mkWorker kCache kStop WExit; mkWorker kCache kStop WWake]
  ∧ (Resize 4 [0; 1; 2]%nat resize_sample).1 = [0; 1; 2; 3]%nat
  ∧ listing (Resize 1 [0; 1; 2]%nat resize_sample).1 (Resize 1 [0; 1; 2]%nat resize_sample).2.
Proof.
  assert (Hl : listing [0; 1; 2]%nat resize_sample).
  { split_and!; [|by repeat (constructor; [simpl; lia|])|done]. apply (bool_decide_unpack _). vm_compute. exact I. }
  split; [exact Hl|]. split; [reflexivity|]. split; [reflexivity|]. split; [reflexivity|].
  exact (proj1 (resize_exact 1 [0; 1; 2]%nat resize_sample Hl)).
Defined.

(** A marked thread leaves at its next test, whether it was notified, timed out or
    only comes back from a task, and takes nothing off the queue. *)
Theorem resize_marked_leave i w s : wstate w = kStop →
  let out := Ok (at_w i (mkWorker (flag w) kStop WExit) (set_waiting (waiting_thread_num_ s - 1) s)) in
  test_wait i w s = out ∧ timed_out i w s = out ∧ enter i w s = Ok (at_w i (mkWorker (flag w) kStop WExit) s).
Proof.
  intros Hw out. unfold test_wait, timed_out, enter. rewrite (stopped_wakes s w Hw), !stopped_leaves, Hw by done.
  split_and!; [done|done|]. by rewrite bool_decide_eq_true_2.
Qed.

(** [Reset] keeps the pool's promises about its core threads: it changes nothing
    but the configuration, and that only to a valid one with as many of them. *)
Theorem reset_exact c s : let '(b, s') := Reset c s in
  (b = true ↔ IsValidConfig c = true ∧ core_thread_num c = core_thread_num (config_ s))
  ∧ (b = false → s' = s)
  ∧ (b = true → config_ s' = c ∧ workers s' = workers s ∧ tasks_ s' = tasks_ s ∧ listed s' = listed s
       ∧ waiting_thread_num_ s' = waiting_thread_num_ s).
Proof.
  unfold Reset. destruct (IsValidConfig c); cbn [negb]; [|by split_and!; [split; naive_solver|..]].
  destruct (Z.eqb_spec (core_thread_num (config_ s)) (core_thread_num c)); cbn [negb]; split_and!; try done; naive_solver.
Qed.

(** The marks are set without the mutex. A thread between its test and its wait
    gets its mark and misses the notification, sleeps on, and takes the next
    [notify_one]: it leaves, and the task stays queued while the core thread sleeps
    and no call is under way. *)
Theorem resize_strands_task : ∃ s1 s2 s3 L,
  @reach wzq_pool (mkPoolConfig 1 2 9 1) 1 s1
  ∧ resize_mark 1 [0; 1]%nat s1 = (L, s2) ∧ rtc (@pstep wzq_pool) (resize_wake s2) s3
  ∧ L = [0]%nat ∧ tasks_ s3 = [8] ∧ callers s3 = [CIdle] ∧ (at_ <$> workers s3) = [WSleep; WExit]
  ∧ is_shutdown_ s3 = false ∧ is_shutdown_now_ s3 = false.
Proof.
  eexists _, _, _, _. split; [split; [reflexivity|]|].
  { run_step ltac:(right; left; apply (@c_run wzq_pool _ 0%nat 7); reflexivity).
    run_step ltac:(right; left; apply (@c_total wzq_pool _ 0%nat 7); reflexivity).
    run_step ltac:(right; left; apply (@c_add wzq_pool _ 0%nat 7); reflexivity).
    run_step ltac:(right; left; apply (@c_list wzq_pool _ 0%nat 7); reflexivity).
    run_step ltac:(right; left; apply (@c_push wzq_pool _ 0%nat 7); reflexivity).
    run_step ltac:(right; left; eapply (@c_notify wzq_pool _ 0%nat); [reflexivity|apply notify_none; reflexivity]).
    run_step ltac:(left; eapply (@w_enter _ 0%nat); reflexivity).
    run_step ltac:(left; eapply (@w_done _ 0%nat); reflexivity).
    run_step ltac:(left; eapply (@w_enter _ 0%nat); reflexivity).
    run_step ltac:(left; eapply (@w_block _ 0%nat); reflexivity).
    run_step ltac:(left; eapply (@w_enter _ 1%nat); reflexivity). apply rtc_refl. }
  split; [vm_compute; reflexivity|]. split.
  { run_step ltac:(left; eapply (@w_block _ 1%nat); reflexivity).
    run_step ltac:(left; eapply (@w_retest _ 0%nat); reflexivity).
    run_step ltac:(left; eapply (@w_block _ 0%nat); reflexivity).
    run_step ltac:(right; left; apply (@c_run wzq_pool _ 0%nat 8); reflexivity).
    run_step ltac:(right; left; apply (@c_push wzq_pool _ 0%nat 8); reflexivity).
    run_step ltac:(right; left; eapply (@c_notify wzq_pool _ 0%nat); [reflexivity|by apply (notify_one _ _ _ 1%nat)]).
    run_step ltac:(left; eapply (@w_retest _ 1%nat); reflexivity). apply rtc_refl. }
  vm_compute. split_and!; reflexivity.
Qed.
