(* ===== verification/Mutex.v ===== *)
(** * The mutex and the condition variable (fishnet/base/mutex.h, condition.h, condition.cc)

    [MutexLock] records the thread that holds it, for its assertions; [Condition]
    takes the record back around its wait. The record is written in a step of its
    own, before or after the step on the pthread mutex. *)

From S2P Require Import Prelude Double.
Local Open Scope Z_scope.

(** Where a thread is: outside; with the pthread mutex and the record not
    written yet; in the critical section; with the record cleared, about to
    unlock or about to wait; blocked in the wait; woken, waiting for the pthread
    mutex; and with it again. *)
Inductive pc : Set := Out | Locked | Held | Unlocking | Waiting | Asleep | Woken | Relocked.
#[global] Instance pc_eq_dec : EqDecision pc.
Proof. solve_decision. Defined.

(** [owner]: the thread that has the pthread mutex. *)
Record MutexLock := mkMutexLock { owner : option nat; holder_ : Z; threads : list pc }.

Section mutex.
(** [current_thread::tid()] of each thread. *)
Context (tid : nat → Z).

Definition newMutexLock (n : nat) : MutexLock := mkMutexLock None 0 (replicate n Out).
Definition destroyMutexLock (m : MutexLock) : res unit := assertb (holder_ m =? 0).

Definition assignHolder (i : nat) (m : MutexLock) : MutexLock := mkMutexLock (owner m) (tid i) (threads m).
Definition unassignHolder (m : MutexLock) : MutexLock := mkMutexLock (owner m) 0 (threads m).
Definition isLockedByThisThread (i : nat) (m : MutexLock) : bool := holder_ m =? tid i.
Definition assertLocked (i : nat) (m : MutexLock) : res unit := assertb (isLockedByThisThread i m).

Definition goto (i : nat) (p : pc) (m : MutexLock) : MutexLock := mkMutexLock (owner m) (holder_ m) (<[i := p]> (threads m)).
Definition pthread_lock (i : nat) (m : MutexLock) : MutexLock := mkMutexLock (Some i) (holder_ m) (threads m).
Definition pthread_unlock (m : MutexLock) : MutexLock := mkMutexLock None (holder_ m) (threads m).

(** [lock], [unlock], [Condition::wait] with its [UnassignGuard], and the wake-ups:
    a notification, the end of a timed wait, or none of these. *)
Inductive step (m : MutexLock) : MutexLock → Prop :=
| lock_take i : threads m !! i = Some Out → owner m = None → step m (goto i Locked (pthread_lock i m))
| lock_assign i : threads m !! i = Some Locked → step m (goto i Held (assignHolder i m))
| unlock_unassign i : threads m !! i = Some Held → step m (goto i Unlocking (unassignHolder m))
| unlock_release i : threads m !! i = Some Unlocking → step m (goto i Out (pthread_unlock m))
| wait_unassign i : threads m !! i = Some Held → step m (goto i Waiting (unassignHolder m))
| wait_block i : threads m !! i = Some Waiting → step m (goto i Asleep (pthread_unlock m))
| wait_wake i : threads m !! i = Some Asleep → step m (goto i Woken m)
| wait_take i : threads m !! i = Some Woken → owner m = None → step m (goto i Relocked (pthread_lock i m))
| wait_assign i : threads m !! i = Some Relocked → step m (goto i Held (assignHolder i m)).

(** ** Invariant *)

Definition owns (p : pc) : bool := match p with Locked | Held | Unlocking | Waiting | Relocked => true | _ => false end.

Record inv (m : MutexLock) : Prop := {
  m_owner : ∀ i p, threads m !! i = Some p → owns p = true → owner m = Some i;
  m_held : ∀ i, owner m = Some i → ∃ p, threads m !! i = Some p ∧ owns p = true
                 ∧ holder_ m = if bool_decide (p = Held) then tid i else 0;
  m_free : owner m = None → holder_ m = 0 }.

(** A thread moves to [p], with the owner and the record [o] and [h]. *)
Lemma mutex_move i a p o h m : inv m → threads m !! i = Some a →
  (owns a = true ∨ owner m = None) → o = (if owns p then Some i else None) →
  h = (if bool_decide (p = Held) then tid i else 0) →
  inv (mkMutexLock o h (<[i := p]> (threads m))).
Proof.
  intros [M1 M2 M3] Ha Hc -> ->. pose proof (lookup_lt_Some _ _ _ Ha) as Hl.
  assert (Hout : ∀ j q, j ≠ i → threads m !! j = Some q → owns q = false).
  { intros j q Hj Hq. destruct (owns q) eqn:E; [|done]. pose proof (M1 _ _ Hq E) as Ho.
    destruct Hc as [Hc|Hc]; [rewrite (M1 _ _ Ha Hc) in Ho; congruence|congruence]. }
  split; simpl.
  - intros j q Hj Hq. destruct (decide (i = j)) as [<-|Hn].
    + rewrite list_lookup_insert_eq in Hj by done. injection Hj as <-. by rewrite Hq.
    + rewrite list_lookup_insert_ne in Hj by done. rewrite (Hout j q) in Hq; done.
  - intros j Hj. destruct (owns p) eqn:E; [|done]. injection Hj as <-. exists p.
    by rewrite list_lookup_insert_eq.
  - destruct (owns p) eqn:E; [done|]. intros _. by destruct p.
Qed.

(** The wake-up of a waiting thread. *)
Lemma mutex_wake i m : inv m → threads m !! i = Some Asleep → inv (goto i Woken m).
Proof.
  intros [M1 M2 M3] Ha. pose proof (lookup_lt_Some _ _ _ Ha) as Hl. split; simpl; [| |done].
  - intros j q Hj Hq. destruct (decide (i = j)) as [<-|Hn].
    + rewrite list_lookup_insert_eq in Hj by done. by injection Hj as <-.
    + rewrite list_lookup_insert_ne in Hj by done. eauto.
  - intros j Hj. destruct (M2 j Hj) as (p & Hp & Hq & Hh). exists p. split; [|done].
    destruct (decide (i = j)) as [<-|Hn]; [|by rewrite list_lookup_insert_ne]. rewrite Ha in Hp. by injection Hp as <-.
Qed.

Lemma mutex_step_inv m m' : inv m → step m m' → inv m'.
Proof.
  intros Hi Hs. destruct Hs as [i Hp Ho|i Hp|i Hp|i Hp|i Hp|i Hp|i Hp|i Hp Ho|i Hp]; try (by apply mutex_wake);
    unfold goto, assignHolder, unassignHolder, pthread_lock, pthread_unlock; simpl;
    try (eapply mutex_move; [done|exact Hp|by auto| |]; try done; by eapply m_owner).
  - eapply mutex_move; [done|exact Hp|by auto|done|]. by apply Hi.
  - destruct (m_held m Hi i) as (p & Hp' & _ & Hh); [by eapply m_owner|]. rewrite Hp in Hp'. injection Hp' as <-.
    by eapply mutex_move; [done|exact Hp|auto|..].
  - destruct (m_held m Hi i) as (p & Hp' & _ & Hh); [by eapply m_owner|]. rewrite Hp in Hp'. injection Hp' as <-.
    by eapply mutex_move; [done|exact Hp|auto|..].
  - eapply mutex_move; [done|exact Hp|by auto|done|]. by apply Hi.
Qed.

Lemma mutex_reach_inv n m : rtc step (newMutexLock n) m → inv m.
Proof.
  intros Hr. remember (newMutexLock n) as m0 eqn:E. assert (H0 : inv m0).
  { subst. split; simpl; [|done|done]. by intros i p [-> _]%lookup_replicate. }
  clear E. induction Hr as [|x y z Hxy _ IH]; [done|]. by eapply IH, mutex_step_inv.
Qed.

End mutex.

(** ** The deadline of [Condition::waitForSeconds] *)

Definition kNanoSecondsPerSecond : Z := 1000000000.
(** The time the clock gave and the seconds to wait; C++ division truncates. *)
Definition abstime (tv_sec tv_nsec : Z) (seconds : double) : res (Z * Z) :=
  nanoseconds ← double_to_i64 (dmul seconds (double_of_Z kNanoSecondsPerSecond));
  sum ← i64 (tv_nsec + nanoseconds);
  sec ← i64 (tv_sec + Z.quot sum kNanoSecondsPerSecond);
  Ok (sec, Z.rem sum kNanoSecondsPerSecond).

(** ** Properties *)

(** C23: with any number of threads that lock, unlock and wait, in any
    interleaving: at most one is in the critical section or on its way in or out;
    the record names exactly the thread in the critical section, so that
    [isLockedByThisThread], called by any thread at any time, is true of that
    thread alone and [assertLocked] fails nowhere in the section, also after a
    [wait]; and once the mutex is free its destructor's assertion holds. *)
Theorem mutex_holder_exact tid n m : (∀ i, 0 < tid i) → (∀ i j, tid i = tid j → i = j) → rtc (step tid) (newMutexLock n) m →
  (∀ i j p q, threads m !! i = Some p → threads m !! j = Some q → owns p = true → owns q = true → i = j)
  ∧ (∀ i p, threads m !! i = Some p → isLockedByThisThread tid i m = bool_decide (p = Held))
  ∧ (owner m = None → destroyMutexLock m = Ok ()).
Proof.
  intros Hpos Hinj Hr%mutex_reach_inv. destruct Hr as [M1 M2 M3]. split_and!.
  - intros i j p q Hp Hq Op Oq. pose proof (M1 _ _ Hp Op). pose proof (M1 _ _ Hq Oq). congruence.
  - intros i p Hp. unfold isLockedByThisThread. specialize (Hpos i). destruct (owner m) as [j|] eqn:Ho.
    + destruct (M2 j eq_refl) as (q & Hq & Oq & ->). destruct (decide (i = j)) as [<-|Hn].
      * rewrite Hp in Hq. injection Hq as <-. destruct (bool_decide (p = Held)); [apply Z.eqb_refl|]. lia.
      * rewrite (bool_decide_eq_false_2 (p = Held)) by (intros ->; specialize (M1 _ _ Hp eq_refl); congruence).
        destruct (bool_decide (q = Held)); apply Z.eqb_neq; [|lia]. intros E. apply Hn. symmetry. by apply Hinj.
    + rewrite (M3 eq_refl). rewrite (bool_decide_eq_false_2 (p = Held)) by (intros ->; specialize (M1 _ _ Hp eq_refl); congruence).
      apply Z.eqb_neq. lia.
  - intros Ho. unfold destroyMutexLock. by rewrite (M3 Ho).
Qed.

(** Thread 1 is in the section while thread 0 waits on the condition. *)
Lemma mutex_holder_exact_witness : ∃ m, rtc (step (λ i, Z.of_nat i + 1)) (newMutexLock 2) m
  ∧ threads m = [Asleep; Held] ∧ isLockedByThisThread (λ i, Z.of_nat i + 1) 1 m = true
  ∧ isLockedByThisThread (λ i, Z.of_nat i + 1) 0 m = false.
Proof.
  set (tid := λ i, Z.of_nat i + 1).
  assert (Hr : rtc (step tid) (newMutexLock 2) (mkMutexLock (Some 1%nat) 2 [Asleep; Held])).
  { eapply rtc_l; [apply (lock_take _ _ 0%nat); reflexivity|].
    eapply rtc_l; [apply (lock_assign _ _ 0%nat); reflexivity|].
    eapply rtc_l; [apply (wait_unassign _ _ 0%nat); reflexivity|].
    eapply rtc_l; [apply (wait_block _ _ 0%nat); reflexivity|].
    eapply rtc_l; [apply (lock_take _ _ 1%nat); reflexivity|].
    eapply rtc_l; [apply (lock_assign _ _ 1%nat); reflexivity|]. apply rtc_refl. }
  destruct (mutex_holder_exact tid 2 _ ltac:(intros i; unfold tid; lia) ltac:(intros i j; unfold tid; lia) Hr) as (_ & H & _).
  eexists. split; [exact Hr|]. split; [reflexivity|]. split; [exact (H 1%nat Held eq_refl)|exact (H 0%nat Asleep eq_refl)].
Defined.

(** The deadline is the time given plus the wait; when that is not before the
    second given it is in the form [pthread_cond_timedwait] accepts, and a negative
    wait that ends earlier and not on a second has negative nanoseconds, which it refuses. *)
Theorem wait_deadline sec nsec seconds d : abstime sec nsec seconds = Ok d →
  ∃ ns, double_to_i64 (dmul seconds (double_of_Z kNanoSecondsPerSecond)) = Ok ns
  ∧ d.1 * kNanoSecondsPerSecond + d.2 = sec * kNanoSecondsPerSecond + nsec + ns
  ∧ (0 <= nsec + ns → 0 <= d.2 < kNanoSecondsPerSecond)
  ∧ (nsec + ns < 0 → Z.rem (nsec + ns) kNanoSecondsPerSecond ≠ 0 → d.2 < 0).
Proof.
  unfold abstime, i64. intros (ns & E & Hd)%bind_ok_inv. exists ns. split; [done|].
  apply bind_ok_inv in Hd as (sum & (_ & _ & [= <-])%bind_ok_inv & Hd).
  apply bind_ok_inv in Hd as (s & (_ & _ & [= <-])%bind_ok_inv & [= <-]). cbn [fst snd].
  pose proof (Z.quot_rem' (nsec + ns) kNanoSecondsPerSecond). unfold kNanoSecondsPerSecond in *. split_and!.
  - lia.
  - intros Hp. pose proof (Z.rem_bound_pos (nsec + ns) 1000000000). lia.
  - intros Hp Hz. pose proof (Z.rem_nonpos (nsec + ns) 1000000000). lia.
Qed.
