(* ===== verification/Thread.v ===== *)
(** * Threads (fishnet/base/thread.h, thread.cc, atomic.h)

    [Thread]: the thread that starts, joins and destroys it, and the thread it
    creates, which hands its id over and counts the latch of [start] down. The
    latch is that of [BlockingQueue], the thread-local data that of [Logging]. *)

From S2P Require Import Prelude Printf BlockingQueue Logging.
Import CountDownLatch.
Local Open Scope Z_scope.

(** ** Atomic integers *)

(** A 32-bit counter: the result and the value stored. The intrinsic wraps
    around, the addition that follows it must not. *)
Module AtomicInt32.
Definition get (value_ : Z) : Z * Z := (value_, if value_ =? 0 then 0 else value_).
Definition getAndAdd (x value_ : Z) : Z * Z := (value_, s32 (value_ + x)).
Definition addAndGet (x value_ : Z) : res (Z * Z) :=
  let '(old, new) := getAndAdd x value_ in r ← i32 (old + x); Ok (r, new).
Definition incrementAndGet (value_ : Z) : res (Z * Z) := addAndGet 1 value_.
Definition decrementAndGet (value_ : Z) : res (Z * Z) := addAndGet (-1) value_.
Definition getAndSet (newValue value_ : Z) : Z * Z := (value_, newValue).
End AtomicInt32.

(** ** State *)

(** The owner: the object constructed; waiting in [start]; started; waiting in
    [join]; joined; the object destroyed. *)
Inductive opc : Set := ONew | OWait | OStarted | OJoining | OJoined | OGone.
(** The thread: not created; before each part of [runInThread]; running the
    function; finished; crashed, which aborts the process. *)
Inductive tpc : Set := TNone | TBegin | TTid | TCounted | TRun | TEnd | TCrash.
#[global] Instance opc_eq_dec : EqDecision opc.
Proof. solve_decision. Defined.
#[global] Instance tpc_eq_dec : EqDecision tpc.
Proof. solve_decision. Defined.

Record Thread := mkThread {
  started_ : bool; joined_ : bool; tid_ : Z; name_ : bytes; latch_ : Latch;
  detached : bool; at_o : opc; at_t : tpc; tls : TLS; t_threadName : bytes }.

Definition set_own (st jo de : bool) (o : opc) (s : Thread) : Thread :=
  mkThread st jo (tid_ s) (name_ s) (latch_ s) de o (at_t s) (tls s) (t_threadName s).
Definition set_latch (l : Latch) (s : Thread) : Thread :=
  mkThread (started_ s) (joined_ s) (tid_ s) (name_ s) l (detached s) (at_o s) (at_t s) (tls s) (t_threadName s).
Definition set_at (p : tpc) (s : Thread) : Thread :=
  mkThread (started_ s) (joined_ s) (tid_ s) (name_ s) (latch_ s) (detached s) (at_o s) p (tls s) (t_threadName s).
Definition set_tname (n : bytes) (s : Thread) : Thread :=
  mkThread (started_ s) (joined_ s) (tid_ s) (name_ s) (latch_ s) (detached s) (at_o s) (at_t s) (tls s) n.
Definition set_tid (t : Z) (l : TLS) (s : Thread) : Thread :=
  mkThread (started_ s) (joined_ s) t (name_ s) (latch_ s) (detached s) (at_o s) (at_t s) l (t_threadName s).

(** ** Operations *)

Definition setDefaultName (numCreated_ : Z) (n : bytes) : res (bytes * Z) :=
  '(num, next) ← AtomicInt32.incrementAndGet numCreated_;
  Ok (if bool_decide (n = []) then snprintf 32 (str "Thread" ++ dec num) else n, next).
Definition newThread (numCreated_ : Z) (n : bytes) : res (Thread * Z) :=
  '(name, next) ← setDefaultName numCreated_ n;
  Ok (mkThread false false 0 name (newLatch 1 1) false ONew TNone newTLS [], next).
Definition destroyThread (s : Thread) : Thread :=
  set_own (started_ s) (joined_ s) (started_ s && negb (joined_ s)) OGone s.

(** [start] up to its wait, [created] telling what [pthread_create] did, and
    what follows the wait. *)
Definition start (created : bool) (s : Thread) : res Thread :=
  assertb (negb (started_ s));;
  if created then Ok (set_at TBegin (set_own true (joined_ s) (detached s) OWait s)) else Err Fatal.
Definition start_return (s : Thread) : res Thread :=
  assertb (0 <? tid_ s);; Ok (set_own (started_ s) (joined_ s) (detached s) OStarted s).
Definition join (s : Thread) : res Thread :=
  assertb (started_ s);; assertb (negb (joined_ s));; Ok (set_own (started_ s) true (detached s) OJoining s).

(** [runInThread]: the id, the latch, the name, the function. *)
Definition run_tid (gettid : Z) (s : Thread) : Thread :=
  let l := tid gettid (tls s) in set_at TTid (set_tid (t_cachedTid l) l s).
Definition run_latch (s : Thread) : res Thread := l ← countDown (latch_ s); Ok (set_at TCounted (set_latch l s)).
Definition run_name (s : Thread) : Thread :=
  set_at TRun (set_tname (if bool_decide (name_ s = []) then str "fishnetThread" else c_str (name_ s)) s).
(** The function returns, or throws. *)
Definition run_func (throws : bool) (s : Thread) : Thread :=
  if throws then set_at TCrash (set_tname (str "crashed") s) else set_at TEnd (set_tname (str "finished") s).

Section threads.
Context (gettid : Z).

(** The owner starts, joins and destroys the thread in this order, joining at
    most once; a crash ends the process. *)
Inductive ostep (s : Thread) : Thread → Prop :=
| o_start s' : at_o s = ONew → start true s = Ok s' → ostep s s'
| o_wait : at_o s = OWait → threads (latch_ s) !! 0%nat = Some Idle → ostep s (set_latch (at_pc 0 Testing (latch_ s)) s)
| o_test : at_o s = OWait → threads (latch_ s) !! 0%nat = Some Testing →
    ostep s (set_latch (at_pc 0 (wait_section (count_ (latch_ s))) (latch_ s)) s)
| o_spurious : at_o s = OWait → threads (latch_ s) !! 0%nat = Some Sleeping → ostep s (set_latch (at_pc 0 Testing (latch_ s)) s)
| o_return s' : at_o s = OWait → threads (latch_ s) !! 0%nat = Some Returned → start_return s = Ok s' → ostep s s'
| o_join s' : at_o s = OStarted → join s = Ok s' → ostep s s'
| o_joined : at_o s = OJoining → at_t s = TEnd → ostep s (set_own (started_ s) (joined_ s) (detached s) OJoined s)
| o_destroy : at_o s = ONew ∨ at_o s = OStarted ∨ at_o s = OJoined → ostep s (destroyThread s).

Inductive tstep (s : Thread) : Thread → Prop :=
| t_tid : at_t s = TBegin → tstep s (run_tid gettid s)
| t_latch s' : at_t s = TTid → run_latch s = Ok s' → tstep s s'
| t_name : at_t s = TCounted → tstep s (run_name s)
| t_func b : at_t s = TRun → tstep s (run_func b s).

Definition step (s s' : Thread) : Prop := at_t s ≠ TCrash ∧ (ostep s s' ∨ tstep s s').

(** ** Invariant *)

Definition counted (p : tpc) : bool := match p with TNone | TBegin | TTid => false | _ => true end.
Definition has_tid (p : tpc) : bool := match p with TNone | TBegin => false | _ => true end.

Record inv (n : bytes) (s : Thread) : Prop := {
  h_name : name_ s = n;
  h_tid : tid_ s = if has_tid (at_t s) then gettid else 0;
  h_tls : tls s = if has_tid (at_t s) then tid gettid newTLS else newTLS;
  h_latch : ∃ p, latch_ s = mkLatch (if counted (at_t s) then 0 else 1) [p] (if counted (at_t s) then 1 else 0)
     ∧ (p = Sleeping → counted (at_t s) = false) ∧ (p = Returned → counted (at_t s) = true)
     ∧ (at_o s = OStarted ∨ at_o s = OJoining ∨ at_o s = OJoined → p = Returned)
     ∧ (at_o s = OGone → started_ s = true → p = Returned);
  h_new : at_o s = ONew ↔ started_ s = false ∧ at_o s ≠ OGone;
  h_none : started_ s = false ↔ at_t s = TNone;
  h_join : at_o s ≠ OGone → joined_ s = true ↔ at_o s = OJoining ∨ at_o s = OJoined;
  h_end : at_o s = OJoined → at_t s = TEnd;
  h_detach : at_o s = OGone → detached s = started_ s && negb (joined_ s);
  h_tname : at_t s = TRun → t_threadName s = c_str n }.

Lemma tid_cached : t_cachedTid (tid gettid newTLS) = gettid.
Proof. unfold tid, cacheTid. simpl. done. Qed.

(** The invariant's clauses after a step of the owner that leaves the latch. *)
Ltac thread_clauses := split; simpl; try done; try (by intuition (congruence || eauto)).

Lemma ostep_thread_inv n s s' : inv n s → ostep s s' → inv n s'.
Proof.
  intros [H1 H2 H3 (p & Hl & L1 & L2 & L3 & L4) H5 H6 H7 H8 H9 H10] Hs.
  assert (Hlat : ∀ q, (q = Sleeping → counted (at_t s) = false) → (q = Returned → counted (at_t s) = true) → at_o s = OWait →
    inv n (set_latch (at_pc 0 q (latch_ s)) s)).
  { intros q Q1 Q2 Ho. thread_clauses. exists q. rewrite Hl. split; [done|]. split_and!; try done; intros; naive_solver congruence. }
  destruct Hs as [s' Ho Hs|Ho Hp|Ho Hp|Ho Hp|s' Ho Hp Hs|s' Ho Hs|Ho He|Ho].
  - destruct (proj1 H5 Ho) as [Hst _]. unfold start in Hs. rewrite Hst in Hs. injection Hs as <-.
    pose proof (proj1 H6 Hst) as Ht. rewrite Ht in *. thread_clauses. exists p. simpl. naive_solver.
  - by apply Hlat.
  - apply Hlat; [| |done]; unfold wait_section; rewrite Hl; simpl; destruct (counted (at_t s)); simpl; done.
  - by apply Hlat.
  - rewrite Hl in Hp. injection Hp as ->. unfold start_return in Hs. apply bind_ok_inv in Hs as (_ & _ & [= <-]).
    thread_clauses. exists Returned. naive_solver.
  - unfold join in Hs. apply bind_ok_inv in Hs as (_ & _ & Hs). apply bind_ok_inv in Hs as (_ & _ & [= <-]).
    thread_clauses. exists p. naive_solver.
  - thread_clauses. exists p. naive_solver.
  - assert (Hr : started_ s = true → p = Returned).
    { intros Hst. destruct Ho as [Ho|Ho]; [|by apply L3; tauto]. destruct (proj1 H5 Ho). congruence. }
    split; simpl; try done.
    + exists p. split_and!; try done; intros [?|[?|?]]; done.
    + by split; intros; [|tauto].
Qed.

Lemma tstep_thread_inv n s s' : n ≠ [] → inv n s → tstep s s' → inv n s'.
Proof.
  intros Hn [H1 H2 H3 (p & Hl & L1 & L2 & L3 & L4) H5 H6 H7 H8 H9 H10] Hs.
  assert (Hst : at_t s ≠ TNone → started_ s = true).
  { intros Hne. destruct (started_ s); [done|]. by destruct Hne, H6; auto. }
  assert (Hj : at_t s ≠ TEnd → at_o s ≠ OJoined) by (intros Hne Ho; by apply Hne, H8).
  destruct Hs as [Ht|s' Ht Hs|Ht|b Ht]; rewrite Ht in *; simpl in *; specialize (Hst ltac:(done)); specialize (Hj ltac:(done)).
  - unfold run_tid. rewrite H3. pose proof tid_cached. split; simpl; try done; [by exists p|by rewrite Hst].
  - unfold run_latch in Hs. rewrite Hl in Hs. unfold countDown in Hs. simpl in Hs. injection Hs as <-.
    split; simpl; try done; [|by rewrite Hst]. exists (if is_sleeping p then wake p else p). split; [done|].
    destruct p; simpl; split_and!; try done; by intuition congruence.
  - unfold run_name. split; simpl; try done; [by exists p|by rewrite Hst|]. intros _. rewrite H1.
    by rewrite bool_decide_eq_false_2.
  - unfold run_func. destruct b; split; simpl; try done; try (by exists p); by rewrite Hst.
Qed.

Lemma thread_step_inv n s s' : n ≠ [] → inv n s → step s s' → inv n s'.
Proof. intros Hn Hi [_ [Hs|Hs]]; eauto using ostep_thread_inv, tstep_thread_inv. Qed.

(** *** A waiting owner gets out of [start] *)

Definition leaves (s : Thread) : Prop := ∃ s', rtc step s s' ∧ at_o s' = OStarted.
Definition alive (s : Thread) : Prop := at_o s = OWait ∧ at_t s ≠ TCrash.

Lemma leaves_step s s' : step s s' → leaves s' → leaves s.
Proof. intros Hs (s2 & Hr & Ho). exists s2. split; [by eapply rtc_l|done]. Qed.

Section waiting.
Context (n : bytes) (Hg : 0 < gettid) (Hn : n ≠ []).

Lemma leaves_returned s : inv n s → alive s → threads (latch_ s) !! 0%nat = Some Returned → leaves s.
Proof using Hg.
  intros Hi [Ho Hx] Hp. eexists. split; [apply rtc_once; split; [done|]; left; apply (o_return s _ Ho Hp)|].
  - unfold start_return. destruct (h_latch _ _ Hi) as (p & Hl & _ & L2 & _). rewrite Hl in Hp. injection Hp as ->.
    specialize (L2 eq_refl). rewrite (h_tid _ _ Hi). replace (has_tid (at_t s)) with true by (by destruct (at_t s)).
    by rewrite (proj2 (Z.ltb_lt _ _)).
  - done.
Qed.

Lemma leaves_testing s : inv n s → alive s → counted (at_t s) = true → threads (latch_ s) !! 0%nat = Some Testing → leaves s.
Proof using Hg Hn.
  intros Hi [Ho Hx] Hc Hp. pose proof (o_test s Ho Hp) as Hs. eapply leaves_step; [split; [done|by left]|].
  apply leaves_returned; [by eapply ostep_thread_inv|done|].
  destruct (h_latch _ _ Hi) as (p & Hl & _). rewrite Hc in Hl. by rewrite Hl.
Qed.

Lemma leaves_counted s : inv n s → alive s → counted (at_t s) = true → leaves s.
Proof using Hg Hn.
  intros Hi Ha Hc. destruct (h_latch _ _ Hi) as (p & Hl & L1 & _). rewrite Hc in *. simpl in *. destruct p.
  - assert (Hs : ostep s (set_latch (at_pc 0 Testing (latch_ s)) s)) by (apply o_wait; [apply Ha|by rewrite Hl]).
    eapply leaves_step; [split; [apply Ha|by left]|]. apply leaves_testing; [by eapply ostep_thread_inv|done|done|by rewrite Hl].
  - apply leaves_testing; try done. by rewrite Hl.
  - by specialize (L1 eq_refl).
  - apply leaves_returned; try done. by rewrite Hl.
Qed.

Lemma leaves_tid s : inv n s → alive s → at_t s = TTid → leaves s.
Proof using Hg Hn.
  intros Hi [Ho Hx] Ht. destruct (h_latch _ _ Hi) as (p & Hl & _). rewrite Ht in Hl. simpl in Hl.
  assert (Hs : ∃ s', run_latch s = Ok s' ∧ at_o s' = at_o s ∧ at_t s' = TCounted).
  { unfold run_latch. rewrite Hl. eexists. split; [reflexivity|done]. }
  destruct Hs as (s' & Hs & Ho' & Ht'). eapply leaves_step; [split; [done|right; by apply t_latch]|].
  apply leaves_counted; [eapply tstep_thread_inv; [done|done|by apply t_latch]| |by rewrite Ht']. split; [by rewrite Ho'|by rewrite Ht'].
Qed.

Lemma leaves_start s : inv n s → alive s → leaves s.
Proof using Hg Hn.
  intros Hi Ha. destruct (at_t s) eqn:Ht; try (by apply leaves_counted; [..|by rewrite Ht]); [| |by apply leaves_tid].
  - destruct Ha as [Ho _]. assert (E : at_o s = ONew); [|congruence].
    apply (h_new _ _ Hi). split; [by apply (h_none _ _ Hi)|by rewrite Ho].
  - eapply leaves_step; [split; [apply Ha|right; by apply t_tid]|]. apply leaves_tid; [|by split; [apply Ha|]|done].
    eapply tstep_thread_inv; [done|done|by apply t_tid].
Qed.
End waiting.

End threads.

(** ** Properties *)

Lemma newThread_inv gettid num n s next : newThread num n = Ok (s, next) → inv gettid (name_ s) s ∧ name_ s ≠ [].
Proof.
  unfold newThread, setDefaultName. intros Hs. apply bind_ok_inv in Hs as ([name x] & Hn & [= <- <-]).
  apply bind_ok_inv in Hn as ([k nx] & _ & [= <- <-]). split; simpl.
  - split; simpl; try done; try (by split; intros; [|tauto]); try (by split; [|intros [|]]).
    exists Idle. split_and!; try done; by intros [|[|]].
  - by case_bool_decide.
Qed.

(** C22: a [Thread] constructed with any name, its owner and the thread it creates
    running in any interleaving: [start] always gets out of its wait, and then the
    thread's id is known, so that its assertion holds; the function runs with the
    thread's id cached and its name set; [join], called once, passes its assertions
    and returns only after the function has returned; and the thread uses nothing of an
    object that has been destroyed, which was detached exactly if it was not joined. *)
Theorem thread_start_join gettid num n s0 next s : 0 < gettid → newThread num n = Ok (s0, next) → rtc (step gettid) s0 s →
  (at_o s = OWait → threads (latch_ s) !! 0%nat = Some Returned → is_ok (start_return s) = true)
  ∧ (at_o s = OWait → at_t s ≠ TCrash → ∃ s', rtc (step gettid) s s' ∧ at_o s' = OStarted)
  ∧ (at_o s = OStarted → tid_ s = gettid ∧ is_ok (join s) = true)
  ∧ (at_t s = TRun → tls s = tid gettid newTLS ∧ t_threadName s = c_str (name_ s0))
  ∧ (at_o s = OJoined → at_t s = TEnd)
  ∧ (at_o s = OGone → at_t s ≠ TBegin ∧ at_t s ≠ TTid ∧ detached s = started_ s && negb (joined_ s)).
Proof.
  intros Hg Hnew Hr. destruct (newThread_inv gettid _ _ _ _ Hnew) as [H0 Hn].
  assert (Hi : inv gettid (name_ s0) s).
  { remember (name_ s0) as nm eqn:E. clear E Hnew. induction Hr as [|x y z Hxy _ IH]; [done|]. by eapply IH, thread_step_inv. }
  pose proof Hi as [H1 H2 H3 (p & Hl & L1 & L2 & L3 & L4) H5 H6 H7 H8 H9 H10].
  assert (Hret : p = Returned → tid_ s = gettid).
  { intros Hp. specialize (L2 Hp). rewrite H2. by destruct (at_t s). }
  split_and!.
  - rewrite Hl. intros _ [= ->]. unfold start_return. rewrite Hret by done. by rewrite (proj2 (Z.ltb_lt _ _)).
  - intros Ho Hx. by apply (leaves_start gettid (name_ s0)).
  - intros Ho. rewrite Hret by auto. split; [done|]. unfold join. destruct (started_ s) eqn:E1; destruct (joined_ s) eqn:E2; try done.
    + rewrite Ho in H7. naive_solver.
    + rewrite Ho in H5. naive_solver.
    + rewrite Ho in H5. naive_solver.
  - intros Ht. rewrite Ht in *. auto.
  - done.
  - intros Ho. destruct (started_ s) eqn:E; [specialize (L2 (L4 Ho eq_refl)); split_and!; auto; by destruct (at_t s)|].
    rewrite (proj1 H6 eq_refl). auto.
Qed.

(** The thread of a started and joined object, at the end. *)
Lemma thread_start_join_witness : ∃ s0 next s, newThread 4 [] = Ok (s0, next) ∧ name_ s0 = str "Thread5" ∧ rtc (step 321) s0 s
  ∧ at_o s = OJoined ∧ at_t s = TEnd.
Proof.
  destruct (newThread 4 []) as [[s0 next]|] eqn:E; [|discriminate E].
  assert (Hr : ∃ s, rtc (step 321) s0 s ∧ at_o s = OJoined).
  { injection E as <- <-. eexists. split.
    - run_step ltac:(split; [done|left; eapply o_start; reflexivity]).
      run_step ltac:(split; [done|right; apply t_tid; reflexivity]).
      run_step ltac:(split; [done|right; eapply t_latch; reflexivity]).
      run_step ltac:(split; [done|left; apply o_wait; reflexivity]).
      run_step ltac:(split; [done|left; apply o_test; reflexivity]).
      run_step ltac:(split; [done|left; eapply o_return; reflexivity]).
      run_step ltac:(split; [done|left; eapply o_join; reflexivity]).
      run_step ltac:(split; [done|right; apply t_name; reflexivity]).
      run_step ltac:(split; [done|right; apply (t_func 321 _ false); reflexivity]).
      run_step ltac:(split; [done|left; apply o_joined; reflexivity]). apply rtc_refl.
    - reflexivity. }
  destruct Hr as (s & Hr & Ho). exists s0, next, s.
  destruct (thread_start_join 321 4 [] s0 next s ltac:(reflexivity) E Hr) as (_ & _ & _ & _ & Hj & _).
  split; [reflexivity|]. split; [by injection E as <- <-|]. split; [exact Hr|]. split; [exact Ho|exact (Hj Ho)].
Defined.
