(* ===== verification/ProcessInfo.v ===== *)
(** * Process information (fishnet/base/process_info.h, process_info.cc)

    What the functions extract from the texts and the directories of /proc and
    from the answers of system calls, both of which are parameters. *)

From S2P Require Import Prelude Printf Double StringPiece.
Local Open Scope Z_scope.

(** ** Strings *)

(** [string::find] and [string::rfind] of a character. *)
Fixpoint find_char (c : ascii) (s : bytes) : option nat :=
  match s with [] => None | x :: s => if bool_decide (x = c) then Some O else S <$> find_char c s end.
Fixpoint rfind_char (c : ascii) (s : bytes) : option nat :=
  match s with
  | [] => None
  | x :: s => match rfind_char c s with Some i => Some (S i) | None => if bool_decide (x = c) then Some O else None end
  end.
(** [string::find] of a string. *)
Fixpoint find_str (t s : bytes) : option nat :=
  if bool_decide (t `prefix_of` s) then Some O
  else match s with [] => None | _ :: s => S <$> find_str t s end.

Definition isspace (c : ascii) : bool := (byteZ c =? 32) || ((9 <=? byteZ c) && (byteZ c <=? 13)).
Fixpoint skip_space (s : bytes) : bytes := match s with c :: s' => if isspace c then skip_space s' else s | [] => [] end.
(** [atoi]: white space, a sign and digits; a number that no [int] holds is an error. *)
Definition atoi (s : bytes) : res Z :=
  let s := skip_space (c_str s) in
  match s with
  | c :: r => if bool_decide (c = "-"%char) then i32 (- digits_value (span_digits r).1)
              else if bool_decide (c = "+"%char) then i32 (digits_value (span_digits r).1)
              else i32 (digits_value (span_digits s).1)
  | [] => Ok 0
  end.

(** ** Operations *)

Definition pidString (pid : Z) : bytes := snprintf 32 (dec pid).
(** [pw_name]: the name [getpwuid_r] found. *)
Definition username (pw_name : option bytes) : bytes := match pw_name with Some n => c_str n | None => str "unknownuser" end.
(** [buf]: the array [gethostname] filled, when it succeeded. *)
Definition hostname (buf : option bytes) : bytes :=
  match buf with Some b => c_str (<[255%nat := Ascii.zero]> b) | None => str "unknownhost" end.

Definition procname (stat : bytes) : StringPiece :=
  let name := newStringPiece in
  match find_char "("%char stat, rfind_char ")"%char stat with
  | Some lp, Some rp =>
      if (lp <? rp)%nat then set (drop (S lp) stat) (s32 (Z.of_nat rp - Z.of_nat lp - 1)) name else name
  | _, _ => name
  end.

(** [n] and [buf]: what [readlink] returned and wrote. *)
Definition exePath (n : Z) (buf : bytes) : bytes := if 0 <? n then take (Z.to_nat n) buf else [].
Definition threadStatPath (tid : Z) : bytes := snprintf 64 (str "/proc/self/task/" ++ dec tid ++ str "/stat").

(** The filters of [scanDir], called for every entry of the directory. *)
Definition digit_entry (d_name : bytes) : bool := match d_name with c :: _ => is_digit c | [] => false end.
Definition fdDirFilter (d_name : bytes) (t_numOpenedFiles : Z) : res Z :=
  if digit_entry d_name then i32 (t_numOpenedFiles + 1) else Ok t_numOpenedFiles.
Definition taskDirFilter (d_name : bytes) (t_pids : list Z) : res (list Z) :=
  if digit_entry d_name then p ← atoi d_name; Ok (t_pids ++ [p]) else Ok t_pids.
Fixpoint scanDir {A} (filter : bytes → A → res A) (dir : list bytes) (a : A) : res A :=
  match dir with [] => Ok a | d :: dir => a ← filter d a; scanDir filter dir a end.

Definition openedFiles (fd_dir : list bytes) : res Z := scanDir fdDirFilter fd_dir 0.
(** [rlim_cur]: the soft limit, when [getrlimit] succeeded. *)
Definition maxOpenFiles (rlim_cur : option Z) (fd_dir : list bytes) : res Z :=
  match rlim_cur with Some n => Ok (s32 n) | None => openedFiles fd_dir end.

Record CpuTime := mkCpuTime { userSeconds : double; systemSeconds : double }.
Definition cpuTime (times : option (Z * Z)) (clockTicksPerSecond : Z) : CpuTime :=
  match times with
  | Some (tms_utime, tms_stime) =>
      let hz := double_of_Z clockTicksPerSecond in
      mkCpuTime (ddiv (double_of_Z tms_utime) hz) (ddiv (double_of_Z tms_stime) hz)
  | None => mkCpuTime (double_of_Z 0) (double_of_Z 0)
  end.

Definition numThreads (status : bytes) : res Z :=
  match find_str (str "Threads:") status with
  | Some pos => atoi (drop (pos + 8) status)
  | None => Ok 0
  end.

Definition threads (task_dir : list bytes) : res (list Z) :=
  result ← scanDir taskDirFilter task_dir []; Ok (merge_sort Z.le result).

(** ** Searching *)

Lemma find_char_app c s t : c ∉ s → find_char c (s ++ c :: t) = Some (length s).
Proof.
  induction s as [|x s IH]; simpl; intros Hn; [by rewrite bool_decide_eq_true_2|].
  apply not_elem_of_cons in Hn as [Hx Hn]. rewrite bool_decide_eq_false_2 by congruence. by rewrite IH.
Qed.
Lemma rfind_char_none c s : c ∉ s → rfind_char c s = None.
Proof.
  induction s as [|x s IH]; simpl; intros Hn; [done|]. apply not_elem_of_cons in Hn as [Hx Hn].
  rewrite IH by done. by rewrite bool_decide_eq_false_2 by congruence.
Qed.
Lemma rfind_char_app c s t : c ∉ t → rfind_char c (s ++ c :: t) = Some (length s).
Proof.
  intros Hn. induction s as [|x s IH]; simpl; [|by rewrite IH].
  rewrite rfind_char_none by done. by rewrite bool_decide_eq_true_2.
Qed.
(** The first occurrence: no proper prefix of the text before it and [t] has one. *)
Lemma find_str_app t s r : (∀ i, (i < length s)%nat → ¬ t `prefix_of` drop i (s ++ t ++ r)) →
  find_str t (s ++ t ++ r) = Some (length s).
Proof.
  induction s as [|x s IH]; intros Hn.
  - assert (Hp : t `prefix_of` t ++ r) by (by apply prefix_app_r). cbn [app length].
    destruct (t ++ r); simpl; by rewrite bool_decide_eq_true_2.
  - pose proof (Hn 0%nat ltac:(simpl; lia)) as H0. simpl in H0. cbn [app find_str]. rewrite bool_decide_eq_false_2 by done.
    rewrite IH; [done|]. intros i Hi. apply (Hn (S i)). simpl. lia.
Qed.

(** ** Numbers *)

Lemma is_digit_value c : is_Some (digit_value c) → is_digit c = true.
Proof. unfold digit_value, is_digit. destruct (_ && _); [done|]. by intros [? ?]. Qed.
Lemma atoi_span d r : Forall (λ c, is_Some (digit_value c)) d → (∀ c t, r = c :: t → is_digit c = false) →
  span_digits (d ++ r) = (d, r).
Proof.
  intros Hd Hr. induction Hd as [|c d Hc _ IH]; simpl.
  - destruct r as [|c t]; [done|]. simpl. by rewrite (Hr c t eq_refl).
  - by rewrite (is_digit_value c Hc), IH.
Qed.
Lemma digit_text c : is_digit c = true → c ≠ Ascii.zero ∧ isspace c = false ∧ c ≠ "-"%char ∧ c ≠ "+"%char.
Proof.
  intros Hc. split_and!; try (by intros ->; vm_compute in Hc). unfold is_digit, isspace in *. lia.
Qed.

Lemma c_str_app s t : Forall (λ c, c ≠ Ascii.zero) s → c_str (s ++ t) = s ++ c_str t.
Proof. induction 1 as [|c s Hc _ IH]; [done|]. simpl. by rewrite bool_decide_eq_false_2, IH. Qed.
Lemma c_str_head r : (∀ c t, r = c :: t → is_digit c = false) → ∀ c t, c_str r = c :: t → is_digit c = false.
Proof. intros Hr c t. destruct r as [|x r]; [done|]. simpl. case_bool_decide; [done|]. intros [= -> _]. by eapply Hr. Qed.
Lemma skip_space_app w s : Forall (λ c, isspace c = true) w → (∀ c t, s = c :: t → isspace c = false) →
  skip_space (w ++ s) = s.
Proof.
  intros Hw Hs. induction Hw as [|c w Hc _ IH]; simpl; [|by rewrite Hc].
  destruct s as [|c t]; [done|]. simpl. by rewrite (Hs c t eq_refl).
Qed.

(** [atoi] of a number in decimal, after white space and before anything else. *)
Lemma atoi_dec w n r : Forall (λ c, isspace c = true) w → 0 <= n < 2 ^ 31 → (∀ c t, r = c :: t → is_digit c = false) →
  atoi (w ++ dec n ++ r) = Ok n.
Proof.
  intros Hw Hn Hr. unfold atoi. unfold dec. rewrite (proj2 (Z.ltb_ge n 0)) by lia.
  pose proof (dec_nonneg_isdigit n) as Hd. pose proof (dec_nonneg_not_nil n) as Hne.
  pose proof (read_dec_nonneg n ltac:(lia)) as Hrd.
  rewrite !c_str_app.
  - destruct (dec_nonneg n) as [|c d] eqn:E; [done|]. pose proof (Forall_inv Hd) as Hc%is_digit_value.
    destruct (digit_text c Hc) as (_ & Hsp & Hm & Hp).
    rewrite skip_space_app; [|done|by intros x t [= <- _]]. cbn [app]. rewrite !bool_decide_eq_false_2 by done.
    change (c :: d ++ c_str r) with ((c :: d) ++ c_str r). rewrite atoi_span; [|done|by apply c_str_head].
    unfold digits_value. cbn [fst]. rewrite Hrd. cbn [default]. apply i32_ok. lia.
  - eapply Forall_impl; [exact Hd|]. intros c Hc%is_digit_value. by apply digit_text.
  - eapply Forall_impl; [exact Hw|]. by intros c Hc ->.
Qed.

(** ** Directories *)

Lemma scan_tasks dir ids acc : Forall2 (λ d n, d = dec n ∧ 0 <= n < 2 ^ 31) dir ids →
  scanDir taskDirFilter dir acc = Ok (acc ++ ids).
Proof.
  intros Hd. revert acc. induction Hd as [|d n dir ids [-> Hn] _ IH]; intros acc; simpl; [by rewrite app_nil_r|].
  assert (E : taskDirFilter (dec n) acc = Ok (acc ++ [n])).
  { unfold taskDirFilter. pose proof (atoi_dec [] n [] ltac:(constructor) Hn ltac:(done)) as Ha. cbn [app] in Ha. rewrite app_nil_r in Ha.
    rewrite Ha. replace (digit_entry (dec n)) with true; [done|]. unfold dec. rewrite (proj2 (Z.ltb_ge n 0)) by lia.
    pose proof (dec_nonneg_isdigit n) as Hd'. pose proof (dec_nonneg_not_nil n). destruct (dec_nonneg n) as [|c s]; [done|].
    symmetry. by apply is_digit_value, (Forall_inv Hd'). }
  rewrite E. cbn [mbind res_bind]. by rewrite IH, <-app_assoc.
Qed.

(** Entries such as "." and ".." are passed over. *)
Lemma scan_other dir acc : Forall (λ d, digit_entry d = false) dir → scanDir taskDirFilter dir acc = Ok acc.
Proof.
  intros Hd. induction Hd as [|d dir Hd _ IH]; [done|]. cbn [scanDir].
  assert (taskDirFilter d acc = Ok acc) as -> by (unfold taskDirFilter; by rewrite Hd). done.
Qed.
Lemma scan_app {A} (f : bytes → A → res A) d e a : scanDir f (d ++ e) a = (b ← scanDir f d a; scanDir f e b).
Proof. revert a. induction d as [|x d IH]; intros a; [done|]. simpl. destruct (f x a); simpl; [apply IH|done]. Qed.

(** ** Properties *)

(** Of a stat text, whose second field is the name of the command between
    parentheses, [procname] gives that name, whatever parentheses the name itself
    contains; of a status text [numThreads] gives the number after the first
    "Threads:"; of the task directory [threads] gives the ids in increasing order. *)
Theorem process_info_exact pid comm rest pre n post other dir ids :
  "("%char ∉ pid → ")"%char ∉ rest → zlen (pid ++ "("%char :: comm ++ ")"%char :: rest) < 2 ^ 31 →
  (∀ i, (i < length pre)%nat → ¬ str "Threads:" `prefix_of` drop i (pre ++ str "Threads:" ++ [Zbyte 9] ++ dec n ++ Zbyte 10 :: post)) →
  0 <= n < 2 ^ 31 →
  Forall (λ d, digit_entry d = false) other → Forall2 (λ d i, d = dec i ∧ 0 <= i < 2 ^ 31) dir ids →
  toString (procname (pid ++ "("%char :: comm ++ ")"%char :: rest)) = Ok comm
  ∧ numThreads (pre ++ str "Threads:" ++ [Zbyte 9] ++ dec n ++ Zbyte 10 :: post) = Ok n
  ∧ ∃ l, threads (other ++ dir) = Ok l ∧ l ≡ₚ ids ∧ Sorted Z.le l.
Proof.
  intros Hpid Hrest Hlen Hpre Hn Ho Hd. split_and!.
  - unfold procname. rewrite find_char_app by done.
    replace (pid ++ "("%char :: comm ++ ")"%char :: rest) with ((pid ++ "("%char :: comm) ++ ")"%char :: rest)
      by (rewrite <-app_assoc; done).
    rewrite rfind_char_app by done. rewrite length_app. cbn [length].
    rewrite (proj2 (Nat.ltb_lt _ _)) by lia. rewrite <-app_assoc. cbn [app]. unfold set.
    rewrite zlen_app, zlen_cons, zlen_app, zlen_cons in Hlen. unfold zlen in Hlen.
    rewrite wraps_small by lia.
    rewrite toString_chars.
    + f_equal. unfold chars. cbn [mem length_].
      replace (drop (S (length pid)) (pid ++ "("%char :: comm ++ ")"%char :: rest)) with (comm ++ ")"%char :: rest).
      * rewrite take_app_le by lia. apply take_ge. lia.
      * change (S (length pid)) with (1 + length pid)%nat. rewrite Nat.add_comm, <-drop_drop, drop_app_length. done.
    + split; cbn [mem length_]; [|lia]. unfold zlen. rewrite length_drop, length_app. cbn [length]. rewrite length_app. cbn [length]. lia.
  - unfold numThreads. rewrite find_str_app by done. rewrite <-drop_drop, drop_app_length.
    change 8%nat with (length (str "Threads:")). rewrite drop_app_length.
    apply (atoi_dec [Zbyte 9] n (Zbyte 10 :: post)); [by repeat constructor|done|by intros c t [= <- _]].
  - unfold threads. rewrite scan_app, scan_other by done. cbn [mbind res_bind]. rewrite (scan_tasks dir ids) by done.
    cbn [mbind res_bind app]. eexists. split; [reflexivity|]. split; [apply merge_sort_Permutation|apply Sorted_merge_sort; apply _].
Qed.

Lemma process_info_exact_witness :
  toString (procname (str "7 (a) (b) S 1")) = Ok (str "a) (b")
  ∧ numThreads (str "Name: a" ++ str "Threads:" ++ [Zbyte 9] ++ dec 3 ++ [Zbyte 10]) = Ok 3
  ∧ ∃ l, threads [str "."; str ".."; str "12"; str "7"] = Ok l ∧ l ≡ₚ [12; 7] ∧ Sorted Z.le l.
Proof.
  destruct (process_info_exact (str "7 ") (str "a) (b") (str " S 1") (str "Name: a") 3 [] [str "."; str ".."]
    [str "12"; str "7"] [12; 7]) as (H1 & H2 & H3).
  - vm_compute. intros H. repeat (apply elem_of_cons in H as [H|H]; [discriminate H|]). by apply not_elem_of_nil in H.
  - vm_compute. intros H. repeat (apply elem_of_cons in H as [H|H]; [discriminate H|]). by apply not_elem_of_nil in H.
  - reflexivity.
  - intros i Hi [t Ht]. do 7 (destruct i as [|i]; [discriminate Ht|]). simpl in Hi. lia.
  - lia.
  - repeat constructor.
  - repeat constructor; vm_compute; discriminate.
  - split; [exact H1|]. split; [exact H2|exact H3].
Defined.

(** A process that is itself called "Threads:k" is reported to have k threads, since
    the status text starts with the name. *)
Theorem numThreads_spoofed k rest : 0 <= k < 2 ^ 31 →
  numThreads (str "Name:" ++ [Zbyte 9] ++ str "Threads:" ++ dec k ++ Zbyte 10 :: rest) = Ok k.
Proof.
  intros Hk. unfold numThreads.
  change (str "Name:" ++ [Zbyte 9] ++ str "Threads:" ++ dec k ++ Zbyte 10 :: rest)
    with ((str "Name:" ++ [Zbyte 9]) ++ str "Threads:" ++ dec k ++ Zbyte 10 :: rest).
  rewrite find_str_app.
  - rewrite <-drop_drop, drop_app_length. change 8%nat with (length (str "Threads:")). rewrite drop_app_length.
    apply (atoi_dec [] k (Zbyte 10 :: rest)); [constructor|done|by intros c t [= <- _]].
  - intros i Hi [t Ht]. do 6 (destruct i as [|i]; [discriminate Ht|]). simpl in Hi. lia.
Qed.
