(* ===== verification/ThreadLocal.v ===== *)
(** * Singletons and thread-local objects (fishnet/base/singleton.h, thread_local.h,
    thread_local_singleton.h)

    [Singleton] under every schedule of the threads that ask for it; the two
    classes that give each thread an object of its own, over a heap of objects, with
    threads that end and the key that is deleted; and their equivalence. *)

From S2P Require Import Prelude BlockingQueue.
Local Open Scope Z_scope.

(** ** Singleton *)

Module Singleton.

(** [ponce_]: not run, being run by a thread, run. *)
Inductive once : Set := OnceInit | OnceBusy | OnceDone.

(** A thread: outside [instance()]; in [pthread_once]; in [init()] before and after
    the object is made; past [pthread_once]; returned with an object. *)
Inductive pc : Set := Idle | InOnce | Making | Made | Past | Got (p : Z).

(** [created] counts the objects made, the last one being the [created]-th;
    [handlers] the calls of [atexit]. *)
Record State := mkState { ponce_ : once; value_ : option Z; created : Z; handlers : nat; threads : list pc }.

Definition newState (n : nat) : State := mkState OnceInit None 0 0 (replicate n Idle).

Definition at_t (i : nat) (q : pc) (s : State) : State :=
  mkState (ponce_ s) (value_ s) (created s) (handlers s) (<[i := q]> (threads s)).
Definition set_once (o : once) (s : State) : State := mkState o (value_ s) (created s) (handlers s) (threads s).

Section once_init.
(** [has_no_destory<T>::value] *)
Context (no_destory : bool).

(** [init()]: the object, then the handler. *)
Definition init_new (s : State) : State := mkState (ponce_ s) (Some (created s + 1)) (created s + 1) (handlers s) (threads s).
Definition init_exit (s : State) : State :=
  mkState (ponce_ s) (value_ s) (created s) (if negb no_destory then S (handlers s) else handlers s) (threads s).

(** The end of [instance()]. *)
Definition instance (s : State) : res Z :=
  assertb (bool_decide (is_Some (value_ s)));; match value_ s with Some p => Ok p | None => Err OutOfBounds end.

(** [destroy()], as [exit] calls it once per handler. *)
Definition destroy (s : State) : State := mkState (ponce_ s) None (created s) (pred (handlers s)) (threads s).

(** [pthread_once] lets one thread into [init()] and holds the others until it is done. *)
Inductive step (s : State) : State → Prop :=
| s_call i : threads s !! i = Some Idle → step s (at_t i InOnce s)
| s_first i : threads s !! i = Some InOnce → ponce_ s = OnceInit → step s (at_t i Making (set_once OnceBusy s))
| s_new i : threads s !! i = Some Making → step s (at_t i Made (init_new s))
| s_exit i : threads s !! i = Some Made → step s (at_t i Past (set_once OnceDone (init_exit s)))
| s_pass i : threads s !! i = Some InOnce → ponce_ s = OnceDone → step s (at_t i Past s)
| s_return i p : threads s !! i = Some Past → instance s = Ok p → step s (at_t i (Got p) s).
End once_init.

Definition in_init (q : pc) : bool := match q with Making | Made => true | _ => false end.
Definition is_making (q : pc) : bool := match q with Making => true | _ => false end.
Definition past (q : pc) : bool := match q with Past | Got _ => true | _ => false end.

Definition inv (s : State) : Prop :=
  (∀ i p, threads s !! i = Some (Got p) → p = 1)
  ∧ match ponce_ s with
    | OnceInit => cnt in_init (threads s) = 0%nat ∧ cnt past (threads s) = 0%nat ∧ created s = 0
    | OnceBusy => cnt in_init (threads s) = 1%nat ∧ cnt past (threads s) = 0%nat
        ∧ if decide (cnt is_making (threads s) = 0%nat) then created s = 1 ∧ value_ s = Some 1 else created s = 0
    | OnceDone => cnt in_init (threads s) = 0%nat ∧ created s = 1 ∧ value_ s = Some 1
    end.

Lemma counts_set l i a b : l !! i = Some a →
  let d P := (cnt P (<[i := b]> l) + bit (P a) = cnt P l + bit (P b))%nat in d in_init ∧ d is_making ∧ d past.
Proof. intros Hi d. split_and!; by apply cnt_insert. Qed.

Lemma making_le l : (cnt is_making l <= cnt in_init l)%nat.
Proof. induction l as [|q l IH]; [done|]. unfold cnt in *. rewrite !filter_cons. destruct q; simpl; lia. Qed.

Lemma cnt_some (P : pc → bool) l i a : l !! i = Some a → P a = true → (1 <= cnt P l)%nat.
Proof. intros Hi Ha. destruct (cnt P l) eqn:E; [|lia]. rewrite cnt_zero in E. by rewrite (E i a Hi) in Ha. Qed.
Lemma cnt_pos (P : pc → bool) l : (1 <= cnt P l)%nat → ∃ i a, l !! i = Some a ∧ P a = true.
Proof.
  induction l as [|a l IH]; [intros Hl; cbn in Hl; lia|]. unfold cnt in *. rewrite filter_cons. destruct (P a) eqn:E.
  - intros _. by exists 0%nat, a.
  - simpl. intros (i & b & ? & ?)%IH. by exists (S i), b.
Qed.

Lemma singleton_inv_step nd s s' : inv s → step nd s s' → inv s'.
Proof.
  intros [Hg Hi] Hs.
  assert (Hgot : ∀ i q (l : list pc), (∀ p, q = Got p → p = 1) → (∀ j p, l !! j = Some (Got p) → p = 1) →
    ∀ j p, <[i := q]> l !! j = Some (Got p) → p = 1).
  { intros i q l Hq Hl j p [[-> [E _]]|[_ ?]]%list_lookup_insert_Some; eauto. }
  pose proof (making_le (threads s)) as Hle.
  destruct Hs as [i Ht|i Ht Ho|i Ht|i Ht|i Ht Ho|i p Ht Hp];
    match goal with |- inv (at_t _ ?q _) => destruct (counts_set (threads s) i _ q Ht) as (C1 & C2 & C3);
      pose proof (making_le (<[i := q]> (threads s))) as Hle' end;
    cbv zeta in *; simpl in C1, C2, C3; (split; [simpl; apply Hgot; [|exact Hg]; intros ?; try done|]); simpl.
  - destruct (ponce_ s); repeat case_decide; destruct_and?; split_and!; try done; lia.
  - rewrite Ho in Hi. destruct Hi as (? & ? & ?). split_and!; [lia..|]. case_decide; [lia|done].
  - destruct (ponce_ s) eqn:Ho; [lia| |lia]. repeat case_decide; destruct_and?; split_and!; try lia. f_equal. lia.
  - destruct (ponce_ s) eqn:Ho; [lia| |lia]. repeat case_decide; destruct_and?; [|lia]. split_and!; [lia|done..].
  - rewrite Ho in Hi |- *. destruct Hi as (? & ? & ?). split_and!; [lia|done..].
  - intros [= <-]. unfold instance in Hp. pose proof (cnt_some past _ _ _ Ht eq_refl). destruct (ponce_ s) eqn:Ho; [lia|lia|]. destruct Hi as (_ & _ & E). rewrite E in Hp. by injection Hp.
  - destruct (ponce_ s); repeat case_decide; destruct_and?; split_and!; try done; lia.
Qed.

Lemma singleton_inv_new n : inv (newState n).
Proof.
  assert (E : ∀ P : pc → bool, P Idle = false → cnt P (replicate n Idle) = 0%nat).
  { intros P HP. apply cnt_zero. by intros i a [-> _]%lookup_replicate. }
  split; simpl; [by intros i p [E' _]%lookup_replicate|]. by rewrite !E.
Qed.

Lemma singleton_inv_run nd n s : rtc (step nd) (newState n) s → inv s.
Proof. intros Hr. pose proof (singleton_inv_new n) as Hi. induction Hr as [|x y z Hxy _ IH]; [done|]. by eapply IH, singleton_inv_step. Qed.

(** C39: however many threads ask for the singleton and however they interleave,
    one object is made; the assertion holds and every call returns that object; and
    no call is stuck: while a thread is inside [instance()] one of them can move. *)
Theorem singleton_once nd n s : rtc (step nd) (newState n) s →
  0 <= created s <= 1
  ∧ (∀ i p, threads s !! i = Some (Got p) → p = 1 ∧ value_ s = Some 1)
  ∧ (∀ i, threads s !! i = Some Past → instance s = Ok 1)
  ∧ ((∃ i q, threads s !! i = Some q ∧ q ≠ Idle ∧ ∀ p, q ≠ Got p) → ∃ i q s', threads s !! i = Some q ∧ q ≠ Idle ∧ step nd s s').
Proof.
  intros Hr. pose proof (singleton_inv_run nd n s Hr) as [Hg Hi].
  assert (Hp : ∀ i q, threads s !! i = Some q → past q = true → ponce_ s = OnceDone ∧ value_ s = Some 1).
  { intros i q Ht Hq. pose proof (cnt_some past _ _ _ Ht Hq).
    destruct (ponce_ s); destruct_and?; [lia|lia|done]. }
  split_and!.
  - destruct (ponce_ s); repeat case_decide; lia.
  - destruct (ponce_ s); repeat case_decide; lia.
  - intros i p Ht. split; [by eapply Hg|by eapply Hp].
  - intros i Ht. destruct (Hp i Past Ht eq_refl) as [_ E]. unfold instance. by rewrite E.
  - intros (i & q & Ht & Hq & Hn). destruct q as [| | | | |p]; [done|..|by destruct (Hn p)].
    + destruct (ponce_ s) eqn:Eo; [eexists i, _, _; split_and!; [done..|by apply s_first]| |eexists i, _, _; split_and!; [done..|by apply s_pass]].
      destruct Hi as (Hc & _). destruct (cnt_pos in_init (threads s) ltac:(lia)) as (j & r & Hj & Hr'); destruct r; try done;
        eexists j, _, _; (split_and!; [done..|]); [by apply s_new|by apply s_exit].
    + eexists i, _, _. split_and!; [done..|by apply s_new].
    + eexists i, _, _. split_and!; [done..|by apply s_exit].
    + eexists i, _, _. split_and!; [done..|]. eapply (s_return _ _ i 1); [done|]. destruct (Hp i Past Ht eq_refl) as [_ E].
      unfold instance. by rewrite E.
Qed.

(** Two threads meet in [pthread_once]; the second gets the object the first made. *)
Lemma singleton_once_witness : ∃ s, rtc (step false) (newState 2) s ∧ threads s = [Past; Got 1] ∧ handlers s = 1%nat
  ∧ 0 <= created s <= 1 ∧ instance s = Ok 1.
Proof.
  assert (Hr : ∃ s, rtc (step false) (newState 2) s ∧ threads s = [Past; Got 1] ∧ handlers s = 1%nat).
  { eexists. split.
    - run_step ltac:(apply (s_call _ _ 0); reflexivity). run_step ltac:(apply (s_call _ _ 1); reflexivity).
      run_step ltac:(apply (s_first _ _ 0); reflexivity). run_step ltac:(apply (s_new _ _ 0); reflexivity).
      run_step ltac:(apply (s_exit _ _ 0); reflexivity). run_step ltac:(apply (s_pass _ _ 1); reflexivity).
      run_step ltac:(apply (s_return _ _ 1 1); reflexivity). apply rtc_refl.
    - split; reflexivity. }
  destruct Hr as (s & Hr & Ht & Hh). exists s. destruct (singleton_once false 2 s Hr) as (Hc & _ & Hp & _).
  split; [exact Hr|]. split; [exact Ht|]. split; [exact Hh|]. split; [exact Hc|]. apply (Hp 0%nat). rewrite Ht. reflexivity.
Defined.

(** After [exit] ran the handler the object is gone for good: [pthread_once] does
    not run [init()] again, and every later call fails its assertion. *)
Theorem instance_after_exit nd n s : rtc (step nd) (newState n) s → ponce_ s = OnceDone →
  ponce_ (destroy s) = OnceDone ∧ instance (destroy s) = Err AssertFailed.
Proof. by intros _ Ho. Qed.
End Singleton.

(** ** An object per thread

    Objects are numbers; [live] is the heap. A failure of a [pthread] call or the use
    of a deleted key is an error. *)

Record Heap := mkHeap { live : gset Z; next : Z }.
Definition new_object (h : Heap) : Z * Heap := (next h, mkHeap ({[next h]} ∪ live h) (next h + 1)).
Definition delete_object (p : Z) (h : Heap) : res Heap :=
  guard_or OutOfBounds (bool_decide (p ∈ live h));; Ok (mkHeap (live h ∖ {[p]}) (next h)).

Module ThreadLocal.

(** [slots]: what [pthread_getspecific] finds in each thread, if not null. *)
Record ThreadLocal := mkTL { pkey_ : bool; slots : gmap Z Z; heap : Heap }.

Definition newThreadLocal (h : Heap) : ThreadLocal := mkTL true ∅ h.

Definition value (t : Z) (s : ThreadLocal) : res (Z * ThreadLocal) :=
  guard_or OutOfBounds (pkey_ s);;
  match slots s !! t with
  | Some p => Ok (p, s)
  | None => let '(p, h) := new_object (heap s) in Ok (p, mkTL (pkey_ s) (<[t := p]> (slots s)) h)
  end.

(** The end of a thread: its value, if not null and the key lives, goes to [destructor]. *)
Definition thread_exit (t : Z) (s : ThreadLocal) : res ThreadLocal :=
  match slots s !! t with
  | Some p => if pkey_ s then h ← delete_object p (heap s); Ok (mkTL (pkey_ s) (delete t (slots s)) h) else Ok s
  | None => Ok s
  end.

(** [~ThreadLocal]: [pthread_key_delete], which calls no destructor. *)
Definition dtor (s : ThreadLocal) : ThreadLocal := mkTL false (slots s) (heap s).

Inductive op : Set := Value (t : Z) | Exit (t : Z).
Definition exec (s : ThreadLocal) (o : op) : res (option Z * ThreadLocal) :=
  match o with
  | Value t => '(p, s) ← value t s; Ok (Some p, s)
  | Exit t => s ← thread_exit t s; Ok (None, s)
  end.

(** The results of the calls, and the state after them. *)
Fixpoint execs (s : ThreadLocal) (l : list op) : res (list (option Z) * ThreadLocal) :=
  match l with
  | [] => Ok ([], s)
  | o :: l => '(r, s) ← exec s o; '(rs, s) ← execs s l; Ok (r :: rs, s)
  end.

(** The objects of the heap beside [base] are those of the threads, each of one. *)
Record ok (base : gset Z) (s : ThreadLocal) : Prop := {
  t_key : pkey_ s = true;
  t_live : ∀ p, p ∈ live (heap s) ↔ p ∈ base ∨ ∃ t, slots s !! t = Some p;
  t_one : ∀ t u p, slots s !! t = Some p → slots s !! u = Some p → t = u;
  t_base : ∀ t p, slots s !! t = Some p → p ∉ base;
  t_next : ∀ p, p ∈ live (heap s) → p < next (heap s) }.

Lemma value_ok base t s : ok base s → ∃ p s', value t s = Ok (p, s') ∧ ok base s' ∧ slots s' !! t = Some p
  ∧ ∀ u q, slots s !! u = Some q → slots s' !! u = Some q.
Proof.
  intros [T1 T2 T3 T4 T5]. unfold value. rewrite T1. simpl. destruct (slots s !! t) as [p|] eqn:E; [by exists p, s|].
  eexists _, _. split; [reflexivity|]. assert (Hn : next (heap s) ∉ live (heap s)) by (intros H; apply T5 in H; lia).
  split; [|split; [simpl; by rewrite lookup_insert_eq|intros u q Hu; simpl; rewrite lookup_insert_ne; [done|congruence]]].
  split; simpl; [done|..].
  - intros p. rewrite elem_of_union, elem_of_singleton, T2. split.
    + intros [->|[?|[u Hu]]]; [right; exists t; by rewrite lookup_insert_eq|by left|]. right. exists u.
      rewrite lookup_insert_ne; [done|congruence].
    + intros [?|[u [[_ <-]|[_ Hu]]%lookup_insert_Some]]; eauto.
  - intros u v p [[<- <-]|[_ Hu]]%lookup_insert_Some [[<- Hp]|[_ Hv]]%lookup_insert_Some; [done|..|by eapply T3];
      exfalso; apply Hn, T2; right; [by exists v|exists u; congruence].
  - intros u p [[<- <-]|[_ Hu]]%lookup_insert_Some; [|by eapply T4]. intros Hb. apply Hn, T2. by left.
  - intros p [->%elem_of_singleton|Hp]%elem_of_union; [lia|]. apply T5 in Hp. lia.
Qed.

Lemma exit_ok base t s : ok base s → ∃ s', thread_exit t s = Ok s' ∧ ok base s' ∧ slots s' !! t = None
  ∧ ∀ u, u ≠ t → slots s' !! u = slots s !! u.
Proof.
  intros [T1 T2 T3 T4 T5]. unfold thread_exit. destruct (slots s !! t) as [p|] eqn:E; [|by exists s].
  rewrite T1. unfold delete_object. rewrite guard_or_true by (apply bool_decide_eq_true, T2; eauto). simpl.
  eexists. split; [reflexivity|]. split; [|simpl; split; [apply lookup_delete_eq|intros u Hu; by rewrite lookup_delete_ne]].
  split; simpl; [done|..].
  - intros q. rewrite elem_of_difference, elem_of_singleton, T2. split.
    + intros [[?|[u Hu]] Hne]; [by left|right]. exists u. rewrite lookup_delete_ne; [done|congruence].
    + intros [Hb|[u [Hne Hu]%lookup_delete_Some]]; (split; [eauto|]); intros ->; [by eapply T4|]. by apply Hne, (T3 t u p).
  - intros u v q [_ Hu]%lookup_delete_Some [_ Hv]%lookup_delete_Some. by eapply T3.
  - intros u q [_ Hu]%lookup_delete_Some. by eapply T4.
  - intros q [Hq _]%elem_of_difference. by apply T5.
Qed.

Lemma execs_ok base s l : ok base s → ∃ rs s', execs s l = Ok (rs, s') ∧ ok base s'.
Proof.
  revert s. induction l as [|[t|t] l IH]; intros s Hs; cbn [execs exec]; [eauto|..].
  - destruct (value_ok base t s Hs) as (p & s1 & -> & H1 & _). cbn [mbind res_bind].
    destruct (IH s1 H1) as (rs & s2 & -> & H2). cbn [mbind res_bind]. eauto.
  - destruct (exit_ok base t s Hs) as (s1 & -> & H1 & _). cbn [mbind res_bind].
    destruct (IH s1 H1) as (rs & s2 & -> & H2). cbn [mbind res_bind]. eauto.
Qed.

Lemma ok_new h : (∀ p, p ∈ live h → p < next h) → ok (live h) (newThreadLocal h).
Proof. intros Hn. split; simpl; try done. intros p. split; [by left|]. intros [?|[t Ht]]; [done|by rewrite lookup_empty in Ht]. Qed.
End ThreadLocal.

Module ThreadLocalSingleton.
Import ThreadLocal.

(** [t_value_] of each thread and what the key of [deleter_] holds there. *)
Record Singletons := mkTS { t_value_ : gmap Z Z; slots : gmap Z Z; heap : Heap }.

Definition newSingletons (h : Heap) : Singletons := mkTS ∅ ∅ h.

(** [Deleter::set] *)
Definition set (t p : Z) (s : Singletons) : res Singletons :=
  assertb (bool_decide (slots s !! t = None));; Ok (mkTS (t_value_ s) (<[t := p]> (slots s)) (heap s)).

Definition instance (t : Z) (s : Singletons) : res (Z * Singletons) :=
  s ← match t_value_ s !! t with
      | Some _ => Ok s
      | None => let '(p, h) := new_object (heap s) in set t p (mkTS (<[t := p]> (t_value_ s)) (slots s) h)
      end;
  match t_value_ s !! t with Some p => Ok (p, s) | None => Err OutOfBounds end.

Definition pointer (t : Z) (s : Singletons) : option Z := t_value_ s !! t.

(** [destructor], in the thread that ends, which finds its slot cleared. *)
Definition destructor (t obj : Z) (s : Singletons) : res Singletons :=
  assertb (bool_decide (Some obj = t_value_ s !! t));;
  p ← match t_value_ s !! t with Some p => Ok p | None => Err OutOfBounds end;
  h ← delete_object p (heap s);
  Ok (mkTS (delete t (t_value_ s)) (slots s) h).
Definition thread_exit (t : Z) (s : Singletons) : res Singletons :=
  match slots s !! t with
  | Some obj => destructor t obj (mkTS (t_value_ s) (delete t (slots s)) (heap s))
  | None => Ok s
  end.

Definition exec (s : Singletons) (o : op) : res (option Z * Singletons) :=
  match o with
  | Value t => '(p, s) ← instance t s; Ok (Some p, s)
  | Exit t => s ← thread_exit t s; Ok (None, s)
  end.
Fixpoint execs (s : Singletons) (l : list op) : res (list (option Z) * Singletons) :=
  match l with
  | [] => Ok ([], s)
  | o :: l => '(r, s) ← exec s o; '(rs, s) ← execs s l; Ok (r :: rs, s)
  end.

(** The two representations of one state. *)
Definition same (a : ThreadLocal) (b : Singletons) : Prop :=
  t_value_ b = ThreadLocal.slots a ∧ slots b = ThreadLocal.slots a ∧ heap b = ThreadLocal.heap a.

Lemma exec_same base a b o : ok base a → same a b → ∃ r a' b', ThreadLocal.exec a o = Ok (r, a') ∧ exec b o = Ok (r, b')
  ∧ ok base a' ∧ same a' b'.
Proof.
  intros Ha (E1 & E2 & E3). destruct b as [v sl h]. simpl in *. subst v sl h. destruct o as [t|t]; cbn [ThreadLocal.exec exec].
  - destruct (value_ok base t a Ha) as (p & a' & E & Ha' & _). rewrite E. cbn [mbind res_bind]. eexists _, _, _. split; [done|].
    unfold value in E. rewrite (t_key _ _ Ha) in E. cbn [guard_or mbind res_bind] in E. unfold instance. cbn [t_value_].
    destruct (ThreadLocal.slots a !! t) as [q|] eqn:Es.
    + injection E as <- <-. cbn [mbind res_bind t_value_]. rewrite Es. by split.
    + unfold new_object in *. injection E as <- <-. unfold set. cbn [slots t_value_ heap]. rewrite bool_decide_eq_true_2 by done.
      cbn [assertb mbind res_bind t_value_]. rewrite lookup_insert_eq. by split.
  - destruct (exit_ok base t a Ha) as (a' & E & Ha' & _). rewrite E. cbn [mbind res_bind]. eexists _, _, _. split; [done|].
    unfold ThreadLocal.thread_exit in E. unfold thread_exit. cbn [slots t_value_ heap].
    destruct (ThreadLocal.slots a !! t) as [q|] eqn:Es; [|injection E as <-; by split].
    unfold destructor. cbn [t_value_ heap slots]. rewrite Es. rewrite bool_decide_eq_true_2 by done. cbn [assertb mbind res_bind].
    rewrite (t_key _ _ Ha) in E. destruct (delete_object q (ThreadLocal.heap a)) as [h|]; [|done]. cbn [mbind res_bind] in *.
    injection E as <-. by split.
Qed.

Lemma execs_same base a b l : ok base a → same a b → ∃ rs a' b', ThreadLocal.execs a l = Ok (rs, a') ∧ execs b l = Ok (rs, b')
  ∧ ok base a' ∧ same a' b'.
Proof.
  revert a b. induction l as [|o l IH]; intros a b Ha Hs; cbn [ThreadLocal.execs execs]; [by eexists _, _, _|].
  destruct (exec_same base a b o Ha Hs) as (r & a1 & b1 & -> & -> & Ha1 & Hs1). cbn [mbind res_bind].
  destruct (IH a1 b1 Ha1 Hs1) as (rs & a2 & b2 & -> & -> & Ha2 & Hs2). cbn [mbind res_bind]. by eexists _, _, _.
Qed.
End ThreadLocalSingleton.

(** ** Properties *)

(** The calls of a thread without its end among them. *)
Definition stays (t : Z) (l : list ThreadLocal.op) : Prop := ThreadLocal.Exit t ∉ l.

Lemma slot_stays base t p s l rs s' : ThreadLocal.ok base s → ThreadLocal.slots s !! t = Some p → stays t l →
  ThreadLocal.execs s l = Ok (rs, s') → ThreadLocal.slots s' !! t = Some p.
Proof.
  revert s rs. induction l as [|[u|u] l IH]; intros s rs Hs Ht Hl; cbn [ThreadLocal.execs ThreadLocal.exec]; [by intros [= _ <-]|..];
    apply not_elem_of_cons in Hl as [Hne Hl]; intros E.
  - destruct (ThreadLocal.value_ok base u s Hs) as (q & s1 & E1 & H1 & _ & Hk). rewrite E1 in E. cbn [mbind res_bind] in E.
    destruct (ThreadLocal.execs s1 l) as [[rs1 s2]|] eqn:E2; cbn [mbind res_bind] in E; [|done]. injection E as _ <-. eauto.
  - destruct (ThreadLocal.exit_ok base u s Hs) as (s1 & E1 & H1 & _ & Hk). rewrite E1 in E. cbn [mbind res_bind] in E.
    destruct (ThreadLocal.execs s1 l) as [[rs1 s2]|] eqn:E2; cbn [mbind res_bind] in E; [|done]. injection E as _ <-.
    eapply IH; eauto. rewrite Hk; [done|]. congruence.
Qed.

(** C40: an object per thread. Whatever the threads do, the two classes return the
    same objects, no object is freed twice and no assertion fails; the heap holds
    what it held and one object for each thread that asked and still runs; no
    two threads share one; and a thread gets the same one until it ends. *)
Theorem thread_local_exact h l : (∀ p, p ∈ live h → p < next h) →
  ∃ rs s s', ThreadLocal.execs (ThreadLocal.newThreadLocal h) l = Ok (rs, s)
    ∧ ThreadLocalSingleton.execs (ThreadLocalSingleton.newSingletons h) l = Ok (rs, s')
    ∧ (∀ t, ThreadLocalSingleton.pointer t s' = ThreadLocal.slots s !! t)
    ∧ (∀ p, p ∈ live (ThreadLocal.heap s) ↔ p ∈ live h ∨ ∃ t, ThreadLocal.slots s !! t = Some p)
    ∧ (∀ t u p, ThreadLocal.slots s !! t = Some p → ThreadLocal.slots s !! u = Some p → t = u)
    ∧ (∀ t p s1 l2 rs2 s2, ThreadLocal.value t s = Ok (p, s1) → ThreadLocal.execs s1 l2 = Ok (rs2, s2) → stays t l2 →
         ThreadLocal.value t s2 = Ok (p, s2)).
Proof.
  intros Hh. pose proof (ThreadLocal.ok_new h Hh) as Hok.
  destruct (ThreadLocalSingleton.execs_same (live h) (ThreadLocal.newThreadLocal h) (ThreadLocalSingleton.newSingletons h) l Hok)
    as (rs & s & s' & E1 & E2 & Hs & (E3 & E4 & E5)); [by split|].
  exists rs, s, s'. split_and!; try done; [|apply Hs|apply Hs|].
  - intros t. unfold ThreadLocalSingleton.pointer. by rewrite E3.
  - intros t p s1 l2 rs2 s2 Hv He Hst. destruct (ThreadLocal.value_ok (live h) t s Hs) as (q & s0 & E & H0 & Hq & _).
    rewrite Hv in E. injection E as <- <-. destruct (ThreadLocal.execs_ok (live h) s1 l2 H0) as (rs3 & s3 & E & H3).
    rewrite He in E. injection E as <- <-. pose proof (slot_stays _ _ _ _ _ _ _ H0 Hq Hst He) as Hp.
    unfold ThreadLocal.value. by rewrite (ThreadLocal.t_key _ _ H3), Hp.
Qed.

Lemma thread_local_exact_witness : ∃ rs s,
  ThreadLocal.execs (ThreadLocal.newThreadLocal (mkHeap ∅ 0)) [ThreadLocal.Value 1; ThreadLocal.Value 2; ThreadLocal.Value 1; ThreadLocal.Exit 1; ThreadLocal.Value 1] = Ok (rs, s)
  ∧ rs = [Some 0; Some 1; Some 0; None; Some 2] ∧ ∀ p, p ∈ live (ThreadLocal.heap s) ↔ p ∈ (∅ : gset Z) ∨ ∃ t, ThreadLocal.slots s !! t = Some p.
Proof.
  destruct (thread_local_exact (mkHeap ∅ 0) [ThreadLocal.Value 1; ThreadLocal.Value 2; ThreadLocal.Value 1; ThreadLocal.Exit 1; ThreadLocal.Value 1]
    ltac:(intros p Hp; exfalso; exact (not_elem_of_empty p Hp))) as (rs & s & _ & E & _ & _ & Hl & _).
  exists rs, s. split; [exact E|]. split; [|exact Hl]. vm_compute in E. injection E as <- _. reflexivity.
Defined.

(** [~ThreadLocal] leaks: the objects of the threads that still run stay in the
    heap, and the ends of those threads no longer free them. *)
Theorem thread_local_dtor_leaks h l rs s t p : (∀ p, p ∈ live h → p < next h) →
  ThreadLocal.execs (ThreadLocal.newThreadLocal h) l = Ok (rs, s) → ThreadLocal.slots s !! t = Some p →
  ThreadLocal.thread_exit t (ThreadLocal.dtor s) = Ok (ThreadLocal.dtor s) ∧ p ∈ live (ThreadLocal.heap (ThreadLocal.dtor s)).
Proof.
  intros Hh E Ht. destruct (ThreadLocal.execs_ok (live h) _ l (ThreadLocal.ok_new h Hh)) as (rs' & s' & E' & Hs).
  rewrite E in E'. injection E' as <- <-. split; [unfold ThreadLocal.thread_exit; simpl; by rewrite Ht|].
  simpl. apply (ThreadLocal.t_live _ _ Hs). eauto.
Qed.
